(* ===== verification/_CoqProject ===== *)
-Q . S2P
Prelude.v
Errors.v
Args.v
ServerArgs.v
Wire.v
Payloads.v
Crypto.v
Transcript.v
Proofs.v
Proto.v
Handshake.v
AuthExchange.v
ProtoSafety.v
ProtoRules.v
Replay.v
SessionTable.v
Store.v
Registry.v
Server.v
V3Context.v
V3Authz.v
V3.v
Lineage.v
LineageAuth.v
LineagePair.v
Transport.v
Sockets.v
Client.v
Drivers.v
EndToEnd.v
EndToEndAuth.v
Retransmission.v
Programs.v
Hosts.v
Deployment.v
Lifecycle.v
Datagrams.v
