(* ===== verification/Prelude.v ===== *)
(** * A verification development for the C lane of ZK-ARCHE

    ZK-ARCHE enrolls constrained devices with a server and authenticates them with
    zero-knowledge proofs over ristretto255.  This library models the C implementation
    under [src/c] and proves what makes it correct.

    ** The program and its model

    The layers of the program, from below, each with the file that models it:

    - constants, error codes and their strings ([include/auth/auth.h]): [Errors];
    - framing ([src/wire/wire.c]: header, packets, ERROR packet, TLV, HELLO,
      negotiation): [Wire]; the payloads ([src/wire/payloads.c]): [Payloads];
    - cryptography ([src/crypto/crypto.c]: HKDF, HMAC, scalars, points): [Crypto]; the
      transcript ([src/crypto/transcript.c]): [Transcript]; the Schnorr and CDS proofs
      and the key derivation ([src/crypto/proofs.c]): [Proofs];
    - the setup and authentication state machines of both sides
      ([src/proto/proto.c]): [Proto]; what the two sides achieve together: [Handshake]
      (SETUP) and [AuthExchange] (AUTH); memory safety of every handler: [ProtoSafety];
      what a handler accepts: [ProtoRules];
    - replay protection ([src/store/replay.c], [src/store/replay_continuity.c],
      [src/proto/replay_guard.c]): [Replay]; the session table
      ([src/store/session_table.c]): [SessionTable];
    - the stores ([src/store/store_fs.c]): [Store] (atomic write, credentials, server
      key) and [Registry] (the enrolled devices);
    - the transports ([src/transport/transport_tcp.c], [transport_udp.c]): [Transport]
      (sending and receiving) and [Sockets] (addresses, [transport_addr.c]; opening,
      accepting and closing, with the accepting loop of [run_tcp]);
    - the client ([bin/client.c]): [Args] (its command line) and [Client] ([do_setup],
      [do_auth]); the server ([bin/server.c]): [ServerArgs], [Server] (shared state,
      dispatch of a packet under the mutexes) and [Drivers] (the UDP loop and the
      threads of the connections); both [main] functions: [Programs];
    - what the two sides do together, whatever carries their packets, and over a TCP
      connection: [EndToEnd] (enrolling) and [EndToEndAuth] (authenticating); what
      becomes of requests that are sent again over UDP: [Retransmission];
    - the two programs as a whole: the machines they run on ([Hosts]), over TCP
      ([Deployment]), across a restart of the server ([Lifecycle]), over UDP
      ([Datagrams]).

    Beside these:

    - AUTH v3 ([src/proto/auth_v3_context.c], [auth_v3_context_parser.c]): [V3Context],
      ([auth_v3_iot_core_authz.c]): [V3Authz], ([auth_v3.c]): [V3];
    - lineage replacement ([src/proto/lineage_replace*.c]): [Lineage] (decision, plan,
      life cycle, storage transaction, restart), [LineageAuth] (authorization and the
      verified commit), [LineagePair] (the two sides of a pair).

    This file is the shared base: machine integers and bytes, the monad, buffers and
    cursors, and their lemmas and tactics.

    ** How code is translated

    - A [uint8_t] is a [Byte.byte]; wider integers are [Z] with the casts [u16], [u32],
      [u64] written where the code wraps; sizes and indices that cannot wrap are [nat].
    - A function that returns [auth_err_t] is a computation of [M auth_err_t S A]: from
      a state [S] to an [outcome] and a state.  [Ok] is AUTH_OK with the values of the
      output parameters, [Err e] is the early [return e], [Fault] is a read or a write
      outside an object.  The state keeps what was assigned before an early return.
    - A pointer that the code tests is a [ptr], with [NULL]; tests of the places where a
      result is stored are not modelled, because results are returned.
    - A buffer of the caller is the state [bytes], its length being its capacity; a
      function that fills it runs on a [cursor].
    - Random bytes are arguments.  libsodium is the class [Sodium] with its documented
      laws [SodiumSpec]; [Toy.sodium] satisfies them and is used by the witnesses.
    - POSIX calls on files and sockets answer by a script, after which every call
      succeeds; every finite behaviour (short transfers, interruptions, failures,
      timeouts) is a script.
    - The file system is a map from paths to contents and the set of the paths whose
      data no [fsync] has reached.  A crash can leave any one of the states there have
      been, with anything in the files of that set ([after_crash]): the code never syncs
      a directory, so a [rename] may be undone.
    - A datagram carries the address of its peer: the server reads the sender's and
      passes it back to [auth_udp_send].
    - The server's threads are [proc]s: sequences of sections under a mutex, which
      [sched] interleaves in every order.
    - The storage adapter of lineage replacement is a parameter; [durable_adapter] is
      the contract of its header.

    ** What the theorems show

    - Composition: an honest device and an honest server complete SETUP
      ([setup_completes]) and AUTH with equal keys ([auth_completes]).
    - Authentication: what a success of each handler implies, as the equations that
      hold then ([server_accepts_auth1], [server_accepts_auth3],
      [client_accepts_auth2]), and, for every interleaving of
      every packet, of each session of the server ([server_sessions_authenticated]).
    - The programs together: a device enrolls over TCP, the server program ends and
      starts again on the files it has left, and the device authenticates, with equal
      keys; both runs of the client exit with 0 and each server has a run of its threads
      ([device_lifecycle]).  Nothing passes from the first part to the second but the
      files.  Its parts are [deployment_enrolls] and [deployment_authenticates], for
      every cut of the streams; these rest on [enrollment_sides] and
      [authentication_sides], which do not depend on the transport.
    - The same over UDP, when requests are lost once on their way
      ([datagrams_authenticate], [datagrams_enroll]).
    - Where the programs fail together: over UDP the loss of one AUTH_2 ends the
      authentication with a replay error ([lost_auth2_fails]); an AUTH_2 that is late
      ends it for the client alone ([late_auth2_fails]); the loss of one SETUP_2 ends an
      enrollment ([lost_setup2_fails]).
    - The programs alone: what each exit status of the client means for its files and
      descriptors ([client_program], from [client_setup_atomic] and
      [client_auth_confirmed]); what the server starts with, a socket for each
      transport it was asked for unless that cannot be bound, and that it is safe from
      its command line on ([server_program]).
    - The drivers of the server refine its scheduler ([drivers_refine_sched]), so the
      theorems on every schedule hold of the program; a connection whose peer ends it
      is served to its end, with the answers of [dispatch] to its packets, in their
      order, on its socket ([connection_served]).
    - Command lines and addresses: printing and parsing ([args_roundtrip],
      [server_args_roundtrip], [addr_roundtrip]), within the arrays
      ([parse_args_total]).  Descriptors: a function that opens a socket leaves one open
      on success and none on failure ([sockets_open_exact]), and the accepting loop
      none without a thread ([run_tcp_no_leak]).
    - Safety of memory and state: [client_memory_safe], [server_memory_safe],
      [server_threads_safe], [session_slots_lifecycle].
    - Storage: [atomic_write_atomic] at every instant and after a crash,
      [registry_refines_map], [registry_load_exact], and the round trips of the three files.
    - Replay: the cache is the window of the last 64 keys
      ([replay_cache_refines_window]), the guard refuses what is in it.
    - Cryptography: HKDF is RFC 5869, honest proofs verify, verifiers decide their
      equation, special soundness; every challenge and the transcript hash are the
      digest of an injective encoding of what they are about ([hash_input_binding]).
    - Formats: for every encoder and decoder a layout [wire_*] that the encoder writes
      and beside which the decoder accepts nothing.
    - Transport: packets arrive in order and unchanged however the stream is cut
      ([tcp_stream_roundtrip]), receiving ends on every input ([tcp_recv_exact]).
    - AUTH v3 and lineage replacement: exactness of the context formats, binding of the
      transcript, crash safety of the replacement ([transaction_restart],
      [verified_commit_restart]), the conditions of a commit and of an activation.

    ** Bounds and fuel

    Constants are those of the headers: datagrams of 2048 bytes, 64 sessions, 256
    registry entries, 64 replay keys, HKDF outputs of at most 255 blocks, a v2
    transcript of 4096 and a v3 transcript of 768 bytes (it needs 726).  A loop over
    input is a [Fixpoint] on a count or a list.  Loops that wait for the system take
    fuel that depends on its script: a retry loop one more than the script's length,
    the loops that read or write a whole buffer one more than the number of bytes and
    answers; that this is enough is proved, as the absence of [Fault].  The loop of one
    connection ([serve]) takes one turn more than the bytes on its stream
    ([connection_served]); three turns carry an exchange of two requests.

    ** Not modelled

    - What the programs print, and signals.  [malloc] and [pthread_create] appear only
      where their failure has an effect, in the accepting loop.
    - [getaddrinfo], [getnameinfo], the layout of a [sockaddr] and the address of a bound
      socket: parameters ([Net]).
    - Zeroizing buffers ([auth_zeroize]), which no result depends on.
    - The renaming headers of [include/iot_auth], which have no code; the tests, the
      fuzz targets, the ProVerif models and the Rust lane. *)
From stdpp Require Export base numbers list list_monad option.
From Stdlib Require Import ZArith Lia.
From Stdlib.Strings Require Byte.

#[global] Open Scope nat_scope.

(** ** Bytes

    [uint8_t] is [Byte.byte]: the width is in the type.  [u8] is the cast
    [(uint8_t)], [b2z] the promotion of a [uint8_t] to a wider integer. *)
Abbreviation byte := Byte.byte.
Abbreviation bytes := (list Byte.byte).

Definition b2z (b : byte) : Z := Z.of_N (Byte.to_N b).

Definition u8 (z : Z) : byte :=
  match Byte.of_N (Z.to_N (z mod 256)) with
  | Some b => b
  | None => Byte.x00
  end.

(** The casts [(uint16_t)], [(uint32_t)], [(uint64_t)]; [size_t] is 64 bits
    wide on the hosts this lane is built for. *)
Definition u16 (z : Z) : Z := (z mod 65536)%Z.
Definition u32 (z : Z) : Z := (z mod 4294967296)%Z.
Definition u64 (z : Z) : Z := (z mod 18446744073709551616)%Z.
Definition size_t (z : Z) : Z := u64 z.

Definition is_u16 (z : Z) : Prop := (0 <= z < 65536)%Z.
Definition is_u32 (z : Z) : Prop := (0 <= z < 4294967296)%Z.
Definition is_u64 (z : Z) : Prop := (0 <= z < 18446744073709551616)%Z.

#[export] Instance byte_eq_dec : EqDecision byte := Byte.byte_eq_dec.

Lemma b2z_range b : (0 <= b2z b < 256)%Z.
Proof. unfold b2z. pose proof (Byte.to_N_bounded b). lia. Qed.

Lemma b2z_u8 z : b2z (u8 z) = (z mod 256)%Z.
Proof.
  unfold b2z, u8. pose proof (Z.mod_pos_bound z 256 ltac:(lia)) as Hr.
  destruct (Byte.of_N _) as [b|] eqn:E.
  - apply Byte.to_of_N in E. lia.
  - apply Byte.of_N_None_iff in E. lia.
Qed.

Lemma b2z_inj b1 b2 : b2z b1 = b2z b2 → b1 = b2.
Proof.
  unfold b2z. intros H. assert (Byte.to_N b1 = Byte.to_N b2) as E by lia.
  pose proof (Byte.of_to_N b1). pose proof (Byte.of_to_N b2). congruence.
Qed.

Lemma u8_b2z b : u8 (b2z b) = b.
Proof. apply b2z_inj. rewrite b2z_u8. apply Z.mod_small, b2z_range. Qed.

Lemma u8_mod z : u8 (z mod 256) = u8 z.
Proof. apply b2z_inj. rewrite !b2z_u8. apply Z.mod_mod. lia. Qed.

Lemma u8_land_255 z : u8 (Z.land z 255) = u8 z.
Proof. change 255%Z with (Z.ones 8). rewrite Z.land_ones by lia. apply u8_mod. Qed.

(** ** Little-endian integers

    [store_le n v] is the loop [out[i] = (uint8_t)(v >> 8*i)], [load_le] the
    loop [v |= (uintN_t)in[i] << 8*i]. *)
Fixpoint store_le (n : nat) (v : Z) : bytes :=
  match n with
  | O => []
  | S n => u8 v :: store_le n (Z.shiftr v 8)
  end.

Fixpoint load_le (bs : bytes) : Z :=
  match bs with
  | [] => 0
  | b :: bs => Z.lor (b2z b) (Z.shiftl (load_le bs) 8)
  end.

Lemma length_store_le n v : length (store_le n v) = n.
Proof. revert v; induction n; intros; cbn; auto. Qed.

Lemma lor_shiftl_8 a z : (0 <= a < 256 → 0 <= z → Z.lor a (Z.shiftl z 8) = a + 256 * z)%Z.
Proof.
  intros Ha Hz. rewrite Z.shiftl_mul_pow2 by lia.
  change (2 ^ 8)%Z with 256%Z. rewrite (Z.mul_comm z).
  rewrite <- Z.lxor_lor, <- Z.add_nocarry_lxor; [lia| |];
    apply Z.bits_inj'; intros k Hk; rewrite Z.land_spec, Z.bits_0;
    replace (256 * z)%Z with (z * 2 ^ 8)%Z by lia;
    (destruct (Z.ltb_spec k 8);
      [rewrite (Z.mul_pow2_bits_low z 8 k) by lia; apply andb_false_r
      |rewrite <- (Z.mod_small a (2 ^ 8)) by lia;
       rewrite Z.mod_pow2_bits_high by lia; apply andb_false_l]).
Qed.

Lemma load_le_nonneg bs : (0 <= load_le bs)%Z.
Proof.
  induction bs as [|b bs IH]; cbn; [lia|].
  apply Z.lor_nonneg. split; [apply b2z_range|]. by apply Z.shiftl_nonneg.
Qed.

Lemma load_le_cons b bs : load_le (b :: bs) = (b2z b + 256 * load_le bs)%Z.
Proof. cbn. apply lor_shiftl_8; [apply b2z_range | apply load_le_nonneg]. Qed.

Lemma load_le_bound bs : (load_le bs < 256 ^ Z.of_nat (length bs))%Z.
Proof.
  induction bs as [|b bs IH]; [cbn; lia|].
  rewrite load_le_cons. cbn [length]. rewrite Nat2Z.inj_succ, Z.pow_succ_r by lia.
  pose proof (b2z_range b). lia.
Qed.

Lemma load_le_app x y : load_le (x ++ y) = (load_le x + 256 ^ Z.of_nat (length x) * load_le y)%Z.
Proof.
  induction x as [|b x IH]; [change (load_le []) with 0%Z; cbn [app length Z.of_nat]; lia|].
  cbn [app length]. rewrite !load_le_cons, IH, Nat2Z.inj_succ, Z.pow_succ_r by lia. lia.
Qed.

Lemma shiftr_8 v : Z.shiftr v 8 = (v / 256)%Z.
Proof. rewrite Z.shiftr_div_pow2 by lia. reflexivity. Qed.

Lemma load_store_le n v : load_le (store_le n v) = (v mod 256 ^ Z.of_nat n)%Z.
Proof.
  revert v; induction n as [|n IH]; intros v; [cbn; by rewrite Z.mod_1_r|].
  cbn [store_le]. rewrite load_le_cons, IH, b2z_u8, shiftr_8.
  rewrite Nat2Z.inj_succ, Z.pow_succ_r by lia.
  rewrite Z.rem_mul_r by lia. lia.
Qed.

Lemma store_load_le bs : store_le (length bs) (load_le bs) = bs.
Proof.
  induction bs as [|b bs IH]; [done|].
  cbn [length store_le]. rewrite load_le_cons, shiftr_8.
  rewrite (Z.mul_comm 256), Z.div_add, Z.div_small by (apply b2z_range || lia).
  rewrite Z.add_0_l, IH. f_equal.
  rewrite <- u8_mod, Z.mod_add, Z.mod_small by (apply b2z_range || lia). apply u8_b2z.
Qed.

Lemma store_load_le_n n bs : length bs = n → store_le n (load_le bs) = bs.
Proof. intros <-. apply store_load_le. Qed.

Lemma store_le_inj n v w :
  (0 <= v < 256 ^ Z.of_nat n → 0 <= w < 256 ^ Z.of_nat n →
   store_le n v = store_le n w → v = w)%Z.
Proof.
  intros Hv Hw E. apply (f_equal load_le) in E.
  rewrite !load_store_le, !Z.mod_small in E by done. done.
Qed.

Lemma store_le_2 v :
  store_le 2 v = [u8 (Z.land v 255); u8 (Z.land (Z.shiftr v 8) 255)].
Proof. cbn. by rewrite !u8_land_255. Qed.

Lemma store_le_4 v :
  store_le 4 v = [u8 (Z.land v 255); u8 (Z.land (Z.shiftr v 8) 255);
                  u8 (Z.land (Z.shiftr v 16) 255); u8 (Z.land (Z.shiftr v 24) 255)].
Proof. cbn. by rewrite !u8_land_255, !Z.shiftr_shiftr by lia. Qed.

(** [b << k] of a byte does not leave the integer it is stored in. *)
Lemma shiftl_byte_small b k w :
  (0 <= k → k + 8 <= w → Z.shiftl (b2z b) k mod 2 ^ w = Z.shiftl (b2z b) k)%Z.
Proof.
  intros Hk Hw. apply Z.mod_small. rewrite Z.shiftl_mul_pow2 by lia.
  pose proof (b2z_range b) as Hb. split; [lia|].
  apply Z.lt_le_trans with (2 ^ 8 * 2 ^ k)%Z.
  - apply Z.mul_lt_mono_pos_r; lia.
  - rewrite <- Z.pow_add_r by lia. apply Z.pow_le_mono_r; lia.
Qed.

Lemma load_le_4 b0 b1 b2 b3 :
  Z.lor (Z.lor (Z.lor (b2z b0) (u32 (Z.shiftl (b2z b1) 8)))
               (u32 (Z.shiftl (b2z b2) 16))) (u32 (Z.shiftl (b2z b3) 24))
  = load_le [b0; b1; b2; b3].
Proof.
  unfold u32. change 4294967296%Z with (2 ^ 32)%Z.
  rewrite !shiftl_byte_small by lia. cbn [load_le].
  rewrite Z.shiftl_0_l, Z.lor_0_r, !Z.shiftl_lor, !Z.shiftl_shiftl, !Z.lor_assoc by lia.
  done.
Qed.

Lemma load_store_le_2 v : is_u16 v → load_le (store_le 2 v) = v.
Proof. intros H. rewrite load_store_le. by apply Z.mod_small. Qed.

Lemma load_store_le_4 v : is_u32 v → load_le (store_le 4 v) = v.
Proof. intros H. rewrite load_store_le. by apply Z.mod_small. Qed.

Lemma load_store_le_8 v : is_u64 v → load_le (store_le 8 v) = v.
Proof. intros H. rewrite load_store_le. by apply Z.mod_small. Qed.

Lemma load_le_is_u16 bs : length bs = 2 → is_u16 (load_le bs).
Proof.
  intros H. pose proof (load_le_nonneg bs). pose proof (load_le_bound bs) as Hb.
  rewrite H in Hb. by split.
Qed.

Lemma load_le_is_u32 bs : length bs = 4 → is_u32 (load_le bs).
Proof.
  intros H. pose proof (load_le_nonneg bs). pose proof (load_le_bound bs) as Hb.
  rewrite H in Hb. by split.
Qed.

Lemma load_le_is_u64 bs : length bs = 8 → is_u64 (load_le bs).
Proof.
  intros H. pose proof (load_le_nonneg bs). pose proof (load_le_bound bs) as Hb.
  rewrite H in Hb. by split.
Qed.

#[global] Arguments load_le : simpl never.
#[global] Arguments store_le : simpl never.
#[global] Arguments u8 : simpl never.
#[global] Arguments b2z : simpl never.

(** ** Pointers

    [ptr A] is a pointer argument that the code compares with [NULL]. *)
Abbreviation ptr := option.
Abbreviation NULL := None.

(** ** Outcomes and the state monad

    [Err e] is an error return.  [Fault] is an access outside an object: it is
    undefined behaviour in C, and the memory-safety theorems show that it does
    not happen.  The state survives an error return, as the caller's memory
    does. *)
Inductive outcome (E A : Type) : Type :=
  | Ok (a : A)
  | Err (e : E)
  | Fault.
Arguments Ok {E A} _.
Arguments Err {E A} _.
Arguments Fault {E A}.

#[export] Instance outcome_eq_dec `{EqDecision E, EqDecision A} :
  EqDecision (outcome E A).
Proof. solve_decision. Defined.

Definition M (E S A : Type) : Type := S → outcome E A * S.

#[export] Instance M_ret E S : MRet (M E S) := λ A a s, (Ok a, s).
#[export] Instance M_bind E S : MBind (M E S) := λ A B f m s,
  match m s with
  | (Ok a, s') => f a s'
  | (Err e, s') => (Err e, s')
  | (Fault, s') => (Fault, s')
  end.

Section monad.
Context {E S : Type}.

Definition fail {A} (e : E) : M E S A := λ s, (Err e, s).
Definition fault {A} : M E S A := λ s, (Fault, s).
Definition get : M E S S := λ s, (Ok s, s).
Definition put (s : S) : M E S unit := λ _, (Ok tt, s).
Definition modify (f : S → S) : M E S unit := λ s, (Ok tt, f s).

(** [if (!b) return e;] *)
Definition require (b : bool) (e : E) : M E S unit :=
  if b then mret tt else fail e.

(** [if (!p) return e;] followed by the use of [*p]. *)
Definition deref {A} (p : ptr A) (e : E) : M E S A :=
  match p with Some a => mret a | None => fail e end.

(** [err = f(...); if (err) return err;] for a call that keeps its own
    state. *)
Definition lift {A} (o : outcome E A) : M E S A := λ s, (o, s).

Definition eval {A} (m : M E S A) (s : S) : outcome E A := (m s).1.

Lemma bind_run {A B} (m : M E S A) (f : A → M E S B) s :
  (m ≫= f) s = match m s with
               | (Ok a, s') => f a s'
               | (Err e, s') => (Err e, s')
               | (Fault, s') => (Fault, s')
               end.
Proof. done. Qed.

Lemma bind_ok {A B} (m : M E S A) (f : A → M E S B) s a s' :
  m s = (Ok a, s') → (m ≫= f) s = f a s'.
Proof. intros H. by rewrite bind_run, H. Qed.

Lemma bind_err {A B} (m : M E S A) (f : A → M E S B) s e s' :
  m s = (Err e, s') → (m ≫= f) s = (Err e, s').
Proof. intros H. by rewrite bind_run, H. Qed.

Lemma bind_ok_inv {A B} (m : M E S A) (f : A → M E S B) s b s'' :
  (m ≫= f) s = (Ok b, s'') → ∃ a s', m s = (Ok a, s') ∧ f a s' = (Ok b, s'').
Proof. rewrite bind_run. destruct (m s) as [[a|e|] s']; naive_solver. Qed.

Lemma require_ok_inv b e s u s' :
  require b e s = (Ok u, s') → b = true ∧ s' = s.
Proof. destruct b; cbn; unfold mret, M_ret, fail; naive_solver. Qed.

Lemma deref_ok_inv {A} (p : ptr A) e s a s' :
  deref p e s = (Ok a, s') → p = Some a ∧ s' = s.
Proof. destruct p; cbn; unfold mret, M_ret, fail; naive_solver. Qed.
End monad.

(** [outcome] itself is the monad of calls that keep no state. *)
#[export] Instance outcome_ret E : MRet (outcome E) := @Ok E.
#[export] Instance outcome_bind E : MBind (outcome E) := λ A B f o,
  match o with
  | Ok a => f a
  | Err e => Err e
  | Fault => Fault
  end.

Definition check {E} (b : bool) (e : E) : outcome E unit := if b then Ok tt else Err e.

Definition nonnull {E A} (p : ptr A) (e : E) : outcome E A :=
  match p with Some a => Ok a | None => Err e end.

Lemma outcome_bind_ok_inv {E A B} (o : outcome E A) (f : A → outcome E B) b :
  (o ≫= f) = Ok b → ∃ a, o = Ok a ∧ f a = Ok b.
Proof. destruct o; cbn; naive_solver. Qed.

Lemma check_ok_inv {E} b (e : E) u : check b e = Ok u → b = true.
Proof. by destruct b. Qed.

(** The first result of a computation on a local state. *)
Definition with_local {E S T A} (s0 : S) (m : M E S A) : M E T A :=
  λ t, ((m s0).1, t).

(** ** Memory blocks

    [mem_load buf off n] reads [n] bytes at [buf + off], [mem_store] is
    [memcpy(buf + off, x, len)]; both are defined inside the object only. *)
Definition mem_load (buf : bytes) (off n : nat) : option bytes :=
  if off + n <=? length buf then Some (take n (drop off buf)) else None.

Definition mem_store (buf : bytes) (off : nat) (x : bytes) : option bytes :=
  if off + length x <=? length buf
  then Some (take off buf ++ x ++ drop (off + length x) buf) else None.

(** [buf + off] as a source of [n] bytes, [buf[off]], and a store at a fixed
    offset. *)
Definition loadn {E} (buf : bytes) (off n : nat) : outcome E bytes :=
  match mem_load buf off n with Some x => Ok x | None => Fault end.

Definition load8 {E} (buf : bytes) (off : nat) : outcome E byte :=
  match buf !! off with Some b => Ok b | None => Fault end.

Definition store_at {E} (off : nat) (x : bytes) : M E bytes unit := λ buf,
  match mem_store buf off x with
  | Some buf' => (Ok tt, buf')
  | None => (Fault, buf)
  end.

(** [load_u16_le(buf + off)] *)
Definition load_u16_le {E} (buf : bytes) (off : nat) : outcome E Z :=
  b0 ← load8 buf off;
  b1 ← load8 buf (off + 1);
  mret (u16 (Z.lor (u16 (b2z b0)) (u16 (Z.shiftl (u16 (b2z b1)) 8)))).

Lemma loadn_ok {E} buf off n :
  off + n ≤ length buf → loadn (E:=E) buf off n = Ok (take n (drop off buf)).
Proof. intros H. unfold loadn, mem_load. by rewrite (proj2 (Nat.leb_le _ _)). Qed.

Lemma loadn_app {E} pre x post off n :
  off = length pre → n = length x → loadn (E:=E) (pre ++ x ++ post) off n = Ok x.
Proof.
  intros -> ->. rewrite loadn_ok by (rewrite !length_app; lia).
  by rewrite drop_app_length, take_app_length.
Qed.

Lemma load8_ok {E} buf off b : buf !! off = Some b → load8 (E:=E) buf off = Ok b.
Proof. intros H. unfold load8. by rewrite H. Qed.

Lemma load_u16_le_ok {E} buf off b0 b1 :
  buf !! off = Some b0 → buf !! (off + 1) = Some b1 →
  load_u16_le (E:=E) buf off = Ok (load_le [b0; b1]).
Proof.
  intros H0 H1. unfold load_u16_le. rewrite (load8_ok _ _ _ H0). cbn.
  rewrite (load8_ok _ _ _ H1). cbn. f_equal.
  pose proof (b2z_range b0). pose proof (b2z_range b1).
  unfold u16, load_le. rewrite Z.shiftl_0_l, Z.lor_0_r, !(Z.mod_small (b2z _)) by lia.
  rewrite (Z.mod_small (Z.shiftl _ _)) by (rewrite Z.shiftl_mul_pow2; lia).
  apply Z.mod_small. rewrite lor_shiftl_8 by lia. lia.
Qed.

Lemma store_at_wstate {E} off x w rest :
  off = length w → length x ≤ length rest →
  store_at (E:=E) off x (w ++ rest) = (Ok tt, (w ++ x) ++ drop (length x) rest).
Proof.
  intros -> H. unfold store_at, mem_store.
  rewrite length_app, (proj2 (Nat.leb_le _ _)) by lia.
  rewrite take_app_length, <- app_assoc, drop_app_ge, Nat.add_comm, Nat.add_sub by lia.
  done.
Qed.

(** [memcmp(a, b, n) == 0] and [sodium_memcmp(a, b, n) == 0]. *)
Definition memeq (a b : bytes) : bool := bool_decide (a = b).

Lemma memeq_true a b : memeq a b = true ↔ a = b.
Proof. apply bool_decide_eq_true. Qed.
Lemma memeq_false a b : memeq a b = false ↔ a ≠ b.
Proof. apply bool_decide_eq_false. Qed.
Lemma memeq_refl a : memeq a a = true.
Proof. by apply memeq_true. Qed.

Definition zeros (n : nat) : bytes := replicate n Byte.x00.

Lemma load_le_zeros n : load_le (zeros n) = 0%Z.
Proof.
  induction n as [|n IH]; [done|]. unfold zeros in *. cbn [replicate].
  by rewrite load_le_cons, IH.
Qed.

(** ** Reading with an offset

    The state is the local variable [off]. *)
Section reader.
Context {E : Type} (buf : bytes).
Implicit Types (off n : nat) (rest : bytes).

(** [memcpy(out, buf + off, n); off += n;] *)
Definition read_bytes (n : nat) : M E nat bytes := λ off,
  match mem_load buf off n with
  | Some x => (Ok x, off + n)
  | None => (Fault, off)
  end.

(** [buf[off++]] *)
Definition read_u8 : M E nat byte := λ off,
  match mem_load buf off 1 with
  | Some [b] => (Ok b, off + 1)
  | _ => (Fault, off)
  end.

(** What is left of the buffer at offset [off]. *)
Definition at_pos (off : nat) (rest : bytes) : Prop :=
  off ≤ length buf ∧ drop off buf = rest.

Lemma at_pos_0 : at_pos 0 buf.
Proof. split; [lia | done]. Qed.

Lemma at_pos_length off rest : at_pos off rest → length buf = off + length rest.
Proof. intros [? <-]. rewrite length_drop. lia. Qed.

Lemma at_pos_app off x rest : at_pos off (x ++ rest) → at_pos (off + length x) rest.
Proof.
  intros H. pose proof (at_pos_length _ _ H) as Hl. destruct H as [H1 H2].
  rewrite length_app in Hl. split; [lia|].
  rewrite <- drop_drop, H2. apply drop_app_length.
Qed.

Lemma mem_load_at off x rest :
  at_pos off (x ++ rest) → mem_load buf off (length x) = Some x.
Proof.
  intros H. pose proof (at_pos_length _ _ H) as Hl. rewrite length_app in Hl.
  unfold mem_load. rewrite (proj2 (Nat.leb_le _ _)) by lia.
  destruct H as [_ ->]. by rewrite take_app_length.
Qed.

Lemma read_bytes_at off n x rest :
  at_pos off (x ++ rest) → length x = n → read_bytes n off = (Ok x, off + n).
Proof. intros H <-. unfold read_bytes. by rewrite (mem_load_at _ _ _ H). Qed.

Lemma read_u8_at off b rest :
  at_pos off (b :: rest) → read_u8 off = (Ok b, off + 1).
Proof.
  intros H. pose proof (mem_load_at off [b] rest H) as Hl. cbn in Hl.
  unfold read_u8. by rewrite Hl.
Qed.

Lemma at_pos_split off n rest :
  at_pos off rest → n ≤ length rest →
  ∃ x rest', rest = x ++ rest' ∧ length x = n ∧ at_pos (off + n) rest'.
Proof.
  intros H Hn. exists (take n rest), (drop n rest).
  assert (length (take n rest) = n) as Hl by (rewrite length_take; lia).
  split_and!; [by rewrite take_drop | done |].
  rewrite <- Hl at 1. apply at_pos_app. by rewrite take_drop.
Qed.
End reader.

(** ** Writing with an offset

    The state is the output buffer and the local variable [off]. *)
Definition cursor : Type := bytes * nat.

Section writer.
Context {E : Type}.
Implicit Types (c : cursor) (x : bytes).

(** [memcpy(buf + off, x, n); off += n;] *)
Definition write_bytes (x : bytes) : M E cursor unit := λ '(buf, off),
  match mem_store buf off x with
  | Some buf' => (Ok tt, (buf', off + length x))
  | None => (Fault, (buf, off))
  end.

Definition get_off : M E cursor nat := λ c, (Ok c.2, c).
Definition get_cap : M E cursor nat := λ c, (Ok (length c.1), c).

(** Runs a writer from offset 0 on the caller's buffer. *)
Definition writing {A} (m : M E cursor A) : M E bytes A := λ buf,
  let '(o, (buf', _)) := m (buf, 0) in (o, buf').

(** [w] has been written and [rest] is the untouched tail of the buffer. *)
Definition wstate (w rest : bytes) : cursor := (w ++ rest, length w).

Lemma wstate_0 buf : (buf, 0) = wstate [] buf.
Proof. done. Qed.

Lemma write_bytes_wstate x w rest :
  length x ≤ length rest →
  write_bytes x (wstate w rest) = (Ok tt, wstate (w ++ x) (drop (length x) rest)).
Proof.
  intros H. unfold write_bytes, wstate, mem_store. cbn.
  rewrite length_app, (proj2 (Nat.leb_le _ _)) by lia.
  rewrite take_app_length, length_app, <- app_assoc.
  do 4 f_equal. by rewrite drop_app_ge, Nat.add_comm, Nat.add_sub by lia.
Qed.
End writer.

(** [v] encodes what a writer leaves behind: [w] then the old tail. *)
Definition written (w buf : bytes) : bytes := w ++ drop (length w) buf.

Lemma drop_written w buf : drop (length w) (written w buf) = drop (length w) buf.
Proof. unfold written. apply drop_app_length. Qed.

Lemma take_written w buf : take (length w) (written w buf) = w.
Proof. unfold written. apply take_app_length. Qed.

Lemma length_written w buf : length w ≤ length buf → length (written w buf) = length buf.
Proof. intros. unfold written. rewrite length_app, length_drop. lia. Qed.

(** Splitting a list at a known length. *)
Lemma split_at {A} n (l : list A) :
  n ≤ length l → ∃ l1 l2, l = l1 ++ l2 ∧ length l1 = n.
Proof.
  intros H. exists (take n l), (drop n l).
  by rewrite take_drop, length_take_le.
Qed.

Lemma split_cons {A} n (l : list A) :
  S n ≤ length l → ∃ x l', l = x :: l' ∧ n ≤ length l'.
Proof. destruct l as [|x l']; cbn; [lia|]. intros H. exists x, l'. split; [done|lia]. Qed.

(** ** Tactics *)

(** Inverts one successful bind or guard in the hypotheses. *)
Ltac inv_ok H :=
  match type of H with
  | (_ ≫= _) _ = (Ok _, _) =>
      let a := fresh "a" in let s := fresh "s" in let H1 := fresh H in
      apply bind_ok_inv in H as (a & s & H1 & H); inv_ok H1
  | require _ _ _ = (Ok _, _) =>
      let Hb := fresh "Hb" in apply require_ok_inv in H as [Hb ->]
  | deref _ _ _ = (Ok _, _) =>
      let Hp := fresh "Hp" in apply deref_ok_inv in H as [Hp ->]
  | _ => idtac
  end.

(** Turns boolean comparisons into propositions. *)
Ltac bool_to_prop :=
  repeat match goal with
  | H : (_ <=? _) = true |- _ => apply Nat.leb_le in H
  | H : (_ <=? _) = false |- _ => apply Nat.leb_gt in H
  | H : (_ <? _) = true |- _ => apply Nat.ltb_lt in H
  | H : (_ <? _) = false |- _ => apply Nat.ltb_ge in H
  | H : (_ =? _) = true |- _ => apply Nat.eqb_eq in H
  | H : (_ =? _) = false |- _ => apply Nat.eqb_neq in H
  | H : memeq _ _ = true |- _ => apply memeq_true in H
  | H : memeq _ _ = false |- _ => apply memeq_false in H
  | H : negb _ = true |- _ => apply negb_true_iff in H
  | H : negb _ = false |- _ => apply negb_false_iff in H
  | H : (_ && _) = true |- _ => apply andb_true_iff in H as [? ?]
  | H : (_ || _) = false |- _ => apply orb_false_iff in H as [? ?]
  end.

Create HintDb consts.
Create Rewrite HintDb bytes_db.
#[export] Hint Rewrite @length_app @length_drop @length_take @length_nil
  @length_cons @length_store_le @length_replicate : bytes_db.

(** Runs the first computation of a bind: alone when it is a basic operation,
    by rewriting with an equation otherwise. *)
Ltac mstep :=
  rewrite bind_run;
  cbn [mret M_ret get put modify deref require lift fail fault get_off get_cap].
(** Arithmetic on lengths. *)
Ltac len := autounfold with consts in *; autorewrite with bytes_db in *; cbn in *; lia.
(** Writes the next bytes of the output. *)
Ltac mwrite := rewrite bind_run, write_bytes_wstate by len; cbv beta iota.
Tactic Notation "mstep" "by" uconstr(eq) := rewrite bind_run, eq; cbv beta iota.

(** A range of a concrete integer. *)
Ltac concrete_range := vm_compute; split; [discriminate|reflexivity].

(** The body of an assignment to the field [proj] of the record [r]; [eta]
    rebuilds a record from its fields. *)
Ltac set_field eta proj r v :=
  let e := eval hnf in (eta r) in
  let p := eval pattern (proj r) in e in
  match p with
  | ?f _ => let t := eval cbv beta in (f v) in exact t
  end.

(** *** What a writer emits

    [emits m x r]: whenever there is room, [m] appends exactly [x] to what has
    been written and returns [r off], [off] being the final offset. *)
Definition emits {E A} (m : M E cursor A) (x : bytes) (r : nat → A) : Prop :=
  ∀ w rest, length x ≤ length rest → is_u64 (Z.of_nat (length (w ++ rest))) →
    m (wstate w rest) = (Ok (r (length w + length x)), wstate (w ++ x) (drop (length x) rest)).

Section emits.
Context {E : Type}.

Lemma emits_ret {A} (a : A) : emits (E:=E) (mret a) [] (λ _, a).
Proof. intros w rest _ _. unfold mret, M_ret. by rewrite app_nil_r. Qed.

Lemma emits_get_off : emits (E:=E) get_off [] id.
Proof. intros w rest _ _. unfold get_off. cbn. by rewrite app_nil_r, Nat.add_0_r. Qed.

Lemma emits_write x : emits (E:=E) (write_bytes x) x (λ _, tt).
Proof. intros w rest Hr _. by rewrite write_bytes_wstate. Qed.

Lemma emits_bind {A B} (m : M E cursor A) (k : A → M E cursor B) x y r1 r2 :
  emits m x r1 → (∀ a, emits (k a) y r2) → emits (m ≫= k) (x ++ y) r2.
Proof.
  intros Hm Hk w rest Hr Hu. rewrite length_app in *.
  rewrite bind_run, Hm by (rewrite ?length_app; lia || done).
  rewrite (Hk _ (w ++ x) (drop (length x) rest)).
  - by rewrite drop_drop, <- app_assoc, length_app, <- Nat.add_assoc.
  - rewrite length_drop. lia.
  - rewrite !length_app, length_drop in *. unfold is_u64 in *. lia.
Qed.

Lemma emits_if {A} (b : bool) (m1 m2 : M E cursor A) x1 x2 r :
  (b = true → emits m1 x1 r) → (b = false → emits m2 x2 r) →
  emits (if b then m1 else m2) (if b then x1 else x2) r.
Proof. destruct b; auto. Qed.

Lemma emits_eq {A} (m : M E cursor A) x y r : emits m x r → x = y → emits m y r.
Proof. by intros ? <-. Qed.

Lemma writing_run {A} (m : M E cursor A) x r buf :
  emits m x r → length x ≤ length buf → is_u64 (Z.of_nat (length buf)) →
  writing m buf = (Ok (r (length x)), written x buf).
Proof. intros Hm Hx Hu. unfold writing. by rewrite wstate_0, Hm. Qed.
End emits.

Create HintDb emits.
#[export] Hint Resolve emits_ret emits_get_off emits_write emits_bind : emits.

(** ** Sequences of steps *)
Inductive star {S} (R : S → S → Prop) : S → S → Prop :=
  | star_refl s : star R s s
  | star_step s1 s2 s3 : R s1 s2 → star R s2 s3 → star R s1 s3.

Lemma star_invariant {S} (R : S → S → Prop) (I : S → Prop) s s' :
  (∀ s1 s2, I s1 → R s1 s2 → I s2) → star R s s' → I s → I s'.
Proof. intros HI. induction 1; eauto. Qed.

Lemma star_trans {S} (R : S → S → Prop) s1 s2 s3 :
  star R s1 s2 → star R s2 s3 → star R s1 s3.
Proof. induction 1; eauto using star. Qed.

(** ** A program logic

    [good o Q]: no fault, and a result satisfies [Q].  [triple I m Q]: from a state
    that satisfies [I], [m] never leaves an object, keeps [I] on success and on error,
    and returns a value that satisfies [Q]. *)
Definition good {E A} (o : outcome E A) (Q : A → Prop) : Prop :=
  match o with Ok a => Q a | Err _ => True | Fault => False end.

Definition triple {E S A} (I : S → Prop) (m : M E S A) (Q : A → Prop) : Prop :=
  ∀ s, I s → good (m s).1 Q ∧ I (m s).2.

Lemma good_mono {E A} (o : outcome E A) (Q R : A → Prop) : good o Q → (∀ a, Q a → R a) → good o R.
Proof. destruct o; cbn; auto. Qed.

Lemma good_true {E A} (o : outcome E A) : o ≠ Fault → good o (λ _, True).
Proof. by destruct o. Qed.

Lemma good_bind {E A B} (o : outcome E A) (k : A → outcome E B) Q R :
  good o Q → (∀ a, o = Ok a → Q a → good (k a) R) → good (o ≫= k) R.
Proof. destruct o; cbn; auto. Qed.

Lemma good_ok {E A} (o : outcome E A) (a : A) (Q : A → Prop) : o = Ok a → Q a → good o Q.
Proof. by intros ->. Qed.

Lemma good_check {E} b (e : E) : good (check b e) (λ _, b = true).
Proof. by destruct b. Qed.

Lemma good_nonnull {E A} (p : ptr A) (e : E) : good (nonnull p e) (λ a, p = Some a).
Proof. by destruct p. Qed.

Section triples.
Context {E S : Type} (I : S → Prop).

Lemma triple_ret {A} (a : A) (Q : A → Prop) : Q a → triple I (mret a : M E S A) Q.
Proof. intros H s Hs. by split. Qed.

Lemma triple_fail {A} (e : E) (Q : A → Prop) : triple I (fail e) Q.
Proof. intros s Hs. by split. Qed.

Lemma triple_bind {A B} (m : M E S A) (k : A → M E S B) Q R :
  triple I m Q → (∀ a, Q a → triple I (k a) R) → triple I (m ≫= k) R.
Proof.
  intros Hm Hk s Hs. rewrite bind_run. destruct (Hm s Hs) as [Ho Hs'].
  destruct (m s) as [[a|e|] s']; cbn in *; [by apply Hk|done|done].
Qed.

Lemma triple_conseq {A} (m : M E S A) (Q R : A → Prop) :
  triple I m Q → (∀ a, Q a → R a) → triple I m R.
Proof. intros Hm HQ s Hs. destruct (Hm s Hs). split; [by eapply good_mono|done]. Qed.

Lemma triple_get : triple I (get : M E S S) I.
Proof. intros s Hs. by split. Qed.

Lemma triple_put s : I s → triple I (put s : M E S unit) (λ _, True).
Proof. intros H s' _. by split. Qed.

Lemma triple_modify f : (∀ s, I s → I (f s)) → triple I (modify f : M E S unit) (λ _, True).
Proof. intros H s Hs. split; [done|]. by apply H. Qed.

Lemma triple_require b (e : E) : triple I (require b e) (λ _, b = true).
Proof. intros s Hs. by destruct b. Qed.

Lemma triple_deref {A} (p : ptr A) (e : E) : triple I (deref p e) (λ a, p = Some a).
Proof. intros s Hs. by destruct p. Qed.

Lemma triple_lift {A} (o : outcome E A) Q : good o Q → triple I (lift o) Q.
Proof. intros H s Hs. by split. Qed.
End triples.

Create HintDb triples.
#[export] Hint Resolve triple_ret triple_fail triple_get triple_put triple_require
  triple_deref : triples.

(** One step: names the result and what is known of it. *)
Tactic Notation "tstep" uconstr(lem) "as" simple_intropattern(a) simple_intropattern(H) :=
  eapply triple_bind; [apply lem|cbv beta; intros a H].
