(* ===== verification/Errors.v ===== *)
(** Constants and error codes of the public API.

    Models [src/c/include/auth/auth.h] (sizes, capability bits, the error
    enumeration), [auth_strerror] and [auth_err_is_wire] of
    [src/c/src/crypto/crypto.c], and [normalize_wire_error_code] of
    [src/c/src/wire/wire.c].

    A C [enum] object can hold any value of its integer type, so [auth_err_t]
    is the enumeration; a code read from the wire stays an integer until
    [normalize_wire_error_code] has mapped it to an enumerator. *)
From S2P Require Export Prelude.
From Stdlib.Strings Require String Ascii.
Export String.StringSyntax.
Abbreviation string := String.string.

#[global] Open Scope string_scope.
#[global] Open Scope nat_scope.
#[global] Open Scope list_scope.

(** ** Sizes and versions *)
Definition AUTH_PROTOCOL_VERSION : Z := 2.
Definition AUTH_MIN_SUPPORTED_VERSION : Z := 2.
Definition AUTH_POINT_LEN : nat := 32.
Definition AUTH_SCALAR_LEN : nat := 32.
Definition AUTH_NONCE_LEN : nat := 32.
Definition AUTH_HASH_LEN : nat := 32.
Definition AUTH_DEVICE_ID_LEN : nat := 32.
Definition AUTH_DEVICE_ROOT_LEN : nat := 32.
Definition AUTH_SETUP_CHALLENGE_LEN : nat := 16.
Definition AUTH_SESSION_ID_LEN : nat := 16.
Definition AUTH_SESSION_KEY_LEN : nat := 32.
Definition AUTH_MAC_KEY_LEN : nat := 32.
Definition AUTH_MAC_TAG_LEN : nat := 32.
Definition AUTH_HEADER_LEN : nat := 24.
Definition AUTH_MAX_DATAGRAM : nat := 2048.
Definition AUTH_MAX_PAYLOAD : nat := AUTH_MAX_DATAGRAM - AUTH_HEADER_LEN.
Definition AUTH_MAX_PAIRING_TOKEN : nat := 128.
Definition AUTH_MAX_ROLES : nat := 8.

#[export] Hint Unfold AUTH_POINT_LEN AUTH_SCALAR_LEN AUTH_NONCE_LEN AUTH_HASH_LEN
  AUTH_DEVICE_ID_LEN AUTH_DEVICE_ROOT_LEN AUTH_SETUP_CHALLENGE_LEN
  AUTH_SESSION_ID_LEN AUTH_SESSION_KEY_LEN AUTH_MAC_KEY_LEN AUTH_MAC_TAG_LEN
  AUTH_HEADER_LEN AUTH_MAX_DATAGRAM AUTH_MAX_PAYLOAD AUTH_MAX_PAIRING_TOKEN
  AUTH_MAX_ROLES : consts.

(** ** Suites and capabilities *)
Definition AUTH_SUITE_RISTRETTO255_SHA256 : Z := 1.
Definition AUTH_CAP_AUTH_V2 : Z := Z.shiftl 1 0.
Definition AUTH_CAP_ROLE_RERAND : Z := Z.shiftl 1 1.
Definition AUTH_CAP_ROLE_SET_MEMBERSHIP : Z := Z.shiftl 1 2.
Definition AUTH_CAP_PROFILE_STANDARD : Z := Z.shiftl 1 9.
Definition AUTH_CAPS_BASELINE : Z :=
  Z.lor (Z.lor (Z.lor AUTH_CAP_AUTH_V2 AUTH_CAP_ROLE_RERAND)
               AUTH_CAP_ROLE_SET_MEMBERSHIP) AUTH_CAP_PROFILE_STANDARD.

(** ** Error codes *)
Inductive auth_err_t : Set :=
  | AUTH_OK
  | AUTH_ERR_INVALID_ARGUMENT
  | AUTH_ERR_BUFFER_TOO_SMALL
  | AUTH_ERR_NOT_INITIALIZED
  | AUTH_ERR_IO
  | AUTH_ERR_TIMEOUT
  | AUTH_ERR_UNSUPPORTED_VERSION
  | AUTH_ERR_UNSUPPORTED_SUITE
  | AUTH_ERR_CAP_MISMATCH
  | AUTH_ERR_MALFORMED_PACKET
  | AUTH_ERR_UNKNOWN_PKT_TYPE
  | AUTH_ERR_PAYLOAD_TOO_LARGE
  | AUTH_ERR_PAYLOAD_TOO_SHORT
  | AUTH_ERR_INVALID_ENCODING
  | AUTH_ERR_INVALID_POINT
  | AUTH_ERR_NONCANONICAL_SCALAR
  | AUTH_ERR_IDENTITY_POINT
  | AUTH_ERR_PROOF_VERIFY
  | AUTH_ERR_KEY_CONFIRM
  | AUTH_ERR_PEER_KEY_MISMATCH
  | AUTH_ERR_UNKNOWN_SESSION
  | AUTH_ERR_SESSION_EXPIRED
  | AUTH_ERR_REPLAY_DETECTED
  | AUTH_ERR_SEQ_OUT_OF_ORDER
  | AUTH_ERR_UNKNOWN_DEVICE
  | AUTH_ERR_DEVICE_NOT_ENROLLED
  | AUTH_ERR_ROLE_NOT_PERMITTED
  | AUTH_ERR_PAIRING_TOKEN_BAD
  | AUTH_ERR_RATE_LIMITED
  | AUTH_ERR_SERVER_BUSY
  | AUTH_ERR_TOO_MANY_ACTIVE
  | AUTH_ERR_STORAGE_FAILURE
  | AUTH_ERR_CREDENTIAL_MISSING
  | AUTH_ERR_REGISTRY_CORRUPT
  | AUTH_ERR_UNSPECIFIED.

#[export] Instance auth_err_eq_dec : EqDecision auth_err_t.
Proof. solve_decision. Defined.

(** The value of an enumerator. *)
Definition err_code (e : auth_err_t) : Z :=
  match e with
  | AUTH_OK => 0x0000
  | AUTH_ERR_INVALID_ARGUMENT => 0x0001
  | AUTH_ERR_BUFFER_TOO_SMALL => 0x0002
  | AUTH_ERR_NOT_INITIALIZED => 0x0003
  | AUTH_ERR_IO => 0x0004
  | AUTH_ERR_TIMEOUT => 0x0005
  | AUTH_ERR_UNSUPPORTED_VERSION => 0x0101
  | AUTH_ERR_UNSUPPORTED_SUITE => 0x0102
  | AUTH_ERR_CAP_MISMATCH => 0x0103
  | AUTH_ERR_MALFORMED_PACKET => 0x0201
  | AUTH_ERR_UNKNOWN_PKT_TYPE => 0x0202
  | AUTH_ERR_PAYLOAD_TOO_LARGE => 0x0203
  | AUTH_ERR_PAYLOAD_TOO_SHORT => 0x0204
  | AUTH_ERR_INVALID_ENCODING => 0x0205
  | AUTH_ERR_INVALID_POINT => 0x0301
  | AUTH_ERR_NONCANONICAL_SCALAR => 0x0302
  | AUTH_ERR_IDENTITY_POINT => 0x0303
  | AUTH_ERR_PROOF_VERIFY => 0x0304
  | AUTH_ERR_KEY_CONFIRM => 0x0305
  | AUTH_ERR_PEER_KEY_MISMATCH => 0x0306
  | AUTH_ERR_UNKNOWN_SESSION => 0x0401
  | AUTH_ERR_SESSION_EXPIRED => 0x0402
  | AUTH_ERR_REPLAY_DETECTED => 0x0403
  | AUTH_ERR_SEQ_OUT_OF_ORDER => 0x0404
  | AUTH_ERR_UNKNOWN_DEVICE => 0x0501
  | AUTH_ERR_DEVICE_NOT_ENROLLED => 0x0502
  | AUTH_ERR_ROLE_NOT_PERMITTED => 0x0503
  | AUTH_ERR_PAIRING_TOKEN_BAD => 0x0504
  | AUTH_ERR_RATE_LIMITED => 0x0601
  | AUTH_ERR_SERVER_BUSY => 0x0602
  | AUTH_ERR_TOO_MANY_ACTIVE => 0x0603
  | AUTH_ERR_STORAGE_FAILURE => 0x0701
  | AUTH_ERR_CREDENTIAL_MISSING => 0x0702
  | AUTH_ERR_REGISTRY_CORRUPT => 0x0703
  | AUTH_ERR_UNSPECIFIED => 0x7FFF
  end%Z.

Definition all_errs : list auth_err_t :=
  [AUTH_OK; AUTH_ERR_INVALID_ARGUMENT; AUTH_ERR_BUFFER_TOO_SMALL; AUTH_ERR_NOT_INITIALIZED; AUTH_ERR_IO; AUTH_ERR_TIMEOUT; AUTH_ERR_UNSUPPORTED_VERSION; AUTH_ERR_UNSUPPORTED_SUITE; AUTH_ERR_CAP_MISMATCH; AUTH_ERR_MALFORMED_PACKET; AUTH_ERR_UNKNOWN_PKT_TYPE; AUTH_ERR_PAYLOAD_TOO_LARGE; AUTH_ERR_PAYLOAD_TOO_SHORT; AUTH_ERR_INVALID_ENCODING; AUTH_ERR_INVALID_POINT; AUTH_ERR_NONCANONICAL_SCALAR; AUTH_ERR_IDENTITY_POINT; AUTH_ERR_PROOF_VERIFY; AUTH_ERR_KEY_CONFIRM; AUTH_ERR_PEER_KEY_MISMATCH; AUTH_ERR_UNKNOWN_SESSION; AUTH_ERR_SESSION_EXPIRED; AUTH_ERR_REPLAY_DETECTED; AUTH_ERR_SEQ_OUT_OF_ORDER; AUTH_ERR_UNKNOWN_DEVICE; AUTH_ERR_DEVICE_NOT_ENROLLED; AUTH_ERR_ROLE_NOT_PERMITTED; AUTH_ERR_PAIRING_TOKEN_BAD; AUTH_ERR_RATE_LIMITED; AUTH_ERR_SERVER_BUSY; AUTH_ERR_TOO_MANY_ACTIVE; AUTH_ERR_STORAGE_FAILURE; AUTH_ERR_CREDENTIAL_MISSING; AUTH_ERR_REGISTRY_CORRUPT; AUTH_ERR_UNSPECIFIED].

Lemma elem_of_all_errs e : e ∈ all_errs.
Proof. apply (bool_decide_unpack _). by destruct e. Qed.

Definition is_ok (e : auth_err_t) : bool := bool_decide (e = AUTH_OK).

Definition auth_strerror (err : auth_err_t) : string :=
  match err with
  | AUTH_OK => "OK"
  | AUTH_ERR_INVALID_ARGUMENT => "invalid argument"
  | AUTH_ERR_BUFFER_TOO_SMALL => "buffer too small"
  | AUTH_ERR_NOT_INITIALIZED => "not initialized"
  | AUTH_ERR_IO => "I/O error"
  | AUTH_ERR_TIMEOUT => "timeout"
  | AUTH_ERR_UNSUPPORTED_VERSION => "unsupported protocol version"
  | AUTH_ERR_UNSUPPORTED_SUITE => "unsupported cipher suite"
  | AUTH_ERR_CAP_MISMATCH => "capability mismatch"
  | AUTH_ERR_MALFORMED_PACKET => "malformed packet"
  | AUTH_ERR_UNKNOWN_PKT_TYPE => "unknown packet type"
  | AUTH_ERR_PAYLOAD_TOO_LARGE => "payload too large"
  | AUTH_ERR_PAYLOAD_TOO_SHORT => "payload too short"
  | AUTH_ERR_INVALID_ENCODING => "invalid encoding"
  | AUTH_ERR_INVALID_POINT => "invalid Ristretto255 point"
  | AUTH_ERR_NONCANONICAL_SCALAR => "non-canonical scalar"
  | AUTH_ERR_IDENTITY_POINT => "identity point rejected"
  | AUTH_ERR_PROOF_VERIFY => "proof verification failed"
  | AUTH_ERR_KEY_CONFIRM => "key confirmation failed"
  | AUTH_ERR_PEER_KEY_MISMATCH => "peer key mismatch"
  | AUTH_ERR_UNKNOWN_SESSION => "unknown session"
  | AUTH_ERR_SESSION_EXPIRED => "session expired"
  | AUTH_ERR_REPLAY_DETECTED => "replay detected"
  | AUTH_ERR_SEQ_OUT_OF_ORDER => "sequence number out of order"
  | AUTH_ERR_UNKNOWN_DEVICE => "unknown device"
  | AUTH_ERR_DEVICE_NOT_ENROLLED => "device not enrolled"
  | AUTH_ERR_ROLE_NOT_PERMITTED => "role not permitted"
  | AUTH_ERR_PAIRING_TOKEN_BAD => "pairing token invalid"
  | AUTH_ERR_RATE_LIMITED => "rate limited"
  | AUTH_ERR_SERVER_BUSY => "server busy"
  | AUTH_ERR_TOO_MANY_ACTIVE => "too many active sessions"
  | AUTH_ERR_STORAGE_FAILURE => "storage failure"
  | AUTH_ERR_CREDENTIAL_MISSING => "credential missing"
  | AUTH_ERR_REGISTRY_CORRUPT => "registry corrupt"
  | AUTH_ERR_UNSPECIFIED => "unspecified"
  end.

(** [uint16_t code = (uint16_t)err; return code >= 0x0100 && code <= 0x07FF;] *)
Definition auth_err_is_wire (err : auth_err_t) : bool :=
  let code := u16 (err_code err) in
  ((0x0100 <=? code) && (code <=? 0x07FF))%Z.

(** The [case] labels of the switch, in their order. *)
Definition wire_error_cases : list auth_err_t :=
  [AUTH_ERR_UNSUPPORTED_VERSION; AUTH_ERR_UNSUPPORTED_SUITE; AUTH_ERR_CAP_MISMATCH; AUTH_ERR_MALFORMED_PACKET; AUTH_ERR_UNKNOWN_PKT_TYPE; AUTH_ERR_PAYLOAD_TOO_LARGE; AUTH_ERR_PAYLOAD_TOO_SHORT; AUTH_ERR_INVALID_ENCODING; AUTH_ERR_INVALID_POINT; AUTH_ERR_NONCANONICAL_SCALAR; AUTH_ERR_IDENTITY_POINT; AUTH_ERR_PROOF_VERIFY; AUTH_ERR_KEY_CONFIRM; AUTH_ERR_PEER_KEY_MISMATCH; AUTH_ERR_UNKNOWN_SESSION; AUTH_ERR_SESSION_EXPIRED; AUTH_ERR_REPLAY_DETECTED; AUTH_ERR_SEQ_OUT_OF_ORDER; AUTH_ERR_UNKNOWN_DEVICE; AUTH_ERR_DEVICE_NOT_ENROLLED; AUTH_ERR_ROLE_NOT_PERMITTED; AUTH_ERR_PAIRING_TOKEN_BAD; AUTH_ERR_RATE_LIMITED; AUTH_ERR_SERVER_BUSY; AUTH_ERR_TOO_MANY_ACTIVE; AUTH_ERR_STORAGE_FAILURE; AUTH_ERR_CREDENTIAL_MISSING; AUTH_ERR_REGISTRY_CORRUPT; AUTH_ERR_UNSPECIFIED].

Definition normalize_wire_error_code (code : Z) : auth_err_t :=
  match list_find (λ e, err_code e = code) wire_error_cases with
  | Some (_, e) => e
  | None => AUTH_ERR_UNSPECIFIED
  end.

(** The characters of a C string as bytes ([strlen] is their number). *)
Fixpoint str_bytes (s : string) : bytes :=
  match s with
  | String.EmptyString => []
  | String.String c s => u8 (Z.of_N (Ascii.N_of_ascii c)) :: str_bytes s
  end.

(** ** Facts *)
Lemma err_code_inj e1 e2 : err_code e1 = err_code e2 → e1 = e2.
Proof.
  assert (H : Forall (λ e1, Forall (λ e2, bool_decide (err_code e1 = err_code e2 → e1 = e2))
    all_errs) all_errs) by (apply (bool_decide_unpack _); vm_compute; done).
  rewrite list.Forall_forall in H. specialize (H e1 (elem_of_all_errs e1)).
  rewrite list.Forall_forall in H. specialize (H e2 (elem_of_all_errs e2)).
  by apply (bool_decide_unpack _) in H.
Qed.

Lemma err_code_is_u16 e : is_u16 (err_code e).
Proof. destruct e; unfold is_u16; cbn; lia. Qed.

(** A code of the switch is returned unchanged. *)
Lemma normalize_listed e :
  e ∈ wire_error_cases → normalize_wire_error_code (err_code e) = e.
Proof.
  intros H. unfold normalize_wire_error_code.
  destruct (list_find_elem_of (λ e', err_code e' = err_code e) _ e H eq_refl)
    as [[i e'] E]. rewrite E.
  apply list_find_Some in E as (_ & E & _). by apply err_code_inj.
Qed.

(** Any other code becomes [AUTH_ERR_UNSPECIFIED]. *)
Lemma normalize_unlisted code :
  (∀ e, e ∈ wire_error_cases → err_code e ≠ code) →
  normalize_wire_error_code code = AUTH_ERR_UNSPECIFIED.
Proof.
  intros H. unfold normalize_wire_error_code.
  destruct (list_find _ _) as [[i e']|] eqn:E; [|done].
  apply list_find_Some in E as (E1 & E2 & _).
  apply list_elem_of_lookup_2, H in E1. done.
Qed.

Lemma normalize_in_cases code : normalize_wire_error_code code ∈ wire_error_cases.
Proof.
  unfold normalize_wire_error_code.
  destruct (list_find _ _) as [[i e']|] eqn:E.
  - apply list_find_Some in E as (E1 & _). by eapply list_elem_of_lookup_2.
  - apply (bool_decide_unpack _). vm_compute. done.
Qed.

(** The enumerators that cross the wire unchanged: those of category [0x01]
    to [0x07], and [AUTH_ERR_UNSPECIFIED]. *)
Lemma wire_error_cases_spec e :
  e ∈ wire_error_cases ↔ auth_err_is_wire e = true ∨ e = AUTH_ERR_UNSPECIFIED.
Proof.
  revert e. assert (Forall (λ e, bool_decide (e ∈ wire_error_cases) =
    auth_err_is_wire e || bool_decide (e = AUTH_ERR_UNSPECIFIED)) all_errs) as H.
  { apply (bool_decide_unpack _). vm_compute. done. }
  rewrite list.Forall_forall in H. intros e. specialize (H e (elem_of_all_errs e)).
  rewrite <- (bool_decide_eq_true (e ∈ _)), H, orb_true_iff, bool_decide_eq_true.
  done.
Qed.

Lemma length_str_bytes s : length (str_bytes s) = String.length s.
Proof. induction s; cbn; auto. Qed.
