(* ===== verification/Args.v ===== *)
(** The command line of the client: [parse_args] and [parse_role_list] of
    [src/c/bin/client.c], and [strtoull] of the C library.

    A C string is the list of its bytes before the terminating zero; [argv] is the
    list of the arguments, the program's name first.  [strtoull] is the function of
    the C standard (7.22.1.4) with base 10 in the C locale. *)
From S2P Require Export Errors.

(** ** Numerals *)

(** [isspace] *)
Definition isspace (c : byte) : bool := bool_decide (c ∈ [Byte.x20; Byte.x09; Byte.x0a; Byte.x0b; Byte.x0c; Byte.x0d]).

Definition digit_of (c : byte) : option Z :=
  let v := (b2z c - 48)%Z in if (0 <=? v)%Z && (v <=? 9)%Z then Some v else None.

Fixpoint skip_spaces (p : bytes) : nat :=
  match p with c :: p => if isspace c then S (skip_spaces p) else 0 | [] => 0 end.

(** The digits at the start, as a number, and how many there are. *)
Fixpoint read_digits (v : Z) (n : nat) (p : bytes) : Z * nat :=
  match p with
  | c :: p' => match digit_of c with Some d => read_digits (10 * v + d) (S n) p' | None => (v, n) end
  | [] => (v, n)
  end.

Definition ULLONG_MAX : Z := 18446744073709551615.

(** [strtoull(p, &end, 10)]: the value and [end - p]. *)
Definition strtoull (p : bytes) : Z * nat :=
  let spaces := skip_spaces p in
  let p := drop spaces p in
  let sign := match p with c :: _ => bool_decide (c ∈ [Byte.x2b; Byte.x2d]) | [] => false end in
  let negative := match p with c :: _ => bool_decide (c = Byte.x2d) | [] => false end in
  let '(v, n) := read_digits 0 0 (if sign then drop 1 p else p) in
  if n =? 0 then (0%Z, 0)
  else (if (ULLONG_MAX <? v)%Z then ULLONG_MAX else if negative then u64 (- v) else v,
        spaces + (if sign then 1 else 0) + n).

(** [return -1] and [exit(0)]. *)
Inductive stop := Refused | Helped.

(** [strcmp(k, name) == 0] *)
Definition is_opt (k : bytes) (name : String.string) : bool := memeq k (str_bytes name).

(** ** The loop over [argv]

    [for (int i = 1; i < argc; ++i)] over options with a value [argv[++i]] and options
    without one, for the two programs. *)
Section loop.
Context {S : Type} (takes_value : bytes → bool) (option_value : bytes → bytes → M stop S unit)
  (option_flag : bytes → M stop S unit).

Fixpoint option_loop (l : list bytes) : M stop S unit :=
  match l with
  | [] => mret tt
  | k :: l =>
      if takes_value k then
        match l with
        | v :: l => option_value k v;; option_loop l
        | [] => fail Refused
        end
      else option_flag k;; option_loop l
  end.

(** The options [l] have the effect [f], whatever comes after. *)
Definition reads (l : list bytes) (f : S → S) : Prop := ∀ rest a, option_loop (l ++ rest) a = option_loop rest (f a).

Lemma reads_app l1 l2 f1 f2 : reads l1 f1 → reads l2 f2 → reads (l1 ++ l2) (λ a, f2 (f1 a)).
Proof. intros H1 H2 rest a. by rewrite <- app_assoc, H1, H2. Qed.

Lemma option_loop_safe (I : S → Prop) l :
  (∀ k v, triple I (option_value k v) (λ _, True)) → (∀ k, triple I (option_flag k) (λ _, True)) →
  triple I (option_loop l) (λ _, True).
Proof.
  intros Hv Hf. assert (∀ n l, length l ≤ n → triple I (option_loop l) (λ _, True)) as H; [|by eapply H].
  clear l. induction n as [|n IH]; intros [|k l] Hl; [by apply triple_ret|cbn in Hl; lia|by apply triple_ret|].
  cbn [option_loop]. cbn in Hl. destruct (takes_value k).
  - destruct l as [|v l]; [apply triple_fail|]. cbn in Hl. eapply triple_bind; [apply Hv|]. intros _ _. apply IH. lia.
  - eapply triple_bind; [apply Hf|]. intros _ _. apply IH. lia.
Qed.
End loop.

(** ** The arguments *)
Inductive transport_kind_t := TRANSPORT_UDP | TRANSPORT_TCP.

#[export] Instance transport_kind_eq_dec : EqDecision transport_kind_t.
Proof. solve_decision. Defined.

Record args_t := {
  a_server : ptr bytes;
  a_transport : transport_kind_t;
  a_state_dir_p : ptr bytes;
  a_do_setup : bool;
  a_allow_tofu : bool;
  a_role : Z;
  a_allowed_v : list Z;
  a_n_allowed : nat;
  a_pairing_token : ptr bytes
}.

(** [a->state_dir], which [parse_args] leaves non-null. *)
Definition a_state_dir (a : args_t) : bytes := default [] (a_state_dir_p a).

(** [a->allowed[0 .. a->n_allowed - 1]] *)
Definition a_allowed (a : args_t) : list Z := take (a_n_allowed a) (a_allowed_v a).

Definition eta_args (a : args_t) : args_t :=
  {| a_server := a_server a; a_transport := a_transport a; a_state_dir_p := a_state_dir_p a; a_do_setup := a_do_setup a;
     a_allow_tofu := a_allow_tofu a; a_role := a_role a; a_allowed_v := a_allowed_v a; a_n_allowed := a_n_allowed a;
     a_pairing_token := a_pairing_token a |}.

Definition set_server v a : args_t := ltac:(set_field eta_args a_server a v).
Definition set_transport v a : args_t := ltac:(set_field eta_args a_transport a v).
Definition set_state_dir v a : args_t := ltac:(set_field eta_args a_state_dir_p a v).
Definition set_do_setup v a : args_t := ltac:(set_field eta_args a_do_setup a v).
Definition set_allow_tofu v a : args_t := ltac:(set_field eta_args a_allow_tofu a v).
Definition set_role v a : args_t := ltac:(set_field eta_args a_role a v).
Definition set_allowed v a : args_t := ltac:(set_field eta_args a_allowed_v a v).
Definition set_n_allowed v a : args_t := ltac:(set_field eta_args a_n_allowed a v).
Definition set_pairing_token v a : args_t := ltac:(set_field eta_args a_pairing_token a v).

(** [out] at the index [*n_out], which goes up by one. *)
Definition push_role (v : Z) : M stop (list Z * nat) unit := λ '(out, n),
  if n <? length out then (Ok tt, (<[n := v]> out, S n)) else (Fault, (out, n)).

(** The loop of [parse_role_list]; [room] is [cap - *n_out]. *)
Fixpoint parse_roles (room : nat) (p : bytes) : M stop (list Z * nat) unit :=
  match p, room with
  | [], _ | _, O => mret tt
  | _, S room =>
      let '(v, n) := strtoull p in
      require (negb (n =? 0)) Refused;;
      push_role v;;
      match drop n p with
      | [] => mret tt
      | c :: p => require (bool_decide (c = Byte.x2c)) Refused;; parse_roles room p
      end
  end.

Definition parse_role_list (s : bytes) (cap : nat) : M stop (list Z * nat) unit :=
  modify (λ '(out, _), (out, 0));; parse_roles cap s.

Definition on_allowed {A} (m : M stop (list Z * nat) A) : M stop args_t A := λ a,
  let '(o, (out, n)) := m (a_allowed_v a, a_n_allowed a) in (o, set_n_allowed n (set_allowed out a)).

Section options.
Local Open Scope string_scope.

Definition takes_value (k : bytes) : bool :=
  is_opt k "--server" || is_opt k "--transport" || is_opt k "--state-dir" || is_opt k "--role" ||
  is_opt k "--allowed-roles" || is_opt k "--pairing-token".

(** An option with its value [argv[++i]]. *)
Definition option_value (k v : bytes) : M stop args_t unit :=
  if is_opt k "--server" then modify (set_server (Some v))
  else if is_opt k "--transport" then
    if is_opt v "udp" then modify (set_transport TRANSPORT_UDP)
    else if is_opt v "tcp" then modify (set_transport TRANSPORT_TCP)
    else fail Refused
  else if is_opt k "--state-dir" then modify (set_state_dir (Some v))
  else if is_opt k "--role" then modify (set_role (strtoull v).1)
  else if is_opt k "--allowed-roles" then on_allowed (parse_role_list v AUTH_MAX_ROLES)
  else modify (set_pairing_token (Some v)).

(** An option without a value, or one that is not known. *)
Definition option_flag (k : bytes) : M stop args_t unit :=
  if is_opt k "--setup" then modify (set_do_setup true)
  else if is_opt k "--allow-tofu-setup" then modify (set_allow_tofu true)
  else if is_opt k "-h" || is_opt k "--help" then fail Helped
  else fail Refused.

(** The loop of [parse_args] from [argv[i]] on. *)
Definition parse_options (l : list bytes) : M stop args_t unit := option_loop takes_value option_value option_flag l.

(** The arguments before the loop. *)
Definition default_args : args_t :=
  {| a_server := NULL; a_transport := TRANSPORT_UDP; a_state_dir_p := NULL; a_do_setup := false; a_allow_tofu := false;
     a_role := 2; a_allowed_v := [1; 2; 0; 0; 0; 0; 0; 0]%Z; a_n_allowed := 2; a_pairing_token := NULL |}.

Definition parse_args (argv : list bytes) : M stop args_t unit :=
  put default_args;;
  parse_options (tl argv);;
  a ← get;
  deref (a_server a) Refused;;
  match a_state_dir_p a with
  | None => modify (set_state_dir (Some (str_bytes "./client-state")))
  | Some _ => mret tt
  end.

(** ** Printing arguments *)

(** The decimal digits of [v] before [rest]. *)
Fixpoint print_digits (fuel : nat) (v : Z) (rest : bytes) : bytes :=
  match fuel with
  | O => rest
  | S fuel =>
      let rest := u8 (48 + v mod 10) :: rest in
      if (v <? 10)%Z then rest else print_digits fuel (v / 10) rest
  end.

(** Twenty digits are enough for a [uint64_t]. *)
Definition decimal (v : Z) : bytes := print_digits 20 v [].

Fixpoint print_roles (roles : list Z) : bytes :=
  match roles with
  | [] => []
  | v :: roles => decimal v ++ match roles with [] => [] | _ => Byte.x2c :: print_roles roles end
  end.

Definition print_option (name : String.string) (v : ptr bytes) : list bytes :=
  match v with Some v => [str_bytes name; v] | None => [] end.

Definition print_flag (name : String.string) (b : bool) : list bytes := if b then [str_bytes name] else [].

(** A command line with these arguments. *)
Definition print_args (a : args_t) : list bytes :=
  print_option "--allowed-roles" (Some (print_roles (a_allowed a))) ++ print_option "--server" (a_server a) ++
  [str_bytes "--transport"; str_bytes (match a_transport a with TRANSPORT_UDP => "udp" | TRANSPORT_TCP => "tcp" end)] ++
  print_option "--state-dir" (a_state_dir_p a) ++ print_flag "--setup" (a_do_setup a) ++
  print_flag "--allow-tofu-setup" (a_allow_tofu a) ++ print_option "--role" (Some (decimal (a_role a))) ++
  print_option "--pairing-token" (a_pairing_token a).
End options.

(** ** Numerals are read back *)
Lemma digit_of_digit d : (0 ≤ d ≤ 9)%Z → digit_of (u8 (48 + d)) = Some d.
Proof.
  intros Hd. unfold digit_of. rewrite b2z_u8, Z.mod_small by lia. replace (48 + d - 48)%Z with d by lia.
  by rewrite (proj2 (Z.leb_le _ _)), (proj2 (Z.leb_le _ _)) by lia.
Qed.

Lemma digit_range c d : digit_of c = Some d → (0 ≤ d ≤ 9)%Z.
Proof. unfold digit_of. destruct (_ && _) eqn:E; [|done]. intros [= <-]. apply andb_true_iff in E as [? ?]. lia. Qed.

(** A digit is neither a space nor a sign. *)
Lemma digit_plain c d :
  digit_of c = Some d →
  isspace c = false ∧ bool_decide (c ∈ [Byte.x2b; Byte.x2d]) = false ∧ bool_decide (c = Byte.x2d) = false.
Proof. intros H. destruct c; first [discriminate H|split_and!; reflexivity]. Qed.

Lemma read_digits_stop v n p : match p with c :: _ => digit_of c = None | [] => True end → read_digits v n p = (v, n).
Proof. destruct p as [|c p]; [done|]. cbn. by intros ->. Qed.

Lemma print_digits_app fuel v rest rest' : print_digits fuel v (rest ++ rest') = print_digits fuel v rest ++ rest'.
Proof.
  revert v rest. induction fuel as [|fuel IH]; intros v rest; [done|]. cbn [print_digits].
  destruct (v <? 10)%Z; [done|]. apply (IH _ (_ :: rest)).
Qed.

Lemma read_print_digits fuel v n rest :
  (0 ≤ v < 10 ^ Z.of_nat fuel)%Z → 0 < fuel →
  ∃ k, 0 < k ∧ length (print_digits fuel v rest) = k + length rest ∧
    read_digits 0 n (print_digits fuel v rest) = read_digits v (n + k) rest.
Proof.
  revert v n rest. induction fuel as [|fuel IH]; intros v n rest Hv Hf; [lia|]. cbn [print_digits].
  pose proof (Z.mod_pos_bound v 10 ltac:(lia)) as Hm. pose proof (Z.div_mod v 10 ltac:(lia)) as Hd.
  destruct (Z.ltb_spec v 10).
  - exists 1. rewrite Z.mod_small by lia. split_and!; [lia|done|]. cbn [read_digits]. rewrite digit_of_digit by lia.
    by rewrite Nat.add_comm.
  - rewrite Nat2Z.inj_succ, Z.pow_succ_r in Hv by lia. destruct fuel as [|fuel]; [cbn in Hv; lia|].
    destruct (IH (v / 10)%Z n (u8 (48 + v mod 10) :: rest)) as (k & Hk & Hl & Hr); [|lia|].
    { split; [apply Z.div_pos; lia|]. apply Z.div_lt_upper_bound; lia. }
    exists (S k). split_and!; [lia|rewrite Hl; cbn; lia|]. rewrite Hr. cbn [read_digits]. rewrite digit_of_digit by lia.
    rewrite <- Hd. f_equal. lia.
Qed.

Lemma decimal_head v : is_u64 v → ∃ c d p, decimal v = c :: p ∧ digit_of c = Some d.
Proof.
  intros [H0 H1]. assert (∀ fuel w rest, (∃ c d p, rest = c :: p ∧ digit_of c = Some d) →
    ∃ c d p, print_digits fuel w rest = c :: p ∧ digit_of c = Some d) as Hp.
  { induction fuel as [|fuel IH]; intros w rest Hr; [done|]. cbn [print_digits].
    assert (∃ c d p, u8 (48 + w mod 10) :: rest = c :: p ∧ digit_of c = Some d) as Hr'.
    { eexists _, _, _. split; [done|]. apply digit_of_digit. pose proof (Z.mod_pos_bound w 10 ltac:(lia)). lia. }
    destruct (w <? 10)%Z; [done|]. by apply IH. }
  unfold decimal. cbn [print_digits]. pose proof (Z.mod_pos_bound v 10 ltac:(lia)).
  assert (∃ c d p, [u8 (48 + v mod 10)] = c :: p ∧ digit_of c = Some d) as Hr.
  { eexists _, _, _. split; [done|]. apply digit_of_digit. lia. }
  destruct (v <? 10)%Z; [done|]. exact (Hp 19 (v / 10)%Z _ Hr).
Qed.

Lemma strtoull_decimal v rest :
  is_u64 v → match rest with c :: _ => digit_of c = None | [] => True end →
  strtoull (decimal v ++ rest) = (v, length (decimal v)) ∧ 0 < length (decimal v).
Proof.
  intros Hv Hr. destruct (decimal_head v Hv) as (c & d & p & E & Hc). destruct (digit_plain c d Hc) as (Hs & Hsg & Hng).
  assert (0 ≤ v < 10 ^ Z.of_nat 20)%Z as Hb by (unfold is_u64 in Hv; cbn; lia).
  destruct (read_print_digits 20 v 0 rest Hb ltac:(lia)) as (k & Hk & Hl & He).
  assert (print_digits 20 v rest = decimal v ++ rest) as Ep by apply (print_digits_app 20 v [] rest).
  rewrite Ep in Hl, He. rewrite length_app in Hl. assert (length (decimal v) = k) as Hlk by lia. split; [|lia].
  rewrite (read_digits_stop v) in He by done. cbn [Nat.add] in He. rewrite Hlk. clear Ep Hl. unfold strtoull. cbv zeta.
  assert (skip_spaces (decimal v ++ rest) = 0) as -> by (rewrite E; cbn; by rewrite Hs). rewrite drop_0.
  assert (match decimal v ++ rest with c :: _ => bool_decide (c ∈ [Byte.x2b; Byte.x2d]) | [] => false end = false) as ->
    by (rewrite E; exact Hsg).
  assert (match decimal v ++ rest with c :: _ => bool_decide (c = Byte.x2d) | [] => false end = false) as ->
    by (rewrite E; exact Hng).
  rewrite He. rewrite (proj2 (Nat.eqb_neq _ _)) by lia. unfold ULLONG_MAX.
  rewrite (proj2 (Z.ltb_ge _ _)) by (unfold is_u64 in Hv; lia). done.
Qed.

Lemma read_digits_bounds v n p : (0 ≤ v)%Z → (0 ≤ (read_digits v n p).1)%Z ∧ n ≤ (read_digits v n p).2 ≤ n + length p.
Proof.
  revert v n. induction p as [|c p IH]; intros v n Hv; cbn [read_digits length]; [cbn; lia|].
  destruct (digit_of c) as [d|] eqn:E; [|cbn; lia]. apply digit_range in E. specialize (IH (10 * v + d)%Z (S n) ltac:(lia)). lia.
Qed.

Lemma skip_spaces_le p : skip_spaces p ≤ length p.
Proof. induction p as [|c p IH]; cbn; [lia|]. destruct (isspace c); lia. Qed.

(** What [strtoull] returns is a [uint64_t], and [end] is inside the string. *)
Lemma strtoull_range p : is_u64 (strtoull p).1 ∧ (strtoull p).2 ≤ length p.
Proof.
  unfold strtoull. set (p1 := drop (skip_spaces p) p). pose proof (skip_spaces_le p) as Hs.
  assert (length p1 = length p - skip_spaces p) as Hp by (unfold p1; by rewrite length_drop).
  set (sign := match p1 with c :: _ => _ | [] => false end). set (neg := match p1 with c :: _ => _ | [] => false end).
  assert (length (if sign then drop 1 p1 else p1) + (if sign then 1 else 0) = length p1) as Hl.
  { unfold sign. destruct p1 as [|c p1]; [done|]. destruct (bool_decide _); rewrite ?length_drop; cbn; lia. }
  destruct (read_digits_bounds 0 0 (if sign then drop 1 p1 else p1) ltac:(lia)) as [Hv Hn].
  destruct (read_digits _ _ _) as [v n]. cbn [fst snd] in *. destruct (Nat.eqb_spec n 0); cbn [fst snd].
  - split; [|lia]. split; [lia|reflexivity].
  - split; [|lia]. unfold ULLONG_MAX, is_u64. destruct (Z.ltb_spec 18446744073709551615 v); [lia|].
    destruct neg; [|lia]. apply Z.mod_pos_bound. lia.
Qed.

(** ** Role lists *)
Lemma parse_roles_step room p :
  p ≠ [] → parse_roles (S room) p =
    (let '(v, n) := strtoull p in
     require (negb (n =? 0)) Refused;; push_role v;;
     match drop n p with
     | [] => mret tt
     | c :: p => require (bool_decide (c = Byte.x2c)) Refused;; parse_roles room p
     end).
Proof. by destruct p. Qed.

Lemma parse_roles_end p : parse_roles 0 p = mret tt.
Proof. by destruct p. Qed.

(** A list that is longer than the array is cut, whatever follows. *)
Lemma parse_roles_print room roles out n :
  Forall is_u64 roles → n + room ≤ length out →
  ∃ out', parse_roles room (print_roles roles) (out, n) = (Ok tt, (out', n + min room (length roles))) ∧
    length out' = length out ∧ take (n + min room (length roles)) out' = take n out ++ take room roles.
Proof.
  intros Hu. revert roles Hu out n. induction room as [|room IH]; intros roles Hu out n Hr.
  { exists out. by rewrite parse_roles_end, Nat.min_0_l, Nat.add_0_r, take_0, app_nil_r. }
  destruct Hu as [|v roles Hv Hu].
  { exists out. cbn [print_roles length]. rewrite Nat.min_0_r, Nat.add_0_r, take_nil, app_nil_r. done. }
  cbn [print_roles]. set (rest := match roles with [] => [] | _ => _ end).
  destruct (strtoull_decimal v rest Hv) as [E Hl]; [unfold rest; by destruct roles|].
  rewrite parse_roles_step by (intros H; apply app_nil in H as [H _]; rewrite H in Hl; cbn in Hl; lia).
  rewrite E. rewrite (proj2 (Nat.eqb_neq _ _)) by lia. cbn [negb]. mstep. mstep. unfold push_role.
  rewrite (proj2 (Nat.ltb_lt n (length out))) by lia. rewrite drop_app_length.
  assert (take (S n) (<[n:=v]> out) = take n out ++ [v]) as Ht.
  { rewrite insert_take_drop by lia. rewrite take_app_ge by (rewrite length_take; lia).
    rewrite length_take_le by lia. replace (S n - n) with 1 by lia. cbn. by rewrite take_0. }
  unfold rest. destruct roles as [|w roles].
  - exists (<[n:=v]> out). rewrite length_insert. cbn [length]. replace (min (S room) 1) with 1 by lia.
    rewrite Nat.add_1_r. cbn. by rewrite take_nil.
  - mstep. destruct (IH (w :: roles) Hu (<[n:=v]> out) (S n)) as (out' & Ep & Hlen & Hout); [rewrite length_insert; lia|].
    exists out'. rewrite bool_decide_true by done. cbn [require]. unfold mret at 1, M_ret at 1. rewrite Ep, Hlen, length_insert.
    cbn [length] in *. replace (n + min (S room) (S (S (length roles)))) with (S n + min room (S (length roles))) by lia.
    split_and!; [done|done|]. by rewrite Hout, Ht, <- app_assoc.
Qed.

Lemma role_list_print roles out n :
  Forall is_u64 roles → length out = AUTH_MAX_ROLES →
  ∃ out', parse_role_list (print_roles roles) AUTH_MAX_ROLES (out, n) =
      (Ok tt, (out', min AUTH_MAX_ROLES (length roles))) ∧
    length out' = length out ∧ take (min AUTH_MAX_ROLES (length roles)) out' = take AUTH_MAX_ROLES roles.
Proof. intros Hu Ho. apply (parse_roles_print AUTH_MAX_ROLES roles out 0 Hu). by rewrite Ho. Qed.

(** ** Command lines *)

Abbreviation reads_args := (reads takes_value option_value option_flag).

Lemma reads_server v : reads_args (print_option "--server" (Some v)) (set_server (Some v)).
Proof. done. Qed.
Lemma reads_state_dir v : reads_args (print_option "--state-dir" (Some v)) (set_state_dir (Some v)).
Proof. done. Qed.
Lemma reads_transport t :
  reads_args [str_bytes "--transport"; str_bytes (match t with TRANSPORT_UDP => "udp" | TRANSPORT_TCP => "tcp" end)] (set_transport t).
Proof. by destruct t. Qed.
Lemma reads_setup b : reads_args (print_flag "--setup" b) (λ a, if b then set_do_setup true a else a).
Proof. by destruct b. Qed.
Lemma reads_tofu b : reads_args (print_flag "--allow-tofu-setup" b) (λ a, if b then set_allow_tofu true a else a).
Proof. by destruct b. Qed.
Lemma reads_token p :
  reads_args (print_option "--pairing-token" p) (λ a, match p with Some _ => set_pairing_token p a | None => a end).
Proof. by destruct p. Qed.
Lemma reads_role v : is_u64 v → reads_args (print_option "--role" (Some (decimal v))) (set_role v).
Proof.
  intros Hv rest a. destruct (strtoull_decimal v [] Hv I) as [E _]. rewrite app_nil_r in E.
  change (parse_options rest (set_role (strtoull (decimal v)).1 a) = parse_options rest (set_role v a)). by rewrite E.
Qed.

Record args_wf (a : args_t) : Prop := {
  aw_role : is_u64 (a_role a);
  aw_allowed : Forall is_u64 (a_allowed_v a);
  aw_length : length (a_allowed_v a) = AUTH_MAX_ROLES;
  aw_n : a_n_allowed a ≤ AUTH_MAX_ROLES
}.

Lemma default_args_wf : args_wf default_args.
Proof.
  constructor; [concrete_range| |done|by apply Nat.leb_le]. repeat (apply list.Forall_cons; split; [concrete_range|]). constructor.
Qed.

Definition roles_wf (s : list Z * nat) : Prop := length s.1 = AUTH_MAX_ROLES ∧ s.2 ≤ AUTH_MAX_ROLES ∧ Forall is_u64 s.1.

Lemma parse_roles_safe room p s :
  roles_wf s → s.2 + room ≤ AUTH_MAX_ROLES → good (parse_roles room p s).1 (λ _, True) ∧ roles_wf (parse_roles room p s).2.
Proof.
  revert p s. induction room as [|room IH]; intros p s Hs Hn; [by rewrite parse_roles_end|].
  destruct p as [|c p]; [done|]. rewrite parse_roles_step by done. destruct (strtoull_range (c :: p)) as [Hv _].
  destruct (strtoull (c :: p)) as [v n]. cbn [fst] in Hv.
  destruct (n =? 0); cbn [negb]; mstep; [done|]. mstep. destruct s as [out k]. unfold push_role.
  destruct Hs as (Hl & Hk & Hu). cbn [fst snd] in *. rewrite (proj2 (Nat.ltb_lt k (length out))) by lia.
  assert (roles_wf (<[k:=v]> out, S k)) as Hw.
  { split; [cbn; by rewrite length_insert|]. split; [cbn; lia|]. by apply list.Forall_insert. }
  destruct (drop n (c :: p)) as [|c' p']; [done|]. destruct (bool_decide _); mstep; [|done]. apply IH; [done|cbn; lia].
Qed.

Lemma option_value_safe k v : triple args_wf (option_value k v) (λ _, True).
Proof.
  assert (∀ f, (∀ a, args_wf a → args_wf (f a)) → triple args_wf (modify f : M stop _ _) (λ _, True)) as Hm by apply triple_modify.
  unfold option_value. repeat case_match; try apply triple_fail; try (apply Hm; by intros a []).
  - apply Hm. intros a []. constructor; try done. apply strtoull_range.
  - intros a [Wr Wa Wl Wn]. unfold on_allowed, parse_role_list. mstep.
    destruct (parse_roles_safe AUTH_MAX_ROLES v (a_allowed_v a, 0)) as [Hg (Hl & Hn & Hu)]; [by split_and!; [|cbn; lia|]|done|].
    destruct (parse_roles _ _ _) as [o [out n]]. by split.
Qed.

Lemma option_flag_safe k : triple args_wf (option_flag k) (λ _, True).
Proof.
  unfold option_flag. repeat case_match; try apply triple_fail; apply triple_modify; by intros a [].
Qed.

Lemma parse_options_safe l : triple args_wf (parse_options l) (λ _, True).
Proof. apply option_loop_safe; [apply option_value_safe|apply option_flag_safe]. Qed.

Lemma parse_args_run argv a0 :
  match parse_args argv a0 with
  | (Ok _, a) => is_Some (a_server a) ∧ is_Some (a_state_dir_p a) ∧ args_wf a
  | (Err _, _) => True
  | (Fault, _) => False
  end.
Proof.
  pose proof (parse_options_safe (tl argv) default_args default_args_wf) as [Hg Hw]. unfold parse_args. mstep. rewrite bind_run.
  destruct (parse_options (tl argv) default_args) as [[[]|e|] a]; [|done..]. cbn in Hw. mstep. rewrite bind_run.
  destruct (a_server a) as [srv|] eqn:Es; [|done]. cbn [deref]. unfold mret, M_ret.
  destruct (a_state_dir_p a) as [d|] eqn:Ed; cbn; rewrite ?Es, ?Ed; (split_and!; [by eexists..|]); [done|]. by destruct Hw.
Qed.

(** ** The properties *)

(** C29: the command line carries every argument: from the options printed for a
    server, a state directory, a transport, the two flags, any role, at most eight
    allowed roles and any pairing token, [parse_args] reads back exactly these, in any
    memory that it is given. *)
Theorem args_roundtrip prog a a0 :
  args_wf a → is_Some (a_server a) → is_Some (a_state_dir_p a) →
  ∃ a', parse_args (prog :: print_args a) a0 = (Ok tt, a') ∧ a_allowed a' = a_allowed a ∧
    set_allowed [] a' = set_allowed [] a.
Proof.
  intros [Hr Ha Hl Hn] [srv Hsrv] [dir Hdir].
  assert (length (a_allowed a) = a_n_allowed a) as Hla by (unfold a_allowed; rewrite length_take; lia).
  destruct (role_list_print (a_allowed a) [1; 2; 0; 0; 0; 0; 0; 0]%Z 2) as (out & E & Hout & Ht); [by apply Forall_take|done|].
  rewrite Hla in E, Ht. rewrite Nat.min_r in E, Ht by done. rewrite (take_ge (a_allowed a)) in Ht by lia.
  unfold parse_args, print_args. mstep. cbn [tl]. rewrite Hsrv, Hdir.
  set (rest := print_option "--server" (Some srv) ++ _).
  assert (parse_options (print_option "--allowed-roles" (Some (print_roles (a_allowed a))) ++ rest) default_args =
    parse_options rest (set_n_allowed (a_n_allowed a) (set_allowed out default_args))) as E1.
  { change (parse_options _ _) with ((on_allowed (parse_role_list (print_roles (a_allowed a)) AUTH_MAX_ROLES);; parse_options rest)
      default_args) at 1. rewrite bind_run. unfold on_allowed. cbn [a_allowed_v a_n_allowed default_args]. by rewrite E. }
  rewrite bind_run, E1.
  pose proof (reads_app _ _ _ _ _ _ _ (reads_server srv) (reads_app _ _ _ _ _ _ _ (reads_transport (a_transport a))
    (reads_app _ _ _ _ _ _ _ (reads_state_dir dir) (reads_app _ _ _ _ _ _ _ (reads_setup (a_do_setup a))
    (reads_app _ _ _ _ _ _ _ (reads_tofu (a_allow_tofu a)) (reads_app _ _ _ _ _ _ _ (reads_role _ Hr) (reads_token (a_pairing_token a)))))))) as Hreads.
  specialize (Hreads [] (set_n_allowed (a_n_allowed a) (set_allowed out default_args))). rewrite app_nil_r in Hreads.
  unfold rest, parse_options. rewrite Hreads. clear -Ht Hsrv Hdir. destruct a as [s t d b1 b2 r v n p]. unfold a_allowed in Ht. cbn in *. subst s d.
  by destruct b1, b2, p; eexists; (split; [reflexivity|split; [exact Ht|]]).
Qed.

(** Whatever the command line, [parse_args] stays inside its arrays, and when it
    returns 0 there is a server and a state directory, the role and the allowed roles
    are 64-bit unsigned integers and there are at most eight of these. *)
Theorem parse_args_total argv a0 :
  match parse_args argv a0 with
  | (Ok _, a) => is_Some (a_server a) ∧ is_Some (a_state_dir_p a) ∧ args_wf a
  | (Err _, _) => True
  | (Fault, _) => False
  end.
Proof. apply parse_args_run. Qed.

(** ** Concrete command lines *)
Definition sample_line : args_t :=
  {| a_server := Some (str_bytes "[::1]:4000"); a_transport := TRANSPORT_TCP; a_state_dir_p := Some (str_bytes "--setup");
     a_do_setup := true; a_allow_tofu := false; a_role := ULLONG_MAX; a_allowed_v := [10; 0; 7; 7; 3; 2; 1; 99]%Z; a_n_allowed := 7;
     a_pairing_token := Some (str_bytes "-h") |}.

Lemma args_roundtrip_witness :
  ∃ a', parse_args (str_bytes "auth_client" :: print_args sample_line) sample_line = (Ok tt, a') ∧
    a_allowed a' = [10; 0; 7; 7; 3; 2; 1]%Z ∧ set_allowed [] a' = set_allowed [] sample_line.
Proof.
  apply (args_roundtrip (str_bytes "auth_client") sample_line sample_line).
  - constructor; [concrete_range| |reflexivity|apply Nat.leb_le; reflexivity].
    repeat (apply list.Forall_cons; split; [concrete_range|]). constructor.
  - by eexists.
  - by eexists.
Defined.

(** Numbers that are none are not refused, nor is what follows the eighth role. *)
Theorem unchecked_numerals :
  (∃ a, parse_args [str_bytes "auth_client"; str_bytes "--server"; str_bytes "h:1"; str_bytes "--role"; str_bytes "admin"] default_args
      = (Ok tt, a) ∧ a_role a = 0%Z) ∧
  (∃ a, parse_args [str_bytes "auth_client"; str_bytes "--server"; str_bytes "h:1";
      str_bytes "--allowed-roles"; str_bytes "1,2,3,4,5,6,7,-1,9,x"] default_args = (Ok tt, a) ∧
    a_allowed a = [1; 2; 3; 4; 5; 6; 7; ULLONG_MAX]%Z).
Proof. split; eexists; (split; [reflexivity|vm_compute; reflexivity]). Qed.
