(* ===== verification/ServerArgs.v ===== *)
(** The command line of the server: [parse_args] of [src/c/bin/server.c]. *)
From S2P Require Export Args.

Inductive transport_kind_t := TRANSPORT_UDP | TRANSPORT_TCP | TRANSPORT_BOTH.

(** The value of the enumerator. *)
Definition transport_bits (t : transport_kind_t) : Z :=
  match t with TRANSPORT_UDP => 1 | TRANSPORT_TCP => 2 | TRANSPORT_BOTH => 3 end.

Record args_t := {
  a_bind : ptr bytes;
  a_transport : transport_kind_t;
  a_state_dir_p : ptr bytes;
  a_require_pairing_token : ptr bytes
}.

Definition eta_args (a : args_t) : args_t :=
  {| a_bind := a_bind a; a_transport := a_transport a; a_state_dir_p := a_state_dir_p a;
     a_require_pairing_token := a_require_pairing_token a |}.

Definition set_bind v a : args_t := ltac:(set_field eta_args a_bind a v).
Definition set_transport v a : args_t := ltac:(set_field eta_args a_transport a v).
Definition set_state_dir v a : args_t := ltac:(set_field eta_args a_state_dir_p a v).
Definition set_require_pairing_token v a : args_t := ltac:(set_field eta_args a_require_pairing_token a v).

(** [a->state_dir], which [parse_args] leaves non-null. *)
Definition a_state_dir (a : args_t) : bytes := default [] (a_state_dir_p a).

Section options.
Local Open Scope string_scope.

Definition takes_value (k : bytes) : bool :=
  is_opt k "--bind" || is_opt k "--state-dir" || is_opt k "--require-pairing-token" || is_opt k "--transport".

Definition option_value (k v : bytes) : M stop args_t unit :=
  if is_opt k "--bind" then modify (set_bind (Some v))
  else if is_opt k "--state-dir" then modify (set_state_dir (Some v))
  else if is_opt k "--require-pairing-token" then modify (set_require_pairing_token (Some v))
  else if is_opt v "udp" then modify (set_transport TRANSPORT_UDP)
  else if is_opt v "tcp" then modify (set_transport TRANSPORT_TCP)
  else if is_opt v "both" then modify (set_transport TRANSPORT_BOTH)
  else fail Refused.

Definition option_flag (k : bytes) : M stop args_t unit :=
  if is_opt k "-h" || is_opt k "--help" then fail Helped else fail Refused.

Definition default_args : args_t :=
  {| a_bind := NULL; a_transport := TRANSPORT_UDP; a_state_dir_p := NULL; a_require_pairing_token := NULL |}.

Definition parse_args (argv : list bytes) : M stop args_t unit :=
  put default_args;;
  option_loop takes_value option_value option_flag (tl argv);;
  a ← get;
  deref (a_bind a) Refused;;
  match a_state_dir_p a with
  | None => modify (set_state_dir (Some (str_bytes "./server-state")))
  | Some _ => mret tt
  end.

Definition print_transport (t : transport_kind_t) : bytes :=
  str_bytes (match t with TRANSPORT_UDP => "udp" | TRANSPORT_TCP => "tcp" | TRANSPORT_BOTH => "both" end).

(** A command line with these arguments. *)
Definition print_args (a : args_t) : list bytes :=
  print_option "--bind" (a_bind a) ++ print_option "--transport" (Some (print_transport (a_transport a))) ++
  print_option "--state-dir" (a_state_dir_p a) ++ print_option "--require-pairing-token" (a_require_pairing_token a).
End options.

Abbreviation reads_args := (reads takes_value option_value option_flag).

Lemma reads_bind v : reads_args (print_option "--bind" (Some v)) (set_bind (Some v)).
Proof. done. Qed.
Lemma server_reads_state_dir p :
  reads_args (print_option "--state-dir" p) (λ a, match p with Some _ => set_state_dir p a | None => a end).
Proof. by destruct p. Qed.
Lemma server_reads_transport t : reads_args (print_option "--transport" (Some (print_transport t))) (set_transport t).
Proof. by destruct t. Qed.
Lemma server_reads_token p :
  reads_args (print_option "--require-pairing-token" p)
    (λ a, match p with Some _ => set_require_pairing_token p a | None => a end).
Proof. by destruct p. Qed.

(** The server's command line carries every argument; without a state directory it is
    "./server-state". *)
Theorem server_args_roundtrip prog a a0 :
  is_Some (a_bind a) →
  parse_args (prog :: print_args a) a0 =
    (Ok tt, set_state_dir (Some (default (str_bytes "./server-state") (a_state_dir_p a))) a).
Proof.
  intros [b Hb]. pose proof (reads_app _ _ _ _ _ _ _ (reads_bind b) (reads_app _ _ _ _ _ _ _ (server_reads_transport (a_transport a))
    (reads_app _ _ _ _ _ _ _ (server_reads_state_dir (a_state_dir_p a)) (server_reads_token (a_require_pairing_token a)))) [] default_args) as Hr.
  unfold parse_args, print_args. mstep. cbn [tl]. rewrite Hb. rewrite app_nil_r in Hr. rewrite bind_run, Hr. clear Hr.
  destruct a as [? t d p]. cbn in *. subst. by destruct d, p.
Qed.

(** [parse_args] returns 0 with an address and a state directory, or nothing. *)
Theorem server_args_total argv a0 :
  match parse_args argv a0 with
  | (Ok _, a) => is_Some (a_bind a) ∧ is_Some (a_state_dir_p a)
  | (Err _, _) => True
  | (Fault, _) => False
  end.
Proof.
  assert (triple (λ _, True) (option_loop takes_value option_value option_flag (tl argv)) (λ _, True)) as H.
  { apply option_loop_safe; [intros k v; unfold option_value|intros k; unfold option_flag];
      repeat case_match; by first [apply triple_fail|apply triple_modify]. }
  destruct (H default_args I) as [Hg _]. unfold parse_args. mstep. rewrite bind_run.
  destruct (option_loop _ _ _ _ default_args) as [[[]|e|] a]; [|done..]. mstep. rewrite bind_run.
  destruct (a_bind a) as [srv|] eqn:Eb; [|done]. cbn [deref]. unfold mret, M_ret.
  destruct (a_state_dir_p a) as [d|] eqn:Ed; cbn; rewrite ?Eb, ?Ed; split; by eexists.
Qed.
