(* ===== verification/Wire.v ===== *)
(** The framing layer: [src/c/include/auth/wire.h] and [src/c/src/wire/wire.c].

    The 24-byte header, packet construction and parsing, the error packet, the
    TLV codec, HELLO and negotiation.  Encoders act on the caller's buffer and
    return the number of bytes written; decoders read the caller's buffer.
    [wire_header], [wire_tlv] and [wire_hello] are the abstract byte layouts the
    encoders and decoders are proved against. *)
From S2P Require Export Errors.

(** ** Packet types, flags, TLV tags *)
Definition AUTH_PKT_SETUP_1 : byte := u8 0x11.
Definition AUTH_PKT_SETUP_2 : byte := u8 0x12.
Definition AUTH_PKT_SETUP_3 : byte := u8 0x13.
Definition AUTH_PKT_SETUP_ACK : byte := u8 0x14.
Definition AUTH_PKT_AUTH_1 : byte := u8 0x21.
Definition AUTH_PKT_AUTH_2 : byte := u8 0x22.
Definition AUTH_PKT_AUTH_3 : byte := u8 0x23.
Definition AUTH_PKT_AUTH_ACK : byte := u8 0x24.
Definition AUTH_PKT_ERROR : byte := u8 0x7f.
Definition AUTH_FLAG_NONE : Z := 0.
Definition AUTH_FLAG_RETRANSMIT : Z := 1.
Definition AUTH_TLV_MIN_VERSION : Z := 0x0001.
Definition AUTH_TLV_MTU_HINT : Z := 0x0004.
Definition AUTH_TLV_VENDOR_ID : Z := 0x0100.
Definition AUTH_TLV_DEVICE_MODEL : Z := 0x0101.

(** ** Header *)
Record auth_header_t := {
  hdr_version : byte;
  hdr_pkt_type : byte;
  hdr_flags : Z;
  hdr_session_id : bytes;
  hdr_seq : Z
}.

Definition header_wf (h : auth_header_t) : Prop :=
  is_u16 (hdr_flags h) ∧ length (hdr_session_id h) = AUTH_SESSION_ID_LEN ∧
  is_u32 (hdr_seq h).

Definition wire_header (h : auth_header_t) : bytes :=
  [hdr_version h; hdr_pkt_type h] ++ store_le 2 (hdr_flags h) ++
  hdr_session_id h ++ store_le 4 (hdr_seq h).

Definition auth_header_encode (hdr : ptr auth_header_t) : M auth_err_t bytes nat :=
  h ← deref hdr AUTH_ERR_INVALID_ARGUMENT;
  buf ← get;
  require (AUTH_HEADER_LEN <=? length buf) AUTH_ERR_BUFFER_TOO_SMALL;;
  store_at 0 [hdr_version h];;
  store_at 1 [hdr_pkt_type h];;
  store_at 2 [u8 (Z.land (hdr_flags h) 0xff)];;
  store_at 3 [u8 (Z.land (Z.shiftr (hdr_flags h) 8) 0xff)];;
  store_at 4 (hdr_session_id h);;
  store_at 20 [u8 (Z.land (hdr_seq h) 0xff)];;
  store_at 21 [u8 (Z.land (Z.shiftr (hdr_seq h) 8) 0xff)];;
  store_at 22 [u8 (Z.land (Z.shiftr (hdr_seq h) 16) 0xff)];;
  store_at 23 [u8 (Z.land (Z.shiftr (hdr_seq h) 24) 0xff)];;
  mret AUTH_HEADER_LEN.

(** Returns the header and the payload [buf + 24]. *)
Definition auth_header_decode (buf : ptr bytes) :
    outcome auth_err_t (auth_header_t * bytes) :=
  buf ← nonnull buf AUTH_ERR_INVALID_ARGUMENT;
  _ ← check (AUTH_HEADER_LEN <=? length buf) AUTH_ERR_PAYLOAD_TOO_SHORT;
  version ← load8 buf 0;
  pkt_type ← load8 buf 1;
  flags ← load_u16_le buf 2;
  session_id ← loadn buf 4 AUTH_SESSION_ID_LEN;
  s0 ← load8 buf 20;
  s1 ← load8 buf 21;
  s2 ← load8 buf 22;
  s3 ← load8 buf 23;
  let seq := Z.lor (Z.lor (Z.lor (b2z s0) (u32 (Z.shiftl (b2z s1) 8)))
                          (u32 (Z.shiftl (b2z s2) 16)))
                   (u32 (Z.shiftl (b2z s3) 24)) in
  let hdr := {| hdr_version := version; hdr_pkt_type := pkt_type; hdr_flags := flags;
                hdr_session_id := session_id; hdr_seq := seq |} in
  _ ← check (AUTH_MIN_SUPPORTED_VERSION <=? b2z version)%Z AUTH_ERR_UNSUPPORTED_VERSION;
  payload ← loadn buf AUTH_HEADER_LEN (length buf - AUTH_HEADER_LEN);
  mret (hdr, payload).

(** ** Packets *)
Definition auth_packet_build (pkt_type : byte) (session_id : ptr bytes) (seq : Z)
    (payload : ptr bytes) (payload_len : nat) : M auth_err_t bytes nat :=
  require (negb (bool_decide (payload = NULL) && (0 <? payload_len)))
    AUTH_ERR_INVALID_ARGUMENT;;
  sid ← deref session_id AUTH_ERR_INVALID_ARGUMENT;
  require (payload_len <=? AUTH_MAX_PAYLOAD) AUTH_ERR_PAYLOAD_TOO_LARGE;;
  let total := AUTH_HEADER_LEN + payload_len in
  buf ← get;
  require (total <=? length buf) AUTH_ERR_BUFFER_TOO_SMALL;;
  auth_header_encode (Some {| hdr_version := u8 AUTH_PROTOCOL_VERSION;
                              hdr_pkt_type := pkt_type; hdr_flags := AUTH_FLAG_NONE;
                              hdr_session_id := sid; hdr_seq := seq |});;
  (if 0 <? payload_len
   then x ← lift (loadn (default [] payload) 0 payload_len);
        store_at AUTH_HEADER_LEN x
   else mret tt);;
  mret total.

Definition auth_packet_build_error (session_id : ptr bytes) (seq : Z)
    (code : auth_err_t) (msg : ptr bytes) : M auth_err_t bytes nat :=
  let msg := default [] msg in
  require (length msg <=? AUTH_MAX_PAYLOAD - 2) AUTH_ERR_PAYLOAD_TOO_LARGE;;
  let code_u16 := u16 (err_code code) in
  let payload := [u8 (Z.land code_u16 0xff);
                  u8 (Z.land (Z.shiftr code_u16 8) 0xff)] ++ msg in
  auth_packet_build AUTH_PKT_ERROR session_id seq (Some payload) (2 + length msg).

(** Returns the code and the message bytes. *)
Definition auth_packet_parse_error (payload : ptr bytes) :
    outcome auth_err_t (auth_err_t * bytes) :=
  payload ← nonnull payload AUTH_ERR_MALFORMED_PACKET;
  _ ← check (2 <=? length payload) AUTH_ERR_MALFORMED_PACKET;
  code ← load_u16_le payload 0;
  msg ← loadn payload 2 (length payload - 2);
  mret (normalize_wire_error_code code, msg).

(** ** TLV codec *)

(** [*offset + 4 + value_len] is computed in [size_t].  Returns the advanced
    offset. *)
Definition auth_tlv_write (offset : nat) (tag : Z) (value : bytes) (value_len : nat) :
    M auth_err_t bytes nat :=
  buf ← get;
  require (Z.of_nat value_len <=? 0xFFFF)%Z AUTH_ERR_PAYLOAD_TOO_LARGE;;
  let need := size_t (size_t (Z.of_nat offset + 4) + Z.of_nat value_len) in
  require (need <=? Z.of_nat (length buf))%Z AUTH_ERR_BUFFER_TOO_SMALL;;
  store_at (offset + 0) [u8 (Z.land tag 0xff)];;
  store_at (offset + 1) [u8 (Z.land (Z.shiftr tag 8) 0xff)];;
  let len16 := u16 (Z.of_nat value_len) in
  store_at (offset + 2) [u8 (Z.land len16 0xff)];;
  store_at (offset + 3) [u8 (Z.land (Z.shiftr len16 8) 0xff)];;
  (if 0 <? value_len
   then x ← lift (loadn value 0 value_len); store_at (offset + 4) x
   else mret tt);;
  mret (offset + (4 + value_len)).

(** Returns the tag, the value and the advanced offset. *)
Definition auth_tlv_read (buf : ptr bytes) (offset : nat) :
    outcome auth_err_t (Z * bytes * nat) :=
  buf ← nonnull buf AUTH_ERR_INVALID_ARGUMENT;
  _ ← check (offset <? length buf) AUTH_ERR_PAYLOAD_TOO_SHORT;
  _ ← check (4 <=? length buf - offset) AUTH_ERR_MALFORMED_PACKET;
  tag ← load_u16_le buf offset;
  len ← load_u16_le buf (offset + 2);
  _ ← check (4 + Z.to_nat len <=? length buf - offset) AUTH_ERR_MALFORMED_PACKET;
  value ← loadn buf (offset + 4) (Z.to_nat len);
  mret (tag, value, offset + (4 + Z.to_nat len)).

(** ** HELLO *)
Definition N_SUITES : nat := 8.
Definition VENDOR_ID_CAP : nat := 16.
Definition DEVICE_MODEL_CAP : nat := 64.
#[export] Hint Unfold N_SUITES VENDOR_ID_CAP DEVICE_MODEL_CAP : consts.

(** The arrays are kept whole beside their counts: [suites[8]] with [n_suites],
    [vendor_id[16]] and [device_model[64]] with their lengths. *)
Record auth_hello_t := {
  h_version : byte;
  h_min_version : byte;
  h_suites : list Z;
  h_n_suites : nat;
  h_caps : Z;
  h_has_mtu_hint : bool;
  h_mtu_hint : Z;
  h_vendor_id : bytes;
  h_vendor_id_len : nat;
  h_device_model : bytes;
  h_device_model_len : nat
}.

(** [for (i = 0; i < n_suites; ++i)]: the suites as two bytes each. *)
Fixpoint put_suites (suites : list Z) (n : nat) : M auth_err_t cursor unit :=
  match n with
  | O => mret tt
  | S n =>
      match suites with
      | [] => fault
      | s :: suites =>
          write_bytes [u8 (Z.land s 0xff)];;
          write_bytes [u8 (Z.land (Z.shiftr s 8) 0xff)];;
          put_suites suites n
      end
  end.

(** [for (i = 0; i < 8; ++i) buf[off++] = (caps >> (8 * i)) & 0xff;] *)
Fixpoint put_caps (caps : Z) (i n : nat) : M auth_err_t cursor unit :=
  match n with
  | O => mret tt
  | S n =>
      write_bytes [u8 (Z.land (Z.shiftr caps (8 * Z.of_nat i)) 0xff)];;
      put_caps caps (S i) n
  end.

(** [err = auth_tlv_write(buf, buf_len, &off, tag, value, len)] *)
Definition put_tlv (tag : Z) (value : bytes) (len : nat) : M auth_err_t cursor unit :=
  λ '(buf, off),
    match auth_tlv_write off tag value len buf with
    | (Ok off', buf') => (Ok tt, (buf', off'))
    | (Err e, buf') => (Err e, (buf', off))
    | (Fault, buf') => (Fault, (buf', off))
    end.

(** The stores of [auth_hello_encode], after its checks: MIN_VERSION is always
    emitted, the other extensions when they are set. *)
Definition hello_put (h : auth_hello_t) : M auth_err_t cursor nat :=
  write_bytes [h_version h];;
  let nsu := u16 (Z.of_nat (h_n_suites h)) in
  write_bytes [u8 (Z.land nsu 0xff)];;
  write_bytes [u8 (Z.land (Z.shiftr nsu 8) 0xff)];;
  put_suites (h_suites h) (h_n_suites h);;
  put_caps (h_caps h) 0 8;;
  put_tlv AUTH_TLV_MIN_VERSION [h_min_version h] 1;;
  (if h_has_mtu_hint h
   then put_tlv AUTH_TLV_MTU_HINT
          [u8 (Z.land (h_mtu_hint h) 0xff);
           u8 (Z.land (Z.shiftr (h_mtu_hint h) 8) 0xff)] 2
   else mret tt);;
  (if 0 <? h_vendor_id_len h
   then put_tlv AUTH_TLV_VENDOR_ID (h_vendor_id h) (h_vendor_id_len h)
   else mret tt);;
  (if 0 <? h_device_model_len h
   then put_tlv AUTH_TLV_DEVICE_MODEL (h_device_model h) (h_device_model_len h)
   else mret tt);;
  get_off.

Definition auth_hello_encode (hello : ptr auth_hello_t) : M auth_err_t bytes nat :=
  writing (
    h ← deref hello AUTH_ERR_INVALID_ARGUMENT;
    require (h_n_suites h <=? N_SUITES) AUTH_ERR_INVALID_ARGUMENT;;
    buf_len ← get_cap;
    require (1 + 2 + 2 * h_n_suites h + 8 <=? buf_len) AUTH_ERR_BUFFER_TOO_SMALL;;
    hello_put h).

Definition set_min_version (v : byte) (h : auth_hello_t) : auth_hello_t :=
  {| h_version := h_version h; h_min_version := v; h_suites := h_suites h;
     h_n_suites := h_n_suites h; h_caps := h_caps h;
     h_has_mtu_hint := h_has_mtu_hint h; h_mtu_hint := h_mtu_hint h;
     h_vendor_id := h_vendor_id h; h_vendor_id_len := h_vendor_id_len h;
     h_device_model := h_device_model h; h_device_model_len := h_device_model_len h |}.

Definition set_mtu_hint (v : Z) (h : auth_hello_t) : auth_hello_t :=
  {| h_version := h_version h; h_min_version := h_min_version h;
     h_suites := h_suites h; h_n_suites := h_n_suites h; h_caps := h_caps h;
     h_has_mtu_hint := true; h_mtu_hint := v;
     h_vendor_id := h_vendor_id h; h_vendor_id_len := h_vendor_id_len h;
     h_device_model := h_device_model h; h_device_model_len := h_device_model_len h |}.

Definition set_vendor_id (x : bytes) (n : nat) (h : auth_hello_t) : auth_hello_t :=
  {| h_version := h_version h; h_min_version := h_min_version h;
     h_suites := h_suites h; h_n_suites := h_n_suites h; h_caps := h_caps h;
     h_has_mtu_hint := h_has_mtu_hint h; h_mtu_hint := h_mtu_hint h;
     h_vendor_id := x; h_vendor_id_len := n;
     h_device_model := h_device_model h; h_device_model_len := h_device_model_len h |}.

Definition set_device_model (x : bytes) (n : nat) (h : auth_hello_t) : auth_hello_t :=
  {| h_version := h_version h; h_min_version := h_min_version h;
     h_suites := h_suites h; h_n_suites := h_n_suites h; h_caps := h_caps h;
     h_has_mtu_hint := h_has_mtu_hint h; h_mtu_hint := h_mtu_hint h;
     h_vendor_id := h_vendor_id h; h_vendor_id_len := h_vendor_id_len h;
     h_device_model := x; h_device_model_len := n |}.

(** [memcpy(field, value, value_len)] into a field of the structure. *)
Definition copy_into {E} (field value : bytes) : outcome E bytes :=
  match mem_store field 0 value with Some x => Ok x | None => Fault end.

(** The body of the [switch (tag)]; a [case] that [break]s keeps the hello. *)
Definition hello_apply_tlv (h : auth_hello_t) (tag : Z) (value : bytes) :
    outcome auth_err_t auth_hello_t :=
  if (tag =? AUTH_TLV_MIN_VERSION)%Z then
    _ ← check (length value =? 1) AUTH_ERR_MALFORMED_PACKET;
    v ← load8 value 0;
    mret (set_min_version v h)
  else if (tag =? AUTH_TLV_MTU_HINT)%Z then
    _ ← check (length value =? 2) AUTH_ERR_MALFORMED_PACKET;
    v ← load_u16_le value 0;
    mret (set_mtu_hint v h)
  else if (tag =? AUTH_TLV_VENDOR_ID)%Z then
    if VENDOR_ID_CAP <? length value then mret h
    else x ← copy_into (h_vendor_id h) value;
         mret (set_vendor_id x (length value) h)
  else if (tag =? AUTH_TLV_DEVICE_MODEL)%Z then
    if DEVICE_MODEL_CAP <? length value then mret h
    else x ← copy_into (h_device_model h) value;
         mret (set_device_model x (length value) h)
  else mret h.

(** [while (off < buf_len)], with fuel for the number of iterations.  Running
    out of fuel is [Fault], so "never [Fault]" includes termination. *)
Fixpoint hello_tlv_loop (fuel : nat) (buf : bytes) (off : nat) (h : auth_hello_t) :
    outcome auth_err_t auth_hello_t :=
  match fuel with
  | O => Fault
  | S fuel =>
      if off <? length buf then
        match auth_tlv_read (Some buf) off with
        | Err AUTH_ERR_PAYLOAD_TOO_SHORT => mret h
        | Err e => Err e
        | Fault => Fault
        | Ok (tag, value, off') =>
            h' ← hello_apply_tlv h tag value;
            hello_tlv_loop fuel buf off' h'
        end
      else mret h
  end.

(** [for (i = 0; i < nsu; ++i) h->suites[i] = load_u16_le(...)] *)
Fixpoint get_suites (buf : bytes) (off i nsu : nat) (suites : list Z) :
    outcome auth_err_t (list Z) :=
  match nsu with
  | O => mret suites
  | S nsu =>
      s ← load_u16_le buf off;
      _ ← (if i <? length suites then mret tt else Fault);
      get_suites buf (off + 2) (S i) nsu (<[i := s]> suites)
  end.

(** [for (i = 0; i < 8; ++i) caps |= (uint64_t)buf[off + i] << (8 * i);] *)
Fixpoint get_caps (buf : bytes) (off i n : nat) (caps : Z) : outcome auth_err_t Z :=
  match n with
  | O => mret caps
  | S n =>
      b ← load8 buf (off + i);
      get_caps buf off (S i) n (Z.lor caps (u64 (Z.shiftl (b2z b) (8 * Z.of_nat i))))
  end.

Definition auth_hello_decode (buf : ptr bytes) : outcome auth_err_t auth_hello_t :=
  buf ← nonnull buf AUTH_ERR_INVALID_ARGUMENT;
  _ ← check (3 <=? length buf) AUTH_ERR_PAYLOAD_TOO_SHORT;
  version ← load8 buf 0;
  nsu ← load_u16_le buf 1;
  let nsu := Z.to_nat nsu in
  _ ← check (nsu <=? N_SUITES) AUTH_ERR_MALFORMED_PACKET;
  _ ← check (nsu * 2 + 8 <=? length buf - 3) AUTH_ERR_PAYLOAD_TOO_SHORT;
  suites ← get_suites buf 3 0 nsu (replicate N_SUITES 0%Z);
  let off := 3 + 2 * nsu in
  caps ← get_caps buf off 0 8 0;
  let h := {| h_version := version; h_min_version := version;
              h_suites := suites; h_n_suites := nsu; h_caps := caps;
              h_has_mtu_hint := false; h_mtu_hint := 0;
              h_vendor_id := zeros VENDOR_ID_CAP; h_vendor_id_len := 0;
              h_device_model := zeros DEVICE_MODEL_CAP; h_device_model_len := 0 |} in
  hello_tlv_loop (S (length buf)) buf (off + 8) h.

(** ** Negotiation *)
Record auth_negotiated_t := { n_version : byte; n_suite : Z; n_caps : Z }.

(** The inner loop: does the peer list [s]? *)
Fixpoint peer_lists (s : Z) (peer_suites : list Z) : bool :=
  match peer_suites with
  | [] => false
  | p :: peer_suites => if (s =? p)%Z then true else peer_lists s peer_suites
  end.

(** The outer loop: the first local suite that the peer lists. *)
Fixpoint choose_suite (local_suites peer_suites : list Z) : option Z :=
  match local_suites with
  | [] => None
  | s :: local_suites =>
      if peer_lists s peer_suites then Some s else choose_suite local_suites peer_suites
  end.

Definition auth_negotiate (local_version local_min : byte) (local_suites : list Z)
    (local_caps : Z) (peer_version peer_min : byte) (peer_suites : list Z)
    (peer_caps : Z) : outcome auth_err_t auth_negotiated_t :=
  let v := if (b2z local_version <? b2z peer_version)%Z then local_version else peer_version in
  let floor := if (b2z peer_min <? b2z local_min)%Z then local_min else peer_min in
  _ ← check (b2z floor <=? b2z v)%Z AUTH_ERR_UNSUPPORTED_VERSION;
  chosen ← nonnull (choose_suite local_suites peer_suites) AUTH_ERR_UNSUPPORTED_SUITE;
  let caps := Z.land local_caps peer_caps in
  _ ← check (Z.land caps AUTH_CAPS_BASELINE =? AUTH_CAPS_BASELINE)%Z AUTH_ERR_CAP_MISMATCH;
  mret {| n_version := v; n_suite := chosen; n_caps := caps |}.

(** ** The header codec *)
Lemma length_wire_header h : header_wf h → length (wire_header h) = AUTH_HEADER_LEN.
Proof. intros (_ & H & _). unfold wire_header. cbn. len. Qed.

Lemma header_encode_run h buf :
  header_wf h → AUTH_HEADER_LEN ≤ length buf →
  auth_header_encode (Some h) buf = (Ok AUTH_HEADER_LEN, written (wire_header h) buf).
Proof.
  intros Hwf Hlen. pose proof (length_wire_header h Hwf) as Hl.
  destruct Hwf as (_ & Hs & _). unfold AUTH_SESSION_ID_LEN, AUTH_HEADER_LEN in *.
  unfold auth_header_encode. do 2 mstep.
  rewrite (proj2 (Nat.leb_le _ _)) by done. mstep.
  change buf with ([] ++ buf) at 1.
  repeat (rewrite bind_run, store_at_wstate; [|cbn; len..]).
  unfold written, mret, M_ret. rewrite !drop_drop, Hl. cbn [length]. rewrite Hs.
  do 2 f_equal. unfold wire_header. by rewrite store_le_2, store_le_4, <- !app_assoc.
Qed.

(** Every buffer of at least 24 bytes has the shape of a header. *)
Lemma header_shape (buf : bytes) :
  AUTH_HEADER_LEN ≤ length buf →
  ∃ v t f0 f1 sid s0 s1 s2 s3 payload,
    length sid = AUTH_SESSION_ID_LEN ∧
    buf = [v; t; f0; f1] ++ sid ++ [s0; s1; s2; s3] ++ payload.
Proof.
  unfold AUTH_HEADER_LEN. intros H.
  do 4 (apply split_cons in H as (? & ? & -> & H)).
  apply (Nat.le_trans 16) in H as H16; [|lia].
  apply split_at in H16 as (sid & rest & -> & Hs).
  rewrite length_app, Hs in H. assert (H' : 4 ≤ length rest) by lia.
  do 4 (apply split_cons in H' as (? & ? & -> & H')).
  repeat eexists; done.
Qed.

Lemma header_decode_run v t f0 f1 sid s0 s1 s2 s3 payload :
  length sid = AUTH_SESSION_ID_LEN →
  auth_header_decode (Some ([v; t; f0; f1] ++ sid ++ [s0; s1; s2; s3] ++ payload)) =
  if (AUTH_MIN_SUPPORTED_VERSION <=? b2z v)%Z
  then Ok ({| hdr_version := v; hdr_pkt_type := t; hdr_flags := load_le [f0; f1];
              hdr_session_id := sid; hdr_seq := load_le [s0; s1; s2; s3] |}, payload)
  else Err AUTH_ERR_UNSUPPORTED_VERSION.
Proof.
  intros Hs. unfold AUTH_SESSION_ID_LEN in Hs.
  set (buf := _ ++ _). assert (Hl : length buf = 24 + length payload) by (unfold buf; len).
  assert (Hi : ∀ i x, ([s0; s1; s2; s3] !! i = Some x → buf !! (20 + i) = Some x)).
  { intros i x Hx. unfold buf. rewrite !lookup_app_r by (cbn; lia). cbn [length].
    replace (20 + i - 4 - length sid) with i by lia. by apply lookup_app_l_Some. }
  assert (E16 : loadn (E:=auth_err_t) buf 4 16 = Ok sid) by (by apply loadn_app).
  assert (Ep : loadn (E:=auth_err_t) buf 24 (length payload) = Ok payload).
  { replace buf with (([v; t; f0; f1] ++ sid ++ [s0; s1; s2; s3]) ++ payload ++ [])
      by (unfold buf; rewrite app_nil_r, <- !app_assoc; done).
    apply loadn_app; [len | done]. }
  unfold auth_header_decode, AUTH_HEADER_LEN, AUTH_SESSION_ID_LEN.
  cbn [nonnull mbind outcome_bind]. rewrite Hl.
  rewrite (proj2 (Nat.leb_le _ _)) by lia. cbn [check].
  rewrite (load8_ok buf 0 v), (load8_ok buf 1 t) by done.
  rewrite (load_u16_le_ok buf 2 f0 f1), E16 by done.
  rewrite (load8_ok _ _ _ (Hi 0 s0 eq_refl)), (load8_ok _ _ _ (Hi 1 s1 eq_refl)),
    (load8_ok _ _ _ (Hi 2 s2 eq_refl)), (load8_ok _ _ _ (Hi 3 s3 eq_refl)).
  cbn [mbind outcome_bind]. cbv zeta. rewrite load_le_4.
  destruct (_ <=? _)%Z; [|done]. cbn [check].
  replace (24 + length payload - 24) with (length payload) by lia. by rewrite Ep.
Qed.

(** Decoding succeeds exactly on the layouts of supported headers. *)
Lemma header_decode_ok buf h payload :
  auth_header_decode (Some buf) = Ok (h, payload) ↔
  header_wf h ∧ (AUTH_MIN_SUPPORTED_VERSION <= b2z (hdr_version h))%Z ∧
  buf = wire_header h ++ payload.
Proof.
  split.
  - intros H. destruct (decide (AUTH_HEADER_LEN ≤ length buf)) as [Hl|Hl].
    2:{ unfold auth_header_decode in H. cbn [nonnull mbind outcome_bind] in H.
        by rewrite (proj2 (Nat.leb_gt _ _)) in H by lia. }
    destruct (header_shape buf Hl) as
      (v & t & f0 & f1 & sid & s0 & s1 & s2 & s3 & p & Hs & ->).
    rewrite header_decode_run in H by done.
    destruct (Z.leb_spec AUTH_MIN_SUPPORTED_VERSION (b2z v)); [|done].
    injection H as <- <-. unfold wire_header; cbn [hdr_version hdr_pkt_type
      hdr_flags hdr_session_id hdr_seq].
    rewrite (store_load_le_n 2), (store_load_le_n 4), <- !app_assoc by done.
    split; [|done]. split_and!; [by apply load_le_is_u16 | done | by apply load_le_is_u32].
  - intros ((Hf & Hs & Hq) & Hv & ->). unfold wire_header.
    destruct h as [v t fl sid sq]; cbn [hdr_version hdr_pkt_type hdr_flags
      hdr_session_id hdr_seq] in *.
    rewrite <- (load_store_le_2 fl), <- (load_store_le_4 sq) at 2 by done.
    rewrite <- !app_assoc.
    change ([v; t] ++ store_le 2 fl ++ ?r) with ([v; t; u8 fl; u8 (Z.shiftr fl 8)] ++ r).
    rewrite store_le_4. rewrite header_decode_run by done.
    rewrite (proj2 (Z.leb_le _ _)) by done. by rewrite <- store_le_4.
Qed.

Lemma header_decode_short buf :
  length buf < AUTH_HEADER_LEN →
  auth_header_decode (Some buf) = Err AUTH_ERR_PAYLOAD_TOO_SHORT.
Proof.
  intros H. unfold auth_header_decode. cbn [nonnull mbind outcome_bind].
  by rewrite (proj2 (Nat.leb_gt _ _)) by lia.
Qed.

Lemma header_decode_no_fault buf : auth_header_decode buf ≠ Fault.
Proof.
  destruct buf as [buf|]; [|done].
  destruct (decide (AUTH_HEADER_LEN ≤ length buf)) as [Hl|Hl].
  - destruct (header_shape buf Hl) as
      (v & t & f0 & f1 & sid & s0 & s1 & s2 & s3 & p & Hs & ->).
    rewrite header_decode_run by done. by destruct (_ <=? _)%Z.
  - by rewrite header_decode_short by lia.
Qed.

(** ** Packets *)
Definition packet_header (t : byte) (sid : bytes) (seq : Z) : auth_header_t :=
  {| hdr_version := u8 AUTH_PROTOCOL_VERSION; hdr_pkt_type := t;
     hdr_flags := AUTH_FLAG_NONE; hdr_session_id := sid; hdr_seq := seq |}.

Definition wire_packet (t : byte) (sid : bytes) (seq : Z) (payload : bytes) : bytes :=
  wire_header (packet_header t sid seq) ++ payload.

Lemma packet_header_wf t sid seq :
  length sid = AUTH_SESSION_ID_LEN → is_u32 seq → header_wf (packet_header t sid seq).
Proof. intros. split_and!; done. Qed.

Lemma length_wire_packet t sid seq payload :
  length sid = AUTH_SESSION_ID_LEN → is_u32 seq →
  length (wire_packet t sid seq payload) = AUTH_HEADER_LEN + length payload.
Proof.
  intros. unfold wire_packet.
  by rewrite length_app, length_wire_header by (by apply packet_header_wf).
Qed.

Lemma packet_build_run t sid seq payload buf :
  length sid = AUTH_SESSION_ID_LEN → is_u32 seq →
  length payload ≤ AUTH_MAX_PAYLOAD → AUTH_HEADER_LEN + length payload ≤ length buf →
  auth_packet_build t (Some sid) seq (Some payload) (length payload) buf =
    (Ok (AUTH_HEADER_LEN + length payload), written (wire_packet t sid seq payload) buf).
Proof.
  intros Hs Hq Hp Hb.
  pose proof (length_wire_header _ (packet_header_wf t sid seq Hs Hq)) as Hl.
  unfold auth_packet_build. cbn [bool_decide decide_rel andb negb].
  rewrite bool_decide_false by done. cbn [andb negb require].
  mstep.
  mstep.
  rewrite (proj2 (Nat.leb_le _ _)) by done. cbn [require].
  mstep.
  mstep.
  rewrite (proj2 (Nat.leb_le _ _)) by done. cbn [require].
  mstep.
  fold (packet_header t sid seq).
  mstep by (header_encode_run (packet_header t sid seq) buf (packet_header_wf t sid seq Hs Hq)
    ltac:(lia)).
  unfold wire_packet. destruct (Nat.ltb_spec 0 (length payload)) as [H0|H0].
  - rewrite bind_run, bind_run. cbn [lift from_option id].
    rewrite loadn_ok by lia. rewrite drop_0, firstn_all. unfold written at 1.
    rewrite store_at_wstate by (rewrite ?length_drop; lia). cbv beta iota.
    unfold mret, M_ret. f_equal. unfold written.
    by rewrite drop_drop, length_app, <- app_assoc.
  - destruct payload; [|cbn in H0; lia]. rewrite app_nil_r, bind_run. done.
Qed.

(** [memeq] on the code: the error packet carries the code and the text. *)
Lemma packet_build_error_run sid seq e msg buf :
  length sid = AUTH_SESSION_ID_LEN → is_u32 seq →
  length msg ≤ AUTH_MAX_PAYLOAD - 2 → AUTH_HEADER_LEN + (2 + length msg) ≤ length buf →
  auth_packet_build_error (Some sid) seq e (Some msg) buf =
    (Ok (AUTH_HEADER_LEN + (2 + length msg)),
     written (wire_packet AUTH_PKT_ERROR sid seq (store_le 2 (err_code e) ++ msg)) buf).
Proof.
  intros Hs Hq Hm Hb. unfold auth_packet_build_error. cbn [from_option id].
  rewrite (proj2 (Nat.leb_le _ _)) by done. cbn [require].
  mstep.
  pose proof (err_code_is_u16 e) as He. unfold u16. rewrite Z.mod_small by done.
  rewrite <- store_le_2.
  replace (2 + length msg) with (length (store_le 2 (err_code e) ++ msg)) by len.
  apply packet_build_run; try done; len.
Qed.

Lemma packet_parse_error_run c0 c1 msg :
  auth_packet_parse_error (Some ([c0; c1] ++ msg)) =
    Ok (normalize_wire_error_code (load_le [c0; c1]), msg).
Proof.
  unfold auth_packet_parse_error. cbn [nonnull mbind outcome_bind].
  rewrite (proj2 (Nat.leb_le _ _)) by len. cbn [check].
  rewrite (load_u16_le_ok _ _ c0 c1) by done.
  pose proof (loadn_app (E:=auth_err_t) [c0; c1] msg [] 2 (length msg)) as E.
  rewrite app_nil_r in E.
  replace (length ([c0; c1] ++ msg) - 2) with (length msg) by (cbn; lia).
  by rewrite E.
Qed.

(** ** TLV *)
Definition wire_tlv (tag : Z) (value : bytes) : bytes :=
  store_le 2 tag ++ store_le 2 (Z.of_nat (length value)) ++ value.

Lemma length_wire_tlv tag value : length (wire_tlv tag value) = 4 + length value.
Proof. unfold wire_tlv. len. Qed.

Lemma at_pos_lookup buf off pre x post :
  at_pos buf off (pre ++ x :: post) → buf !! (off + length pre) = Some x.
Proof.
  intros [_ H]. rewrite <- lookup_drop, H. by apply list_lookup_middle.
Qed.

Lemma at_pos_loadn {E} buf off pre x rest n m :
  at_pos buf off (pre ++ x ++ rest) → n = off + length pre → m = length x →
  loadn (E:=E) buf n m = Ok x.
Proof.
  intros H -> ->. apply at_pos_app in H. unfold loadn.
  by rewrite (mem_load_at _ _ _ _ H).
Qed.

Lemma at_pos_u16 {E} buf off pre b0 b1 rest n :
  at_pos buf off (pre ++ [b0; b1] ++ rest) → n = off + length pre →
  load_u16_le (E:=E) buf n = Ok (load_le [b0; b1]).
Proof.
  intros H ->. apply load_u16_le_ok; [exact (at_pos_lookup _ _ _ _ _ H)|].
  replace (off + length pre + 1) with (off + length (pre ++ [b0])) by len.
  eapply at_pos_lookup. rewrite <- app_assoc. exact H.
Qed.

(** Reading at a position where at least four bytes remain. *)
Lemma tlv_read_run buf off t0 t1 l0 l1 rest :
  at_pos buf off ([t0; t1; l0; l1] ++ rest) →
  auth_tlv_read (Some buf) off =
    if Z.to_nat (load_le [l0; l1]) <=? length rest
    then Ok (load_le [t0; t1], take (Z.to_nat (load_le [l0; l1])) rest,
             off + (4 + Z.to_nat (load_le [l0; l1])))
    else Err AUTH_ERR_MALFORMED_PACKET.
Proof.
  intros H. pose proof (at_pos_length _ _ _ H) as Hl. cbn [length app] in Hl.
  unfold auth_tlv_read. cbn [nonnull mbind outcome_bind].
  rewrite (proj2 (Nat.ltb_lt _ _)), (proj2 (Nat.leb_le 4 _)) by lia. cbn [check].
  rewrite (at_pos_u16 buf off [] t0 t1 ([l0; l1] ++ rest) off H) by (cbn; lia).
  rewrite (at_pos_u16 buf off [t0; t1] l0 l1 rest (off + 2) H) by done.
  cbn [mbind outcome_bind].
  set (n := Z.to_nat _).
  destruct (Nat.leb_spec n (length rest)) as [Hn|Hn].
  - rewrite (proj2 (Nat.leb_le _ _)) by lia. cbn [check].
    rewrite (at_pos_loadn buf off [t0; t1; l0; l1] (take n rest) (drop n rest));
      rewrite ?take_drop, ?length_take_le by done; done.
  - by rewrite (proj2 (Nat.leb_gt _ _)) by lia.
Qed.

Lemma at_pos_shape4 buf off rest :
  at_pos buf off rest → 4 ≤ length rest →
  ∃ t0 t1 l0 l1 rest', rest = [t0; t1; l0; l1] ++ rest'.
Proof.
  intros _ H. do 4 (apply split_cons in H as (? & ? & -> & H)). by repeat eexists.
Qed.

Lemma tlv_read_at buf off tag value rest :
  is_u16 tag → (Z.of_nat (length value) <= 0xFFFF)%Z →
  at_pos buf off (wire_tlv tag value ++ rest) →
  auth_tlv_read (Some buf) off = Ok (tag, value, off + (4 + length value)).
Proof.
  intros Ht Hv H. unfold wire_tlv in H. rewrite <- !app_assoc in H.
  set (n := Z.of_nat (length value)) in H.
  change (store_le 2 tag ++ store_le 2 n ++ ?r) with
    ([u8 tag; u8 (Z.shiftr tag 8); u8 n; u8 (Z.shiftr n 8)] ++ r) in H.
  rewrite (tlv_read_run _ _ _ _ _ _ _ H).
  change [u8 tag; u8 (Z.shiftr tag 8)] with (store_le 2 tag).
  change [u8 n; u8 (Z.shiftr n 8)] with (store_le 2 n).
  rewrite !load_store_le_2 by (done || (unfold n, is_u16; lia)).
  unfold n. rewrite Nat2Z.id, (proj2 (Nat.leb_le _ _)) by len.
  by rewrite take_app_length.
Qed.

(** A successful read is a TLV of the buffer, and the offset moves past it. *)
Lemma tlv_read_ok buf off tag value off' :
  auth_tlv_read (Some buf) off = Ok (tag, value, off') →
  is_u16 tag ∧ (Z.of_nat (length value) <= 0xFFFF)%Z ∧
  off' = off + (4 + length value) ∧
  ∃ rest, at_pos buf off (wire_tlv tag value ++ rest) ∧ at_pos buf off' rest.
Proof.
  intros H. destruct (decide (4 ≤ length buf - off)) as [Hl|Hl].
  2:{ unfold auth_tlv_read in H. cbn [nonnull mbind outcome_bind] in H.
      destruct (off <? length buf); [|done]. cbn [check] in H.
      by rewrite (proj2 (Nat.leb_gt _ _)) in H by lia. }
  assert (Hp : at_pos buf off (drop off buf)) by (split; [lia|done]).
  destruct (at_pos_shape4 _ _ _ Hp) as (t0 & t1 & l0 & l1 & rest & E);
    [rewrite length_drop; lia|].
  rewrite E in Hp. rewrite (tlv_read_run _ _ _ _ _ _ _ Hp) in H.
  pose proof (load_le_is_u16 [l0; l1] eq_refl) as Hn. unfold is_u16 in Hn.
  destruct (Nat.leb_spec (Z.to_nat (load_le [l0; l1])) (length rest)) as [Hr|]; [|done].
  injection H as <- <- <-. rewrite length_take_le by done.
  split; [by apply load_le_is_u16|]. split; [lia|]. split; [done|].
  exists (drop (Z.to_nat (load_le [l0; l1])) rest).
  assert (Ew : wire_tlv (load_le [t0; t1]) (take (Z.to_nat (load_le [l0; l1])) rest)
          ++ drop (Z.to_nat (load_le [l0; l1])) rest = [t0; t1; l0; l1] ++ rest).
  { unfold wire_tlv. rewrite length_take_le, Z2Nat.id by (done || lia).
    rewrite !(store_load_le_n 2), <- !app_assoc, take_drop by done. done. }
  split; [by rewrite Ew|]. rewrite <- Ew in Hp. apply at_pos_app in Hp.
  by rewrite length_wire_tlv, length_take_le in Hp.
Qed.

Lemma tlv_read_no_fault buf off : auth_tlv_read buf off ≠ Fault.
Proof.
  destruct buf as [buf|]; [|done].
  destruct (decide (4 ≤ length buf - off)) as [Hl|Hl].
  - assert (Hp : at_pos buf off (drop off buf)) by (split; [lia|done]).
    destruct (at_pos_shape4 _ _ _ Hp) as (t0 & t1 & l0 & l1 & rest & E);
      [rewrite length_drop; lia|].
    rewrite E in Hp. rewrite (tlv_read_run _ _ _ _ _ _ _ Hp). by destruct (_ <=? _).
  - unfold auth_tlv_read. cbn [nonnull mbind outcome_bind].
    destruct (off <? length buf); [|done]. cbn [check].
    by rewrite (proj2 (Nat.leb_gt _ _)) by lia.
Qed.

Lemma tlv_write_run w rest tag value n :
  n ≤ length value → (Z.of_nat n <= 0xFFFF)%Z → 4 + n ≤ length rest →
  is_u64 (Z.of_nat (length (w ++ rest))) →
  auth_tlv_write (length w) tag value n (w ++ rest) =
    (Ok (length w + (4 + n)), (w ++ wire_tlv tag (take n value)) ++ drop (4 + n) rest).
Proof.
  unfold is_u64. rewrite length_app. intros Hv Hn Hr Hb.
  unfold auth_tlv_write. mstep. rewrite (proj2 (Z.leb_le (Z.of_nat n) 65535)) by lia. mstep.
  unfold size_t, u64. rewrite Zplus_mod_idemp_l, (Z.mod_small (_ + _)) by lia.
  rewrite (proj2 (Z.leb_le _ _)) by (rewrite length_app; lia). mstep.
  assert (Hst : ∀ k x w' rest', k = length w' → length x = 1 → 1 ≤ length rest' →
    store_at (E:=auth_err_t) k x (w' ++ rest') = (Ok tt, (w' ++ x) ++ drop 1 rest')).
  { intros k x w' rest' Hk Hx Hl. rewrite store_at_wstate by lia. by rewrite Hx. }
  do 4 (rewrite bind_run, Hst by len; cbv beta iota).
  unfold u16. rewrite (Z.mod_small (Z.of_nat n)) by lia.
  assert (Ew : wire_tlv tag (take n value) =
    ((([u8 (Z.land tag 255)] ++ [u8 (Z.land (Z.shiftr tag 8) 255)]) ++
      [u8 (Z.land (Z.of_nat n) 255)]) ++ [u8 (Z.land (Z.shiftr (Z.of_nat n) 8) 255)])
      ++ take n value).
  { unfold wire_tlv. rewrite length_take_le, !store_le_2, <- !app_assoc by done. done. }
  destruct (Nat.ltb_spec 0 n) as [H0|H0].
  - rewrite bind_run, bind_run. cbn [lift]. rewrite loadn_ok, drop_0 by lia.
    rewrite store_at_wstate by len. cbv beta iota. unfold mret, M_ret.
    rewrite Ew, !drop_drop, length_take_le, <- !app_assoc by done.
    do 6 f_equal.
  - assert (n = 0) as -> by lia. mstep.
    by rewrite Ew, !drop_drop, take_0, app_nil_r, <- !app_assoc.
Qed.

(** ** HELLO *)
Definition hello_wf (h : auth_hello_t) : Prop :=
  length (h_suites h) = N_SUITES ∧ h_n_suites h ≤ N_SUITES ∧
  Forall is_u16 (take (h_n_suites h) (h_suites h)) ∧
  is_u64 (h_caps h) ∧ is_u16 (h_mtu_hint h) ∧
  length (h_vendor_id h) = VENDOR_ID_CAP ∧ h_vendor_id_len h ≤ VENDOR_ID_CAP ∧
  length (h_device_model h) = DEVICE_MODEL_CAP ∧ h_device_model_len h ≤ DEVICE_MODEL_CAP.

(** The unused parts of the structure are zero, as [memset] leaves them. *)
Definition hello_canon (h : auth_hello_t) : Prop :=
  drop (h_n_suites h) (h_suites h) = replicate (N_SUITES - h_n_suites h) 0%Z ∧
  (h_has_mtu_hint h = false → h_mtu_hint h = 0%Z) ∧
  drop (h_vendor_id_len h) (h_vendor_id h) = zeros (VENDOR_ID_CAP - h_vendor_id_len h) ∧
  drop (h_device_model_len h) (h_device_model h) =
    zeros (DEVICE_MODEL_CAP - h_device_model_len h).

Definition hello_tlvs (h : auth_hello_t) : list (Z * bytes) :=
  [(AUTH_TLV_MIN_VERSION, [h_min_version h])] ++
  (if h_has_mtu_hint h then [(AUTH_TLV_MTU_HINT, store_le 2 (h_mtu_hint h))] else []) ++
  (if 0 <? h_vendor_id_len h
   then [(AUTH_TLV_VENDOR_ID, take (h_vendor_id_len h) (h_vendor_id h))] else []) ++
  (if 0 <? h_device_model_len h
   then [(AUTH_TLV_DEVICE_MODEL, take (h_device_model_len h) (h_device_model h))] else []).

Definition wire_tlvs (l : list (Z * bytes)) : bytes :=
  concat (map (λ '(tag, value), wire_tlv tag value) l).

Definition hello_prefix (h : auth_hello_t) : bytes :=
  [h_version h] ++ store_le 2 (Z.of_nat (h_n_suites h)) ++
  concat (map (store_le 2) (take (h_n_suites h) (h_suites h))) ++
  store_le 8 (h_caps h).

Definition wire_hello (h : auth_hello_t) : bytes :=
  hello_prefix h ++ wire_tlvs (hello_tlvs h).

Lemma length_suites l : length (concat (map (store_le 2) l)) = 2 * length l.
Proof. induction l; cbn; [done|]. rewrite length_app, IHl. len. Qed.

Lemma emits_put_suites n suites :
  n ≤ length suites →
  emits (put_suites suites n) (concat (map (store_le 2) (take n suites))) (λ _, tt).
Proof.
  revert suites. induction n as [|n IH]; intros [|s suites] Hs;
    cbn in Hs; try lia; cbn [put_suites take map concat].
  1, 2: apply emits_ret.
  eapply emits_eq; [eapply emits_bind; [apply emits_write|intros _];
    eapply emits_bind; [apply emits_write|intros _]; apply IH; lia|].
  by rewrite store_le_2.
Qed.

Lemma store_le_caps i n caps :
  store_le n (Z.shiftr caps (8 * Z.of_nat i)) =
    map (λ j, u8 (Z.land (Z.shiftr caps (8 * Z.of_nat j)) 255)) (seq i n).
Proof.
  revert i. induction n as [|n IH]; intros i; [done|].
  unfold store_le; fold store_le. cbn [seq map]. rewrite u8_land_255. f_equal.
  rewrite Z.shiftr_shiftr, <- IH by lia. do 2 f_equal. lia.
Qed.

Lemma emits_put_caps n caps i :
  emits (put_caps caps i n) (store_le n (Z.shiftr caps (8 * Z.of_nat i))) (λ _, tt).
Proof.
  rewrite store_le_caps. revert i. induction n as [|n IH]; intros i; cbn [put_caps seq map].
  - apply emits_ret.
  - eapply emits_eq; [eapply emits_bind; [apply emits_write|intros _; apply IH]|]. done.
Qed.

Lemma emits_put_tlv tag value n :
  n ≤ length value → (Z.of_nat n <= 0xFFFF)%Z →
  emits (put_tlv tag value n) (wire_tlv tag (take n value)) (λ _, tt).
Proof.
  intros Hv Hn w rest Hr Hu. rewrite length_wire_tlv, length_take_le in Hr by done.
  unfold put_tlv, wstate. rewrite tlv_write_run by done.
  rewrite length_app, length_wire_tlv, length_take_le by done. done.
Qed.

Lemma wire_tlvs_cons tag value l : wire_tlvs ((tag, value) :: l) = wire_tlv tag value ++ wire_tlvs l.
Proof. done. Qed.

Lemma wire_tlvs_app l1 l2 : wire_tlvs (l1 ++ l2) = wire_tlvs l1 ++ wire_tlvs l2.
Proof. unfold wire_tlvs. by rewrite map_app, concat_app. Qed.

Lemma length_hello_prefix h :
  hello_wf h → length (hello_prefix h) = 11 + 2 * h_n_suites h.
Proof.
  intros (Hs & Hn & _). unfold hello_prefix.
  rewrite !length_app, length_suites, length_take_le by lia. len.
Qed.

(** An optional extension of the encoder appends its TLV or nothing. *)
Lemma emits_opt_tlv (b : bool) tag value n :
  (b = true → n ≤ length value ∧ (Z.of_nat n <= 0xFFFF)%Z) →
  emits (if b then put_tlv tag value n else mret tt)
    (wire_tlvs (if b then [(tag, take n value)] else [])) (λ _, tt).
Proof.
  intros Hv. destruct b; [|apply emits_ret].
  destruct (Hv eq_refl). rewrite wire_tlvs_cons, app_nil_r. by apply emits_put_tlv.
Qed.

Lemma emits_hello_put h : hello_wf h → emits (hello_put h) (wire_hello h) id.
Proof.
  intros (Hs & Hn & _ & _ & _ & Hvl & Hv & Hml & Hm).
  unfold N_SUITES, VENDOR_ID_CAP, DEVICE_MODEL_CAP in *. unfold hello_put.
  eapply emits_eq.
  { do 3 (eapply emits_bind; [apply emits_write|intros _]).
    eapply emits_bind; [apply emits_put_suites; lia|intros _].
    eapply emits_bind; [apply emits_put_caps|intros _].
    eapply emits_bind; [apply emits_put_tlv; [cbn|]; lia|intros _].
    do 3 (eapply emits_bind; [apply emits_opt_tlv; cbn; lia|intros _]).
    apply emits_get_off. }
  unfold wire_hello, hello_prefix, hello_tlvs. rewrite !wire_tlvs_app, app_nil_r.
  unfold u16. rewrite Z.mod_small, Z.shiftr_0_r, !store_le_2, <- !app_assoc by lia. done.
Qed.

Lemma hello_encode_run h buf :
  hello_wf h → length (wire_hello h) ≤ length buf → is_u64 (Z.of_nat (length buf)) →
  auth_hello_encode (Some h) buf =
    (Ok (length (wire_hello h)), written (wire_hello h) buf).
Proof.
  intros Hwf Hb Hu. pose proof (length_hello_prefix h Hwf) as Hlp.
  assert (Hl : 1 + 2 + 2 * h_n_suites h + 8 ≤ length buf).
  { unfold wire_hello in Hb. rewrite length_app, Hlp in Hb. lia. }
  transitivity (writing (hello_put h) buf);
    [|apply (writing_run _ _ id); [by apply emits_hello_put|done..]].
  destruct Hwf as (_ & Hn & _). unfold auth_hello_encode, writing. mstep.
  rewrite (proj2 (Nat.leb_le (h_n_suites h) _)) by done. do 2 mstep. cbn [fst snd].
  rewrite (proj2 (Nat.leb_le _ (length buf))) by lia. by mstep.
Qed.

(** *** Decoding *)
Fixpoint apply_tlvs (l : list (Z * bytes)) (h : auth_hello_t) :
    outcome auth_err_t auth_hello_t :=
  match l with
  | [] => Ok h
  | (tag, value) :: l => h' ← hello_apply_tlv h tag value; apply_tlvs l h'
  end.

Definition tlv_wf (tv : Z * bytes) : Prop :=
  is_u16 tv.1 ∧ (Z.of_nat (length tv.2) <= 0xFFFF)%Z.

(** The loop interprets the TLVs of the buffer in order. *)
Lemma hello_tlv_loop_run l fuel buf off h :
  Forall tlv_wf l → length l < fuel → at_pos buf off (wire_tlvs l) →
  hello_tlv_loop fuel buf off h = apply_tlvs l h.
Proof.
  revert fuel off h. induction l as [|[tag value] l IH]; intros fuel off h Hl Hf Hp;
    (destruct fuel as [|fuel]; [cbn in Hf; lia|]);
    pose proof (at_pos_length _ _ _ Hp) as Hlen; cbn [hello_tlv_loop apply_tlvs].
  - cbn in Hlen. by rewrite (proj2 (Nat.ltb_ge _ _)) by lia.
  - apply list.Forall_cons in Hl as [[Ht Hv] Hl]. cbn [fst snd] in *.
    rewrite wire_tlvs_cons in *. rewrite length_app, length_wire_tlv in Hlen.
    rewrite (proj2 (Nat.ltb_lt _ _)) by lia.
    rewrite (tlv_read_at _ _ _ _ _ Ht Hv Hp).
    apply at_pos_app in Hp. rewrite length_wire_tlv in Hp.
    destruct (hello_apply_tlv h tag value); cbn [mbind outcome_bind]; [|done..].
    apply IH; [done|cbn in Hf; lia|done].
Qed.

Lemma length_wire_tlvs l : 4 * length l ≤ length (wire_tlvs l).
Proof.
  induction l as [|[t v] l IH]; [cbn; lia|].
  rewrite wire_tlvs_cons, length_app, length_wire_tlv. cbn [length]. lia.
Qed.

(** The structure before the TLV walk. *)
Definition hello_base (h : auth_hello_t) : auth_hello_t :=
  {| h_version := h_version h; h_min_version := h_version h;
     h_suites := take (h_n_suites h) (h_suites h) ++ replicate (N_SUITES - h_n_suites h) 0%Z;
     h_n_suites := h_n_suites h; h_caps := h_caps h;
     h_has_mtu_hint := false; h_mtu_hint := 0;
     h_vendor_id := zeros VENDOR_ID_CAP; h_vendor_id_len := 0;
     h_device_model := zeros DEVICE_MODEL_CAP; h_device_model_len := 0 |}.

Lemma get_suites_run l buf off i suites rest :
  Forall is_u16 l → i + length l ≤ length suites →
  at_pos buf off (concat (map (store_le 2) l) ++ rest) →
  get_suites buf off i (length l) suites =
    Ok (take i suites ++ l ++ drop (i + length l) suites).
Proof.
  revert off i suites. induction l as [|s l IH]; intros off i suites Hl Hi Hp;
    cbn [get_suites length] in *.
  - by rewrite Nat.add_0_r, app_nil_l, take_drop.
  - apply list.Forall_cons in Hl as [Hs Hl]. cbn [map concat] in Hp.
    rewrite <- app_assoc in Hp.
    rewrite (at_pos_u16 buf off [] (u8 s) (u8 (Z.shiftr s 8)) _ off Hp) by (cbn; lia).
    change [u8 s; u8 (Z.shiftr s 8)] with (store_le 2 s).
    rewrite load_store_le_2 by done. cbn [mbind outcome_bind].
    rewrite (proj2 (Nat.ltb_lt _ _)) by lia. cbn [mret outcome_ret mbind outcome_bind].
    apply at_pos_app in Hp. rewrite length_store_le in Hp.
    rewrite IH; [|done|rewrite length_insert; lia|done]. f_equal.
    assert (i < length suites) as Hi' by lia.
    rewrite (take_S_r _ i s) by (by apply list_lookup_insert_eq).
    rewrite take_insert_ge, <- app_assoc by lia. f_equal. cbn [app].
    rewrite drop_insert_lt by lia. by rewrite <- Nat.add_succ_comm.
Qed.

Lemma get_caps_run bs buf off i caps rest :
  i + length bs ≤ 8 → at_pos buf (off + i) (bs ++ rest) →
  get_caps buf off i (length bs) caps =
    Ok (Z.lor caps (Z.shiftl (load_le bs) (8 * Z.of_nat i))).
Proof.
  revert i caps. induction bs as [|b bs IH]; intros i caps Hi Hp; cbn [get_caps length] in *.
  - unfold load_le. by rewrite Z.shiftl_0_l, Z.lor_0_r.
  - pose proof (at_pos_lookup buf (off + i) [] b (bs ++ rest) Hp) as Hb.
    rewrite Nat.add_0_r in Hb. rewrite (load8_ok _ _ _ Hb). cbn [mbind outcome_bind].
    apply (at_pos_app buf (off + i) [b] (bs ++ rest)) in Hp. cbn [length] in Hp.
    rewrite IH; [|lia|by rewrite <- Nat.add_assoc, (Nat.add_1_r i) in Hp]. f_equal.
    unfold u64. change 18446744073709551616%Z with (2 ^ 64)%Z.
    rewrite shiftl_byte_small by lia. unfold load_le; fold load_le.
    rewrite Z.shiftl_lor, Z.shiftl_shiftl, Z.lor_assoc by lia. do 2 f_equal. lia.
Qed.

Lemma hello_decode_run h l :
  hello_wf h → Forall tlv_wf l →
  auth_hello_decode (Some (hello_prefix h ++ wire_tlvs l)) = apply_tlvs l (hello_base h).
Proof.
  intros Hwf Hl. pose proof (length_hello_prefix h Hwf) as Hlp.
  destruct Hwf as (Hs & Hn & Hu & Hc & _). set (buf := hello_prefix h ++ wire_tlvs l).
  assert (Hlen : length buf = 11 + 2 * h_n_suites h + length (wire_tlvs l))
    by (unfold buf; rewrite length_app, Hlp; lia).
  set (n := Z.of_nat (h_n_suites h)). unfold N_SUITES in *.
  set (su := take (h_n_suites h) (h_suites h)).
  assert (Hsu : length su = h_n_suites h) by (unfold su; rewrite length_take_le; lia).
  assert (Hp : at_pos buf 0 ([h_version h] ++ [u8 n; u8 (Z.shiftr n 8)] ++
    concat (map (store_le 2) su) ++ store_le 8 (h_caps h) ++ wire_tlvs l)).
  { split; [lia|]. unfold buf, hello_prefix. by rewrite <- !app_assoc. }
  assert (Hp3 : at_pos buf 3 (concat (map (store_le 2) su) ++ store_le 8 (h_caps h) ++ wire_tlvs l)).
  { rewrite app_assoc in Hp. by apply at_pos_app in Hp. }
  pose proof (at_pos_app _ _ _ _ Hp3) as Hpc. rewrite length_suites, Hsu in Hpc.
  pose proof (at_pos_app _ _ _ _ Hpc) as Hpt. rewrite length_store_le in Hpt.
  unfold auth_hello_decode. cbn [nonnull mbind outcome_bind]. rewrite Hlen.
  rewrite (proj2 (Nat.leb_le 3 _)) by lia. cbn [check].
  rewrite (load8_ok buf 0 (h_version h)) by done. cbn [mbind outcome_bind].
  rewrite (at_pos_u16 buf 0 [h_version h] _ _ _ 1 Hp) by done.
  change [u8 n; u8 (Z.shiftr n 8)] with (store_le 2 n).
  rewrite load_store_le_2 by (unfold is_u16, n; lia). cbn [mbind outcome_bind].
  unfold n. rewrite Nat2Z.id. rewrite (proj2 (Nat.leb_le _ N_SUITES)) by done. cbn [check].
  rewrite (proj2 (Nat.leb_le _ (_ - 3))) by lia. cbn [check mbind outcome_bind].
  pose proof (get_suites_run su buf 3 0 (replicate N_SUITES 0%Z) _ Hu ltac:(len) Hp3) as Eg.
  rewrite Hsu in Eg. rewrite Eg. cbn [mbind outcome_bind].
  pose proof (get_caps_run (store_le 8 (h_caps h)) buf (3 + 2 * h_n_suites h) 0 0 (wire_tlvs l))
    as Ec. rewrite length_store_le, Nat.add_0_r in Ec. rewrite Ec by (done || lia).
  rewrite Z.shiftl_0_r, Z.lor_0_l, load_store_le_8 by done. cbn [mbind outcome_bind].
  rewrite (hello_tlv_loop_run l); [|done| |done].
  - unfold hello_base. by rewrite take_0, app_nil_l, drop_replicate.
  - pose proof (length_wire_tlvs l). lia.
Qed.

Lemma copy_into_run {E} field value :
  length value ≤ length field →
  copy_into (E:=E) field value = Ok (value ++ drop (length value) field).
Proof.
  intros H. unfold copy_into, mem_store. by rewrite (proj2 (Nat.leb_le _ _)) by lia.
Qed.

Lemma apply_min_version h v :
  hello_apply_tlv h AUTH_TLV_MIN_VERSION [v] = Ok (set_min_version v h).
Proof. done. Qed.

Lemma apply_mtu_hint h v :
  is_u16 v → hello_apply_tlv h AUTH_TLV_MTU_HINT (store_le 2 v) = Ok (set_mtu_hint v h).
Proof.
  intros Hv. unfold hello_apply_tlv. cbn [Z.eqb AUTH_TLV_MTU_HINT AUTH_TLV_MIN_VERSION].
  rewrite length_store_le. cbn [Nat.eqb check mbind outcome_bind].
  rewrite (load_u16_le_ok _ _ (u8 v) (u8 (Z.shiftr v 8))) by done.
  change [u8 v; u8 (Z.shiftr v 8)] with (store_le 2 v).
  by rewrite load_store_le_2.
Qed.

Lemma apply_vendor_id h x :
  length x ≤ VENDOR_ID_CAP → length (h_vendor_id h) = VENDOR_ID_CAP →
  hello_apply_tlv h AUTH_TLV_VENDOR_ID x =
    Ok (set_vendor_id (x ++ drop (length x) (h_vendor_id h)) (length x) h).
Proof.
  intros Hx Hv. unfold hello_apply_tlv. cbn [Z.eqb Pos.eqb AUTH_TLV_MTU_HINT
    AUTH_TLV_MIN_VERSION AUTH_TLV_VENDOR_ID].
  rewrite (proj2 (Nat.ltb_ge _ _)) by done. by rewrite copy_into_run by lia.
Qed.

Lemma apply_device_model h x :
  length x ≤ DEVICE_MODEL_CAP → length (h_device_model h) = DEVICE_MODEL_CAP →
  hello_apply_tlv h AUTH_TLV_DEVICE_MODEL x =
    Ok (set_device_model (x ++ drop (length x) (h_device_model h)) (length x) h).
Proof.
  intros Hx Hv. unfold hello_apply_tlv. cbn [Z.eqb Pos.eqb AUTH_TLV_MTU_HINT
    AUTH_TLV_MIN_VERSION AUTH_TLV_VENDOR_ID AUTH_TLV_DEVICE_MODEL].
  rewrite (proj2 (Nat.ltb_ge _ _)) by done. by rewrite copy_into_run by lia.
Qed.

Lemma apply_opt (b : bool) tag value l h h' :
  (b = true → hello_apply_tlv h tag value = Ok h') →
  apply_tlvs ((if b then [(tag, value)] else []) ++ l) h =
    apply_tlvs l (if b then h' else h).
Proof. destruct b; [|done]. intros H. cbn [app apply_tlvs]. by rewrite H. Qed.

Lemma pad_canon n cap (x : bytes) :
  drop n x = zeros (cap - n) → n ≤ cap → length x = cap →
  take n x ++ drop (length (take n x)) (zeros cap) = x.
Proof.
  intros H Hn Hx. unfold zeros in *.
  rewrite length_take_le, drop_replicate, <- H by lia. apply take_drop.
Qed.

(** Interpreting the extensions of a hello rebuilds it. *)
Lemma apply_hello_tlvs h l :
  hello_wf h → hello_canon h →
  apply_tlvs (hello_tlvs h ++ l) (hello_base h) = apply_tlvs l h.
Proof.
  intros (Hs & Hn & _ & _ & Hmt & Hvl & Hv & Hml & Hm) (Cs & Ct & Cv & Cm).
  unfold hello_tlvs. rewrite <- !app_assoc. cbn [app apply_tlvs].
  rewrite apply_min_version. cbn [mbind outcome_bind].
  erewrite apply_opt by (intros _; by apply apply_mtu_hint).
  erewrite apply_opt.
  2:{ intros _. apply apply_vendor_id; [len|]. by destruct (h_has_mtu_hint h). }
  erewrite apply_opt.
  2:{ intros _. apply apply_device_model; [len|].
      by destruct (h_has_mtu_hint h), (0 <? h_vendor_id_len h). }
  f_equal. pose proof (pad_canon _ _ _ Cv Hv Hvl) as Ev.
  pose proof (pad_canon _ _ _ Cm Hm Hml) as Em.
  assert (Es : take (h_n_suites h) (h_suites h) ++ replicate (N_SUITES - h_n_suites h) 0%Z
    = h_suites h) by (rewrite <- Cs; apply take_drop).
  destruct h as [v mv su n caps b mtu vid vl dm ml]; cbn -[take drop Nat.ltb zeros] in *.
  unfold hello_base, set_min_version, set_mtu_hint, set_vendor_id, set_device_model.
  assert (Hv0 : ¬ 0 < vl → vl = 0 ∧ vid = zeros VENDOR_ID_CAP).
  { intros H0. assert (vl = 0) as -> by lia. by rewrite drop_0, Nat.sub_0_r in Cv. }
  assert (Hm0 : ¬ 0 < ml → ml = 0 ∧ dm = zeros DEVICE_MODEL_CAP).
  { intros H0. assert (ml = 0) as -> by lia. by rewrite drop_0, Nat.sub_0_r in Cm. }
  assert (Hb0 : b = false → mtu = 0%Z) by done. clear Ct Cv Cm.
  rewrite length_take_le in Ev, Em by lia.
  destruct b; [|rewrite Hb0 in * by done];
    (destruct (Nat.ltb_spec 0 vl) as [|Hvl0]; [|destruct Hv0 as [-> ->]; [lia|]]);
    (destruct (Nat.ltb_spec 0 ml) as [|Hml0]; [|destruct Hm0 as [-> ->]; [lia|]]);
    cbn -[take drop Nat.ltb zeros]; rewrite ?length_take_le, ?Ev, ?Em, ?Es by lia; done.
Qed.

(** *** Safety and termination *)
Definition hello_fields (h : auth_hello_t) : Prop :=
  length (h_vendor_id h) = VENDOR_ID_CAP ∧ length (h_device_model h) = DEVICE_MODEL_CAP.

Lemma length_shape2 (x : bytes) : length x = 2 → ∃ a b, x = [a; b].
Proof. destruct x as [|a [|b [|]]]; try done. by exists a, b. Qed.

Lemma hello_apply_tlv_safe h tag value :
  hello_fields h →
  hello_apply_tlv h tag value ≠ Fault ∧
  ∀ h', hello_apply_tlv h tag value = Ok h' → hello_fields h'.
Proof.
  intros [Hv Hm]. unfold hello_apply_tlv.
  destruct (tag =? _)%Z.
  { destruct value as [|b [|]]; cbn; (split; [done|]); try done. by intros ? [= <-]. }
  destruct (tag =? _)%Z.
  { destruct (Nat.eqb_spec (length value) 2) as [E|]; cbn; [|done].
    apply length_shape2 in E as (a & b & ->). rewrite (load_u16_le_ok _ _ a b) by done.
    split; [done|]. by intros ? [= <-]. }
  destruct (tag =? _)%Z.
  { destruct (Nat.ltb_spec VENDOR_ID_CAP (length value)) as [|Hl];
      [split; [done|]; by intros ? [= <-]|].
    rewrite copy_into_run by lia. split; [done|]. intros ? [= <-]. split; [|done].
    unfold set_vendor_id; cbn [h_vendor_id]. len. }
  destruct (tag =? _)%Z; [|split; [done|]; by intros ? [= <-]].
  destruct (Nat.ltb_spec DEVICE_MODEL_CAP (length value)) as [|Hl];
    [split; [done|]; by intros ? [= <-]|].
  rewrite copy_into_run by lia. split; [done|]. intros ? [= <-]. split; [done|].
  unfold set_device_model; cbn [h_device_model]. len.
Qed.

Lemma hello_tlv_loop_safe fuel buf off h :
  hello_fields h → length buf - off < fuel → hello_tlv_loop fuel buf off h ≠ Fault.
Proof.
  revert off h. induction fuel as [|fuel IH]; intros off h Hh Hf; [lia|]. cbn [hello_tlv_loop].
  destruct (Nat.ltb_spec off (length buf)) as [Ho|]; [|done].
  pose proof (tlv_read_no_fault (Some buf) off) as Hnf.
  destruct (auth_tlv_read (Some buf) off) as [[[tag value] off']|e|] eqn:E; [|by destruct e|done].
  apply tlv_read_ok in E as (_ & _ & -> & _).
  destruct (hello_apply_tlv_safe h tag value Hh) as [Hs Hi].
  destruct (hello_apply_tlv h tag value) as [h'| |]; cbn; [|done..].
  apply IH; [by apply Hi|lia].
Qed.

Lemma get_suites_safe nsu buf off i suites :
  i + nsu ≤ length suites → off + 2 * nsu ≤ length buf →
  ∃ s, get_suites buf off i nsu suites = Ok s.
Proof.
  revert off i suites. induction nsu as [|n IH]; intros off i suites Hi Ho; [by exists suites|].
  cbn [get_suites].
  destruct (lookup_lt_is_Some_2 buf off) as [b0 E0]; [lia|].
  destruct (lookup_lt_is_Some_2 buf (off + 1)) as [b1 E1]; [lia|].
  rewrite (load_u16_le_ok _ _ _ _ E0 E1), (proj2 (Nat.ltb_lt _ _)) by lia.
  cbn [mbind outcome_bind mret outcome_ret]. apply IH; [rewrite length_insert|]; lia.
Qed.

Lemma get_caps_safe n buf off i caps :
  off + i + n ≤ length buf → ∃ c, get_caps buf off i n caps = Ok c.
Proof.
  revert i caps. induction n as [|n IH]; intros i caps Ho; [by eexists|].
  cbn [get_caps]. destruct (lookup_lt_is_Some_2 buf (off + i)) as [b E]; [lia|].
  rewrite (load8_ok _ _ _ E). apply IH. lia.
Qed.

(** No input makes the HELLO decoder read outside its buffer, write outside
    the structure or loop for ever. *)
Lemma hello_decode_no_fault buf : auth_hello_decode buf ≠ Fault.
Proof.
  destruct buf as [buf|]; [|done]. unfold auth_hello_decode. cbn [nonnull mbind outcome_bind].
  destruct (Nat.leb_spec 3 (length buf)) as [Hl|]; [|done]. cbn [check].
  destruct (lookup_lt_is_Some_2 buf 0) as [b0 E0]; [lia|].
  destruct (lookup_lt_is_Some_2 buf 1) as [b1 E1]; [lia|].
  destruct (lookup_lt_is_Some_2 buf 2) as [b2 E2]; [lia|].
  rewrite (load8_ok _ _ _ E0), (load_u16_le_ok _ 1 b1 b2 E1 E2). cbn [mbind outcome_bind].
  set (nsu := Z.to_nat _).
  destruct (Nat.leb_spec nsu N_SUITES) as [Hn|]; [|done]. cbn [check].
  destruct (Nat.leb_spec (nsu * 2 + 8) (length buf - 3)); [|done]. cbn [check mbind outcome_bind].
  destruct (get_suites_safe nsu buf 3 0 (replicate N_SUITES 0%Z)) as [s ->];
    [rewrite length_replicate; lia|lia|]. cbn [mbind outcome_bind].
  destruct (get_caps_safe 8 buf (3 + 2 * nsu) 0 0) as [c ->]; [lia|]. cbn [mbind outcome_bind].
  apply hello_tlv_loop_safe; [done|lia].
Qed.

(** *** Extensions of other tags *)
Definition tlv_known (tag : Z) : bool :=
  (tag =? AUTH_TLV_MIN_VERSION)%Z || (tag =? AUTH_TLV_MTU_HINT)%Z ||
  (tag =? AUTH_TLV_VENDOR_ID)%Z || (tag =? AUTH_TLV_DEVICE_MODEL)%Z.

Lemma apply_tlvs_unknown l h :
  Forall (λ tv, tlv_known tv.1 = false) l → apply_tlvs l h = Ok h.
Proof.
  induction l as [|[tag value] l IH]; intros Hl; [done|].
  apply list.Forall_cons in Hl as [Hk Hl]. unfold tlv_known in Hk. cbn [fst] in Hk.
  apply orb_false_iff in Hk as [Hk E4]. apply orb_false_iff in Hk as [Hk E3].
  apply orb_false_iff in Hk as [E1 E2]. cbn [apply_tlvs]. unfold hello_apply_tlv.
  rewrite E1, E2, E3, E4. by apply IH.
Qed.

Lemma Forall_if {A} (P : A → Prop) (b : bool) x :
  (b = true → P x) → Forall P (if b then [x] else []).
Proof. destruct b; intros H; [|done]. apply list.Forall_singleton. auto. Qed.

Lemma hello_tlvs_wf h : hello_wf h → Forall tlv_wf (hello_tlvs h).
Proof.
  intros (_ & _ & _ & _ & _ & _ & Hv & _ & Hm).
  unfold hello_tlvs, tlv_wf. repeat apply list.Forall_app_2;
    [apply list.Forall_singleton | apply Forall_if; intros _..]; unfold is_u16;
    cbn [fst snd]; split; try done; len.
Qed.

(** ** Negotiation *)
Lemma peer_lists_spec s peer : peer_lists s peer = true ↔ s ∈ peer.
Proof.
  induction peer as [|p peer IH]; cbn [peer_lists].
  - rewrite elem_of_nil. done.
  - rewrite elem_of_cons. destruct (Z.eqb_spec s p); [tauto|]. rewrite IH. tauto.
Qed.

Lemma peer_lists_false s peer : peer_lists s peer = false ↔ s ∉ peer.
Proof. rewrite <- peer_lists_spec. destruct (peer_lists s peer); split; done. Qed.

(** [s] is the first element of [local] that [peer] has too. *)
Definition first_common (local peer : list Z) (s : Z) : Prop :=
  ∃ l1 l2, local = l1 ++ s :: l2 ∧ s ∈ peer ∧ ∀ x, x ∈ l1 → x ∉ peer.

Lemma choose_suite_some local peer s :
  choose_suite local peer = Some s ↔ first_common local peer s.
Proof.
  unfold first_common. revert s. induction local as [|x local IH]; intros s; cbn [choose_suite].
  - split; [done|]. intros (l1 & l2 & H & _). by destruct l1.
  - destruct (peer_lists x peer) eqn:E.
    + apply peer_lists_spec in E. split.
      * intros [= <-]. exists [], local. split_and!; [done..|]. intros y Hy.
        by apply not_elem_of_nil in Hy.
      * intros ([|y l1] & l2 & [= -> ->] & Hs & Hn); [done|].
        destruct (Hn y); [left|done].
    + apply peer_lists_false in E. rewrite IH. split.
      * intros (l1 & l2 & -> & Hs & Hn). exists (x :: l1), l2.
        split_and!; [done..|]. intros y [->|Hy]%elem_of_cons; auto.
      * intros ([|y l1] & l2 & [= -> ->] & Hs & Hn); [done|].
        exists l1, l2. split_and!; [done..|]. intros z Hz. apply Hn. by right.
Qed.

Lemma choose_suite_none local peer :
  choose_suite local peer = None ↔ ∀ s, s ∈ local → s ∉ peer.
Proof.
  induction local as [|x local IH]; cbn [choose_suite].
  - split; [|done]. intros _ s Hs. by apply not_elem_of_nil in Hs.
  - destruct (peer_lists x peer) eqn:E.
    + apply peer_lists_spec in E. split; [done|]. intros H. destruct (H x); [left|done].
    + apply peer_lists_false in E. rewrite IH. split.
      * intros H s [->|Hs]%elem_of_cons; auto.
      * intros H s Hs. apply H. by right.
Qed.

(** ** The correctness of the framing layer *)

(** Header decoding accepts a buffer exactly when it is the 24-byte layout
    of a header of a supported version followed by the payload it returns, and
    it rejects every other buffer with the error of the first check that fails. *)
Theorem header_decode_exact buf :
  (∀ h payload, auth_header_decode (Some buf) = Ok (h, payload) ↔
     header_wf h ∧ (AUTH_MIN_SUPPORTED_VERSION <= b2z (hdr_version h))%Z ∧
     buf = wire_header h ++ payload) ∧
  (auth_header_decode (Some buf) = Err AUTH_ERR_PAYLOAD_TOO_SHORT ↔
     length buf < AUTH_HEADER_LEN) ∧
  auth_header_decode (Some buf) ≠ Fault.
Proof.
  split; [intros; apply header_decode_ok|]. split; [|apply header_decode_no_fault].
  split; [|apply header_decode_short]. intros H.
  destruct (decide (AUTH_HEADER_LEN ≤ length buf)) as [Hl|]; [|lia].
  destruct (header_shape buf Hl) as (v & t & f0 & f1 & sid & s0 & s1 & s2 & s3 & p & Hs & ->).
  rewrite header_decode_run in H by done. by destruct (_ <=? _)%Z.
Qed.

(** A packet built into a large enough buffer is the wire layout, nothing
    behind it is touched, and decoding it gives the header and payload back. *)
Theorem packet_roundtrip t sid seq payload buf :
  length sid = AUTH_SESSION_ID_LEN → is_u32 seq →
  length payload ≤ AUTH_MAX_PAYLOAD → AUTH_HEADER_LEN + length payload ≤ length buf →
  ∃ buf', auth_packet_build t (Some sid) seq (Some payload) (length payload) buf =
      (Ok (AUTH_HEADER_LEN + length payload), buf') ∧
    auth_header_decode (Some (take (AUTH_HEADER_LEN + length payload) buf')) =
      Ok (packet_header t sid seq, payload) ∧
    drop (AUTH_HEADER_LEN + length payload) buf' =
      drop (AUTH_HEADER_LEN + length payload) buf ∧
    length buf' = length buf.
Proof.
  intros Hs Hq Hp Hb. eexists. split; [by apply packet_build_run|].
  rewrite <- (length_wire_packet t sid seq payload) by done.
  rewrite take_written, drop_written, length_written by (by rewrite length_wire_packet).
  split_and!; [|done..]. apply header_decode_ok.
  split_and!; [by apply packet_header_wf|by vm_compute|done].
Qed.

Lemma packet_roundtrip_witness :
  ∃ buf', auth_packet_build AUTH_PKT_AUTH_1 (Some (zeros 16)) 7 (Some [Byte.xaa; Byte.xbb]) 2
      (zeros 30) = (Ok 26, buf') ∧
    auth_header_decode (Some (take 26 buf')) =
      Ok (packet_header AUTH_PKT_AUTH_1 (zeros 16) 7, [Byte.xaa; Byte.xbb]) ∧
    drop 26 buf' = drop 26 (zeros 30) ∧ length buf' = length (zeros 30).
Proof.
  apply (packet_roundtrip AUTH_PKT_AUTH_1 (zeros 16) 7 [Byte.xaa; Byte.xbb] (zeros 30));
    [reflexivity | unfold is_u32; lia | apply Nat.leb_le; reflexivity
    | apply Nat.leb_le; reflexivity].
Defined.

(** An error packet carries its code and its text to the peer: parsing what
    was built gives the same message, and the same code exactly for the codes
    that may cross the wire; a local-only code arrives as [AUTH_ERR_UNSPECIFIED]. *)
Theorem error_packet_roundtrip sid seq e msg buf :
  length sid = AUTH_SESSION_ID_LEN → is_u32 seq →
  length msg ≤ AUTH_MAX_PAYLOAD - 2 → AUTH_HEADER_LEN + (2 + length msg) ≤ length buf →
  ∃ n buf' payload, auth_packet_build_error (Some sid) seq e (Some msg) buf = (Ok n, buf') ∧
    auth_header_decode (Some (take n buf')) =
      Ok (packet_header AUTH_PKT_ERROR sid seq, payload) ∧
    auth_packet_parse_error (Some payload) =
      Ok (if auth_err_is_wire e then e else AUTH_ERR_UNSPECIFIED, msg).
Proof.
  intros Hs Hq Hm Hb. do 2 eexists. exists (store_le 2 (err_code e) ++ msg).
  split; [by apply packet_build_error_run|].
  assert (Hl : AUTH_HEADER_LEN + (2 + length msg) =
    length (wire_packet AUTH_PKT_ERROR sid seq (store_le 2 (err_code e) ++ msg)))
    by (rewrite length_wire_packet by done; len).
  rewrite Hl, take_written. split.
  { apply header_decode_ok. split_and!; [by apply packet_header_wf|by vm_compute|done]. }
  change (store_le 2 ?v) with [u8 v; u8 (Z.shiftr v 8)].
  rewrite packet_parse_error_run. change [u8 ?v; u8 (Z.shiftr ?v 8)] with (store_le 2 v).
  rewrite load_store_le_2 by apply err_code_is_u16. do 2 f_equal.
  destruct (auth_err_is_wire e) eqn:Ew.
  - apply normalize_listed, wire_error_cases_spec. by left.
  - destruct (decide (e ∈ wire_error_cases)) as [Hin|Hin].
    + rewrite normalize_listed by done. apply wire_error_cases_spec in Hin as [|]; congruence.
    + apply normalize_unlisted. intros e' Hin' He. apply err_code_inj in He. by subst.
Qed.

Lemma error_packet_roundtrip_witness :
  ∃ n buf' payload, auth_packet_build_error (Some (zeros 16)) 3 AUTH_ERR_PROOF_VERIFY
      (Some (str_bytes "proof")) (zeros 64) = (Ok n, buf') ∧
    auth_header_decode (Some (take n buf')) =
      Ok (packet_header AUTH_PKT_ERROR (zeros 16) 3, payload) ∧
    auth_packet_parse_error (Some payload) =
      Ok (if auth_err_is_wire AUTH_ERR_PROOF_VERIFY then AUTH_ERR_PROOF_VERIFY
          else AUTH_ERR_UNSPECIFIED, str_bytes "proof").
Proof.
  apply (error_packet_roundtrip (zeros 16) 3 AUTH_ERR_PROOF_VERIFY (str_bytes "proof") (zeros 64));
    [reflexivity | unfold is_u32; lia | apply Nat.leb_le; reflexivity
    | apply Nat.leb_le; reflexivity].
Defined.

(** the error parser maps every two-byte code to a code that is allowed on
    the wire or to [AUTH_ERR_UNSPECIFIED], and rejects shorter payloads. *)
Theorem parse_error_total payload :
  (length payload < 2 ∧ auth_packet_parse_error (Some payload) = Err AUTH_ERR_MALFORMED_PACKET) ∨
  (∃ e, auth_packet_parse_error (Some payload) = Ok (e, drop 2 payload) ∧
     (auth_err_is_wire e = true ∨ e = AUTH_ERR_UNSPECIFIED)).
Proof.
  destruct payload as [|c0 [|c1 msg]]; [left; split; [cbn; lia|done]..|right].
  eexists. split; [apply (packet_parse_error_run c0 c1 msg)|].
  apply wire_error_cases_spec, normalize_in_cases.
Qed.

(** C35: a HELLO written by the encoder and followed by extensions of unknown
    tags decodes to the structure it was encoded from. *)
Theorem hello_roundtrip h unknown buf :
  hello_wf h → hello_canon h →
  Forall tlv_wf unknown → Forall (λ tv, tlv_known tv.1 = false) unknown →
  length (wire_hello h) ≤ length buf → is_u64 (Z.of_nat (length buf)) →
  ∃ n buf', auth_hello_encode (Some h) buf = (Ok n, buf') ∧
    drop n buf' = drop n buf ∧
    auth_hello_decode (Some (take n buf' ++ wire_tlvs unknown)) = Ok h.
Proof.
  intros Hwf Hc Hu Hk Hb Hub. do 2 eexists. split; [by apply hello_encode_run|].
  rewrite take_written, drop_written. split; [done|]. unfold wire_hello.
  rewrite <- app_assoc, <- wire_tlvs_app.
  rewrite hello_decode_run, apply_hello_tlvs, apply_tlvs_unknown; try done.
  by apply list.Forall_app_2; [apply hello_tlvs_wf|].
Qed.

Definition sample_hello : auth_hello_t :=
  {| h_version := u8 2; h_min_version := u8 2; h_suites := [1; 0; 0; 0; 0; 0; 0; 0]%Z;
     h_n_suites := 1; h_caps := AUTH_CAPS_BASELINE; h_has_mtu_hint := true; h_mtu_hint := 1200;
     h_vendor_id := str_bytes "acme" ++ zeros 12; h_vendor_id_len := 4;
     h_device_model := zeros 64; h_device_model_len := 0 |}.

Lemma hello_roundtrip_witness :
  ∃ n buf', auth_hello_encode (Some sample_hello) (zeros 128) = (Ok n, buf') ∧
    drop n buf' = drop n (zeros 128) ∧
    auth_hello_decode (Some (take n buf' ++ wire_tlvs [(0x7777%Z, [Byte.x01])])) =
      Ok sample_hello.
Proof.
  apply (hello_roundtrip sample_hello [(0x7777%Z, [Byte.x01])] (zeros 128)).
  - split_and!; try reflexivity; try (apply Nat.leb_le; reflexivity); try concrete_range.
    apply list.Forall_singleton. concrete_range.
  - split_and!; try reflexivity. discriminate.
  - apply list.Forall_singleton. split; unfold is_u16; cbn; lia.
  - apply list.Forall_singleton. reflexivity.
  - apply Nat.leb_le. reflexivity.
  - unfold is_u64. cbn. lia.
Defined.

(** no input makes the HELLO decoder read outside its buffer, write outside
    the structure or loop for ever. *)
Theorem hello_decode_safe buf : auth_hello_decode buf ≠ Fault.
Proof. apply hello_decode_no_fault. Qed.

(** what is written as a TLV at an offset is read back there, and the two
    offsets agree. *)
Theorem tlv_roundtrip w rest tag value n :
  is_u16 tag → n ≤ length value → (Z.of_nat n <= 0xFFFF)%Z → 4 + n ≤ length rest →
  is_u64 (Z.of_nat (length (w ++ rest))) →
  ∃ buf', auth_tlv_write (length w) tag value n (w ++ rest) = (Ok (length w + (4 + n)), buf') ∧
    auth_tlv_read (Some buf') (length w) = Ok (tag, take n value, length w + (4 + n)).
Proof.
  intros Ht Hn H16 Hr Hu. eexists. split; [by apply tlv_write_run|].
  pose proof (tlv_read_at ((w ++ wire_tlv tag (take n value)) ++ drop (4 + n) rest) (length w)
    tag (take n value) (drop (4 + n) rest)) as E.
  rewrite length_take_le in E by done. apply E; [done..|].
  rewrite <- app_assoc. split; [rewrite length_app; lia|]. apply drop_app_length.
Qed.

Lemma tlv_roundtrip_witness :
  ∃ buf', auth_tlv_write 2 4 [Byte.x05; Byte.x06] 2 (zeros 10) = (Ok 8, buf') ∧
    auth_tlv_read (Some buf') 2 = Ok (4%Z, [Byte.x05; Byte.x06], 8).
Proof.
  apply (tlv_roundtrip (zeros 2) (zeros 8) 4 [Byte.x05; Byte.x06] 2);
    [unfold is_u16; lia | cbn; lia | lia | cbn; lia | unfold is_u64; cbn; lia].
Defined.

(** negotiation succeeds exactly when a common version, a common suite and
    the baseline capabilities exist, and then chooses the smaller version, the
    first local suite that the peer has and the common capabilities; each error
    names the first of the three that is missing. *)
Theorem negotiate_spec lv lm ls lc pv pm ps pc :
  let v := Z.min (b2z lv) (b2z pv) in
  let version_ok := (Z.max (b2z lm) (b2z pm) <= v)%Z in
  let suite_ok := ∃ s, s ∈ ls ∧ s ∈ ps in
  let caps_ok := Z.land (Z.land lc pc) AUTH_CAPS_BASELINE = AUTH_CAPS_BASELINE in
  let result := auth_negotiate lv lm ls lc pv pm ps pc in
  (∀ r, result = Ok r ↔ version_ok ∧ caps_ok ∧ b2z (n_version r) = v ∧
     first_common ls ps (n_suite r) ∧ n_caps r = Z.land lc pc) ∧
  (result = Err AUTH_ERR_UNSUPPORTED_VERSION ↔ ¬ version_ok) ∧
  (result = Err AUTH_ERR_UNSUPPORTED_SUITE ↔ version_ok ∧ ¬ suite_ok) ∧
  (result = Err AUTH_ERR_CAP_MISMATCH ↔ version_ok ∧ suite_ok ∧ ¬ caps_ok).
Proof.
  cbv zeta. unfold auth_negotiate.
  set (v := if (b2z lv <? b2z pv)%Z then lv else pv).
  set (fl := if (b2z pm <? b2z lm)%Z then lm else pm).
  assert (Ev : Z.min (b2z lv) (b2z pv) = b2z v) by (unfold v; destruct (Z.ltb_spec (b2z lv) (b2z pv)); lia).
  assert (Ef : Z.max (b2z lm) (b2z pm) = b2z fl) by (unfold fl; destruct (Z.ltb_spec (b2z pm) (b2z lm)); lia).
  rewrite Ev, Ef.
  destruct (Z.leb_spec (b2z fl) (b2z v)) as [Hv|Hv]; cbn [check mbind outcome_bind].
  2:{ split_and!; intros; (split; [done||lia|]); intros; destruct_and?; done || lia. }
  destruct (choose_suite ls ps) as [s|] eqn:Es; cbn [nonnull mbind outcome_bind].
  2:{ pose proof (proj1 (choose_suite_none _ _) Es) as Hn.
      assert (Hc : ¬ ∃ s, s ∈ ls ∧ s ∈ ps) by (intros (s & H1 & H2); by destruct (Hn s)).
      split_and!; intros; (split; [done|]); intros; destruct_and?; try done || lia.
      match goal with H : first_common _ _ _ |- _ => apply choose_suite_some in H end.
      congruence. }
  pose proof (proj1 (choose_suite_some _ _ _) Es) as Hs.
  assert (Hc : ∃ s, s ∈ ls ∧ s ∈ ps).
  { destruct Hs as (l1 & l2 & -> & Hp & _). exists s. split; [|done].
    apply elem_of_app. right. left. }
  destruct (Z.eqb_spec (Z.land (Z.land lc pc) AUTH_CAPS_BASELINE) AUTH_CAPS_BASELINE)
    as [Hb|Hb]; cbn [check mbind outcome_bind mret outcome_ret];
    split_and!; intros; (split; [try done|]); try (intros; destruct_and?; done || lia).
  - intros [= <-]. done.
  - destruct r as [rv rs rc]; cbn. intros (_ & _ & E1 & E2 & ->). apply b2z_inj in E1 as ->.
    apply choose_suite_some in E2. by simplify_eq.
Qed.

(** The room check of [auth_tlv_write] is done on a sum that wraps: an
    offset four below [SIZE_MAX + 1] passes it with any buffer and the header
    is then stored outside the object. *)
Theorem tlv_write_offset_wraps buf tag :
  (Z.of_nat (length buf) < 2 ^ 64 - 4)%Z →
  (auth_tlv_write (Z.to_nat (2 ^ 64 - 4)) tag [] 0 buf).1 = Fault.
Proof.
  intros Hb. unfold auth_tlv_write. mstep. rewrite Z2Nat.id by lia.
  change (size_t _) with 0%Z at 1. change (Z.of_nat 0 <=? 0xFFFF)%Z with true. mstep.
  rewrite (proj2 (Z.leb_le _ _)) by lia. mstep.
  rewrite bind_run. unfold store_at at 1, mem_store.
  rewrite (proj2 (Nat.leb_gt _ _)); [done|]. cbn [length]. lia.
Qed.

Lemma tlv_write_offset_wraps_witness :
  (auth_tlv_write (Z.to_nat (2 ^ 64 - 4)) 1 [] 0 (zeros 16)).1 = Fault.
Proof. apply tlv_write_offset_wraps. cbn [zeros replicate length]. lia. Defined.
