(* ===== verification/Payloads.v ===== *)
(** Packet payloads: [src/c/include/auth/payloads.h] and
    [src/c/src/wire/payloads.c], with the proof structures of
    [src/c/include/auth/proofs.h] that they carry.

    Every message has a record, its byte layout [wire_*], the encoder and the
    decoder of the source, and an instance of [PayloadCodec]: the interface the
    protocol's state machines are proved against. *)
From S2P Require Export Wire.

(** ** Proof structures *)
Record auth_schnorr_proof_t := { sp_a : bytes; sp_s : bytes }.
Record auth_set_branch_t := { br_a : bytes; br_c : bytes; br_s : bytes }.

(** ** Messages *)
Record auth_setup1_t := {
  s1_pairing_token : bytes;
  s1_pairing_token_len : nat;
  s1_device_id : bytes;
  s1_device_pub : bytes;
  s1_client_nonce : bytes;
  s1_role_commitment : bytes
}.

Record auth_setup2_t := {
  s2_server_nonce : bytes;
  s2_setup_challenge : bytes;
  s2_server_pub : bytes;
  s2_server_proof : auth_schnorr_proof_t
}.

Record auth_setup3_t := { s3_client_proof : auth_schnorr_proof_t }.

Record auth_auth1_t := {
  a1_pid : bytes;
  a1_client_proof : auth_schnorr_proof_t;
  a1_nonce_c : bytes;
  a1_eph_c : bytes;
  a1_c_prime : bytes;
  a1_rerand_proof : auth_schnorr_proof_t;
  a1_branches : list auth_set_branch_t;
  a1_n_branches : nat
}.

Record auth_auth2_t := {
  a2_server_pub : bytes;
  a2_server_proof : auth_schnorr_proof_t;
  a2_nonce_s : bytes;
  a2_eph_s : bytes;
  a2_tag_s : bytes
}.

Record auth_auth3_t := { a3_tag_c : bytes }.

Definition AUTH_ACK_BYTE : byte := u8 1.

(** ** Read and write helpers *)
Definition room_for (off n cap : nat) : bool := off + n <=? cap.

Definition take_fixed (buf : bytes) (n : nat) : M auth_err_t nat bytes :=
  off ← get;
  require (room_for off n (length buf)) AUTH_ERR_PAYLOAD_TOO_SHORT;;
  read_bytes buf n.

Definition put_fixed (src : bytes) (n : nat) : M auth_err_t cursor unit :=
  off ← get_off;
  cap ← get_cap;
  require (room_for off n cap) AUTH_ERR_BUFFER_TOO_SMALL;;
  x ← lift (loadn src 0 n);
  write_bytes x.

Definition reject_trailing (buf : bytes) : M auth_err_t nat unit :=
  off ← get;
  require (off =? length buf) AUTH_ERR_MALFORMED_PACKET.

(** [if (buf_len - off < n) return AUTH_ERR_PAYLOAD_TOO_SHORT;] *)
Definition expect_more (buf : bytes) (n : nat) : M auth_err_t nat unit :=
  off ← get;
  require (n <=? length buf - off) AUTH_ERR_PAYLOAD_TOO_SHORT.

(** A decoder reads from offset 0. *)
Definition reading {A} (m : M auth_err_t nat A) : outcome auth_err_t A := eval m 0.

(** ** SETUP_1 *)
(** The stores behind the checks. *)
Definition setup1_put (m : auth_setup1_t) : M auth_err_t cursor nat :=
  write_bytes [u8 (Z.of_nat (s1_pairing_token_len m))];;
  (if 0 <? s1_pairing_token_len m
   then x ← lift (loadn (s1_pairing_token m) 0 (s1_pairing_token_len m)); write_bytes x
   else mret tt);;
  write_bytes (s1_device_id m);;
  write_bytes (s1_device_pub m);;
  write_bytes (s1_client_nonce m);;
  write_bytes (s1_role_commitment m);;
  get_off.

Definition auth_setup1_encode (m : ptr auth_setup1_t) : M auth_err_t bytes nat :=
  writing (
    m ← deref m AUTH_ERR_INVALID_ARGUMENT;
    require (s1_pairing_token_len m <=? AUTH_MAX_PAIRING_TOKEN) AUTH_ERR_INVALID_ARGUMENT;;
    cap ← get_cap;
    require (1 + s1_pairing_token_len m + 32 + 32 + 32 + 32 <=? cap)
      AUTH_ERR_BUFFER_TOO_SMALL;;
    setup1_put m).

Definition auth_setup1_decode (buf : ptr bytes) : outcome auth_err_t auth_setup1_t :=
  buf ← nonnull buf AUTH_ERR_PAYLOAD_TOO_SHORT;
  _ ← check (1 <=? length buf) AUTH_ERR_PAYLOAD_TOO_SHORT;
  reading (
    b ← read_u8 buf;
    let tlen := Z.to_nat (b2z b) in
    require (tlen <=? AUTH_MAX_PAIRING_TOKEN) AUTH_ERR_MALFORMED_PACKET;;
    expect_more buf (tlen + 32 + 32 + 32 + 32);;
    token ← (if 0 <? tlen
             then x ← read_bytes buf tlen;
                  lift (copy_into (zeros AUTH_MAX_PAIRING_TOKEN) x)
             else mret (zeros AUTH_MAX_PAIRING_TOKEN));
    device_id ← take_fixed buf 32;
    device_pub ← take_fixed buf 32;
    client_nonce ← take_fixed buf 32;
    role_commitment ← take_fixed buf 32;
    reject_trailing buf;;
    mret {| s1_pairing_token := token; s1_pairing_token_len := tlen;
            s1_device_id := device_id; s1_device_pub := device_pub;
            s1_client_nonce := client_nonce; s1_role_commitment := role_commitment |}).

(** ** SETUP_2 *)
Definition auth_setup2_encode (m : ptr auth_setup2_t) : M auth_err_t bytes nat :=
  writing (
    m ← deref m AUTH_ERR_INVALID_ARGUMENT;
    cap ← get_cap;
    require (32 + 16 + 32 + 32 + 32 <=? cap) AUTH_ERR_BUFFER_TOO_SMALL;;
    put_fixed (s2_server_nonce m) 32;;
    put_fixed (s2_setup_challenge m) AUTH_SETUP_CHALLENGE_LEN;;
    put_fixed (s2_server_pub m) 32;;
    put_fixed (sp_a (s2_server_proof m)) 32;;
    put_fixed (sp_s (s2_server_proof m)) 32;;
    get_off).

Definition auth_setup2_decode (buf : ptr bytes) : outcome auth_err_t auth_setup2_t :=
  buf ← nonnull buf AUTH_ERR_INVALID_ARGUMENT;
  reading (
    server_nonce ← take_fixed buf 32;
    setup_challenge ← take_fixed buf AUTH_SETUP_CHALLENGE_LEN;
    server_pub ← take_fixed buf 32;
    a ← take_fixed buf 32;
    s ← take_fixed buf 32;
    reject_trailing buf;;
    mret {| s2_server_nonce := server_nonce; s2_setup_challenge := setup_challenge;
            s2_server_pub := server_pub; s2_server_proof := {| sp_a := a; sp_s := s |} |}).

(** ** SETUP_3 *)
Definition auth_setup3_encode (m : ptr auth_setup3_t) : M auth_err_t bytes nat :=
  m ← deref m AUTH_ERR_INVALID_ARGUMENT;
  buf ← get;
  require (64 <=? length buf) AUTH_ERR_BUFFER_TOO_SMALL;;
  store_at 0 (sp_a (s3_client_proof m));;
  store_at 32 (sp_s (s3_client_proof m));;
  mret 64.

Definition auth_setup3_decode (buf : ptr bytes) : outcome auth_err_t auth_setup3_t :=
  buf ← nonnull buf AUTH_ERR_INVALID_ARGUMENT;
  _ ← check (64 <=? length buf) AUTH_ERR_PAYLOAD_TOO_SHORT;
  a ← loadn buf 0 32;
  s ← loadn buf 32 32;
  _ ← check (64 =? length buf) AUTH_ERR_MALFORMED_PACKET;
  mret {| s3_client_proof := {| sp_a := a; sp_s := s |} |}.

(** ** AUTH_1 *)

(** [for (i = 0; i < n; ++i)] over [m->branches]. *)
Fixpoint put_branches (branches : list auth_set_branch_t) (n : nat) :
    M auth_err_t cursor unit :=
  match n with
  | O => mret tt
  | S n =>
      match branches with
      | [] => fault
      | b :: branches =>
          put_fixed (br_a b) 32;;
          put_fixed (br_c b) 32;;
          put_fixed (br_s b) 32;;
          put_branches branches n
      end
  end.

(** The stores behind the checks. *)
Definition auth1_put (m : auth_auth1_t) : M auth_err_t cursor nat :=
  put_fixed (a1_pid m) 32;;
  put_fixed (sp_a (a1_client_proof m)) 32;;
  put_fixed (sp_s (a1_client_proof m)) 32;;
  put_fixed (a1_nonce_c m) 32;;
  put_fixed (a1_eph_c m) 32;;
  put_fixed (a1_c_prime m) 32;;
  put_fixed (sp_a (a1_rerand_proof m)) 32;;
  put_fixed (sp_s (a1_rerand_proof m)) 32;;
  let nb := u16 (Z.of_nat (a1_n_branches m)) in
  write_bytes [u8 (Z.land nb 0xff)];;
  write_bytes [u8 (Z.land (Z.shiftr nb 8) 0xff)];;
  put_branches (a1_branches m) (a1_n_branches m);;
  get_off.

Definition auth_auth1_encode (m : ptr auth_auth1_t) : M auth_err_t bytes nat :=
  writing (
    m ← deref m AUTH_ERR_INVALID_ARGUMENT;
    require (a1_n_branches m <=? AUTH_MAX_ROLES) AUTH_ERR_INVALID_ARGUMENT;;
    cap ← get_cap;
    require (32 * 8 + 2 + 96 * a1_n_branches m <=? cap) AUTH_ERR_BUFFER_TOO_SMALL;;
    auth1_put m).

(** [for (i = 0; i < nb; ++i)]: stores at [m->branches[i]]. *)
Fixpoint take_branches (buf : bytes) (i nb : nat) (branches : list auth_set_branch_t) :
    M auth_err_t nat (list auth_set_branch_t) :=
  match nb with
  | O => mret branches
  | S nb =>
      a ← take_fixed buf 32;
      c ← take_fixed buf 32;
      s ← take_fixed buf 32;
      (if i <? length branches then mret tt else fault);;
      take_branches buf (S i) nb (<[i := {| br_a := a; br_c := c; br_s := s |}]> branches)
  end.

Definition zero_branch : auth_set_branch_t :=
  {| br_a := zeros 32; br_c := zeros 32; br_s := zeros 32 |}.

(** [load_u16_le(buf + off); off += 2;] *)
Definition read_u16_le (buf : bytes) : M auth_err_t nat Z :=
  off ← get;
  v ← lift (load_u16_le buf off);
  put (off + 2);;
  mret v.

Definition auth_auth1_decode (buf : ptr bytes) : outcome auth_err_t auth_auth1_t :=
  buf ← nonnull buf AUTH_ERR_INVALID_ARGUMENT;
  reading (
    pid ← take_fixed buf 32;
    ca ← take_fixed buf 32;
    cs ← take_fixed buf 32;
    nonce_c ← take_fixed buf 32;
    eph_c ← take_fixed buf 32;
    c_prime ← take_fixed buf 32;
    ra ← take_fixed buf 32;
    rs ← take_fixed buf 32;
    expect_more buf 2;;
    nb ← read_u16_le buf;
    let nb := Z.to_nat nb in
    require (nb <=? AUTH_MAX_ROLES) AUTH_ERR_MALFORMED_PACKET;;
    expect_more buf (nb * 96);;
    branches ← take_branches buf 0 nb (replicate AUTH_MAX_ROLES zero_branch);
    reject_trailing buf;;
    mret {| a1_pid := pid; a1_client_proof := {| sp_a := ca; sp_s := cs |};
            a1_nonce_c := nonce_c; a1_eph_c := eph_c; a1_c_prime := c_prime;
            a1_rerand_proof := {| sp_a := ra; sp_s := rs |};
            a1_branches := branches; a1_n_branches := nb |}).

(** ** AUTH_2 *)
Definition auth_auth2_encode (m : ptr auth_auth2_t) : M auth_err_t bytes nat :=
  writing (
    m ← deref m AUTH_ERR_INVALID_ARGUMENT;
    cap ← get_cap;
    require (32 * 6 <=? cap) AUTH_ERR_BUFFER_TOO_SMALL;;
    put_fixed (a2_server_pub m) 32;;
    put_fixed (sp_a (a2_server_proof m)) 32;;
    put_fixed (sp_s (a2_server_proof m)) 32;;
    put_fixed (a2_nonce_s m) 32;;
    put_fixed (a2_eph_s m) 32;;
    put_fixed (a2_tag_s m) 32;;
    get_off).

Definition auth_auth2_decode (buf : ptr bytes) : outcome auth_err_t auth_auth2_t :=
  buf ← nonnull buf AUTH_ERR_INVALID_ARGUMENT;
  reading (
    server_pub ← take_fixed buf 32;
    a ← take_fixed buf 32;
    s ← take_fixed buf 32;
    nonce_s ← take_fixed buf 32;
    eph_s ← take_fixed buf 32;
    tag_s ← take_fixed buf 32;
    reject_trailing buf;;
    mret {| a2_server_pub := server_pub; a2_server_proof := {| sp_a := a; sp_s := s |};
            a2_nonce_s := nonce_s; a2_eph_s := eph_s; a2_tag_s := tag_s |}).

(** ** AUTH_3 *)
Definition auth_auth3_encode (m : ptr auth_auth3_t) : M auth_err_t bytes nat :=
  m ← deref m AUTH_ERR_INVALID_ARGUMENT;
  buf ← get;
  require (32 <=? length buf) AUTH_ERR_BUFFER_TOO_SMALL;;
  store_at 0 (a3_tag_c m);;
  mret 32.

Definition auth_auth3_decode (buf : ptr bytes) : outcome auth_err_t auth_auth3_t :=
  buf ← nonnull buf AUTH_ERR_INVALID_ARGUMENT;
  _ ← check (32 <=? length buf) AUTH_ERR_PAYLOAD_TOO_SHORT;
  tag_c ← loadn buf 0 32;
  _ ← check (32 =? length buf) AUTH_ERR_MALFORMED_PACKET;
  mret {| a3_tag_c := tag_c |}.

(** ** ACK *)
Definition auth_ack_encode : M auth_err_t bytes nat :=
  buf ← get;
  require (1 <=? length buf) AUTH_ERR_BUFFER_TOO_SMALL;;
  store_at 0 [AUTH_ACK_BYTE];;
  mret 1.

Definition auth_ack_decode (buf : ptr bytes) : outcome auth_err_t unit :=
  buf ← nonnull buf AUTH_ERR_MALFORMED_PACKET;
  _ ← check (length buf =? 1) AUTH_ERR_MALFORMED_PACKET;
  b ← load8 buf 0;
  check (bool_decide (b = AUTH_ACK_BYTE)) AUTH_ERR_MALFORMED_PACKET.

(** ** What a reader accepts

    [parses buf m P]: at any position of [buf], [m] consumes exactly the bytes
    [w] with [P a w] and returns [a]; on a strict prefix of such a [w] it fails
    with [AUTH_ERR_PAYLOAD_TOO_SHORT]; it never reads outside the buffer.
    [parses_all] is the same for a reader that must consume all that is left. *)
Record parses {A} (buf : bytes) (m : M auth_err_t nat A) (P : A → bytes → Prop) : Prop := {
  parses_complete off a w rest :
    at_pos buf off (w ++ rest) → P a w → m off = (Ok a, off + length w);
  parses_sound off rest a off' :
    at_pos buf off rest → m off = (Ok a, off') → ∃ w rest', rest = w ++ rest' ∧ P a w;
  parses_safe off rest : at_pos buf off rest → (m off).1 ≠ Fault;
  parses_short off rest a y :
    at_pos buf off rest → y ≠ [] → P a (rest ++ y) →
    (m off).1 = Err AUTH_ERR_PAYLOAD_TOO_SHORT
}.

Record parses_all {A} (buf : bytes) (m : M auth_err_t nat A) (P : A → bytes → Prop) : Prop := {
  parses_all_exact off rest a : at_pos buf off rest → (m off).1 = Ok a ↔ P a rest;
  parses_all_safe off rest : at_pos buf off rest → (m off).1 ≠ Fault;
  parses_all_short off rest a y :
    at_pos buf off rest → y ≠ [] → P a (rest ++ y) →
    (m off).1 = Err AUTH_ERR_PAYLOAD_TOO_SHORT;
  parses_all_long off w x a :
    at_pos buf off (w ++ x) → x ≠ [] → P a w → (m off).1 = Err AUTH_ERR_MALFORMED_PACKET
}.

Section parses.
Context (buf : bytes).

Lemma parses_all_iff {A} (m : M auth_err_t nat A) P Q :
  (∀ a w, P a w ↔ Q a w) → parses_all buf m P → parses_all buf m Q.
Proof.
  intros H [He Hs Ht Hl]. split.
  - intros off rest a Hp. rewrite <- H. by apply He.
  - done.
  - intros off rest a y Hp Hy HP. eapply Ht; [done..|]. by apply H.
  - intros off w x a Hp Hx HP. eapply Hl; [done..|]. by apply H.
Qed.

Lemma parses_iff {A} (m : M auth_err_t nat A) P Q :
  (∀ a w, P a w ↔ Q a w) → parses buf m P → parses buf m Q.
Proof.
  intros H [Hc Ho Hs Ht]. split.
  - intros off a w rest Hp HQ. eapply Hc; [done|]. by apply H.
  - intros off rest a off' Hp Hm. destruct (Ho _ _ _ _ Hp Hm) as (w & r & -> & HP).
    exists w, r. by rewrite <- H.
  - done.
  - intros off rest a y Hp Hy HP. eapply Ht; [done..|]. by apply H.
Qed.

Definition seqP {A B} (P : A → bytes → Prop) (Q : A → B → bytes → Prop) : B → bytes → Prop :=
  λ b w, ∃ a w1 w2, w = w1 ++ w2 ∧ P a w1 ∧ Q a b w2.

(** Where the truncation of [w1 ++ w2] falls. *)
Lemma app_split {A} (w1 w2 rest y : list A) :
  w1 ++ w2 = rest ++ y →
  (∃ r, rest = w1 ++ r ∧ w2 = r ++ y) ∨ (∃ z, z ≠ [] ∧ w1 = rest ++ z).
Proof.
  intros H. destruct (le_lt_dec (length w1) (length rest)) as [Hl|Hl].
  - left. exists (drop (length w1) rest).
    assert (E : take (length w1) rest = w1).
    { rewrite <- (take_app_le rest y) by done. rewrite <- H. apply take_app_length. }
    split; [rewrite <- E at 1; by rewrite take_drop|].
    rewrite <- (drop_app_le rest y) by done. rewrite <- H. by rewrite drop_app_length.
  - right. exists (drop (length rest) w1). split.
    + intros E. apply (f_equal length) in E. rewrite length_drop in E. cbn in E. lia.
    + assert (E : take (length rest) w1 = rest).
      { rewrite <- (take_app_le w1 w2) by lia. rewrite H. apply take_app_length. }
      rewrite <- E at 1. by rewrite take_drop.
Qed.

Lemma parses_bind {A B} (m : M auth_err_t nat A) (k : A → M auth_err_t nat B) P Q :
  parses buf m P → (∀ a, parses buf (k a) (Q a)) → parses buf (m ≫= k) (seqP P Q).
Proof.
  intros [Hc Ho Hs Ht] Hk. split.
  - intros off b w rest Hp (a & w1 & w2 & -> & H1 & H2). rewrite <- app_assoc in Hp.
    rewrite bind_run, (Hc _ _ _ _ Hp H1), length_app.
    rewrite (parses_complete _ _ _ (Hk a) _ _ _ _ (at_pos_app _ _ _ _ Hp) H2). f_equal. lia.
  - intros off rest b off' Hp Hm. apply bind_ok_inv in Hm as (a & off1 & Ha & Hb).
    destruct (Ho _ _ _ _ Hp Ha) as (w1 & r1 & -> & H1).
    rewrite (Hc _ _ _ _ Hp H1) in Ha. injection Ha as <-.
    destruct (parses_sound _ _ _ (Hk a) _ _ _ _ (at_pos_app _ _ _ _ Hp) Hb)
      as (w2 & r2 & -> & H2). exists (w1 ++ w2), r2. split; [by rewrite app_assoc|].
    by exists a, w1, w2.
  - intros off rest Hp. rewrite bind_run. pose proof (Hs _ _ Hp) as Hf.
    destruct (m off) as [[a| |] off1] eqn:Ea; [|done..].
    destruct (Ho _ _ _ _ Hp Ea) as (w1 & r1 & -> & H1).
    rewrite (Hc _ _ _ _ Hp H1) in Ea. injection Ea as <-.
    exact (parses_safe _ _ _ (Hk a) _ _ (at_pos_app _ _ _ _ Hp)).
  - intros off rest b y Hp Hy (a & w1 & w2 & E & H1 & H2). rewrite bind_run. symmetry in E.
    destruct (app_split _ _ _ _ E) as [(r & -> & ->)|(z & Hz & ->)].
    + rewrite (Hc _ _ _ _ Hp H1).
      exact (parses_short _ _ _ (Hk a) _ _ _ _ (at_pos_app _ _ _ _ Hp) Hy H2).
    + pose proof (Ht _ _ _ _ Hp Hz H1) as Hm. destruct (m off) as [[| |] ?]; cbn in *; congruence.
Qed.

Lemma parses_all_bind {A B} (m : M auth_err_t nat A) (k : A → M auth_err_t nat B) P Q :
  parses buf m P → (∀ a, parses_all buf (k a) (Q a)) → parses_all buf (m ≫= k) (seqP P Q).
Proof.
  intros [Hc Ho Hs Ht] Hk. split.
  - intros off rest b Hp. split.
    + intros Hm. destruct ((m ≫= k) off) as [o off'] eqn:E. cbn in Hm. subst o.
      apply bind_ok_inv in E as (a & off1 & Ha & Hb).
      destruct (Ho _ _ _ _ Hp Ha) as (w1 & r1 & -> & H1).
      rewrite (Hc _ _ _ _ Hp H1) in Ha. injection Ha as <-.
      exists a, w1, r1. split_and!; [done..|].
      apply (parses_all_exact _ _ _ (Hk a) _ _ _ (at_pos_app _ _ _ _ Hp)). by rewrite Hb.
    + intros (a & w1 & w2 & -> & H1 & H2). rewrite bind_run, (Hc _ _ _ _ Hp H1).
      by apply (parses_all_exact _ _ _ (Hk a) _ _ _ (at_pos_app _ _ _ _ Hp)).
  - intros off rest Hp. rewrite bind_run. pose proof (Hs _ _ Hp) as Hf.
    destruct (m off) as [[a| |] off1] eqn:Ea; [|done..].
    destruct (Ho _ _ _ _ Hp Ea) as (w1 & r1 & -> & H1).
    rewrite (Hc _ _ _ _ Hp H1) in Ea. injection Ea as <-.
    exact (parses_all_safe _ _ _ (Hk a) _ _ (at_pos_app _ _ _ _ Hp)).
  - intros off rest b y Hp Hy (a & w1 & w2 & E & H1 & H2). rewrite bind_run. symmetry in E.
    destruct (app_split _ _ _ _ E) as [(r & -> & ->)|(z & Hz & ->)].
    + rewrite (Hc _ _ _ _ Hp H1).
      exact (parses_all_short _ _ _ (Hk a) _ _ _ _ (at_pos_app _ _ _ _ Hp) Hy H2).
    + pose proof (Ht _ _ _ _ Hp Hz H1) as Hm. destruct (m off) as [[| |] ?]; cbn in *; congruence.
  - intros off w x b Hp Hx (a & w1 & w2 & -> & H1 & H2). rewrite <- app_assoc in Hp.
    rewrite bind_run, (Hc _ _ _ _ Hp H1).
    exact (parses_all_long _ _ _ (Hk a) _ _ _ _ (at_pos_app _ _ _ _ Hp) Hx H2).
Qed.

(** *** The basic readers *)
Lemma parses_ret {A} (a : A) : parses buf (mret a) (λ a' w, a' = a ∧ w = []).
Proof.
  split.
  - intros off a' w rest _ [-> ->]. by rewrite Nat.add_0_r.
  - intros off rest a' off' _ [= <- <-]. by exists [], rest.
  - done.
  - intros off rest a' y _ Hy [_ H]. by apply app_nil in H as [_ ->].
Qed.

Lemma parses_require b e : parses buf (require b e) (λ _ w, b = true ∧ w = []).
Proof.
  split.
  - intros off [] w rest _ [-> ->]. by rewrite Nat.add_0_r.
  - intros off rest [] off' _ H. apply require_ok_inv in H as [-> _]. by exists [], rest.
  - intros off rest _. by destruct b.
  - intros off rest [] y _ Hy [_ H]. by apply app_nil in H as [_ ->].
Qed.

Lemma read_bytes_short n off rest :
  at_pos buf off rest → length rest < n → read_bytes (E:=auth_err_t) buf n off = (Fault, off).
Proof.
  intros Hp Hl. pose proof (at_pos_length _ _ _ Hp). unfold read_bytes, mem_load.
  by rewrite (proj2 (Nat.leb_gt _ _)) by lia.
Qed.

Lemma parses_take_fixed n : parses buf (take_fixed buf n) (λ x w, w = x ∧ length x = n).
Proof.
  assert (Hrun : ∀ off rest, at_pos buf off rest → take_fixed buf n off =
    if n <=? length rest then (Ok (take n rest), off + n)
    else (Err AUTH_ERR_PAYLOAD_TOO_SHORT, off)).
  { intros off rest Hp. pose proof (at_pos_length _ _ _ Hp) as Hl. unfold take_fixed, room_for.
    mstep. destruct (Nat.leb_spec n (length rest)) as [Hn|Hn].
    - rewrite (proj2 (Nat.leb_le _ _)) by lia. mstep.
      apply (read_bytes_at _ _ _ _ (drop n rest)); [by rewrite take_drop|].
      by rewrite length_take_le.
    - rewrite (proj2 (Nat.leb_gt _ _)) by lia. by mstep. }
  split.
  - intros off x w rest Hp [-> Hx]. rewrite (Hrun _ _ Hp).
    rewrite (proj2 (Nat.leb_le _ _)) by (rewrite length_app; lia).
    by rewrite <- Hx, take_app_length.
  - intros off rest x off' Hp. rewrite (Hrun _ _ Hp). destruct (Nat.leb_spec n (length rest)); [|done].
    intros [= <- <-]. exists (take n rest), (drop n rest). by rewrite take_drop, length_take_le.
  - intros off rest Hp. rewrite (Hrun _ _ Hp). by destruct (_ <=? _).
  - intros off rest x y Hp Hy [<- Hl]. rewrite (Hrun _ _ Hp).
    destruct y; [done|]. rewrite length_app in Hl. cbn in Hl.
    by rewrite (proj2 (Nat.leb_gt _ _)) by lia.
Qed.

(** A check that enough bytes are left, followed by what needs them. *)
Lemma expect_more_run n off rest :
  at_pos buf off rest →
  expect_more buf n off =
    (if n <=? length rest then Ok tt else Err AUTH_ERR_PAYLOAD_TOO_SHORT, off).
Proof.
  intros Hp. pose proof (at_pos_length _ _ _ Hp) as Hl. unfold expect_more. mstep.
  replace (length buf - off) with (length rest) by lia. by destruct (_ <=? _).
Qed.

Lemma parses_all_expect {A} n (m m' : M auth_err_t nat A) P :
  (∀ off rest, at_pos buf off rest → n ≤ length rest → m off = m' off) →
  (∀ a w, P a w → n ≤ length w) → parses_all buf m' P →
  parses_all buf (expect_more buf n;; m) P.
Proof.
  intros Hm Hn [He Hs Ht Hl]. split.
  - intros off rest a Hp. rewrite bind_run, (expect_more_run _ _ _ Hp).
    destruct (Nat.leb_spec n (length rest)); [rewrite (Hm off rest) by done; by apply He|].
    split; [done|]. intros HP%Hn. lia.
  - intros off rest Hp. rewrite bind_run, (expect_more_run _ _ _ Hp).
    destruct (Nat.leb_spec n (length rest)); [rewrite (Hm off rest) by done; by eapply Hs|done].
  - intros off rest a y Hp Hy HP. rewrite bind_run, (expect_more_run _ _ _ Hp).
    destruct (Nat.leb_spec n (length rest)); [rewrite (Hm off rest) by done; by eapply Ht|done].
  - intros off w x a Hp Hx HP. rewrite bind_run, (expect_more_run _ _ _ Hp), length_app.
    pose proof (Hn _ _ HP). rewrite (proj2 (Nat.leb_le _ _)) by lia.
    rewrite (Hm off (w ++ x)) by (done || rewrite length_app; lia). by eapply Hl.
Qed.

(** Reads that are protected by such a check. *)
Definition take_u8 : M auth_err_t nat byte :=
  x ← take_fixed buf 1; match x with [b] => mret b | _ => fail AUTH_ERR_UNSPECIFIED end.

Definition take_u16 : M auth_err_t nat Z :=
  x ← take_fixed buf 2; mret (load_le x).

Lemma read_bytes_take off rest n :
  at_pos buf off rest → n ≤ length rest → read_bytes buf n off = take_fixed buf n off.
Proof.
  intros Hp Hn. pose proof (at_pos_length _ _ _ Hp). unfold take_fixed, room_for. mstep.
  rewrite (proj2 (Nat.leb_le _ _)) by lia. by mstep.
Qed.

Lemma read_u8_take off rest :
  at_pos buf off rest → 1 ≤ length rest → read_u8 buf off = take_u8 off.
Proof.
  intros Hp Hn. destruct rest as [|b rest]; [cbn in Hn; lia|]. unfold take_u8.
  rewrite (read_u8_at _ _ _ _ Hp), bind_run, <- (read_bytes_take off (b :: rest)) by done.
  by rewrite (read_bytes_at buf off 1 [b] rest Hp).
Qed.

Lemma read_u16_take off rest :
  at_pos buf off rest → 2 ≤ length rest → read_u16_le buf off = take_u16 off.
Proof.
  intros Hp Hn. destruct rest as [|b0 [|b1 rest]]; [cbn in Hn; lia..|]. unfold take_u16.
  rewrite bind_run, <- (read_bytes_take off (b0 :: b1 :: rest)) by done.
  rewrite (read_bytes_at buf off 2 [b0; b1] rest Hp) by done.
  unfold read_u16_le. mstep. rewrite bind_run. cbn [lift].
  by rewrite (at_pos_u16 buf off [] b0 b1 rest off Hp) by (cbn; lia).
Qed.

Lemma parses_take_u8 : parses buf take_u8 (λ b w, w = [b]).
Proof.
  eapply parses_iff; [|eapply parses_bind; [apply parses_take_fixed|intros x]].
  2:{ instantiate (1 := λ x b w, x = [b] ∧ w = []). cbv beta.
      destruct x as [|b [|c x]].
      - split; intros; destruct_and?; done.
      - eapply parses_iff; [|apply parses_ret]. intros b' w. cbn.
        by split; [intros [-> ->] | intros [[= ->] ->]].
      - split; intros; destruct_and?; done. }
  intros b w. unfold seqP. split.
  - intros (x & w1 & w2 & -> & [-> _] & -> & ->). done.
  - intros ->. by exists [b], [b], [].
Qed.

Lemma parses_take_u16 : parses buf take_u16 (λ v w, is_u16 v ∧ w = store_le 2 v).
Proof.
  eapply parses_iff; [|eapply parses_bind; [apply parses_take_fixed|intros x; apply parses_ret]].
  intros v w. unfold seqP. split.
  - intros (x & w1 & w2 & -> & [-> Hx] & -> & ->). rewrite app_nil_r.
    by rewrite (store_load_le_n 2) by done; split; [apply load_le_is_u16|].
  - intros [Hv ->]. exists (store_le 2 v), (store_le 2 v), []. rewrite app_nil_r.
    by rewrite load_store_le_2.
Qed.

Lemma parses_all_require {A} (b : bool) e (m : M auth_err_t nat A) P :
  (b = true → parses_all buf m P) →
  parses_all buf (require b e;; m) (λ a w, b = true ∧ P a w).
Proof.
  intros Hm. destruct b.
  - destruct (Hm eq_refl) as [He Hs Ht Hl]. split.
    + intros off rest a Hp. rewrite <- (He off rest a Hp). by split; [intros H|intros [_ H]].
    + exact Hs.
    + intros off rest a y Hp Hy [_ HP]. by eapply Ht.
    + intros off w x a Hp Hx [_ HP]. by eapply Hl.
  - split; try (intros; destruct_and?; done). intros off rest a _. by split; [|intros [? _]].
Qed.

Lemma parses_all_end {A} (a : A) :
  parses_all buf (reject_trailing buf;; mret a) (λ a' w, a' = a ∧ w = []).
Proof.
  assert (Hrun : ∀ off rest, at_pos buf off rest →
    ((reject_trailing buf;; mret a) off).1 =
      if length rest =? 0 then Ok a else Err AUTH_ERR_MALFORMED_PACKET).
  { intros off rest Hp. pose proof (at_pos_length _ _ _ Hp) as Hl.
    rewrite bind_run. unfold reject_trailing. mstep.
    destruct (Nat.eqb_spec (length rest) 0) as [E|E].
    - by rewrite (proj2 (Nat.eqb_eq _ _)) by lia.
    - by rewrite (proj2 (Nat.eqb_neq _ _)) by lia. }
  split.
  - intros off rest a' Hp. rewrite (Hrun _ _ Hp).
    destruct rest; cbn; split; [intros [= <-]; done|intros [-> _]; done|done|intros [_ ?]; done].
  - intros off rest Hp. rewrite (Hrun _ _ Hp). by destruct (_ =? _).
  - intros off rest a' y _ Hy [_ H]. by apply app_nil in H as [_ ->].
  - intros off w x a' Hp Hx [-> ->]. rewrite (Hrun _ _ Hp). by destruct x.
Qed.
End parses.

(** ** Layouts *)
Definition is_n (n : nat) (x : bytes) : Prop := length x = n.
Definition schnorr_wf (p : auth_schnorr_proof_t) : Prop := is_n 32 (sp_a p) ∧ is_n 32 (sp_s p).
Definition wire_schnorr (p : auth_schnorr_proof_t) : bytes := sp_a p ++ sp_s p.
Definition branch_wf (b : auth_set_branch_t) : Prop :=
  is_n 32 (br_a b) ∧ is_n 32 (br_c b) ∧ is_n 32 (br_s b).
Definition wire_branch (b : auth_set_branch_t) : bytes := br_a b ++ br_c b ++ br_s b.

(** The fixed-size arrays have their sizes, and what is behind a length is zero. *)
Definition setup1_wf (m : auth_setup1_t) : Prop :=
  is_n 128 (s1_pairing_token m) ∧ s1_pairing_token_len m ≤ 128 ∧
  drop (s1_pairing_token_len m) (s1_pairing_token m) = zeros (128 - s1_pairing_token_len m) ∧
  is_n 32 (s1_device_id m) ∧ is_n 32 (s1_device_pub m) ∧
  is_n 32 (s1_client_nonce m) ∧ is_n 32 (s1_role_commitment m).

Definition wire_setup1 (m : auth_setup1_t) : bytes :=
  [u8 (Z.of_nat (s1_pairing_token_len m))] ++
  take (s1_pairing_token_len m) (s1_pairing_token m) ++
  s1_device_id m ++ s1_device_pub m ++ s1_client_nonce m ++ s1_role_commitment m.

Definition setup2_wf (m : auth_setup2_t) : Prop :=
  is_n 32 (s2_server_nonce m) ∧ is_n 16 (s2_setup_challenge m) ∧
  is_n 32 (s2_server_pub m) ∧ schnorr_wf (s2_server_proof m).

Definition wire_setup2 (m : auth_setup2_t) : bytes :=
  s2_server_nonce m ++ s2_setup_challenge m ++ s2_server_pub m ++
  wire_schnorr (s2_server_proof m).

Definition setup3_wf (m : auth_setup3_t) : Prop := schnorr_wf (s3_client_proof m).
Definition wire_setup3 (m : auth_setup3_t) : bytes := wire_schnorr (s3_client_proof m).

Definition auth1_wf (m : auth_auth1_t) : Prop :=
  is_n 32 (a1_pid m) ∧ schnorr_wf (a1_client_proof m) ∧ is_n 32 (a1_nonce_c m) ∧
  is_n 32 (a1_eph_c m) ∧ is_n 32 (a1_c_prime m) ∧ schnorr_wf (a1_rerand_proof m) ∧
  a1_n_branches m ≤ AUTH_MAX_ROLES ∧ length (a1_branches m) = AUTH_MAX_ROLES ∧
  Forall branch_wf (take (a1_n_branches m) (a1_branches m)) ∧
  drop (a1_n_branches m) (a1_branches m) =
    replicate (AUTH_MAX_ROLES - a1_n_branches m) zero_branch.

Definition wire_auth1 (m : auth_auth1_t) : bytes :=
  a1_pid m ++ wire_schnorr (a1_client_proof m) ++ a1_nonce_c m ++ a1_eph_c m ++
  a1_c_prime m ++ wire_schnorr (a1_rerand_proof m) ++
  store_le 2 (Z.of_nat (a1_n_branches m)) ++
  concat (map wire_branch (take (a1_n_branches m) (a1_branches m))).

Definition auth2_wf (m : auth_auth2_t) : Prop :=
  is_n 32 (a2_server_pub m) ∧ schnorr_wf (a2_server_proof m) ∧
  is_n 32 (a2_nonce_s m) ∧ is_n 32 (a2_eph_s m) ∧ is_n 32 (a2_tag_s m).

Definition wire_auth2 (m : auth_auth2_t) : bytes :=
  a2_server_pub m ++ wire_schnorr (a2_server_proof m) ++ a2_nonce_s m ++ a2_eph_s m ++
  a2_tag_s m.

Definition auth3_wf (m : auth_auth3_t) : Prop := is_n 32 (a3_tag_c m).
Definition wire_auth3 (m : auth_auth3_t) : bytes := a3_tag_c m.

Create HintDb layouts.
#[export] Hint Unfold is_n schnorr_wf wire_schnorr branch_wf wire_branch setup1_wf
  wire_setup1 setup2_wf wire_setup2 setup3_wf wire_setup3 auth2_wf wire_auth2
  auth3_wf wire_auth3 : layouts.

(** ** The contract of a payload codec *)
Class PayloadCodec {A} (wf : A → Prop) (wire : A → bytes)
    (encode : ptr A → M auth_err_t bytes nat)
    (decode : ptr bytes → outcome auth_err_t A) : Prop := {
  codec_encode m buf :
    wf m → length (wire m) ≤ length buf → is_u64 (Z.of_nat (length buf)) →
    encode (Some m) buf = (Ok (length (wire m)), written (wire m) buf);
  codec_encode_small m buf :
    wf m → length buf < length (wire m) →
    encode (Some m) buf = (Err AUTH_ERR_BUFFER_TOO_SMALL, buf);
  codec_decode buf m : decode (Some buf) = Ok m ↔ wf m ∧ buf = wire m;
  codec_decode_safe buf : decode buf ≠ Fault;
  codec_truncated m x y :
    wf m → wire m = x ++ y → y ≠ [] → decode (Some x) = Err AUTH_ERR_PAYLOAD_TOO_SHORT;
  codec_extended m x :
    wf m → x ≠ [] → decode (Some (wire m ++ x)) = Err AUTH_ERR_MALFORMED_PACKET;
  codec_fits m : wf m → length (wire m) ≤ AUTH_MAX_PAYLOAD
}.

(** The decoder's half follows from what its reader accepts. *)
Lemma parses_all_codec {A} (wf : A → Prop) (wire : A → bytes)
    (decode : ptr bytes → outcome auth_err_t A) :
  (∀ buf, ∃ m, decode (Some buf) = reading m ∧ parses_all buf m (λ a w, wf a ∧ w = wire a)) →
  decode None ≠ Fault →
  (∀ buf m, decode (Some buf) = Ok m ↔ wf m ∧ buf = wire m) ∧
  (∀ buf, decode buf ≠ Fault) ∧
  (∀ m x y, wf m → wire m = x ++ y → y ≠ [] →
     decode (Some x) = Err AUTH_ERR_PAYLOAD_TOO_SHORT) ∧
  (∀ m x, wf m → x ≠ [] → decode (Some (wire m ++ x)) = Err AUTH_ERR_MALFORMED_PACKET).
Proof.
  intros H Hn. split_and!.
  - intros buf a. destruct (H buf) as (m & -> & Hm).
    apply (parses_all_exact _ _ _ Hm), at_pos_0.
  - intros [buf|]; [|done]. destruct (H buf) as (m & -> & Hm).
    apply (parses_all_safe _ _ _ Hm _ buf), at_pos_0.
  - intros a x y Hwf E Hy. destruct (H x) as (m & -> & Hm).
    apply (parses_all_short _ _ _ Hm _ x a y); [apply at_pos_0|done|by rewrite <- E].
  - intros a x Hwf Hx. destruct (H (wire a ++ x)) as (m & -> & Hm).
    by apply (parses_all_long _ _ _ Hm _ (wire a) x a); [apply at_pos_0|..].
Qed.

(** ** Encoding *)
Lemma emits_put_fixed src n : length src = n → emits (put_fixed src n) src (λ _, tt).
Proof.
  intros <- w rest Hr Hu. unfold put_fixed, room_for. do 2 mstep.
  cbn [fst snd wstate]. rewrite length_app, (proj2 (Nat.leb_le _ _)) by lia. mstep.
  rewrite bind_run. cbn [lift]. rewrite loadn_ok, drop_0, firstn_all by done.
  by rewrite write_bytes_wstate.
Qed.

(** Reads the fixed fields of a decoder, then the end of the payload. *)
Ltac parse_fields :=
  repeat (eapply parses_all_bind; [apply parses_take_fixed|intros ?]); apply parses_all_end.

(** The accepted pairs are the well-formed messages with their layouts. *)
Ltac break_seq :=
  unfold seqP in *; repeat match goal with
  | H : ∃ _, _ |- _ => destruct H
  | H : _ ∧ _ |- _ => destruct H
  end; subst.

Ltac solve_layout :=
  let m := fresh "m" in let w := fresh "w" in intros m w; unfold seqP; split;
  [ intros; repeat match goal with
                   | H : ∃ _, _ |- _ => destruct H
                   | H : _ ∧ _ |- _ => destruct H
                   end; subst; autounfold with layouts in *; cbn;
    rewrite ?app_nil_r, <- ?app_assoc; done
  | intros [Hwf ->]; rewrite <- (app_nil_r (_ m)); autounfold with layouts in *;
    destruct_and?; destruct m; cbn in *;
    repeat match goal with p : auth_schnorr_proof_t |- _ => destruct p end;
    cbn in *; rewrite <- ?app_assoc;
    repeat (eexists _, _, _; split; [reflexivity|split; [by split|]]); done ].

Ltac emit_fields :=
  repeat (eapply emits_bind; [apply emits_put_fixed; done|intros _]); apply emits_get_off.

Lemma encode_fixed (k : M auth_err_t cursor nat) x need buf :
  emits k x id → length x = need →
  (length x ≤ length buf → is_u64 (Z.of_nat (length buf)) →
   writing (cap ← get_cap; require (need <=? cap) AUTH_ERR_BUFFER_TOO_SMALL;; k) buf =
     (Ok (length x), written x buf)) ∧
  (length buf < length x →
   writing (cap ← get_cap; require (need <=? cap) AUTH_ERR_BUFFER_TOO_SMALL;; k) buf =
     (Err AUTH_ERR_BUFFER_TOO_SMALL, buf)).
Proof.
  intros Hk <-. split; intros Hb.
  - intros Hu. transitivity (writing k buf); [|by apply (writing_run _ _ id)].
    unfold writing. mstep. cbn [fst]. rewrite (proj2 (Nat.leb_le _ _)) by done. by mstep.
  - unfold writing. mstep. cbn [fst]. rewrite (proj2 (Nat.leb_gt _ _)) by done. by mstep.
Qed.

Lemma length_schnorr p : schnorr_wf p → length (wire_schnorr p) = 64.
Proof. intros [H1 H2]. unfold wire_schnorr, is_n in *. len. Qed.

(** *** Messages of fixed size *)
Lemma emits_setup2 m :
  setup2_wf m →
  emits (put_fixed (s2_server_nonce m) 32;;
    put_fixed (s2_setup_challenge m) AUTH_SETUP_CHALLENGE_LEN;;
    put_fixed (s2_server_pub m) 32;;
    put_fixed (sp_a (s2_server_proof m)) 32;;
    put_fixed (sp_s (s2_server_proof m)) 32;;
    get_off) (wire_setup2 m) id.
Proof.
  intros (H1 & H2 & H3 & H4 & H5). eapply emits_eq; [emit_fields|].
  autounfold with layouts. by rewrite app_nil_r.
Qed.

Lemma length_wire_setup2 m : setup2_wf m → length (wire_setup2 m) = 144.
Proof.
  intros (H1 & H2 & H3 & H4). unfold wire_setup2. pose proof (length_schnorr _ H4).
  unfold is_n in *. len.
Qed.

#[export] Instance setup2_codec :
  PayloadCodec setup2_wf wire_setup2 auth_setup2_encode auth_setup2_decode.
Proof.
  destruct (parses_all_codec setup2_wf wire_setup2 auth_setup2_decode) as (H1 & H2 & H3 & H4);
    [|done|].
  { intros buf. eexists. split; [reflexivity|]. eapply parses_all_iff; [|parse_fields].
    solve_layout. }
  split; try done.
  - intros m buf Hm. exact (proj1 (encode_fixed _ _ 144 buf (emits_setup2 m Hm)
      (length_wire_setup2 m Hm))).
  - intros m buf Hm. exact (proj2 (encode_fixed _ _ 144 buf (emits_setup2 m Hm)
      (length_wire_setup2 m Hm))).
  - intros m Hm. rewrite length_wire_setup2 by done. len.
Qed.

Lemma emits_auth2 m :
  auth2_wf m →
  emits (put_fixed (a2_server_pub m) 32;;
    put_fixed (sp_a (a2_server_proof m)) 32;;
    put_fixed (sp_s (a2_server_proof m)) 32;;
    put_fixed (a2_nonce_s m) 32;;
    put_fixed (a2_eph_s m) 32;;
    put_fixed (a2_tag_s m) 32;;
    get_off) (wire_auth2 m) id.
Proof.
  intros (H1 & [H2 H3] & H4 & H5 & H6). eapply emits_eq; [emit_fields|].
  autounfold with layouts. by rewrite app_nil_r, <- ?app_assoc.
Qed.

Lemma length_wire_auth2 m : auth2_wf m → length (wire_auth2 m) = 192.
Proof.
  intros (H1 & H2 & H3 & H4 & H5). unfold wire_auth2. pose proof (length_schnorr _ H2).
  unfold is_n in *. len.
Qed.

#[export] Instance auth2_codec :
  PayloadCodec auth2_wf wire_auth2 auth_auth2_encode auth_auth2_decode.
Proof.
  destruct (parses_all_codec auth2_wf wire_auth2 auth_auth2_decode) as (H1 & H2 & H3 & H4);
    [|done|].
  { intros buf. eexists. split; [reflexivity|]. eapply parses_all_iff; [|parse_fields].
    solve_layout. }
  split; try done.
  - intros m buf Hm. exact (proj1 (encode_fixed _ _ 192 buf (emits_auth2 m Hm)
      (length_wire_auth2 m Hm))).
  - intros m buf Hm. exact (proj2 (encode_fixed _ _ 192 buf (emits_auth2 m Hm)
      (length_wire_auth2 m Hm))).
  - intros m Hm. rewrite length_wire_auth2 by done. len.
Qed.

(** *** Messages decoded at fixed offsets *)

(** A decoder that compares the length once and builds the message from the
    buffer. *)
Lemma fixed_decoder {A} (wf : A → Prop) (wire : A → bytes)
    (decode : ptr bytes → outcome auth_err_t A) (n : nat) (f : bytes → A) :
  (∀ buf, decode (Some buf) =
     if n <=? length buf then if n =? length buf then Ok (f buf)
       else Err AUTH_ERR_MALFORMED_PACKET else Err AUTH_ERR_PAYLOAD_TOO_SHORT) →
  decode None ≠ Fault →
  (∀ m, wf m → length (wire m) = n ∧ f (wire m) = m) →
  (∀ buf, length buf = n → wf (f buf) ∧ wire (f buf) = buf) →
  (∀ buf m, decode (Some buf) = Ok m ↔ wf m ∧ buf = wire m) ∧
  (∀ buf, decode buf ≠ Fault) ∧
  (∀ m x y, wf m → wire m = x ++ y → y ≠ [] →
     decode (Some x) = Err AUTH_ERR_PAYLOAD_TOO_SHORT) ∧
  (∀ m x, wf m → x ≠ [] → decode (Some (wire m ++ x)) = Err AUTH_ERR_MALFORMED_PACKET).
Proof.
  intros H Hn Hf Hw. split_and!.
  - intros buf m. rewrite H. destruct (Nat.leb_spec n (length buf)).
    2:{ split; [done|]. intros [Hm ->]. apply Hf in Hm as [? _]. lia. }
    destruct (Nat.eqb_spec n (length buf)) as [E|E].
    + destruct (Hw buf) as [Hwf Ebuf]; [done|]. split; [by intros [= <-]|].
      intros [Hm ->]. by rewrite (proj2 (Hf _ Hm)).
    + split; [done|]. intros [Hm ->]. apply Hf in Hm as [? _]. lia.
  - intros [buf|]; [|done]. rewrite H. by destruct (n <=? length buf), (n =? length buf).
  - intros m x y Hm E Hy. rewrite H. apply Hf in Hm as [Hl _]. rewrite E, length_app in Hl.
    destruct y; [done|]. cbn in Hl. by rewrite (proj2 (Nat.leb_gt _ _)) by lia.
  - intros m x Hm Hx. rewrite H, length_app. apply Hf in Hm as [Hl _].
    destruct x; [done|]. cbn [length]. rewrite (proj2 (Nat.leb_le _ _)) by lia.
    by rewrite (proj2 (Nat.eqb_neq _ _)) by lia.
Qed.

Lemma length_wire_setup3 m : setup3_wf m → length (wire_setup3 m) = 64.
Proof. apply length_schnorr. Qed.

#[export] Instance setup3_codec :
  PayloadCodec setup3_wf wire_setup3 auth_setup3_encode auth_setup3_decode.
Proof.
  destruct (fixed_decoder setup3_wf wire_setup3 auth_setup3_decode 64
    (λ buf, {| s3_client_proof := {| sp_a := take 32 buf; sp_s := take 32 (drop 32 buf) |} |}))
    as (H1 & H2 & H3 & H4); [|done|..].
  { intros buf. unfold auth_setup3_decode. cbn [nonnull mbind outcome_bind].
    destruct (Nat.leb_spec 64 (length buf)); [|done]. cbn [check].
    rewrite !loadn_ok, drop_0 by lia. cbn [mbind outcome_bind]. by destruct (64 =? length buf). }
  { intros [[a s]] [Ha Hs]. unfold is_n in *. split; [by apply length_schnorr|].
    cbn in *. do 2 f_equal; rewrite <- Ha; [by rewrite take_app_length|].
    rewrite drop_app_length, take_ge by lia. done. }
  { intros buf Hl. split.
    - split; unfold is_n; cbn; rewrite length_take_le; rewrite ?length_drop; lia.
    - autounfold with layouts. cbn. rewrite (take_ge (drop _ _)) by (rewrite length_drop; lia).
      apply take_drop. }
  split; try done; unfold auth_setup3_encode.
  - intros m buf Hm Hb _. pose proof (length_wire_setup3 m Hm) as Hl. rewrite Hl in *.
    destruct Hm as [Ha Hs]. unfold is_n in *. do 2 mstep.
    rewrite (proj2 (Nat.leb_le _ _)) by done. mstep. change buf with ([] ++ buf) at 1.
    do 2 (rewrite bind_run, store_at_wstate by (cbn [app]; len); cbv beta iota).
    unfold mret, M_ret, written. rewrite Hl, drop_drop, Ha, Hs. done.
  - intros m buf Hm Hb. rewrite length_wire_setup3 in Hb by done. do 2 mstep.
    by rewrite (proj2 (Nat.leb_gt _ _)) by done.
  - intros m Hm. rewrite length_wire_setup3 by done. len.
Qed.

#[export] Instance auth3_codec :
  PayloadCodec auth3_wf wire_auth3 auth_auth3_encode auth_auth3_decode.
Proof.
  destruct (fixed_decoder auth3_wf wire_auth3 auth_auth3_decode 32
    (λ buf, {| a3_tag_c := take 32 buf |})) as (H1 & H2 & H3 & H4); [|done|..].
  { intros buf. unfold auth_auth3_decode. cbn [nonnull mbind outcome_bind].
    destruct (Nat.leb_spec 32 (length buf)); [|done]. cbn [check].
    rewrite loadn_ok, drop_0 by lia. cbn [mbind outcome_bind]. by destruct (32 =? length buf). }
  { intros [t] Ht. autounfold with layouts in *; cbn in *. split; [done|].
    by rewrite take_ge by lia. }
  { intros buf Hl. autounfold with layouts; cbn. by rewrite take_ge by lia. }
  split; try done; unfold auth_auth3_encode.
  - intros m buf Hm Hb _. autounfold with layouts in *. rewrite Hm in *. do 2 mstep.
    rewrite (proj2 (Nat.leb_le _ _)) by done. mstep. change buf with ([] ++ buf) at 1.
    rewrite bind_run, store_at_wstate by (cbn [app]; len). done.
  - intros m buf Hm Hb. autounfold with layouts in *. rewrite Hm in Hb. do 2 mstep.
    by rewrite (proj2 (Nat.leb_gt _ _)) by done.
  - intros m Hm. autounfold with layouts in *. rewrite Hm. len.
Qed.

(** *** SETUP_1 *)
Lemma emits_token token n :
  n ≤ length token →
  emits (if 0 <? n then x ← lift (loadn (E:=auth_err_t) token 0 n); write_bytes x else mret tt)
    (take n token) (λ _, tt).
Proof.
  intros Hn. destruct (Nat.ltb_spec 0 n) as [H0|H0].
  - intros w rest Hr Hu. rewrite bind_run. cbn [lift]. rewrite loadn_ok, drop_0 by lia.
    by rewrite write_bytes_wstate.
  - assert (n = 0) as -> by lia. apply emits_ret.
Qed.

Lemma length_wire_setup1 m :
  setup1_wf m → length (wire_setup1 m) = 1 + s1_pairing_token_len m + 32 + 32 + 32 + 32.
Proof.
  intros (H1 & H2 & _ & H3 & H4 & H5 & H6). unfold wire_setup1, is_n in *.
  rewrite !length_app, length_take_le by lia. len.
Qed.

Lemma setup1_encode_run m buf :
  setup1_wf m →
  (length (wire_setup1 m) ≤ length buf → is_u64 (Z.of_nat (length buf)) →
   auth_setup1_encode (Some m) buf = (Ok (length (wire_setup1 m)), written (wire_setup1 m) buf)) ∧
  (length buf < length (wire_setup1 m) →
   auth_setup1_encode (Some m) buf = (Err AUTH_ERR_BUFFER_TOO_SMALL, buf)).
Proof.
  intros Hm. pose proof (length_wire_setup1 m Hm) as Hl.
  destruct Hm as (H1 & H2 & _ & H3 & H4 & H5 & H6). unfold is_n in *.
  destruct (encode_fixed (setup1_put m) (wire_setup1 m)
    (1 + s1_pairing_token_len m + 32 + 32 + 32 + 32) buf) as [E1 E2]; [|exact Hl|].
  - eapply emits_eq.
    + eapply emits_bind; [apply emits_write|intros _].
      eapply emits_bind; [apply emits_token; lia|intros _].
      do 4 (eapply emits_bind; [apply emits_write|intros _]). apply emits_get_off.
    + unfold wire_setup1. by rewrite app_nil_r.
  - split; [intros Hb Hu; rewrite <- E1 by done|intros Hb; rewrite <- E2 by done];
      unfold auth_setup1_encode, writing; mstep;
      rewrite (proj2 (Nat.leb_le (s1_pairing_token_len m) _)) by len; by mstep.
Qed.

(** The token field after [memset] and [memcpy]. *)
Definition token_field (x : bytes) : bytes := x ++ drop (length x) (zeros AUTH_MAX_PAIRING_TOKEN).

Lemma setup1_token_read buf off rest n :
  at_pos buf off rest → n ≤ length rest → n ≤ AUTH_MAX_PAIRING_TOKEN →
  (if 0 <? n
   then x ← read_bytes buf n; lift (copy_into (zeros AUTH_MAX_PAIRING_TOKEN) x)
   else mret (zeros AUTH_MAX_PAIRING_TOKEN)) off =
  (x ← take_fixed buf n; mret (token_field x)) off.
Proof.
  intros Hp Hn H128. rewrite (bind_run (take_fixed buf n)).
  rewrite <- (read_bytes_take buf off rest) by done.
  assert (E : read_bytes (E:=auth_err_t) buf n off = (Ok (take n rest), off + n)).
  { apply (read_bytes_at _ _ _ _ (drop n rest)); [by rewrite take_drop|by rewrite length_take_le]. }
  rewrite E. destruct (Nat.ltb_spec 0 n) as [H0|H0].
  - rewrite bind_run, E. cbn [lift]. rewrite copy_into_run; [done|].
    rewrite length_take_le by done. unfold zeros. len.
  - assert (n = 0) as -> by lia. by rewrite Nat.add_0_r.
Qed.

Definition setup1_accepts (m : auth_setup1_t) (w : bytes) : Prop :=
  ∃ b token id pub nonce role, w = [b] ++ token ++ id ++ pub ++ nonce ++ role ∧
    length token = Z.to_nat (b2z b) ∧ Z.to_nat (b2z b) ≤ AUTH_MAX_PAIRING_TOKEN ∧
    is_n 32 id ∧ is_n 32 pub ∧ is_n 32 nonce ∧ is_n 32 role ∧
    m = {| s1_pairing_token := token_field token; s1_pairing_token_len := length token;
           s1_device_id := id; s1_device_pub := pub; s1_client_nonce := nonce;
           s1_role_commitment := role |}.

Lemma setup1_accepts_iff m w : setup1_accepts m w ↔ setup1_wf m ∧ w = wire_setup1 m.
Proof.
  unfold setup1_accepts, setup1_wf, wire_setup1, token_field, is_n. split.
  - intros (b & token & id & pub & nonce & role & -> & Ht & Hm & H1 & H2 & H3 & H4 & ->).
    cbn -[drop zeros]. rewrite take_app_length, drop_app_length, Ht.
    unfold zeros. rewrite drop_replicate.
    rewrite Z2Nat.id, u8_b2z by apply b2z_range. split; [|done].
    split_and!; try done; len.
  - destruct m as [token n id pub nonce role]; cbn -[drop zeros].
    intros [(H0 & Hn & Hd & H1 & H2 & H3 & H4) ->].
    assert (En : Z.to_nat (b2z (u8 (Z.of_nat n))) = n).
    { rewrite b2z_u8, Z.mod_small by lia. lia. }
    eexists _, (take n token), _, _, _, _. split; [reflexivity|].
    rewrite En, length_take_le by lia. split_and!; try done. f_equal.
    unfold zeros in *. change AUTH_MAX_PAIRING_TOKEN with 128.
    rewrite drop_replicate, <- Hd. by rewrite take_drop.
Qed.

Lemma check_reading {A} buf n (m : M auth_err_t nat A) :
  (_ ← check (n <=? length buf) AUTH_ERR_PAYLOAD_TOO_SHORT; reading m) =
  reading (expect_more buf n;; m).
Proof.
  unfold reading, eval. rewrite bind_run, (expect_more_run _ _ _ _ (at_pos_0 buf)).
  by destruct (n <=? length buf).
Qed.

Lemma setup1_parses buf :
  ∃ m, auth_setup1_decode (Some buf) = reading m ∧ parses_all buf m setup1_accepts.
Proof.
  eexists. split; [apply check_reading|].
  eapply parses_all_iff; [|eapply parses_all_expect].
  2:{ intros off rest Hp Hn. rewrite bind_run, (read_u8_take _ _ _ Hp Hn), <- bind_run.
      reflexivity. }
  3:{ eapply parses_all_bind; [apply parses_take_u8|intros b]. cbv zeta.
      apply parses_all_require. intros Hb. bool_to_prop.
      eapply parses_all_expect.
      1:{ intros off rest Hp Hn. rewrite bind_run.
          rewrite (setup1_token_read _ _ _ _ Hp) by lia. rewrite <- bind_run. reflexivity. }
      2:{ eapply parses_all_bind;
          [eapply parses_bind; [apply parses_take_fixed|intros x; apply parses_ret]|].
          intros token. cbv beta. parse_fields. }
      intros m w H. break_seq. len. }
  2:{ intros m w H. break_seq. len. }
  intros m w. unfold seqP, setup1_accepts, is_n. split.
  - intros (b & ? & ? & -> & -> & Hb & token & ? & ? & -> & (x & ? & ? & -> & [-> Hx] & -> & ->) &
      id & ? & ? & -> & [-> H1] & pub & ? & ? & -> & [-> H2] & nonce & ? & ? & -> & [-> H3] &
      role & ? & ? & -> & [-> H4] & -> & ->).
    bool_to_prop. exists b, x, id, pub, nonce, role. rewrite !app_nil_r, Hx. done.
  - intros (b & token & id & pub & nonce & role & -> & Ht & Hb & H1 & H2 & H3 & H4 & ->).
    exists b, [b], (token ++ id ++ pub ++ nonce ++ role). split_and!; [done..| |].
    { by apply Nat.leb_le. }
    exists (token_field token), token, (id ++ pub ++ nonce ++ role). split_and!; [done| |].
    { exists token, token, []. by rewrite app_nil_r. }
    exists id, id, (pub ++ nonce ++ role). split_and!; [done..|].
    exists pub, pub, (nonce ++ role). split_and!; [done..|].
    exists nonce, nonce, role. split_and!; [done..|].
    exists role, role, []. rewrite app_nil_r, Ht. done.
Qed.

#[export] Instance setup1_codec :
  PayloadCodec setup1_wf wire_setup1 auth_setup1_encode auth_setup1_decode.
Proof.
  destruct (parses_all_codec setup1_wf wire_setup1 auth_setup1_decode) as (H1 & H2 & H3 & H4);
    [|done|].
  { intros buf. destruct (setup1_parses buf) as (m & E & Hm). exists m. split; [done|].
    eapply parses_all_iff; [|exact Hm]. apply setup1_accepts_iff. }
  split; try done.
  - intros m buf Hm. exact (proj1 (setup1_encode_run m buf Hm)).
  - intros m buf Hm. exact (proj2 (setup1_encode_run m buf Hm)).
  - intros m Hm. rewrite length_wire_setup1 by done. destruct Hm as (_ & Hn & _). len.
Qed.

(** *** AUTH_1 *)
Lemma length_branches l :
  Forall branch_wf l → length (concat (map wire_branch l)) = 96 * length l.
Proof.
  induction 1 as [|b l (H1 & H2 & H3) _ IH]; [done|]. cbn [map concat length].
  rewrite length_app, IH. unfold wire_branch, is_n in *. len.
Qed.

Lemma emits_put_branches n l :
  n ≤ length l → Forall branch_wf (take n l) →
  emits (put_branches l n) (concat (map wire_branch (take n l))) (λ _, tt).
Proof.
  revert l. induction n as [|n IH]; intros [|b l] Hl Hw; cbn in Hl; try lia;
    cbn [put_branches take map concat]; [apply emits_ret..|].
  cbn [take] in Hw; apply list.Forall_cons in Hw as [(H1 & H2 & H3) Hw].
  eapply emits_eq.
  - do 3 (eapply emits_bind; [apply emits_put_fixed; done|intros _]). apply IH; [lia|done].
  - unfold wire_branch. by rewrite <- !app_assoc.
Qed.

Lemma length_wire_auth1 m :
  auth1_wf m → length (wire_auth1 m) = 32 * 8 + 2 + 96 * a1_n_branches m.
Proof.
  intros (H1 & H2 & H3 & H4 & H5 & H6 & Hn & Hl & Hb & _). unfold wire_auth1.
  rewrite !length_app, (length_schnorr _ H2), (length_schnorr _ H6), (length_branches _ Hb),
    length_take_le by lia. unfold is_n in *. len.
Qed.

Lemma auth1_encode_run m buf :
  auth1_wf m →
  (length (wire_auth1 m) ≤ length buf → is_u64 (Z.of_nat (length buf)) →
   auth_auth1_encode (Some m) buf = (Ok (length (wire_auth1 m)), written (wire_auth1 m) buf)) ∧
  (length buf < length (wire_auth1 m) →
   auth_auth1_encode (Some m) buf = (Err AUTH_ERR_BUFFER_TOO_SMALL, buf)).
Proof.
  intros Hm. pose proof (length_wire_auth1 m Hm) as Hl.
  destruct Hm as (H1 & [H2 H2'] & H3 & H4 & H5 & [H6 H6'] & Hn & Hbl & Hb & _).
  destruct (encode_fixed (auth1_put m) (wire_auth1 m)
    (32 * 8 + 2 + 96 * a1_n_branches m) buf) as [E1 E2]; [|exact Hl|].
  - eapply emits_eq.
    + do 8 (eapply emits_bind; [apply emits_put_fixed; done|intros _]).
      do 2 (eapply emits_bind; [apply emits_write|intros _]).
      eapply emits_bind; [apply emits_put_branches; [lia|done]|intros _]. apply emits_get_off.
    + unfold wire_auth1, wire_schnorr, u16. rewrite Z.mod_small, store_le_2 by len.
      rewrite app_nil_r, <- !app_assoc. done.
  - split; [intros Hc Hu; rewrite <- E1 by done|intros Hc; rewrite <- E2 by done];
      unfold auth_auth1_encode, writing; mstep;
      rewrite (proj2 (Nat.leb_le (a1_n_branches m) _)) by done; by mstep.
Qed.

Definition branches_accepts (i nb : nat) (bs : list auth_set_branch_t)
    (r : list auth_set_branch_t) (w : bytes) : Prop :=
  ∃ l, length l = nb ∧ Forall branch_wf l ∧ w = concat (map wire_branch l) ∧
    r = take i bs ++ l ++ drop (i + nb) bs.

Lemma parses_take_branches buf i nb bs :
  i + nb ≤ length bs → parses buf (take_branches buf i nb bs) (branches_accepts i nb bs).
Proof.
  unfold branches_accepts. revert i bs. induction nb as [|nb IH]; intros i bs Hi.
  - eapply parses_iff; [|apply parses_ret]. intros r w. cbn. rewrite Nat.add_0_r. split.
    + intros [-> ->]. exists []. split_and!; try done. by rewrite app_nil_l, take_drop.
    + intros (l & Hl & _ & -> & ->). destruct l; [|done]. by rewrite app_nil_l, take_drop.
  - cbn [take_branches]. eapply parses_iff.
    2:{ do 3 (eapply parses_bind; [apply parses_take_fixed|intros ?]).
        rewrite (proj2 (Nat.ltb_lt i _)) by lia.
        eapply parses_bind; [apply parses_ret|intros u]. apply IH. rewrite length_insert. lia. }
    intros r w. unfold seqP. split.
    + intros (a & ? & ? & -> & [-> H1] & c & ? & ? & -> & [-> H2] & s & ? & ? & -> & [-> H3] &
        ? & ? & ? & -> & [_ ->] & l & Hl & Hw & -> & ->).
      set (b := {| br_a := a; br_c := c; br_s := s |}). exists (b :: l).
      split_and!; [cbn; lia|by constructor|cbn; unfold wire_branch; by rewrite <- !app_assoc|].
      rewrite (take_S_r _ i b) by (apply list_lookup_insert_eq; lia).
      rewrite take_insert_ge, <- app_assoc by lia. f_equal. cbn [app]. f_equal.
      rewrite drop_insert_lt by lia. by rewrite Nat.add_succ_r.
    + intros ([|[a c s] l] & Hl & Hw & -> & ->); [done|]. apply list.Forall_cons in Hw as [(H1 & H2 & H3) Hw].
      cbn [map concat]. unfold wire_branch. cbn [br_a br_c br_s]. rewrite <- !app_assoc.
      do 3 (eexists _, _, _; split; [reflexivity|split; [by split|]]).
      exists tt, [], (concat (map wire_branch l)). split_and!; [done..|].
      exists l. split_and!; [by injection Hl|done..|].
      set (b := {| br_a := a; br_c := c; br_s := s |}).
      rewrite (take_S_r (<[i:=b]> bs) i b) by (apply list_lookup_insert_eq; lia).
      rewrite take_insert_ge, <- app_assoc by lia. cbn [app]. do 2 f_equal.
      rewrite drop_insert_lt by lia. by rewrite Nat.add_succ_r.
Qed.

Lemma auth1_parses buf :
  ∃ m, auth_auth1_decode (Some buf) = reading m ∧
    parses_all buf m (λ a w, auth1_wf a ∧ w = wire_auth1 a).
Proof.
  eexists. split; [reflexivity|]. eapply parses_all_iff.
  2:{ do 8 (eapply parses_all_bind; [apply parses_take_fixed|intros ?]).
      eapply parses_all_expect.
      1:{ intros off rest Hp Hn. rewrite bind_run, (read_u16_take _ _ _ Hp Hn), <- bind_run.
          reflexivity. }
      2:{ eapply parses_all_bind; [apply parses_take_u16|intros nb]. cbv zeta.
          apply parses_all_require. intros Hb. bool_to_prop.
          eapply parses_all_expect; [reflexivity| |].
          2:{ eapply parses_all_bind; [apply parses_take_branches; cbn; exact Hb|intros bs].
              apply parses_all_end. }
          intros m w H. unfold seqP, branches_accepts in H.
          destruct H as (? & ? & ? & -> & (l & Hl & Hw & -> & _) & _ & ->).
          rewrite length_app, length_branches by done. lia. }
      intros m w H. unfold seqP in H. destruct H as (? & ? & ? & -> & [_ ->] & _). len. }
  intros m w. unfold seqP, branches_accepts. split.
  - intros (pid & ? & ? & -> & [-> H1] & ca & ? & ? & -> & [-> H2] & cs & ? & ? & -> & [-> H3] &
      nc & ? & ? & -> & [-> H4] & ec & ? & ? & -> & [-> H5] & cp & ? & ? & -> & [-> H6] &
      ra & ? & ? & -> & [-> H7] & rs & ? & ? & -> & [-> H8] & nb & ? & ? & -> & [Hnb ->] & Hb &
      bs & ? & ? & -> & (l & Hl & Hw & -> & ->) & -> & ->).
    bool_to_prop. unfold is_u16 in Hnb. unfold auth1_wf, wire_auth1, schnorr_wf, wire_schnorr, is_n.
    cbn -[replicate]. rewrite take_0, app_nil_l, take_app_length', drop_app_length', drop_replicate by done.
    rewrite Z2Nat.id, app_nil_r, <- !app_assoc by lia.
    split; [|done]. split_and!; try done. len.
  - destruct m as [pid [ca cs] nc ec cp [ra rs] bs n].
    intros [(H1 & [H2 H3] & H4 & H5 & H6 & [H7 H8] & Hn & Hl & Hw & Hd) ->].
    cbn -[replicate] in *. unfold wire_auth1, wire_schnorr, is_n in *. cbn -[replicate].
    rewrite <- !app_assoc.
    do 8 (eexists _, _, _; split; [reflexivity|split; [by split|]]).
    eexists _, _, _; split; [reflexivity|split; [split; [|reflexivity]|]].
    { unfold is_u16. len. }
    rewrite Nat2Z.id. split; [by apply Nat.leb_le|].
    exists bs, (concat (map wire_branch (take n bs))), []. rewrite app_nil_r.
    split_and!; try done. exists (take n bs). split_and!; [rewrite length_take_le; lia|done..|].
    rewrite take_0, app_nil_l, drop_replicate. change AUTH_MAX_ROLES with 8.
    by rewrite <- Hd, take_drop.
Qed.

#[export] Instance auth1_codec :
  PayloadCodec auth1_wf wire_auth1 auth_auth1_encode auth_auth1_decode.
Proof.
  destruct (parses_all_codec auth1_wf wire_auth1 auth_auth1_decode) as (H1 & H2 & H3 & H4);
    [apply auth1_parses|done|].
  split; try done.
  - intros m buf Hm. exact (proj1 (auth1_encode_run m buf Hm)).
  - intros m buf Hm. exact (proj2 (auth1_encode_run m buf Hm)).
  - intros m Hm. rewrite length_wire_auth1 by done.
    destruct Hm as (_ & _ & _ & _ & _ & _ & Hn & _). len.
Qed.

(** *** ACK *)
Lemma ack_decode_ok buf : auth_ack_decode (Some buf) = Ok tt ↔ buf = [AUTH_ACK_BYTE].
Proof.
  unfold auth_ack_decode. destruct buf as [|b [|b' buf]]; cbn; try done.
  destruct (decide (b = AUTH_ACK_BYTE)) as [->|Hb].
  - by rewrite bool_decide_true.
  - rewrite bool_decide_false by done. split; [done|]. by intros [= ->].
Qed.

Lemma ack_decode_other buf :
  buf ≠ Some [AUTH_ACK_BYTE] → auth_ack_decode buf = Err AUTH_ERR_MALFORMED_PACKET.
Proof.
  intros H. destruct buf as [buf|]; [|done].
  assert (Hn : auth_ack_decode (Some buf) ≠ Ok tt) by (rewrite ack_decode_ok; naive_solver).
  revert Hn. unfold auth_ack_decode. destruct buf as [|b [|b' buf]]; cbn; try done.
  by destruct (bool_decide _).
Qed.

Lemma ack_encode_run buf :
  1 ≤ length buf → auth_ack_encode buf = (Ok 1, AUTH_ACK_BYTE :: drop 1 buf).
Proof.
  intros H. unfold auth_ack_encode. mstep. rewrite (proj2 (Nat.leb_le _ _)) by done. mstep.
  change buf with ([] ++ buf) at 1. by rewrite bind_run, store_at_wstate by done.
Qed.

(** ** The correctness of the payload codecs *)

(** Encoding and decoding through a buffer: a consequence of the interface. *)
Lemma codec_roundtrip `{PayloadCodec A wf wire encode decode} m buf :
  wf m → AUTH_MAX_PAYLOAD ≤ length buf → is_u64 (Z.of_nat (length buf)) →
  ∃ n buf', encode (Some m) buf = (Ok n, buf') ∧ n ≤ AUTH_MAX_PAYLOAD ∧
    decode (Some (take n buf')) = Ok m.
Proof.
  intros Hm Hb Hu. pose proof (codec_fits m Hm) as Hf. exists (length (wire m)), (written (wire m) buf).
  split; [apply codec_encode; [done|lia|done]|]. split; [done|].
  rewrite take_written. by apply codec_decode.
Qed.

(** C36: every message fits a datagram, and what its encoder writes its decoder
    reads back; this holds for the six payloads of the handshake. *)
Theorem payload_roundtrips buf :
  AUTH_MAX_PAYLOAD ≤ length buf → is_u64 (Z.of_nat (length buf)) →
  let ok {A} (wf : A → Prop) (encode : ptr A → M auth_err_t bytes nat)
      (decode : ptr bytes → outcome auth_err_t A) :=
    ∀ m, wf m → ∃ n buf', encode (Some m) buf = (Ok n, buf') ∧ n ≤ AUTH_MAX_PAYLOAD ∧
      decode (Some (take n buf')) = Ok m in
  ok setup1_wf auth_setup1_encode auth_setup1_decode ∧
  ok setup2_wf auth_setup2_encode auth_setup2_decode ∧
  ok setup3_wf auth_setup3_encode auth_setup3_decode ∧
  ok auth1_wf auth_auth1_encode auth_auth1_decode ∧
  ok auth2_wf auth_auth2_encode auth_auth2_decode ∧
  ok auth3_wf auth_auth3_encode auth_auth3_decode.
Proof. intros Hb Hu. split_and!; intros m Hm; by apply codec_roundtrip. Qed.

Definition sample_schnorr : auth_schnorr_proof_t :=
  {| sp_a := zeros 32; sp_s := replicate 32 Byte.x02 |}.

Lemma payload_roundtrips_witness :
  ∃ n buf', auth_setup3_encode (Some {| s3_client_proof := sample_schnorr |}) (zeros 2024) =
      (Ok n, buf') ∧ n ≤ AUTH_MAX_PAYLOAD ∧
    auth_setup3_decode (Some (take n buf')) = Ok {| s3_client_proof := sample_schnorr |}.
Proof.
  assert (Hl : AUTH_MAX_PAYLOAD ≤ length (zeros 2024)) by (apply Nat.leb_le; vm_compute; reflexivity).
  assert (Hu : is_u64 (Z.of_nat (length (zeros 2024)))) by concrete_range.
  destruct (payload_roundtrips (zeros 2024) Hl Hu) as (_ & _ & H & _).
  apply H. split; reflexivity.
Defined.

(** The AUTH_1 decoder accepts exactly the layouts of well-formed messages
    of at most eight branches: it is injective, it rejects every truncation as
    too short and every extension as malformed, and it never leaves its buffer. *)
Theorem auth1_decode_exact buf :
  (∀ m, auth_auth1_decode (Some buf) = Ok m ↔ auth1_wf m ∧ buf = wire_auth1 m) ∧
  (∀ m x, auth1_wf m → wire_auth1 m = buf ++ x → x ≠ [] →
     auth_auth1_decode (Some buf) = Err AUTH_ERR_PAYLOAD_TOO_SHORT) ∧
  (∀ m x, auth1_wf m → buf = wire_auth1 m ++ x → x ≠ [] →
     auth_auth1_decode (Some buf) = Err AUTH_ERR_MALFORMED_PACKET) ∧
  auth_auth1_decode (Some buf) ≠ Fault.
Proof.
  split; [intros; apply codec_decode|]. split; [intros; by eapply codec_truncated|].
  split; [intros m x Hm -> Hx; by apply codec_extended|]. apply codec_decode_safe.
Qed.

(** the SETUP_1 decoder accepts exactly the layouts of messages whose
    pairing token has at most 128 bytes, with the same error classes. *)
Theorem setup1_decode_exact buf :
  (∀ m, auth_setup1_decode (Some buf) = Ok m ↔ setup1_wf m ∧ buf = wire_setup1 m) ∧
  (∀ m x, setup1_wf m → wire_setup1 m = buf ++ x → x ≠ [] →
     auth_setup1_decode (Some buf) = Err AUTH_ERR_PAYLOAD_TOO_SHORT) ∧
  (∀ m x, setup1_wf m → buf = wire_setup1 m ++ x → x ≠ [] →
     auth_setup1_decode (Some buf) = Err AUTH_ERR_MALFORMED_PACKET) ∧
  auth_setup1_decode (Some buf) ≠ Fault.
Proof.
  split; [intros; apply codec_decode|]. split; [intros; by eapply codec_truncated|].
  split; [intros m x Hm -> Hx; by apply codec_extended|]. apply codec_decode_safe.
Qed.
