(* ===== verification/Crypto.v ===== *)
(** Cryptographic primitives: [src/c/include/auth/crypto.h] and
    [src/c/src/crypto/crypto.c].

    libsodium is not part of the repository: the functions of it that the code
    calls are the class [Sodium], an argument of everything that uses them, and
    [SodiumSpec] states their documented behaviour (ristretto255 is a group of
    prime order with canonical 32-byte encodings, scalars are integers modulo
    its order in little-endian form).  [Toy] instantiates both with a small
    group, which the witnesses use.

    [randombytes_buf] is an input: a definition that draws random bytes takes
    the drawn bytes as an argument. *)
From S2P Require Export Payloads.
From Stdlib Require Import Zcong.
#[global] Open Scope nat_scope.

(** ** libsodium *)

(** An [option] result is [None] where libsodium returns -1.  The incremental
    hash functions hash the concatenation of what they are given. *)
Class Sodium := {
  crypto_core_ristretto255_scalar_reduce : bytes → bytes;
  crypto_core_ristretto255_scalar_add : bytes → bytes → bytes;
  crypto_core_ristretto255_scalar_sub : bytes → bytes → bytes;
  crypto_core_ristretto255_scalar_mul : bytes → bytes → bytes;
  crypto_core_ristretto255_is_valid_point : bytes → bool;
  crypto_core_ristretto255_from_hash : bytes → option bytes;
  crypto_core_ristretto255_add : bytes → bytes → option bytes;
  crypto_core_ristretto255_sub : bytes → bytes → option bytes;
  crypto_scalarmult_ristretto255_base : bytes → option bytes;
  crypto_scalarmult_ristretto255 : bytes → bytes → option bytes;
  crypto_hash_sha256 : bytes → bytes;
  crypto_hash_sha512 : bytes → bytes;
  crypto_auth_hmacsha256 : bytes → bytes → bytes;
  crypto_generichash : nat → bytes → bytes
}.

(** [if (f(out, ...) != 0) return e;] *)
Definition or_err {A} (o : option A) (e : auth_err_t) : outcome auth_err_t A :=
  match o with Some a => Ok a | None => Err e end.

(** ** The wrappers *)
Section crypto.
Context {NaCl : Sodium}.

(** [g_initialized] is the state; [sodium_init] is what libsodium's
    initialisation returns. *)
Definition auth_init (sodium_init : Z) : M auth_err_t bool unit :=
  g_initialized ← get;
  if (g_initialized : bool) then mret tt
  else require (negb (sodium_init <? 0)%Z) AUTH_ERR_UNSPECIFIED;; put true.

Definition auth_random_bytes32 (drawn : bytes) : bytes := drawn.

Definition auth_random_scalar (wide : bytes) : bytes :=
  crypto_core_ristretto255_scalar_reduce wide.

Definition auth_scalar_from_wide (wide : bytes) : bytes :=
  crypto_core_ristretto255_scalar_reduce wide.

Definition auth_check_point (point : bytes) : outcome auth_err_t unit :=
  if memeq point (zeros AUTH_POINT_LEN) then Err AUTH_ERR_IDENTITY_POINT
  else if negb (crypto_core_ristretto255_is_valid_point point) then Err AUTH_ERR_INVALID_POINT
  else mret tt.

Definition auth_check_scalar (scalar : bytes) : outcome auth_err_t unit :=
  let wide := scalar ++ zeros 32 in
  let reduced := crypto_core_ristretto255_scalar_reduce wide in
  let ok := memeq reduced scalar in
  check ok AUTH_ERR_NONCANONICAL_SCALAR.

Definition auth_scalarmult_base (scalar : bytes) : outcome auth_err_t bytes :=
  or_err (crypto_scalarmult_ristretto255_base scalar) AUTH_ERR_INVALID_POINT.

Definition auth_scalarmult (scalar point : bytes) : outcome auth_err_t bytes :=
  or_err (crypto_scalarmult_ristretto255 scalar point) AUTH_ERR_INVALID_POINT.

Definition auth_point_add (a b : bytes) : outcome auth_err_t bytes :=
  or_err (crypto_core_ristretto255_add a b) AUTH_ERR_INVALID_POINT.

Definition auth_point_sub (a b : bytes) : outcome auth_err_t bytes :=
  or_err (crypto_core_ristretto255_sub a b) AUTH_ERR_INVALID_POINT.

Definition auth_scalar_add (a b : bytes) : bytes := crypto_core_ristretto255_scalar_add a b.
Definition auth_scalar_sub (a b : bytes) : bytes := crypto_core_ristretto255_scalar_sub a b.
Definition auth_scalar_mul (a b : bytes) : bytes := crypto_core_ristretto255_scalar_mul a b.

(** The loop stores [(uint8_t)(value >> (8 * i))] for [i] below 8. *)
Definition auth_scalar_from_u64 (value : Z) : bytes :=
  map (λ i, u8 (Z.shiftr value (8 * Z.of_nat i))) (seq 0 8) ++ zeros 24.

Definition auth_hash_to_point (label : bytes) : outcome auth_err_t bytes :=
  let wide := crypto_hash_sha512 (str_bytes "ristretto-hash-to-point-v1" ++ label) in
  or_err (crypto_core_ristretto255_from_hash wide) AUTH_ERR_INVALID_POINT.

Definition auth_attr_h : outcome auth_err_t bytes :=
  auth_hash_to_point (str_bytes "iot-auth/attr-h/v1").

(** [while (written < okm_len)]: [okm] is what has been written. *)
Fixpoint hkdf_loop (fuel : nat) (prk info : bytes) (okm_len : nat)
    (t : bytes) (counter : byte) (okm : bytes) : outcome auth_err_t bytes :=
  match fuel with
  | O => Fault
  | S fuel =>
      if length okm <? okm_len then
        let t := crypto_auth_hmacsha256 prk (t ++ info ++ [counter]) in
        let to_copy := if okm_len - length okm <? 32 then okm_len - length okm else 32 in
        x ← loadn t 0 to_copy;
        hkdf_loop fuel prk info okm_len t (u8 (b2z counter + 1)) (okm ++ x)
      else mret okm
  end.

Definition auth_hkdf_sha256 (okm_len : nat) (salt : ptr bytes) (ikm : ptr bytes)
    (ikm_len : nat) (info : ptr bytes) (info_len : nat) : outcome auth_err_t bytes :=
  _ ← check (negb (okm_len =? 0)) AUTH_ERR_INVALID_ARGUMENT;
  _ ← check (negb (bool_decide (ikm = NULL) && (0 <? ikm_len))) AUTH_ERR_INVALID_ARGUMENT;
  _ ← check (negb (bool_decide (info = NULL) && (0 <? info_len))) AUTH_ERR_INVALID_ARGUMENT;
  _ ← check (okm_len <=? 255 * 32) AUTH_ERR_INVALID_ARGUMENT;
  let salt := match salt with
              | None | Some [] => zeros 32
              | Some s => s
              end in
  ikm ← loadn (default [] ikm) 0 ikm_len;
  info ← loadn (default [] info) 0 info_len;
  let prk := crypto_auth_hmacsha256 salt ikm in
  hkdf_loop 256 prk info okm_len [] (u8 1) [].

Definition auth_hmac_tag (key label th : bytes) : bytes :=
  crypto_auth_hmacsha256 key (label ++ th).

Definition auth_derive_device_id (root : bytes) : bytes :=
  crypto_generichash AUTH_DEVICE_ID_LEN (str_bytes "device-id" ++ root).

Definition auth_derive_device_scalar (root : bytes) : bytes :=
  crypto_core_ristretto255_scalar_reduce
    (crypto_generichash 64 (str_bytes "device-auth-v1" ++ root)).
End crypto.

(** ** What libsodium documents

    The group is [sG] with its order [sL]; [sdec] decodes canonical encodings.
    [crypto_scalarmult_*] ignores the top bit of the scalar and fails when the
    result is the identity element. *)
Class SodiumSpec (NaCl : Sodium) := {
  sG : Type;
  sG_eq_dec :: EqDecision sG;
  sL : Z;
  gzero : sG;
  gbase : sG;
  gadd : sG → sG → sG;
  gneg : sG → sG;
  gmul : Z → sG → sG;
  senc : sG → bytes;
  sdec : bytes → option sG;
  gadd_assoc x y z : gadd x (gadd y z) = gadd (gadd x y) z;
  gadd_comm x y : gadd x y = gadd y x;
  gadd_0_l x : gadd gzero x = x;
  gadd_neg_l x : gadd (gneg x) x = gzero;
  gmul_add a b x : gmul (a + b) x = gadd (gmul a x) (gmul b x);
  gmul_mul a b x : gmul (a * b) x = gmul a (gmul b x);
  gmul_gadd a x y : gmul a (gadd x y) = gadd (gmul a x) (gmul a y);
  gmul_1 x : gmul 1 x = x;
  gmul_order x : gmul sL x = gzero;
  gbase_nonzero : gbase ≠ gzero;
  sL_prime : Z.prime sL;
  sL_small : (sL < 2 ^ 253)%Z;
  sdec_senc x : sdec (senc x) = Some x;
  senc_sdec b x : sdec b = Some x → b = senc x;
  length_senc x : length (senc x) = 32;
  senc_gzero : senc gzero = zeros 32;
  scalar_reduce_spec w :
    crypto_core_ristretto255_scalar_reduce w = store_le 32 (load_le w mod sL);
  scalar_add_spec a b :
    crypto_core_ristretto255_scalar_add a b = store_le 32 ((load_le a + load_le b) mod sL);
  scalar_sub_spec a b :
    crypto_core_ristretto255_scalar_sub a b = store_le 32 ((load_le a - load_le b) mod sL);
  scalar_mul_spec a b :
    crypto_core_ristretto255_scalar_mul a b = store_le 32 ((load_le a * load_le b) mod sL);
  is_valid_point_spec b :
    crypto_core_ristretto255_is_valid_point b = bool_decide (is_Some (sdec b));
  from_hash_spec w : ∃ x, crypto_core_ristretto255_from_hash w = Some (senc x);
  point_add_spec a b :
    crypto_core_ristretto255_add a b =
      match sdec a, sdec b with Some x, Some y => Some (senc (gadd x y)) | _, _ => None end;
  point_sub_spec a b :
    crypto_core_ristretto255_sub a b =
      match sdec a, sdec b with Some x, Some y => Some (senc (gadd x (gneg y))) | _, _ => None end;
  scalarmult_spec s p :
    crypto_scalarmult_ristretto255 s p =
      match sdec p with
      | Some x => let q := gmul (load_le s mod 2 ^ 255) x in
                  if decide (q = gzero) then None else Some (senc q)
      | None => None
      end;
  scalarmult_base_spec s :
    crypto_scalarmult_ristretto255_base s =
      let q := gmul (load_le s mod 2 ^ 255) gbase in
      if decide (q = gzero) then None else Some (senc q);
  length_sha256 m : length (crypto_hash_sha256 m) = 32;
  length_sha512 m : length (crypto_hash_sha512 m) = 64;
  length_hmacsha256 k m : length (crypto_auth_hmacsha256 k m) = 32;
  length_generichash n m : length (crypto_generichash n m) = n
}.

(** ** Group and scalar lemmas *)
Section group.
Context {NaCl : Sodium} {HS : SodiumSpec NaCl}.

(** A canonical scalar: what [auth_check_scalar] accepts. *)
Definition canonical (s : bytes) : Prop := length s = 32 ∧ (load_le s < sL)%Z.

Lemma sL_pos : (0 < sL)%Z.
Proof. pose proof (Z.prime_ge_2 _ sL_prime). lia. Qed.

Lemma scalar_mod_range z : (0 <= z mod sL < sL)%Z.
Proof. apply Z.mod_pos_bound, sL_pos. Qed.

Lemma load_store_scalar z : load_le (store_le 32 (z mod sL)) = (z mod sL)%Z.
Proof.
  rewrite load_store_le. apply Z.mod_small. pose proof (scalar_mod_range z) as Hz.
  pose proof sL_small as HL. change (256 ^ Z.of_nat 32)%Z with (2 ^ 256)%Z. lia.
Qed.

Lemma canonical_scalar z : canonical (store_le 32 (z mod sL)).
Proof.
  split; [apply length_store_le|]. rewrite load_store_scalar. apply scalar_mod_range.
Qed.

Lemma canonical_mod s : canonical s → (load_le s mod sL)%Z = load_le s.
Proof. intros [_ H]. apply Z.mod_small. split; [apply load_le_nonneg|done]. Qed.

Lemma canonical_255 s : canonical s → (load_le s mod 2 ^ 255)%Z = load_le s.
Proof.
  intros [_ H]. pose proof sL_small as HL. apply Z.mod_small. split; [apply load_le_nonneg|lia].
Qed.

Lemma canonical_inj s t : canonical s → canonical t → load_le s = load_le t → s = t.
Proof.
  intros [Hs _] [Ht _] E. rewrite <- (store_load_le_n 32 s), <- (store_load_le_n 32 t) by done.
  by rewrite E.
Qed.

Lemma gadd_0_r x : gadd x gzero = x.
Proof. by rewrite gadd_comm, gadd_0_l. Qed.

Lemma gadd_neg_r x : gadd x (gneg x) = gzero.
Proof. by rewrite gadd_comm, gadd_neg_l. Qed.

Lemma gadd_cancel_l x y z : gadd x y = gadd x z → y = z.
Proof.
  intros E. apply (f_equal (gadd (gneg x))) in E.
  by rewrite !gadd_assoc, gadd_neg_l, !gadd_0_l in E.
Qed.

Lemma gmul_0_l x : gmul 0 x = gzero.
Proof.
  apply (gadd_cancel_l (gmul 0 x)). rewrite <- gmul_add, gadd_0_r. done.
Qed.

Lemma gmul_0_r a : gmul a gzero = gzero.
Proof.
  apply (gadd_cancel_l (gmul a gzero)). rewrite <- gmul_gadd, gadd_0_r, gadd_0_r. done.
Qed.

Lemma gmul_neg a x : gmul (- a) x = gneg (gmul a x).
Proof.
  apply (gadd_cancel_l (gmul a x)). rewrite <- gmul_add, gadd_neg_r.
  replace (a + - a)%Z with 0%Z by lia. apply gmul_0_l.
Qed.

Lemma gmul_sub a b x : gmul (a - b) x = gadd (gmul a x) (gneg (gmul b x)).
Proof. by rewrite <- gmul_neg, <- gmul_add. Qed.

Lemma gneg_gneg x : gneg (gneg x) = x.
Proof. apply (gadd_cancel_l (gneg x)). by rewrite gadd_neg_r, gadd_neg_l. Qed.

Lemma gneg_gmul a x : gmul a (gneg x) = gneg (gmul a x).
Proof.
  apply (gadd_cancel_l (gmul a x)). by rewrite <- gmul_gadd, !gadd_neg_r, gmul_0_r.
Qed.

Lemma gneg_gadd x y : gneg (gadd x y) = gadd (gneg x) (gneg y).
Proof.
  apply (gadd_cancel_l (gadd x y)). rewrite gadd_neg_r, (gadd_comm (gneg x)), gadd_assoc.
  rewrite <- (gadd_assoc x y), gadd_neg_r, gadd_0_r, gadd_neg_r. done.
Qed.

Lemma gmul_mod a x : gmul (a mod sL) x = gmul a x.
Proof.
  rewrite (Z.div_mod a sL) at 2 by (pose proof sL_pos; lia).
  rewrite gmul_add, (Z.mul_comm sL), gmul_mul, gmul_order, gmul_0_r, gadd_0_l. done.
Qed.

Lemma gmul_comm a b x : gmul a (gmul b x) = gmul b (gmul a x).
Proof. by rewrite <- !gmul_mul, Z.mul_comm. Qed.

Lemma senc_inj x y : senc x = senc y → x = y.
Proof. intros E. apply (f_equal sdec) in E. rewrite !sdec_senc in E. by injection E. Qed.

(** An element other than the identity has order [sL]. *)
Lemma gmul_eq_zero a x : gmul a x = gzero → x = gzero ∨ (a mod sL = 0)%Z.
Proof.
  intros E. destruct (decide (a mod sL = 0)%Z) as [|Ha]; [by right|left].
  rewrite <- (gmul_1 x), <- (Z.invmod_prime a sL sL_prime Ha), gmul_mod, gmul_mul, E.
  apply gmul_0_r.
Qed.

(** The bytes of a point other than the identity, and its scalar multiples. *)
Lemma scalarmult_run s x :
  auth_scalarmult s (senc x) =
    if decide (gmul (load_le s mod 2 ^ 255) x = gzero) then Err AUTH_ERR_INVALID_POINT
    else Ok (senc (gmul (load_le s mod 2 ^ 255) x)).
Proof.
  unfold auth_scalarmult. rewrite scalarmult_spec, sdec_senc. cbv zeta. by destruct (decide _).
Qed.

Lemma scalarmult_canonical s x :
  canonical s → x ≠ gzero → load_le s ≠ 0%Z →
  auth_scalarmult s (senc x) = Ok (senc (gmul (load_le s) x)).
Proof.
  intros Hs Hx H0. rewrite scalarmult_run, canonical_255 by done.
  destruct (decide _) as [E|]; [|done]. apply gmul_eq_zero in E as [|E]; [done|].
  by rewrite canonical_mod in E.
Qed.

Lemma scalarmult_zero s x : canonical s → load_le s = 0%Z → auth_scalarmult s (senc x) = Err AUTH_ERR_INVALID_POINT.
Proof.
  intros Hs H0. rewrite scalarmult_run, canonical_255, H0, gmul_0_l by done.
  by destruct (decide _).
Qed.

Lemma scalarmult_base_eq s : auth_scalarmult_base s = auth_scalarmult s (senc gbase).
Proof.
  unfold auth_scalarmult_base, auth_scalarmult.
  by rewrite scalarmult_base_spec, scalarmult_spec, sdec_senc.
Qed.

Lemma point_add_run x y : auth_point_add (senc x) (senc y) = Ok (senc (gadd x y)).
Proof. unfold auth_point_add. by rewrite point_add_spec, !sdec_senc. Qed.

Lemma point_sub_run x y : auth_point_sub (senc x) (senc y) = Ok (senc (gadd x (gneg y))).
Proof. unfold auth_point_sub. by rewrite point_sub_spec, !sdec_senc. Qed.

Lemma point_sub_ok a b r :
  auth_point_sub a b = Ok r → ∃ x y, a = senc x ∧ b = senc y ∧ r = senc (gadd x (gneg y)).
Proof.
  unfold auth_point_sub. rewrite point_sub_spec.
  destruct (sdec a) as [x|] eqn:Ea; [|done]. destruct (sdec b) as [y|] eqn:Eb; [|done].
  intros [= <-]. apply senc_sdec in Ea, Eb. by exists x, y.
Qed.

Lemma point_add_ok a b r :
  auth_point_add a b = Ok r → ∃ x y, a = senc x ∧ b = senc y ∧ r = senc (gadd x y).
Proof.
  unfold auth_point_add. rewrite point_add_spec.
  destruct (sdec a) as [x|] eqn:Ea; [|done]. destruct (sdec b) as [y|] eqn:Eb; [|done].
  intros [= <-]. apply senc_sdec in Ea, Eb. by exists x, y.
Qed.

Lemma scalarmult_ok s p r :
  auth_scalarmult s p = Ok r →
  ∃ x, p = senc x ∧ r = senc (gmul (load_le s mod 2 ^ 255) x) ∧
       gmul (load_le s mod 2 ^ 255) x ≠ gzero.
Proof.
  unfold auth_scalarmult. rewrite scalarmult_spec. destruct (sdec p) as [x|] eqn:Ep; [|done].
  cbv zeta. destruct (decide _); [done|]. intros [= <-]. apply senc_sdec in Ep. by exists x.
Qed.

Lemma attr_h_ok : ∃ h, auth_attr_h = Ok (senc h).
Proof.
  unfold auth_attr_h, auth_hash_to_point.
  destruct (from_hash_spec (crypto_hash_sha512 (str_bytes "ristretto-hash-to-point-v1" ++
    str_bytes "iot-auth/attr-h/v1"))) as [h ->]. by exists h.
Qed.

Lemma reduce_canonical w : canonical (auth_scalar_from_wide w).
Proof. unfold auth_scalar_from_wide. rewrite scalar_reduce_spec. apply canonical_scalar. Qed.

Lemma scalar_add_run a b :
  canonical (auth_scalar_add a b) ∧
  load_le (auth_scalar_add a b) = ((load_le a + load_le b) mod sL)%Z.
Proof.
  unfold auth_scalar_add. rewrite scalar_add_spec.
  split; [apply canonical_scalar|apply load_store_scalar].
Qed.

Lemma scalar_sub_run a b :
  canonical (auth_scalar_sub a b) ∧
  load_le (auth_scalar_sub a b) = ((load_le a - load_le b) mod sL)%Z.
Proof.
  unfold auth_scalar_sub. rewrite scalar_sub_spec.
  split; [apply canonical_scalar|apply load_store_scalar].
Qed.

Lemma scalar_mul_run a b :
  canonical (auth_scalar_mul a b) ∧
  load_le (auth_scalar_mul a b) = ((load_le a * load_le b) mod sL)%Z.
Proof.
  unfold auth_scalar_mul. rewrite scalar_mul_spec.
  split; [apply canonical_scalar|apply load_store_scalar].
Qed.

(** The point check accepts the encodings of elements other than the identity. *)
Lemma check_point_ok p :
  auth_check_point p = Ok tt ↔ ∃ x, p = senc x ∧ x ≠ gzero.
Proof.
  unfold auth_check_point. change (zeros AUTH_POINT_LEN) with (zeros 32).
  rewrite <- senc_gzero. destruct (memeq p (senc gzero)) eqn:E.
  - apply memeq_true in E as ->. split; [done|]. intros (x & Hx & Hn). by apply senc_inj in Hx.
  - apply memeq_false in E. rewrite is_valid_point_spec.
    destruct (sdec p) as [x|] eqn:Ep; cbn.
    + apply senc_sdec in Ep as ->. split; [|done]. intros _. exists x. split; [done|]. by intros ->.
    + split; [done|]. intros (x & -> & _). by rewrite sdec_senc in Ep.
Qed.

Lemma check_point_err p e :
  auth_check_point p = Err e ↔
  (e = AUTH_ERR_IDENTITY_POINT ∧ p = senc gzero) ∨
  (e = AUTH_ERR_INVALID_POINT ∧ sdec p = None).
Proof.
  unfold auth_check_point. change (zeros AUTH_POINT_LEN) with (zeros 32).
  rewrite <- senc_gzero. destruct (memeq p (senc gzero)) eqn:E.
  - apply memeq_true in E as ->. rewrite sdec_senc. split; [intros [= <-]; by left|].
    by intros [[-> _]|[_ [=]]].
  - apply memeq_false in E. rewrite is_valid_point_spec.
    destruct (sdec p) as [x|] eqn:Ep; cbn; split.
    + done.
    + by intros [[_ ?]|[_ ?]].
    + intros [= <-]. by right.
    + by intros [[_ ?]|[-> _]].
Qed.

Lemma check_scalar_ok s : length s = 32 → auth_check_scalar s = Ok tt ↔ canonical s.
Proof.
  intros Hl. unfold auth_check_scalar. rewrite scalar_reduce_spec, load_le_app, load_le_zeros, Z.mul_0_r, Z.add_0_r.
  destruct (memeq _ s) eqn:E; cbn.
  - apply memeq_true in E. rewrite <- E. split; [|done]. intros _. apply canonical_scalar.
  - apply memeq_false in E. split; [done|]. intros Hs. destruct E.
    rewrite canonical_mod by done. by apply store_load_le_n.
Qed.
End group.

(** ** HKDF *)
Section hkdf.
Context {NaCl : Sodium} {HS : SodiumSpec NaCl}.

(** RFC 5869: [T(0)] is empty, [T(i) = HMAC(PRK, T(i-1) | info | i)]. *)
Fixpoint rfc5869_T (prk info : bytes) (i : nat) : bytes :=
  match i with
  | O => []
  | S k => crypto_auth_hmacsha256 prk (rfc5869_T prk info k ++ info ++ [u8 (Z.of_nat (S k))])
  end.

(** The first [l] bytes of [T(1) | T(2) | ... | T(255)]. *)
Definition rfc5869 (salt ikm info : bytes) (l : nat) : bytes :=
  let prk := crypto_auth_hmacsha256 salt ikm in
  take l (concat (map (rfc5869_T prk info) (seq 1 255))).

Lemma length_T prk info i : length (rfc5869_T prk info (S i)) = 32.
Proof. apply length_hmacsha256. Qed.

Lemma length_T_concat prk info a n :
  length (concat (map (rfc5869_T prk info) (seq (S a) n))) = 32 * n.
Proof.
  revert a. induction n as [|n IH]; intros a; [done|]. cbn [seq map concat].
  rewrite length_app, length_T, IH. lia.
Qed.

(** After [k] iterations the loop has written [T(1) ... T(k)]. *)
Lemma hkdf_loop_run prk info l n k fuel :
  l ≤ 32 * (k + n) → k + n ≤ 255 → n < fuel → 32 * k ≤ l →
  hkdf_loop fuel prk info l (rfc5869_T prk info k) (u8 (Z.of_nat (S k)))
    (concat (map (rfc5869_T prk info) (seq 1 k))) =
  Ok (take l (concat (map (rfc5869_T prk info) (seq 1 (k + n))))).
Proof.
  revert k fuel. induction n as [|n IH]; intros k fuel Hl Hk Hf Hkl;
    (destruct fuel as [|fuel]; [lia|]); cbn [hkdf_loop]; rewrite length_T_concat.
  - rewrite Nat.add_0_r in *. rewrite (proj2 (Nat.ltb_ge _ _)) by lia.
    rewrite take_ge by (rewrite length_T_concat; lia). done.
  - destruct (Nat.ltb_spec (32 * k) l) as [Hlt|Hge].
    2:{ assert (l = 32 * k) as -> by lia. rewrite seq_app, map_app, concat_app.
        rewrite take_app_length' by (by rewrite length_T_concat). done. }
    change (crypto_auth_hmacsha256 prk (rfc5869_T prk info k ++ info ++ [u8 (Z.of_nat (S k))]))
      with (rfc5869_T prk info (S k)).
    assert (Hc : u8 (b2z (u8 (Z.of_nat (S k))) + 1) = u8 (Z.of_nat (S (S k)))).
    { apply b2z_inj. rewrite !b2z_u8, Zplus_mod_idemp_l. f_equal. lia. }
    assert (Hcat : ∀ x, concat (map (rfc5869_T prk info) (seq 1 k)) ++ x =
      take (32 * k + length x) (concat (map (rfc5869_T prk info) (seq 1 k)) ++ x)).
    { intros x. rewrite take_ge; [done|]. rewrite length_app, length_T_concat. lia. }
    assert (Hsnoc : concat (map (rfc5869_T prk info) (seq 1 (S k))) =
      concat (map (rfc5869_T prk info) (seq 1 k)) ++ rfc5869_T prk info (S k)).
    { rewrite seq_S, map_app, concat_app. cbn [map concat]. by rewrite app_nil_r. }
    destruct (Nat.ltb_spec (l - 32 * k) 32) as [Hs|Hs].
    + rewrite loadn_ok by (rewrite length_T; lia). rewrite drop_0. cbn [mbind outcome_bind].
      destruct fuel as [|fuel]; [lia|]. cbn [hkdf_loop].
      rewrite length_app, length_T_concat, length_take_le by (rewrite length_T; lia).
      rewrite (proj2 (Nat.ltb_ge _ _)) by lia. cbn [mret outcome_ret]. f_equal.
      replace (k + S n) with (S k + n) by lia. rewrite seq_app, map_app, concat_app.
      rewrite take_app_le by (rewrite length_T_concat; lia).
      rewrite Hsnoc, take_app_ge, length_T_concat by (rewrite length_T_concat; lia). done.
    + rewrite loadn_ok by (rewrite length_T; lia). rewrite drop_0.
      rewrite take_ge by (rewrite length_T; lia). cbn [mbind outcome_bind].
      rewrite Hc, <- Hsnoc, IH by lia. by replace (S k + n) with (k + S n) by lia.
Qed.

Lemma hkdf_run l salt ikm ikm_len info info_len i j :
  0 < l → l ≤ 255 * 32 → ikm = Some i → ikm_len = length i → info = Some j → info_len = length j →
  auth_hkdf_sha256 l salt ikm ikm_len info info_len =
    Ok (rfc5869 (match salt with None | Some [] => zeros 32 | Some s => s end) i j l).
Proof.
  intros Hl Hm -> -> -> ->. unfold auth_hkdf_sha256.
  rewrite (proj2 (Nat.eqb_neq l 0)), !bool_decide_false by (done || lia).
  cbn [negb andb check mbind outcome_bind]. rewrite (proj2 (Nat.leb_le l _)) by done.
  cbn [check mbind outcome_bind from_option id]. rewrite !loadn_ok, !drop_0, !firstn_all by lia.
  cbn [mbind outcome_bind]. by apply (hkdf_loop_run _ _ l 255 0 256); lia.
Qed.
End hkdf.

(** ** A small instance

    The integers modulo the prime 257 with encodings of 32 bytes. *)
Module Toy.
Definition p : Z := 257.

Definition digest (m : bytes) : Z :=
  fold_left (λ h b, ((h * 263 + b2z b + 1) mod 1000000007)%Z) m 7%Z.

Definition dec (b : bytes) : option Z :=
  if decide (length b = 32 ∧ (load_le b < p)%Z) then Some (load_le b) else None.

Definition enc (x : Z) : bytes := store_le 32 (x mod p).

#[global] Instance sodium : Sodium := {|
  crypto_core_ristretto255_scalar_reduce w := store_le 32 (load_le w mod p);
  crypto_core_ristretto255_scalar_add a b := store_le 32 ((load_le a + load_le b) mod p);
  crypto_core_ristretto255_scalar_sub a b := store_le 32 ((load_le a - load_le b) mod p);
  crypto_core_ristretto255_scalar_mul a b := store_le 32 ((load_le a * load_le b) mod p);
  crypto_core_ristretto255_is_valid_point b := bool_decide (is_Some (dec b));
  crypto_core_ristretto255_from_hash w := Some (enc (load_le w));
  crypto_core_ristretto255_add a b :=
    match dec a, dec b with Some x, Some y => Some (enc (x + y)) | _, _ => None end;
  crypto_core_ristretto255_sub a b :=
    match dec a, dec b with Some x, Some y => Some (enc (x - y)) | _, _ => None end;
  crypto_scalarmult_ristretto255_base s :=
    let q := ((load_le s mod 2 ^ 255) mod p)%Z in
    if decide (q = 0%Z) then None else Some (enc q);
  crypto_scalarmult_ristretto255 s x :=
    match dec x with
    | Some x => let q := ((load_le s mod 2 ^ 255) * x mod p)%Z in
                if decide (q = 0%Z) then None else Some (enc q)
    | None => None
    end;
  crypto_hash_sha256 m := store_le 32 (digest m);
  crypto_hash_sha512 m := store_le 64 (digest m);
  crypto_auth_hmacsha256 k m := store_le 32 (digest (k ++ m));
  crypto_generichash n m := store_le n (digest m)
|}.

Lemma p_prime : Z.prime p.
Proof.
  split; [reflexivity|]. intros n Hn Hd.
  assert (H : forallb (λ k, negb (p mod (Z.of_nat k) =? 0)%Z) (seq 2 255) = true) by reflexivity.
  rewrite forallb_forall in H. specialize (H (Z.to_nat n)).
  rewrite in_seq, Z2Nat.id in H by (unfold p in *; lia). apply Z.mod_divide in Hd; [|lia].
  rewrite Hd in H. unfold p in *. discriminate H. lia.
Qed.

(** Elements are reduced integers. *)
Definition G : Type := dsig (λ z : Z, 0 <= z < p)%Z.

Lemma mod_p z : (0 <= z mod p < p)%Z.
Proof. by apply Z.mod_pos_bound. Qed.

Definition mk (z : Z) : G := dexist (z mod p)%Z (mod_p z).

Lemma G_eq (x y : G) : `x = `y → x = y.
Proof. apply dsig_eq. Qed.

Lemma G_small (x : G) : (`x mod p)%Z = `x.
Proof. apply Z.mod_small. exact (proj2_dsig x). Qed.

Lemma mk_proj (x : G) : mk (`x) = x.
Proof. apply G_eq, G_small. Qed.

Lemma mk_mod a b : (a mod p = b mod p)%Z → mk a = mk b.
Proof. intros E. by apply G_eq. Qed.

Ltac mod_ring := cbn [mk dexist proj1_sig]; rewrite ?G_small;
  repeat first [rewrite Zplus_mod_idemp_l | rewrite Zplus_mod_idemp_r
               | rewrite Zmult_mod_idemp_l | rewrite Zmult_mod_idemp_r
               | rewrite Zminus_mod_idemp_l | rewrite Zminus_mod_idemp_r];
  try (f_equal; lia).

Lemma smult_match (g : G) (z : Z) :
  proj1_sig g = (z mod p)%Z →
  (if decide ((z mod p)%Z = 0%Z) then None else Some (enc (z mod p))) =
  (if decide (g = mk 0) then None else Some (store_le 32 (proj1_sig g))).
Proof.
  intros E. destruct (decide ((z mod p)%Z = 0%Z)) as [E0|E0]; case_decide as E1; try done.
  - destruct E1. apply G_eq. by rewrite E, E0.
  - destruct E0. by rewrite <- E, E1.
  - unfold enc. by rewrite E, Z.mod_mod.
Qed.

#[local] Obligation Tactic := idtac.
#[global] Program Instance spec : SodiumSpec sodium := {|
  sG := G;
  sL := p;
  gzero := mk 0;
  gbase := mk 1;
  gadd x y := mk (`x + `y);
  gneg x := mk (0 - `x);
  gmul a x := mk (a * `x);
  senc x := store_le 32 (`x);
  sdec b := if decide (length b = 32 ∧ (load_le b < p)%Z) then Some (mk (load_le b)) else None
|}.
Next Obligation. intros x y z. apply G_eq. mod_ring. Qed.
Next Obligation. intros x y. apply G_eq. mod_ring. Qed.
Next Obligation. intros x. apply G_eq. cbn [mk dexist proj1_sig]. rewrite Z.mod_0_l, Z.add_0_l, G_small by done. done. Qed.
Next Obligation. intros x. apply G_eq. mod_ring. Qed.
Next Obligation. intros a b x. apply G_eq. mod_ring. Qed.
Next Obligation. intros a b x. apply G_eq. mod_ring. Qed.
Next Obligation. intros a x y. apply G_eq. mod_ring. Qed.
Next Obligation. intros x. apply G_eq. cbn [mk dexist proj1_sig]. rewrite Z.mul_1_l. apply G_small. Qed.
Next Obligation. intros x. apply G_eq. cbn [mk dexist proj1_sig]. rewrite Z.mul_comm. by rewrite Z.mod_mul. Qed.
Next Obligation. intros E. discriminate (f_equal proj1_sig E). Qed.
Next Obligation. exact p_prime. Qed.
Next Obligation. reflexivity. Qed.
Next Obligation.
  intros x. pose proof (proj2_dsig x) as Hx. cbv beta in *. rewrite load_store_le.
  change (256 ^ Z.of_nat 32)%Z with (2 ^ 256)%Z. unfold p in *. rewrite Z.mod_small by lia.
  rewrite decide_True by (split; [apply length_store_le|lia]). by rewrite mk_proj.
Qed.
Next Obligation.
  intros b x. cbv beta. case_decide as Hd; [|done]. destruct Hd as [Hl Hp]. intros [= <-].
  cbn [mk dexist proj1_sig]. pose proof (load_le_nonneg b). rewrite Z.mod_small by lia.
  symmetry. by apply store_load_le_n.
Qed.
Next Obligation. intros x. apply length_store_le. Qed.
Next Obligation. reflexivity. Qed.
Next Obligation. reflexivity. Qed.
Next Obligation. reflexivity. Qed.
Next Obligation. reflexivity. Qed.
Next Obligation. reflexivity. Qed.
Next Obligation.
  intros b. cbn. unfold dec. by case_decide.
Qed.
Next Obligation. intros w. by exists (mk (load_le w)). Qed.
Next Obligation.
  intros a b. cbn. unfold dec. case_decide; [|done].
  case_decide; [|done]. unfold enc. do 2 f_equal. mod_ring.
Qed.
Next Obligation.
  intros a b. cbn. unfold dec. case_decide; [|done].
  case_decide; [|done]. unfold enc. do 2 f_equal. mod_ring.
  rewrite <- Zminus_mod_idemp_r. by f_equal.
Qed.
Next Obligation.
  intros s x. cbv zeta. cbn [crypto_scalarmult_ristretto255 sodium]. unfold dec.
  case_decide; [|done]. apply smult_match. mod_ring.
Qed.
Next Obligation.
  intros s. cbv zeta. cbn [crypto_scalarmult_ristretto255_base sodium]. apply smult_match.
  mod_ring.
Qed.
Next Obligation. intros. apply length_store_le. Qed.
Next Obligation. intros. apply length_store_le. Qed.
Next Obligation. intros. apply length_store_le. Qed.
Next Obligation. intros. apply length_store_le. Qed.
End Toy.

(** ** The correctness of the primitives *)

(** C37: the key derivation is HKDF-SHA256 of RFC 5869 for every output length up
    to 8160 bytes, a missing or empty salt being 32 zero bytes; the loop ends
    and stays in its buffers. *)
Theorem hkdf_is_rfc5869 {NaCl : Sodium} {HS : SodiumSpec NaCl} l salt ikm info :
  0 < l ≤ 255 * 32 →
  auth_hkdf_sha256 l salt (Some ikm) (length ikm) (Some info) (length info) =
    Ok (rfc5869 (match salt with None | Some [] => zeros 32 | Some s => s end) ikm info l).
Proof. intros [H0 H1]. by apply hkdf_run. Qed.

Lemma hkdf_is_rfc5869_witness :
  auth_hkdf_sha256 (NaCl := Toy.sodium) 40 None (Some [Byte.x07]) 1 (Some (str_bytes "kc s2c")) 6 =
    Ok (rfc5869 (NaCl := Toy.sodium) (zeros 32) [Byte.x07] (str_bytes "kc s2c") 40).
Proof. apply (hkdf_is_rfc5869 40 None [Byte.x07] (str_bytes "kc s2c")). lia. Defined.

(** the input checks accept exactly the canonical encodings: a point check
    succeeds on the encodings of the elements other than the identity, a scalar
    check on the integers below the group order. *)
Theorem input_checks_exact {NaCl : Sodium} {HS : SodiumSpec NaCl} (b : bytes) :
  (auth_check_point b = Ok tt ↔ ∃ x, b = senc x ∧ x ≠ gzero) ∧
  (auth_check_point b = Err AUTH_ERR_IDENTITY_POINT ↔ b = senc gzero) ∧
  (auth_check_point b = Err AUTH_ERR_INVALID_POINT ↔ sdec b = None) ∧
  (length b = 32 → auth_check_scalar b = Ok tt ↔ (load_le b < sL)%Z).
Proof.
  split; [apply check_point_ok|]. rewrite !check_point_err. split_and!.
  - by split; [intros [[_ ?]|[[=] _]]|left].
  - by split; [intros [[[=] _]|[_ ?]]|right].
  - intros Hl. rewrite check_scalar_ok by done. unfold canonical. tauto.
Qed.
