(* ===== verification/Transcript.v ===== *)
(** The transcript: [src/c/include/auth/transcript.h] and
    [src/c/src/crypto/transcript.c].

    A transcript is [u8 len | domain] followed by entries
    [u8 len | label | u32 len | message], in a buffer of 4096 bytes with a
    sticky overflow flag.  [wire_transcript] is that layout; it is injective,
    which is what makes a challenge commit to every input of a proof. *)
From S2P Require Export Crypto.

Definition AUTH_TRANSCRIPT_CAP : nat := 4096.
#[export] Hint Unfold AUTH_TRANSCRIPT_CAP : consts.

(** [t_buf] is the written prefix [buf[0..len)]. *)
Record auth_transcript_t := { t_buf : bytes; t_overflow : bool }.

(** ** Domain separators *)
Definition auth_ds_setup : bytes := str_bytes "setup_client_schnorr_v1".
Definition auth_ds_setup_server : bytes := str_bytes "setup_server_schnorr_v1".
Definition auth_ds_server : bytes := str_bytes "server_schnorr_v1".
Definition auth_ds_pid : bytes := str_bytes "iot-auth/pid/v1".
Definition auth_ds_client_v2 : bytes := str_bytes "client_schnorr_v2".
Definition auth_ds_kc_v2 : bytes := str_bytes "kc_v2".
Definition auth_ds_role_set : bytes := str_bytes "client_role_set_v1".
Definition auth_ds_role_rerand : bytes := str_bytes "client_role_rerand_v1".

(** ** Appending *)

(** The result is the C boolean. *)
Definition append_bytes (b : bytes) : M auth_err_t auth_transcript_t bool :=
  t ← get;
  if t_overflow t then mret false
  else if AUTH_TRANSCRIPT_CAP <? length (t_buf t) + length b then
    put {| t_buf := t_buf t; t_overflow := true |};; mret false
  else put {| t_buf := t_buf t ++ b; t_overflow := false |};; mret true.

(** [if (!append_bytes(t, b, n)) return AUTH_ERR_BUFFER_TOO_SMALL;] *)
Definition append_or_fail (b : bytes) : M auth_err_t auth_transcript_t unit :=
  ok ← append_bytes b;
  require ok AUTH_ERR_BUFFER_TOO_SMALL.

Definition auth_transcript_init (domain : bytes) : M auth_err_t auth_transcript_t unit :=
  require (length domain <=? 255) AUTH_ERR_INVALID_ARGUMENT;;
  put {| t_buf := []; t_overflow := false |};;
  append_or_fail [u8 (Z.of_nat (length domain))];;
  if 0 <? length domain then append_or_fail domain else mret tt.

(** The appends behind the checks. *)
Definition append_entry (label : bytes) (msg : ptr bytes) (msg_len : nat) :
    M auth_err_t auth_transcript_t unit :=
  let n := Z.of_nat msg_len in
  let len_le := [u8 (Z.land n 0xff); u8 (Z.land (Z.shiftr n 8) 0xff);
                 u8 (Z.land (Z.shiftr n 16) 0xff); u8 (Z.land (Z.shiftr n 24) 0xff)] in
  append_or_fail [u8 (Z.of_nat (length label))];;
  (if 0 <? length label then append_or_fail label else mret tt);;
  append_or_fail len_le;;
  (if 0 <? msg_len
   then m ← lift (loadn (default [] msg) 0 msg_len); append_or_fail m
   else mret tt).

Definition auth_transcript_append (label : ptr bytes) (msg : ptr bytes) (msg_len : nat) :
    M auth_err_t auth_transcript_t unit :=
  label ← deref label AUTH_ERR_INVALID_ARGUMENT;
  require (length label <=? 255) AUTH_ERR_INVALID_ARGUMENT;;
  require (Z.of_nat msg_len <=? 0xFFFFFFFF)%Z AUTH_ERR_INVALID_ARGUMENT;;
  require (negb (bool_decide (msg = NULL) && (0 <? msg_len))) AUTH_ERR_INVALID_ARGUMENT;;
  append_entry label msg msg_len.

Definition auth_transcript_append_u8 (label : ptr bytes) (v : byte) :
    M auth_err_t auth_transcript_t unit :=
  auth_transcript_append label (Some [v]) 1.

Definition auth_transcript_append_u64 (label : ptr bytes) (v : Z) :
    M auth_err_t auth_transcript_t unit :=
  let le := map (λ i, u8 (Z.shiftr v (8 * Z.of_nat i))) (seq 0 8) in
  auth_transcript_append label (Some le) 8.

Definition auth_transcript_append_point (label : ptr bytes) (point : bytes) :
    M auth_err_t auth_transcript_t unit :=
  auth_transcript_append label (Some point) AUTH_POINT_LEN.

Definition auth_transcript_append_scalar (label : ptr bytes) (scalar : bytes) :
    M auth_err_t auth_transcript_t unit :=
  auth_transcript_append label (Some scalar) AUTH_SCALAR_LEN.

(** ** Finalization *)
Section finalize.
Context {NaCl : Sodium}.

Definition auth_transcript_challenge : M auth_err_t auth_transcript_t bytes :=
  t ← get;
  require (negb (t_overflow t)) AUTH_ERR_BUFFER_TOO_SMALL;;
  mret (crypto_core_ristretto255_scalar_reduce (crypto_hash_sha512 (t_buf t))).

Definition auth_transcript_hash_sha256 : M auth_err_t auth_transcript_t bytes :=
  t ← get;
  require (negb (t_overflow t)) AUTH_ERR_BUFFER_TOO_SMALL;;
  mret (crypto_hash_sha256 (t_buf t)).

Definition auth_compute_pid (device_pub nonce_c eph_c server_pub : bytes) : bytes :=
  let n := Z.of_nat (length auth_ds_pid) in
  let len_le := [u8 (Z.land n 0xff); u8 (Z.land (Z.shiftr n 8) 0xff);
                 u8 (Z.land (Z.shiftr n 16) 0xff); u8 (Z.land (Z.shiftr n 24) 0xff)] in
  crypto_hash_sha256 (len_le ++ auth_ds_pid ++ device_pub ++ nonce_c ++ eph_c ++ server_pub).
End finalize.

(** A local transcript, whose content before [auth_transcript_init] is not read. *)
Definition with_transcript {A} (m : M auth_err_t auth_transcript_t A) : outcome auth_err_t A :=
  eval m {| t_buf := []; t_overflow := false |}.

(** ** The layout *)
Definition wire_entry (e : bytes * bytes) : bytes :=
  [u8 (Z.of_nat (length e.1))] ++ e.1 ++ store_le 4 (Z.of_nat (length e.2)) ++ e.2.

Definition wire_transcript (domain : bytes) (entries : list (bytes * bytes)) : bytes :=
  [u8 (Z.of_nat (length domain))] ++ domain ++ concat (map wire_entry entries).

Definition entry_wf (e : bytes * bytes) : Prop :=
  length e.1 ≤ 255 ∧ is_u32 (Z.of_nat (length e.2)).

(** [appends m x r]: [m] appends [x] when there is room, and then returns [r]. *)
Definition appends {A} (m : M auth_err_t auth_transcript_t A) (x : bytes) (r : bytes → A) : Prop :=
  ∀ w, length (w ++ x) ≤ AUTH_TRANSCRIPT_CAP →
    m {| t_buf := w; t_overflow := false |} = (Ok (r (w ++ x)), {| t_buf := w ++ x; t_overflow := false |}).

Lemma appends_ret {A} (a : A) : appends (mret a) [] (λ _, a).
Proof. intros w _. by rewrite app_nil_r. Qed.

Lemma appends_bind {A B} (m : M auth_err_t auth_transcript_t A)
    (k : A → M auth_err_t auth_transcript_t B) x y a r :
  appends m x (λ _, a) → appends (k a) y r → appends (m ≫= k) (x ++ y) r.
Proof.
  intros Hm Hk w Hw. rewrite app_assoc in *. rewrite bind_run, Hm, Hk; [done..|].
  rewrite length_app in Hw. lia.
Qed.

Lemma appends_bytes b : appends (append_or_fail b) b (λ _, tt).
Proof.
  intros w Hw. rewrite length_app in Hw. unfold append_or_fail, append_bytes. rewrite bind_run.
  mstep. cbn [t_overflow t_buf]. by rewrite (proj2 (Nat.ltb_ge _ _)) by done.
Qed.

Lemma appends_opt b : appends (if 0 <? length b then append_or_fail b else mret tt) b (λ _, tt).
Proof.
  destruct b; [apply appends_ret|]. apply appends_bytes.
Qed.

Lemma appends_eq {A} (m : M auth_err_t auth_transcript_t A) x y r :
  appends m x r → x = y → appends m y r.
Proof. by intros ? <-. Qed.

Lemma appends_append label msg n :
  length label ≤ 255 → length msg = n → is_u32 (Z.of_nat n) →
  appends (auth_transcript_append (Some label) (Some msg) n) (wire_entry (label, msg)) (λ _, tt).
Proof.
  intros Hl <- Hm w Hw. unfold auth_transcript_append, is_u32 in *.
  mstep. rewrite (proj2 (Nat.leb_le (length label) 255)) by done. mstep.
  rewrite (proj2 (Z.leb_le _ 0xFFFFFFFF)) by lia. mstep.
  rewrite bool_decide_false by done. mstep. revert w Hw.
  change (appends (append_entry label (Some msg) (length msg)) (wire_entry (label, msg)) (λ _, tt)).
  eapply appends_eq.
  - eapply appends_bind; [apply appends_bytes|]. eapply appends_bind; [apply appends_opt|].
    eapply appends_bind; [apply appends_bytes|]. cbn [from_option id].
    instantiate (1 := msg). intros w Hw. destruct (Nat.ltb_spec 0 (length msg)) as [H0|H0].
    + rewrite bind_run. cbn [lift]. rewrite loadn_ok, drop_0, firstn_all by done.
      by apply appends_bytes.
    + destruct msg; [|cbn in H0; lia]. by apply appends_ret.
  - unfold wire_entry. cbn [fst snd]. by rewrite store_le_4.
Qed.

Lemma appends_point label p :
  length label ≤ 255 → length p = 32 →
  appends (auth_transcript_append_point (Some label) p) (wire_entry (label, p)) (λ _, tt).
Proof. intros. by apply appends_append. Qed.

Lemma appends_u64 label v :
  length label ≤ 255 →
  appends (auth_transcript_append_u64 (Some label) v) (wire_entry (label, store_le 8 v)) (λ _, tt).
Proof.
  intros. unfold auth_transcript_append_u64.
  replace (map _ (seq 0 8)) with (store_le 8 v); [by apply appends_append; rewrite ?length_store_le|].
  unfold store_le. cbn. rewrite Z.shiftr_0_r, !Z.shiftr_shiftr by lia. done.
Qed.

Lemma init_run domain t :
  length domain ≤ 255 →
  auth_transcript_init domain t =
    (Ok tt, {| t_buf := wire_transcript domain []; t_overflow := false |}).
Proof.
  intros Hd. unfold auth_transcript_init. rewrite (proj2 (Nat.leb_le _ 255)) by done. do 2 mstep.
  assert (Ha : appends (append_or_fail [u8 (Z.of_nat (length domain))];;
    if 0 <? length domain then append_or_fail domain else mret tt)
    ([u8 (Z.of_nat (length domain))] ++ domain) (λ _, tt)).
  { eapply appends_bind; [apply appends_bytes|apply appends_opt]. }
  specialize (Ha []). rewrite app_nil_l in Ha. rewrite Ha by len.
  unfold wire_transcript. cbn [map concat]. by rewrite app_nil_r.
Qed.

(** A transcript that is built and finalized. *)
Lemma with_transcript_run {A} domain (m : M auth_err_t auth_transcript_t A) entries r :
  length domain ≤ 255 → appends m (concat (map wire_entry entries)) r →
  length (wire_transcript domain entries) ≤ AUTH_TRANSCRIPT_CAP →
  with_transcript (auth_transcript_init domain;; m) = Ok (r (wire_transcript domain entries)).
Proof.
  intros Hd Hm Hc. unfold with_transcript, eval. rewrite bind_run, init_run by done.
  assert (E : wire_transcript domain [] ++ concat (map wire_entry entries) =
    wire_transcript domain entries).
  { unfold wire_transcript. cbn [map concat]. by rewrite app_nil_r, <- app_assoc. }
  rewrite Hm by (by rewrite E). by rewrite E.
Qed.

Lemma appends_challenge {NaCl : Sodium} :
  appends auth_transcript_challenge []
    (λ w, crypto_core_ristretto255_scalar_reduce (crypto_hash_sha512 w)).
Proof. intros w _. by rewrite app_nil_r. Qed.

Lemma appends_sha256 {NaCl : Sodium} :
  appends auth_transcript_hash_sha256 [] crypto_hash_sha256.
Proof. intros w _. by rewrite app_nil_r. Qed.

(** ** The layout determines its content *)
Lemma u8_len_inj n m : n ≤ 255 → m ≤ 255 → u8 (Z.of_nat n) = u8 (Z.of_nat m) → n = m.
Proof.
  intros Hn Hm E. apply (f_equal b2z) in E. rewrite !b2z_u8, !Z.mod_small in E by lia. lia.
Qed.

Lemma wire_entry_inj e1 e2 x y :
  entry_wf e1 → entry_wf e2 → wire_entry e1 ++ x = wire_entry e2 ++ y → e1 = e2 ∧ x = y.
Proof.
  destruct e1 as [l1 m1], e2 as [l2 m2]. unfold entry_wf, wire_entry. cbn [fst snd].
  intros [H1 H1'] [H2 H2'] E. rewrite <- !app_assoc in E.
  apply app_inj_1 in E as [E1 E]; [|done]. injection E1 as E1. apply u8_len_inj in E1; [|done..].
  apply app_inj_1 in E as [-> E]; [|done].
  apply app_inj_1 in E as [E2 E]; [|by rewrite !length_store_le].
  apply store_le_inj in E2; [|done..]. apply app_inj_1 in E as [-> ->]; [done|lia].
Qed.

Lemma wire_entries_inj l1 l2 :
  Forall entry_wf l1 → Forall entry_wf l2 →
  concat (map wire_entry l1) = concat (map wire_entry l2) → l1 = l2.
Proof.
  revert l2. induction l1 as [|e1 l1 IH]; intros [|e2 l2] H1 H2 E; cbn [map concat] in E; try done.
  apply list.Forall_cons in H1 as [He1 H1], H2 as [He2 H2].
  apply wire_entry_inj in E as [-> E]; [|done..]. f_equal. by apply IH.
Qed.

Lemma wire_transcript_inj d1 d2 l1 l2 :
  length d1 ≤ 255 → length d2 ≤ 255 → Forall entry_wf l1 → Forall entry_wf l2 →
  wire_transcript d1 l1 = wire_transcript d2 l2 → d1 = d2 ∧ l1 = l2.
Proof.
  intros Hd1 Hd2 H1 H2 E. unfold wire_transcript in E.
  apply app_inj_1 in E as [E1 E]; [|done]. injection E1 as E1. apply u8_len_inj in E1; [|done..].
  apply app_inj_1 in E as [-> E]; [|done]. split; [done|]. by apply wire_entries_inj.
Qed.

(** ** The overflow flag *)
Definition transcript_wf (t : auth_transcript_t) : Prop := length (t_buf t) ≤ AUTH_TRANSCRIPT_CAP.

(** What one append may do to a transcript. *)
Definition grows (t t' : auth_transcript_t) : Prop :=
  (∃ x, t_buf t' = t_buf t ++ x) ∧ (t_overflow t = true → t' = t).

Lemma grows_refl t : grows t t.
Proof. split; [exists []; by rewrite app_nil_r|done]. Qed.

Lemma grows_trans t1 t2 t3 : grows t1 t2 → grows t2 t3 → grows t1 t3.
Proof.
  intros [[x Hx] H1] [[y Hy] H2]. split.
  - exists (x ++ y). by rewrite Hy, Hx, app_assoc.
  - intros Ho. specialize (H1 Ho) as ->. by apply H2.
Qed.

(** A computation that keeps the bound, only appends, and fails once the flag
    is set, never leaving the buffer. *)
Definition careful {A} (m : M auth_err_t auth_transcript_t A) : Prop :=
  ∀ t o t', m t = (o, t') → transcript_wf t →
    transcript_wf t' ∧ grows t t' ∧ o ≠ Fault.

Lemma careful_ret {A} (a : A) : careful (mret a).
Proof. intros t o t' [= <- <-] Ht. split_and!; [done|apply grows_refl|done]. Qed.

Lemma careful_fail {A} e : careful (fail e : M _ _ A).
Proof. intros t o t' [= <- <-] Ht. split_and!; [done|apply grows_refl|done]. Qed.

Lemma careful_require b e : careful (require b e).
Proof. destruct b; [apply careful_ret|apply careful_fail]. Qed.

Lemma careful_bind {A B} (m : M auth_err_t auth_transcript_t A) (k : A → M auth_err_t auth_transcript_t B) :
  careful m → (∀ a, careful (k a)) → careful (m ≫= k).
Proof.
  intros Hm Hk t o t' E Ht. rewrite bind_run in E. destruct (m t) as [[a| |] t1] eqn:Em;
    destruct (Hm _ _ _ Em Ht) as (H1 & H2 & H3).
  - destruct (Hk a _ _ _ E H1) as (? & ? & ?). split_and!; [done|by eapply grows_trans|done].
  - injection E as <- <-. done.
  - done.
Qed.

Lemma careful_append_bytes b : careful (append_bytes b).
Proof.
  intros t o t' E Ht. unfold append_bytes, mbind, M_bind, get, put, mret, M_ret, transcript_wf in *.
  destruct (t_overflow t) eqn:Ho.
  { injection E as <- <-. split_and!; [done|apply grows_refl|done]. }
  destruct (Nat.ltb_spec AUTH_TRANSCRIPT_CAP (length (t_buf t) + length b)); injection E as <- <-.
  - split_and!; [done| |done]. split; [exists []; by rewrite app_nil_r|]. intros; congruence.
  - cbn [t_buf]. rewrite length_app. split_and!; [lia| |done]. split; [by eexists|]. intros; congruence.
Qed.

Lemma careful_append_or_fail b : careful (append_or_fail b).
Proof. apply careful_bind; [apply careful_append_bytes|intros; apply careful_require]. Qed.

Lemma careful_append label msg n :
  n = length (default [] msg) → careful (auth_transcript_append label msg n).
Proof.
  intros ->. unfold auth_transcript_append, append_entry. apply careful_bind.
  { destruct label; [apply careful_ret|apply careful_fail]. }
  intros l. do 3 (apply careful_bind; [apply careful_require|intros _]). cbv zeta.
  apply careful_bind; [apply careful_append_or_fail|intros _].
  apply careful_bind; [destruct (0 <? _); [apply careful_append_or_fail|apply careful_ret]|intros _].
  apply careful_bind; [apply careful_append_or_fail|intros _].
  destruct (0 <? _); [|apply careful_ret]. apply careful_bind; [|intros; apply careful_append_or_fail].
  rewrite loadn_ok by done. intros t o t' [= <- <-] Ht. split_and!; [done|apply grows_refl|done].
Qed.

(** ** The correctness of the transcript *)

(** No append leaves the buffer of the transcript; it keeps what was written,
    and after an overflow the transcript never changes again and cannot be
    hashed. *)
Theorem transcript_overflow_sticky `{NaCl : Sodium} t label msg o t' :
  transcript_wf t →
  auth_transcript_append label msg (length (default [] msg)) t = (o, t') →
  transcript_wf t' ∧ (∃ x, t_buf t' = t_buf t ++ x) ∧ o ≠ Fault ∧
  (t_overflow t' = true →
   auth_transcript_challenge t' = (Err AUTH_ERR_BUFFER_TOO_SMALL, t') ∧
   auth_transcript_hash_sha256 t' = (Err AUTH_ERR_BUFFER_TOO_SMALL, t') ∧
   ∀ label msg, (auth_transcript_append label msg (length (default [] msg)) t').2 = t').
Proof.
  intros Ht E. destruct (careful_append _ _ _ eq_refl _ _ _ E Ht) as (Hw & [Hx _] & Hf).
  split_and!; try done. intros Ho. unfold auth_transcript_challenge, auth_transcript_hash_sha256.
  split_and!; [mstep; by rewrite Ho|mstep; by rewrite Ho|].
  intros label' msg'.
  destruct (auth_transcript_append label' msg' (length (default [] msg')) t') as [o' t''] eqn:E'.
  destruct (careful_append _ _ _ eq_refl _ _ _ E' Hw) as (_ & [_ Hs] & _). by apply Hs.
Qed.

Lemma transcript_overflow_sticky_witness :
  let t := {| t_buf := zeros 4095; t_overflow := false |} in
  let '(o, t') := auth_transcript_append (Some []) (Some []) 0 t in
  transcript_wf t' ∧ (∃ x, t_buf t' = t_buf t ++ x) ∧ o ≠ Fault ∧
  (t_overflow t' = true →
   auth_transcript_challenge (NaCl := Toy.sodium) t' = (Err AUTH_ERR_BUFFER_TOO_SMALL, t') ∧
   auth_transcript_hash_sha256 (NaCl := Toy.sodium) t' = (Err AUTH_ERR_BUFFER_TOO_SMALL, t') ∧
   ∀ label msg, (auth_transcript_append label msg (length (default [] msg)) t').2 = t').
Proof.
  intros t. destruct (auth_transcript_append (Some []) (Some []) 0 t) as [o t'] eqn:E.
  apply (transcript_overflow_sticky t (Some []) (Some []) o t'); [|exact E].
  apply Nat.leb_le. vm_compute. reflexivity.
Defined.
