(* ===== verification/Proofs.v ===== *)
(** Zero-knowledge proofs and key derivation: [src/c/include/auth/proofs.h] and
    [src/c/src/crypto/proofs.c].

    Four Schnorr proofs (setup client and server, authentication client and
    server), the proof that a role commitment was rerandomized, the CDS-OR
    proof that it commits to an allowed role, and the session-key and
    key-confirmation derivations.  The provers take the random bytes as an
    argument, as the [_with_bytes] functions do; a verifier returns the C
    boolean, an error of a call inside it being [false]. *)
From S2P Require Export Transcript.
From Stdlib Require DecimalString.

Section proofs.
Context {NaCl : Sodium}.

(** [if (f(...) != AUTH_OK) return 0;] around a whole verifier. *)
Definition or_false (o : outcome auth_err_t bool) : outcome auth_err_t bool :=
  match o with Err _ => Ok false | _ => o end.

Definition lbl (s : string) : ptr bytes := Some (str_bytes s).

(** ** Common helpers *)
Definition points_equal (a b : bytes) : bool := memeq a b.
Definition g_times (s : bytes) : outcome auth_err_t bytes := auth_scalarmult_base s.
Definition p_times (s p : bytes) : outcome auth_err_t bytes := auth_scalarmult s p.

(** ** Setup-client proof *)
Definition setup_client_challenge (device_id device_pub server_pub a client_nonce
    server_nonce setup_challenge_in : bytes) : outcome auth_err_t bytes :=
  with_transcript (
    auth_transcript_init auth_ds_setup;;
    auth_transcript_append (lbl "role") (lbl "client") 6;;
    auth_transcript_append (lbl "device_id") (Some device_id) 32;;
    auth_transcript_append_point (lbl "device_pub") device_pub;;
    auth_transcript_append_point (lbl "server_pub") server_pub;;
    auth_transcript_append_point (lbl "a") a;;
    auth_transcript_append (lbl "client_nonce") (Some client_nonce) 32;;
    auth_transcript_append (lbl "server_nonce") (Some server_nonce) 32;;
    auth_transcript_append (lbl "setup_challenge") (Some setup_challenge_in)
      AUTH_SETUP_CHALLENGE_LEN;;
    auth_transcript_challenge).

Definition auth_prove_setup_client_with_bytes (wide_r x device_id device_pub server_pub
    client_nonce server_nonce setup_challenge_in : bytes) :
    outcome auth_err_t auth_schnorr_proof_t :=
  let r := auth_scalar_from_wide wide_r in
  a ← g_times r;
  c ← setup_client_challenge device_id device_pub server_pub a client_nonce server_nonce
        setup_challenge_in;
  let cx := auth_scalar_mul c x in
  mret {| sp_a := a; sp_s := auth_scalar_add r cx |}.

Definition auth_prove_setup_client (wide x device_id device_pub server_pub
    client_nonce server_nonce setup_challenge_in : bytes) :
    outcome auth_err_t auth_schnorr_proof_t :=
  auth_prove_setup_client_with_bytes wide x device_id device_pub server_pub
    client_nonce server_nonce setup_challenge_in.

Definition auth_verify_setup_client (proof : auth_schnorr_proof_t) (device_id device_pub
    server_pub client_nonce server_nonce setup_challenge_in : bytes) :
    outcome auth_err_t bool :=
  or_false (
    c ← setup_client_challenge device_id device_pub server_pub (sp_a proof) client_nonce
          server_nonce setup_challenge_in;
    gs ← g_times (sp_s proof);
    pc ← p_times c device_pub;
    rhs ← auth_point_add (sp_a proof) pc;
    mret (points_equal gs rhs)).

(** ** Setup-server proof *)
Definition setup_server_challenge (device_id device_pub server_pub a client_nonce
    server_nonce setup_challenge_in : bytes) : outcome auth_err_t bytes :=
  with_transcript (
    auth_transcript_init auth_ds_setup_server;;
    auth_transcript_append (lbl "role") (lbl "server") 6;;
    auth_transcript_append (lbl "device_id") (Some device_id) 32;;
    auth_transcript_append_point (lbl "device_pub") device_pub;;
    auth_transcript_append_point (lbl "server_pub") server_pub;;
    auth_transcript_append_point (lbl "a") a;;
    auth_transcript_append (lbl "client_nonce") (Some client_nonce) 32;;
    auth_transcript_append (lbl "server_nonce") (Some server_nonce) 32;;
    auth_transcript_append (lbl "setup_challenge") (Some setup_challenge_in)
      AUTH_SETUP_CHALLENGE_LEN;;
    auth_transcript_challenge).

Definition auth_prove_setup_server_with_bytes (wide_r server_sk device_id device_pub server_pub
    client_nonce server_nonce setup_challenge_in : bytes) :
    outcome auth_err_t auth_schnorr_proof_t :=
  let r := auth_scalar_from_wide wide_r in
  a ← g_times r;
  c ← setup_server_challenge device_id device_pub server_pub a client_nonce server_nonce
        setup_challenge_in;
  let cx := auth_scalar_mul c server_sk in
  mret {| sp_a := a; sp_s := auth_scalar_add r cx |}.

Definition auth_prove_setup_server (wide server_sk device_id device_pub server_pub
    client_nonce server_nonce setup_challenge_in : bytes) :
    outcome auth_err_t auth_schnorr_proof_t :=
  auth_prove_setup_server_with_bytes wide server_sk device_id device_pub server_pub
    client_nonce server_nonce setup_challenge_in.

Definition auth_verify_setup_server (proof : auth_schnorr_proof_t) (server_pub device_id
    device_pub client_nonce server_nonce setup_challenge_in : bytes) :
    outcome auth_err_t bool :=
  or_false (
    c ← setup_server_challenge device_id device_pub server_pub (sp_a proof) client_nonce
          server_nonce setup_challenge_in;
    gs ← g_times (sp_s proof);
    pc ← p_times c server_pub;
    rhs ← auth_point_add (sp_a proof) pc;
    mret (points_equal gs rhs)).

(** ** Authentication-client proof *)
Definition auth_client_challenge (pubkey a pid nonce_c eph_c : bytes) :
    outcome auth_err_t bytes :=
  with_transcript (
    auth_transcript_init auth_ds_client_v2;;
    auth_transcript_append (lbl "pid") (Some pid) 32;;
    auth_transcript_append_point (lbl "pubkey") pubkey;;
    auth_transcript_append_point (lbl "a") a;;
    auth_transcript_append (lbl "nonce_c") (Some nonce_c) 32;;
    auth_transcript_append_point (lbl "eph_c") eph_c;;
    auth_transcript_challenge).

Definition auth_prove_auth_client_with_bytes (wide_r x pid nonce_c eph_c : bytes) :
    outcome auth_err_t auth_schnorr_proof_t :=
  let r := auth_scalar_from_wide wide_r in
  a ← g_times r;
  pubkey ← g_times x;
  c ← auth_client_challenge pubkey a pid nonce_c eph_c;
  let cx := auth_scalar_mul c x in
  mret {| sp_a := a; sp_s := auth_scalar_add r cx |}.

Definition auth_prove_auth_client (wide x pid nonce_c eph_c : bytes) :
    outcome auth_err_t auth_schnorr_proof_t :=
  auth_prove_auth_client_with_bytes wide x pid nonce_c eph_c.

Definition auth_verify_auth_client (proof : auth_schnorr_proof_t)
    (device_pub pid nonce_c eph_c : bytes) : outcome auth_err_t bool :=
  or_false (
    c ← auth_client_challenge device_pub (sp_a proof) pid nonce_c eph_c;
    gs ← g_times (sp_s proof);
    pc ← p_times c device_pub;
    rhs ← auth_point_add (sp_a proof) pc;
    mret (points_equal gs rhs)).

(** ** Authentication-server proof *)
Definition auth_server_challenge (server_pub a nonce_s eph_s : bytes) :
    outcome auth_err_t bytes :=
  with_transcript (
    auth_transcript_init auth_ds_server;;
    auth_transcript_append_point (lbl "pubkey") server_pub;;
    auth_transcript_append_point (lbl "a") a;;
    auth_transcript_append (lbl "nonce_s") (Some nonce_s) 32;;
    auth_transcript_append_point (lbl "eph_s") eph_s;;
    auth_transcript_challenge).

Definition auth_prove_auth_server_with_bytes (wide_r server_sk nonce_s eph_s : bytes) :
    outcome auth_err_t auth_schnorr_proof_t :=
  let r := auth_scalar_from_wide wide_r in
  a ← g_times r;
  server_pub ← g_times server_sk;
  c ← auth_server_challenge server_pub a nonce_s eph_s;
  let cx := auth_scalar_mul c server_sk in
  mret {| sp_a := a; sp_s := auth_scalar_add r cx |}.

Definition auth_prove_auth_server (wide server_sk nonce_s eph_s : bytes) :
    outcome auth_err_t auth_schnorr_proof_t :=
  auth_prove_auth_server_with_bytes wide server_sk nonce_s eph_s.

Definition auth_verify_auth_server (proof : auth_schnorr_proof_t)
    (server_pub nonce_s eph_s : bytes) : outcome auth_err_t bool :=
  or_false (
    c ← auth_server_challenge server_pub (sp_a proof) nonce_s eph_s;
    gs ← g_times (sp_s proof);
    pc ← p_times c server_pub;
    rhs ← auth_point_add (sp_a proof) pc;
    mret (points_equal gs rhs)).

(** ** Role commitments *)
Definition auth_make_role_commitment (role_code : Z) (blind : bytes) : outcome auth_err_t bytes :=
  let role_s := auth_scalar_from_u64 role_code in
  h ← auth_attr_h;
  g_role ← auth_scalarmult_base role_s;
  h_blind ← auth_scalarmult blind h;
  auth_point_add g_role h_blind.

(** Returns [c_prime] and [blind_prime]. *)
Definition auth_rerandomize_commitment (stored_c stored_blind delta : bytes) :
    outcome auth_err_t (bytes * bytes) :=
  h ← auth_attr_h;
  h_delta ← auth_scalarmult delta h;
  c_prime ← auth_point_add stored_c h_delta;
  mret (c_prime, auth_scalar_add stored_blind delta).

(** ** Rerandomization proof *)
Definition rerand_challenge (pid nonce_c eph_c stored_c c_prime a : bytes) :
    outcome auth_err_t bytes :=
  with_transcript (
    auth_transcript_init auth_ds_role_rerand;;
    auth_transcript_append (lbl "pid") (Some pid) 32;;
    auth_transcript_append (lbl "nonce_c") (Some nonce_c) 32;;
    auth_transcript_append_point (lbl "eph_c") eph_c;;
    auth_transcript_append_point (lbl "stored_c") stored_c;;
    auth_transcript_append_point (lbl "c_prime") c_prime;;
    auth_transcript_append_point (lbl "a") a;;
    auth_transcript_challenge).

Definition auth_prove_rerandomization_with_bytes (wide_r stored_c c_prime delta pid nonce_c
    eph_c : bytes) : outcome auth_err_t auth_schnorr_proof_t :=
  h ← auth_attr_h;
  let r := auth_scalar_from_wide wide_r in
  a ← auth_scalarmult r h;
  c ← rerand_challenge pid nonce_c eph_c stored_c c_prime a;
  let cd := auth_scalar_mul c delta in
  mret {| sp_a := a; sp_s := auth_scalar_add r cd |}.

Definition auth_prove_rerandomization (wide stored_c c_prime delta pid nonce_c eph_c : bytes) :
    outcome auth_err_t auth_schnorr_proof_t :=
  auth_prove_rerandomization_with_bytes wide stored_c c_prime delta pid nonce_c eph_c.

Definition auth_verify_rerandomization (proof : auth_schnorr_proof_t)
    (stored_c c_prime pid nonce_c eph_c : bytes) : outcome auth_err_t bool :=
  or_false (
    h ← auth_attr_h;
    c ← rerand_challenge pid nonce_c eph_c stored_c c_prime (sp_a proof);
    hs ← auth_scalarmult (sp_s proof) h;
    diff ← auth_point_sub c_prime stored_c;
    diff_c ← auth_scalarmult c diff;
    rhs ← auth_point_add (sp_a proof) diff_c;
    mret (points_equal hs rhs)).

(** ** CDS-OR role-set-membership proof *)

(** [snprintf(label, sizeof label, "r_%zu", i)]; [strlen] below 16 is checked. *)
Definition index_label (prefix : string) (i : nat) : bytes :=
  str_bytes (String.append prefix (DecimalString.NilZero.string_of_uint (Nat.to_uint i))).

Fixpoint append_roles (i : nat) (roles : list Z) : M auth_err_t auth_transcript_t unit :=
  match roles with
  | [] => mret tt
  | role :: roles =>
      let label := index_label "r_" i in
      require (length label <? 16) AUTH_ERR_INVALID_ARGUMENT;;
      auth_transcript_append_u64 (Some label) role;;
      append_roles (S i) roles
  end.

(** [A_points] is the flat buffer of 32 bytes per branch. *)
Fixpoint append_commitments (i n : nat) (A_points : bytes) :
    M auth_err_t auth_transcript_t unit :=
  match n with
  | O => mret tt
  | S n =>
      let label := index_label "A_" i in
      require (length label <? 16) AUTH_ERR_INVALID_ARGUMENT;;
      A ← lift (loadn A_points (32 * i) 32);
      auth_transcript_append_point (Some label) A;;
      append_commitments (S i) n A_points
  end.

Definition role_set_master_challenge (roles : list Z) (c_prime A_points pid nonce_c
    eph_c : bytes) : outcome auth_err_t bytes :=
  with_transcript (
    auth_transcript_init auth_ds_role_set;;
    auth_transcript_append (lbl "pid") (Some pid) 32;;
    auth_transcript_append (lbl "nonce_c") (Some nonce_c) 32;;
    auth_transcript_append_point (lbl "eph_c") eph_c;;
    auth_transcript_append_point (lbl "c_prime") c_prime;;
    append_roles 0 roles;;
    append_commitments 0 (length roles) A_points;;
    auth_transcript_challenge).

(** [for (i = 0; i < n; ++i) if (roles[i] == role_code) break;] *)
Fixpoint find_role (roles : list Z) (role_code : Z) : option nat :=
  match roles with
  | [] => None
  | r :: roles => if (r =? role_code)%Z then Some 0 else S <$> find_role roles role_code
  end.

(** [Y_i = c_prime - g*r_i] for every role. *)
Fixpoint role_set_Y (roles : list Z) (c_prime : bytes) : outcome auth_err_t (list bytes) :=
  match roles with
  | [] => mret []
  | r :: roles =>
      let r_s := auth_scalar_from_u64 r in
      gr ← auth_scalarmult_base r_s;
      y ← auth_point_sub c_prime gr;
      ys ← role_set_Y roles c_prime;
      mret (y :: ys)
  end.

(** The loop over the branches [i], [i+1], ...: returns the branches (the true one
    with zero [c] and [s]) and [w_true]; [consumed] is the offset in [wide]. *)
Fixpoint simulate_branches (h wide : bytes) (true_idx i consumed : nat) (Y : list bytes)
    (w_true : bytes) : outcome auth_err_t (list auth_set_branch_t * bytes) :=
  match Y with
  | [] => mret ([], w_true)
  | y :: Y =>
      if i =? true_idx then
        w ← loadn wide consumed 64;
        let w_true := auth_scalar_from_wide w in
        a ← auth_scalarmult w_true h;
        '(bs, w_true) ← simulate_branches h wide true_idx (S i) (consumed + 64) Y w_true;
        mret ({| br_a := a; br_c := zeros 32; br_s := zeros 32 |} :: bs, w_true)
      else
        wc ← loadn wide consumed 64;
        let ci := auth_scalar_from_wide wc in
        ws ← loadn wide (consumed + 64) 64;
        let si := auth_scalar_from_wide ws in
        hs ← auth_scalarmult si h;
        yc ← auth_scalarmult ci y;
        a ← auth_point_sub hs yc;
        '(bs, w_true) ← simulate_branches h wide true_idx (S i) (consumed + 128) Y w_true;
        mret ({| br_a := a; br_c := ci; br_s := si |} :: bs, w_true)
  end.

(** [sum = 0; for (i...) if (i != skip) sum = sum + branches[i].c;] *)
Fixpoint sum_challenges (skip : option nat) (i : nat) (bs : list auth_set_branch_t)
    (sum : bytes) : bytes :=
  match bs with
  | [] => sum
  | b :: bs =>
      sum_challenges skip (S i) bs
        (if bool_decide (skip = Some i) then sum else auth_scalar_add sum (br_c b))
  end.

(** Returns the [n] branches. *)
Definition auth_prove_role_set_membership_with_bytes (wide_bytes : bytes) (roles : list Z)
    (c_prime : bytes) (role_code : Z) (blind_prime pid nonce_c eph_c : bytes) :
    outcome auth_err_t (list auth_set_branch_t) :=
  let n := length roles in
  _ ← check (negb (n =? 0) && (n <=? AUTH_MAX_ROLES)) AUTH_ERR_INVALID_ARGUMENT;
  true_idx ← nonnull (find_role roles role_code) AUTH_ERR_ROLE_NOT_PERMITTED;
  let required := 64 + 2 * 64 * (n - 1) in
  _ ← check (required <=? length wide_bytes) AUTH_ERR_INVALID_ARGUMENT;
  h ← auth_attr_h;
  Y ← role_set_Y roles c_prime;
  '(bs, w_true) ← simulate_branches h wide_bytes true_idx 0 0 Y (zeros 32);
  let A_all := concat (map br_a bs) in
  master_c ← role_set_master_challenge roles c_prime A_all pid nonce_c eph_c;
  let sum_sim := sum_challenges (Some true_idx) 0 bs (zeros 32) in
  let c_true := auth_scalar_sub master_c sum_sim in
  let cb := auth_scalar_mul c_true blind_prime in
  let s_true := auth_scalar_add w_true cb in
  mret (alter (λ b, {| br_a := br_a b; br_c := c_true; br_s := s_true |}) true_idx bs).

(** [drawn] is the stream of [randombytes_buf]; [needed] bytes are drawn. *)
Definition auth_prove_role_set_membership (drawn : nat → bytes) (roles : list Z)
    (c_prime : bytes) (role_code : Z) (blind_prime pid nonce_c eph_c : bytes) :
    outcome auth_err_t (list auth_set_branch_t) :=
  let n := length roles in
  _ ← check (negb (n =? 0) && (n <=? AUTH_MAX_ROLES)) AUTH_ERR_INVALID_ARGUMENT;
  let needed := 64 + 2 * 64 * (n - 1) in
  auth_prove_role_set_membership_with_bytes (drawn needed) roles c_prime role_code
    blind_prime pid nonce_c eph_c.

(** [for each i: h*s_i == A_i + Y_i*c_i] *)
Fixpoint check_branches (h : bytes) (bs : list auth_set_branch_t) (Y : list bytes) :
    outcome auth_err_t bool :=
  match bs, Y with
  | [], [] => mret true
  | b :: bs, y :: Y =>
      hs ← auth_scalarmult (br_s b) h;
      yc ← auth_scalarmult (br_c b) y;
      rhs ← auth_point_add (br_a b) yc;
      if points_equal hs rhs then check_branches h bs Y else mret false
  | _, _ => Fault
  end.

Definition auth_verify_role_set_membership (branches : list auth_set_branch_t) (n_branches : nat)
    (roles : list Z) (c_prime pid nonce_c eph_c : bytes) : outcome auth_err_t bool :=
  let n_roles := length roles in
  if negb (n_branches =? n_roles) || (n_roles =? 0) || negb (n_roles <=? AUTH_MAX_ROLES)
  then mret false
  else or_false (
    h ← auth_attr_h;
    Y ← role_set_Y roles c_prime;
    let bs := take n_roles branches in
    let A_all := concat (map br_a bs) in
    master_c ← role_set_master_challenge roles c_prime A_all pid nonce_c eph_c;
    let sum := sum_challenges None 0 bs (zeros 32) in
    if negb (points_equal sum master_c) then mret false
    else check_branches h bs Y).

(** ** Session key and key confirmation *)
Definition auth_derive_session_key (eph_secret peer_eph_pub nonce_c nonce_s pid eph_c
    eph_s : bytes) : outcome auth_err_t bytes :=
  shared ← auth_scalarmult eph_secret peer_eph_pub;
  let salt := nonce_c ++ nonce_s in
  let info := str_bytes "session key v2" ++ pid ++ eph_c ++ eph_s in
  auth_hkdf_sha256 AUTH_SESSION_KEY_LEN (Some salt) (Some shared) 32 (Some info) (length info).

Definition auth_kc_transcript_hash (pid : bytes) (cp : auth_schnorr_proof_t)
    (nonce_c eph_c server_pub : bytes) (sp : auth_schnorr_proof_t) (nonce_s eph_s : bytes) :
    outcome auth_err_t bytes :=
  with_transcript (
    auth_transcript_init auth_ds_kc_v2;;
    auth_transcript_append (lbl "pid") (Some pid) 32;;
    auth_transcript_append_point (lbl "a_c") (sp_a cp);;
    auth_transcript_append_scalar (lbl "s_c") (sp_s cp);;
    auth_transcript_append (lbl "nonce_c") (Some nonce_c) 32;;
    auth_transcript_append_point (lbl "eph_c") eph_c;;
    auth_transcript_append_point (lbl "server_pub") server_pub;;
    auth_transcript_append_point (lbl "a_s") (sp_a sp);;
    auth_transcript_append_scalar (lbl "s_s") (sp_s sp);;
    auth_transcript_append (lbl "nonce_s") (Some nonce_s) 32;;
    auth_transcript_append_point (lbl "eph_s") eph_s;;
    auth_transcript_hash_sha256).

(** The two results are [k_s2c] and [k_c2s]; the error results are ignored. *)
Definition auth_derive_kc_keys (session_key th : bytes) :
    outcome auth_err_t bytes * outcome auth_err_t bytes :=
  (auth_hkdf_sha256 AUTH_MAC_KEY_LEN (Some th) (Some session_key) AUTH_SESSION_KEY_LEN
     (lbl "kc s2c") 6,
   auth_hkdf_sha256 AUTH_MAC_KEY_LEN (Some th) (Some session_key) AUTH_SESSION_KEY_LEN
     (lbl "kc c2s") 6).
End proofs.

(** ** Challenges *)

(** Absorbs the next message of a transcript. *)
Ltac absorb_side :=
  first [assumption | apply Nat.leb_le; reflexivity | reflexivity | concrete_range].

Ltac absorb_one :=
  match goal with
  | |- appends (auth_transcript_append_point (lbl ?l) ?p ≫= _) _ _ =>
      eapply appends_bind; [apply (appends_point (str_bytes l) p); absorb_side|]
  | |- appends (auth_transcript_append_scalar (lbl ?l) ?p ≫= _) _ _ =>
      eapply appends_bind; [apply (appends_point (str_bytes l) p); absorb_side|]
  | |- appends (auth_transcript_append (lbl ?l) (lbl ?m) ?n ≫= _) _ _ =>
      eapply appends_bind; [apply (appends_append (str_bytes l) (str_bytes m) n); absorb_side|]
  | |- appends (auth_transcript_append (lbl ?l) (Some ?m) ?n ≫= _) _ _ =>
      eapply appends_bind; [apply (appends_append (str_bytes l) m n); absorb_side|]
  end.

(** Each challenge is the reduced SHA-512 of the layout of its entries. *)
Section challenges.
Context {NaCl : Sodium}.

Definition challenge_of (domain : bytes) (entries : list (bytes * bytes)) : bytes :=
  crypto_core_ristretto255_scalar_reduce (crypto_hash_sha512 (wire_transcript domain entries)).

Definition setup_entries (role : string) (device_id device_pub server_pub a client_nonce
    server_nonce setup_challenge_in : bytes) : list (bytes * bytes) :=
  [(str_bytes "role", str_bytes role); (str_bytes "device_id", device_id);
   (str_bytes "device_pub", device_pub); (str_bytes "server_pub", server_pub);
   (str_bytes "a", a); (str_bytes "client_nonce", client_nonce);
   (str_bytes "server_nonce", server_nonce); (str_bytes "setup_challenge", setup_challenge_in)].

Definition auth_client_entries (pubkey a pid nonce_c eph_c : bytes) : list (bytes * bytes) :=
  [(str_bytes "pid", pid); (str_bytes "pubkey", pubkey); (str_bytes "a", a);
   (str_bytes "nonce_c", nonce_c); (str_bytes "eph_c", eph_c)].

Definition auth_server_entries (server_pub a nonce_s eph_s : bytes) : list (bytes * bytes) :=
  [(str_bytes "pubkey", server_pub); (str_bytes "a", a); (str_bytes "nonce_s", nonce_s);
   (str_bytes "eph_s", eph_s)].

Definition rerand_entries (pid nonce_c eph_c stored_c c_prime a : bytes) : list (bytes * bytes) :=
  [(str_bytes "pid", pid); (str_bytes "nonce_c", nonce_c); (str_bytes "eph_c", eph_c);
   (str_bytes "stored_c", stored_c); (str_bytes "c_prime", c_prime); (str_bytes "a", a)].

Definition kc_entries (pid : bytes) (cp : auth_schnorr_proof_t) (nonce_c eph_c server_pub : bytes)
    (sp : auth_schnorr_proof_t) (nonce_s eph_s : bytes) : list (bytes * bytes) :=
  [(str_bytes "pid", pid); (str_bytes "a_c", sp_a cp); (str_bytes "s_c", sp_s cp);
   (str_bytes "nonce_c", nonce_c); (str_bytes "eph_c", eph_c);
   (str_bytes "server_pub", server_pub); (str_bytes "a_s", sp_a sp); (str_bytes "s_s", sp_s sp);
   (str_bytes "nonce_s", nonce_s); (str_bytes "eph_s", eph_s)].

Lemma length_wire_entry e : length (wire_entry e) = 5 + length e.1 + length e.2.
Proof. unfold wire_entry. len. Qed.

Lemma length_wire_transcript d l :
  length (wire_transcript d l) = 1 + length d + length (concat (map wire_entry l)).
Proof. unfold wire_transcript. len. Qed.

Ltac absorb entries r :=
  unfold is_n in *; apply (with_transcript_run _ _ entries r);
  [ apply Nat.leb_le; reflexivity
  | eapply appends_eq;
    [ repeat absorb_one; first [apply appends_challenge | apply appends_sha256]
    | reflexivity ]
  | rewrite length_wire_transcript;
    cbn [map concat setup_entries auth_client_entries auth_server_entries rerand_entries kc_entries]; rewrite !length_app, !length_wire_entry;
    cbn [fst snd]; repeat match goal with H : length _ = _ |- _ => rewrite H end;
    apply Nat.leb_le; reflexivity ].

Lemma setup_client_challenge_run id pub spub a cn sn sc :
  is_n 32 id → is_n 32 pub → is_n 32 spub → is_n 32 a → is_n 32 cn → is_n 32 sn → is_n 16 sc →
  setup_client_challenge id pub spub a cn sn sc =
    Ok (challenge_of auth_ds_setup (setup_entries "client" id pub spub a cn sn sc)).
Proof.
  intros. unfold setup_client_challenge. absorb (setup_entries "client" id pub spub a cn sn sc)
    (λ w, crypto_core_ristretto255_scalar_reduce (crypto_hash_sha512 w)).
Qed.

Lemma setup_server_challenge_run id pub spub a cn sn sc :
  is_n 32 id → is_n 32 pub → is_n 32 spub → is_n 32 a → is_n 32 cn → is_n 32 sn → is_n 16 sc →
  setup_server_challenge id pub spub a cn sn sc =
    Ok (challenge_of auth_ds_setup_server (setup_entries "server" id pub spub a cn sn sc)).
Proof.
  intros. unfold setup_server_challenge. absorb (setup_entries "server" id pub spub a cn sn sc)
    (λ w, crypto_core_ristretto255_scalar_reduce (crypto_hash_sha512 w)).
Qed.

Lemma auth_client_challenge_run pub a pid nc ec :
  is_n 32 pub → is_n 32 a → is_n 32 pid → is_n 32 nc → is_n 32 ec →
  auth_client_challenge pub a pid nc ec =
    Ok (challenge_of auth_ds_client_v2 (auth_client_entries pub a pid nc ec)).
Proof.
  intros. unfold auth_client_challenge. absorb (auth_client_entries pub a pid nc ec)
    (λ w, crypto_core_ristretto255_scalar_reduce (crypto_hash_sha512 w)).
Qed.

Lemma auth_server_challenge_run pub a ns es :
  is_n 32 pub → is_n 32 a → is_n 32 ns → is_n 32 es →
  auth_server_challenge pub a ns es =
    Ok (challenge_of auth_ds_server (auth_server_entries pub a ns es)).
Proof.
  intros. unfold auth_server_challenge. absorb (auth_server_entries pub a ns es)
    (λ w, crypto_core_ristretto255_scalar_reduce (crypto_hash_sha512 w)).
Qed.

Lemma rerand_challenge_run pid nc ec sc cp a :
  is_n 32 pid → is_n 32 nc → is_n 32 ec → is_n 32 sc → is_n 32 cp → is_n 32 a →
  rerand_challenge pid nc ec sc cp a =
    Ok (challenge_of auth_ds_role_rerand (rerand_entries pid nc ec sc cp a)).
Proof.
  intros. unfold rerand_challenge. absorb (rerand_entries pid nc ec sc cp a)
    (λ w, crypto_core_ristretto255_scalar_reduce (crypto_hash_sha512 w)).
Qed.

Lemma kc_transcript_hash_run pid cp nc ec spub sp ns es :
  is_n 32 pid → schnorr_wf cp → is_n 32 nc → is_n 32 ec → is_n 32 spub → schnorr_wf sp →
  is_n 32 ns → is_n 32 es →
  auth_kc_transcript_hash pid cp nc ec spub sp ns es =
    Ok (crypto_hash_sha256 (wire_transcript auth_ds_kc_v2 (kc_entries pid cp nc ec spub sp ns es))).
Proof.
  intros ? [? ?] ? ? ? [? ?] ? ?. unfold auth_kc_transcript_hash. absorb (kc_entries pid cp nc ec spub sp ns es) crypto_hash_sha256.
Qed.
End challenges.

(** ** The Schnorr equation *)
Section schnorr.
Context {NaCl : Sodium} {HS : SodiumSpec NaCl}.
Implicit Types (g : sG) (a s c P : bytes).

(** [s*g == a + c*P] with [s*g] and [c*P] different from the identity, which the
    library's scalar multiplication refuses to return. *)
Definition schnorr_holds g a s c P : Prop :=
  ∃ xa xP, a = senc xa ∧ P = senc xP ∧
    let s' := (load_le s mod 2 ^ 255)%Z in let c' := (load_le c mod 2 ^ 255)%Z in
    gmul s' g ≠ gzero ∧ gmul c' xP ≠ gzero ∧ gmul s' g = gadd xa (gmul c' xP).

(** The checks that the verifiers share. *)
Definition schnorr_check g a s c P : outcome auth_err_t bool :=
  gs ← auth_scalarmult s (senc g);
  pc ← auth_scalarmult c P;
  rhs ← auth_point_add a pc;
  mret (points_equal gs rhs).

Lemma or_err_ne_fault {A} (o : option A) e : or_err o e ≠ Fault.
Proof. by destruct o. Qed.

Lemma schnorr_check_true g a s c P :
  schnorr_check g a s c P = Ok true ↔ schnorr_holds g a s c P.
Proof.
  unfold schnorr_check, schnorr_holds. rewrite scalarmult_run. split.
  - case_decide as Hg; [done|]. cbn [mbind outcome_bind]. intros H.
    destruct (auth_scalarmult c P) as [pc| |] eqn:Ep; [|done..]. cbn [mbind outcome_bind] in H.
    destruct (auth_point_add a pc) as [rhs| |] eqn:Ea; [|done..]. cbn [mbind outcome_bind] in H.
    injection H as H. apply memeq_true in H.
    apply scalarmult_ok in Ep as (xP & -> & -> & Hc).
    apply point_add_ok in Ea as (xa & y & -> & Ey & ->). apply senc_inj in Ey, H. subst y.
    by exists xa, xP.
  - intros (xa & xP & -> & -> & Hg & Hc & E). rewrite decide_False by done.
    cbn [mbind outcome_bind]. rewrite scalarmult_run, decide_False by done.
    cbn [mbind outcome_bind]. rewrite point_add_run. cbn [mbind outcome_bind mret outcome_ret].
    unfold points_equal. by rewrite <- E, memeq_refl.
Qed.

Lemma schnorr_check_cases g a s c P :
  schnorr_check g a s c P = Ok true ∨ schnorr_check g a s c P = Ok false ∨
  ∃ e, schnorr_check g a s c P = Err e.
Proof.
  unfold schnorr_check, auth_scalarmult, auth_point_add.
  destruct (crypto_scalarmult_ristretto255 s _); cbn; [|by eauto].
  destruct (crypto_scalarmult_ristretto255 c P); cbn; [|by eauto].
  destruct (crypto_core_ristretto255_add a _); cbn; [|by eauto].
  destruct (points_equal _ _); eauto.
Qed.

Lemma or_false_true o : or_false o = Ok true ↔ o = Ok true.
Proof. by destruct o as [[]| |]. Qed.

(** The response of a prover. *)
Lemma response_run r c x g :
  canonical r → canonical c → canonical x →
  let s := auth_scalar_add r (auth_scalar_mul c x) in
  canonical s ∧
  gmul (load_le s) g = gadd (gmul (load_le r) g) (gmul (load_le c) (gmul (load_le x) g)).
Proof.
  intros Hr Hc Hx s. destruct (scalar_add_run r (auth_scalar_mul c x)) as [Hs Es].
  split; [done|]. unfold s. rewrite Es, gmul_mod, gmul_add. f_equal.
  destruct (scalar_mul_run c x) as [_ ->]. by rewrite gmul_mod, gmul_mul.
Qed.

Lemma scalar_nonzero s g : canonical s → g ≠ gzero → gmul (load_le s) g ≠ gzero ↔ load_le s ≠ 0%Z.
Proof.
  intros Hs Hg. split.
  - intros H E. apply H. rewrite E. apply gmul_0_l.
  - intros H E. apply gmul_eq_zero in E as [|E]; [done|]. by rewrite canonical_mod in E.
Qed.

(** An honest proof satisfies the equation unless the challenge or the response
    is zero. *)
Lemma schnorr_honest g r c x :
  canonical r → canonical c → canonical x → g ≠ gzero → gmul (load_le x) g ≠ gzero →
  let s := auth_scalar_add r (auth_scalar_mul c x) in
  schnorr_holds g (senc (gmul (load_le r) g)) s c (senc (gmul (load_le x) g)) ↔
  load_le s ≠ 0%Z ∧ load_le c ≠ 0%Z.
Proof.
  intros Hr Hc Hx Hg HP s. destruct (response_run r c x g Hr Hc Hx) as [Hs Es]. fold s in Hs, Es.
  rewrite <- (scalar_nonzero s g), <- (scalar_nonzero c (gmul (load_le x) g)) by done.
  unfold schnorr_holds. rewrite !canonical_255 by done. split.
  - intros (xa & xP & Ea & EP & H1 & H2 & _). apply senc_inj in Ea, EP. by subst.
  - intros [H1 H2]. eexists _, _. split_and!; done.
Qed.

(** Proving and verifying with a challenge function [chal] of the commitment. *)
Lemma schnorr_complete (chal : bytes → outcome auth_err_t bytes) wide x g p :
  canonical x → gmul (load_le x) g ≠ gzero →
  (∀ a, is_n 32 a → ∃ c, chal a = Ok c ∧ canonical c) →
  (a ← auth_scalarmult (auth_scalar_from_wide wide) (senc g);
   c ← chal a;
   mret {| sp_a := a;
           sp_s := auth_scalar_add (auth_scalar_from_wide wide) (auth_scalar_mul c x) |}) = Ok p →
  schnorr_wf p ∧
  ∃ c, chal (sp_a p) = Ok c ∧ canonical c ∧
    (schnorr_holds g (sp_a p) (sp_s p) c (senc (gmul (load_le x) g)) ↔
     load_le (sp_s p) ≠ 0%Z ∧ load_le c ≠ 0%Z).
Proof.
  intros Hx HP Hchal H. pose proof (reduce_canonical wide) as Hr.
  rewrite scalarmult_run, canonical_255 in H by done. case_decide as Ha; [done|].
  cbn [mbind outcome_bind] in H. destruct (Hchal (senc (gmul (load_le (auth_scalar_from_wide wide)) g)))
    as (c & Ec & Hc); [apply length_senc|]. rewrite Ec in H. injection H as <-.
  cbn [sp_a sp_s]. destruct (response_run _ c x g Hr Hc Hx) as [Hs _].
  split; [split; [apply length_senc|apply Hs]|].
  exists c. split_and!; [done..|]. apply schnorr_honest; try done.
  intros ->. by rewrite gmul_0_r in HP.
Qed.

Lemma scalarmult_base_ok x pub :
  canonical x → auth_scalarmult_base x = Ok pub →
  pub = senc (gmul (load_le x) gbase) ∧ gmul (load_le x) gbase ≠ gzero ∧ load_le x ≠ 0%Z.
Proof.
  intros Hx. rewrite scalarmult_base_eq, scalarmult_run, canonical_255 by done.
  case_decide as H; [done|]. intros [= <-]. split_and!; [done..|].
  intros E. apply H. rewrite E. apply gmul_0_l.
Qed.

Lemma challenge_canonical d l : canonical (challenge_of d l).
Proof. unfold challenge_of. rewrite scalar_reduce_spec. apply canonical_scalar. Qed.

(** A verifier that computes its challenge and then makes the checks. *)
Lemma verify_iff (o : outcome auth_err_t bytes) c a s P :
  o = Ok c →
  or_false (c ← o; gs ← g_times s; pc ← p_times c P; rhs ← auth_point_add a pc;
            mret (points_equal gs rhs)) = Ok true ↔ schnorr_holds gbase a s c P.
Proof.
  intros ->. rewrite or_false_true. unfold g_times. rewrite scalarmult_base_eq.
  apply schnorr_check_true.
Qed.
End schnorr.

(** ** Completeness of the Schnorr proofs *)
Section completeness.
Context {NaCl : Sodium} {HS : SodiumSpec NaCl}.

(** The verifier accepts an honest proof, except when the challenge or the
    response is the zero scalar. *)
Definition accepts_unless_zero (chal : outcome auth_err_t bytes)
    (verify : outcome auth_err_t bool) (p : auth_schnorr_proof_t) : Prop :=
  ∃ c, chal = Ok c ∧ (verify = Ok true ↔ load_le (sp_s p) ≠ 0%Z ∧ load_le c ≠ 0%Z).

Lemma complete_from (chal : bytes → outcome auth_err_t bytes) wide x pub p :
  canonical x → auth_scalarmult_base x = Ok pub →
  (∀ a, is_n 32 a → ∃ c, chal a = Ok c ∧ canonical c) →
  (a ← g_times (auth_scalar_from_wide wide);
   c ← chal a;
   mret {| sp_a := a;
           sp_s := auth_scalar_add (auth_scalar_from_wide wide) (auth_scalar_mul c x) |}) = Ok p →
  schnorr_wf p ∧
  accepts_unless_zero (chal (sp_a p))
    (or_false (c ← chal (sp_a p); gs ← g_times (sp_s p); pc ← p_times c pub;
               rhs ← auth_point_add (sp_a p) pc; mret (points_equal gs rhs))) p.
Proof.
  intros Hx Hpub Hchal H. apply scalarmult_base_ok in Hpub as (-> & HP & _); [|done].
  unfold g_times in H. rewrite scalarmult_base_eq in H.
  destruct (schnorr_complete chal wide x gbase p Hx HP Hchal H) as (Hw & c & Ec & Hc & Hiff).
  split; [done|]. exists c. split; [done|]. by rewrite (verify_iff _ c) by done.
Qed.

Lemma setup_client_complete wide x id pub spub cn sn sc p :
  canonical x → auth_scalarmult_base x = Ok pub →
  is_n 32 id → is_n 32 pub → is_n 32 spub → is_n 32 cn → is_n 32 sn → is_n 16 sc →
  auth_prove_setup_client wide x id pub spub cn sn sc = Ok p →
  schnorr_wf p ∧
  accepts_unless_zero (setup_client_challenge id pub spub (sp_a p) cn sn sc)
    (auth_verify_setup_client p id pub spub cn sn sc) p.
Proof.
  intros Hx Hpub H1 H2 H3 H4 H5 H6 H.
  apply (complete_from (λ a, setup_client_challenge id pub spub a cn sn sc) wide x); [done..| |done].
  intros a Ha. eexists. split; [by apply setup_client_challenge_run|apply challenge_canonical].
Qed.

Lemma setup_server_complete wide x id pub spub cn sn sc p :
  canonical x → auth_scalarmult_base x = Ok spub →
  is_n 32 id → is_n 32 pub → is_n 32 spub → is_n 32 cn → is_n 32 sn → is_n 16 sc →
  auth_prove_setup_server wide x id pub spub cn sn sc = Ok p →
  schnorr_wf p ∧
  accepts_unless_zero (setup_server_challenge id pub spub (sp_a p) cn sn sc)
    (auth_verify_setup_server p spub id pub cn sn sc) p.
Proof.
  intros Hx Hpub H1 H2 H3 H4 H5 H6 H.
  apply (complete_from (λ a, setup_server_challenge id pub spub a cn sn sc) wide x); [done..| |done].
  intros a Ha. eexists. split; [by apply setup_server_challenge_run|apply challenge_canonical].
Qed.

Lemma length_scalarmult_base x pub : auth_scalarmult_base x = Ok pub → is_n 32 pub.
Proof.
  rewrite scalarmult_base_eq, scalarmult_run. case_decide; [done|]. intros [= <-]. apply length_senc.
Qed.

(** The prover of the authentication proofs computes its public key between the
    commitment and the challenge. *)
Lemma prove_swap (chal : bytes → bytes → outcome auth_err_t bytes) wide x pub p :
  auth_scalarmult_base x = Ok pub →
  (a ← g_times (auth_scalar_from_wide wide); pk ← g_times x; c ← chal pk a;
   mret {| sp_a := a;
           sp_s := auth_scalar_add (auth_scalar_from_wide wide) (auth_scalar_mul c x) |}) = Ok p →
  (a ← g_times (auth_scalar_from_wide wide); c ← chal pub a;
   mret {| sp_a := a;
           sp_s := auth_scalar_add (auth_scalar_from_wide wide) (auth_scalar_mul c x) |}) = Ok p.
Proof.
  intros Hx. destruct (g_times (auth_scalar_from_wide wide)); [|done..]. cbn [mbind outcome_bind].
  unfold g_times. by rewrite Hx.
Qed.

Lemma auth_client_complete wide x pub pid nc ec p :
  canonical x → auth_scalarmult_base x = Ok pub →
  is_n 32 pid → is_n 32 nc → is_n 32 ec →
  auth_prove_auth_client wide x pid nc ec = Ok p →
  schnorr_wf p ∧
  accepts_unless_zero (auth_client_challenge pub (sp_a p) pid nc ec)
    (auth_verify_auth_client p pub pid nc ec) p.
Proof.
  intros Hx Hpub H1 H2 H3 H. pose proof (length_scalarmult_base _ _ Hpub) as Hl.
  apply (complete_from (λ a, auth_client_challenge pub a pid nc ec) wide x); [done..| |].
  - intros a Ha. eexists. split; [by apply auth_client_challenge_run|apply challenge_canonical].
  - by apply (prove_swap (λ pk a, auth_client_challenge pk a pid nc ec)).
Qed.

Lemma auth_server_complete wide x pub ns es p :
  canonical x → auth_scalarmult_base x = Ok pub → is_n 32 ns → is_n 32 es →
  auth_prove_auth_server wide x ns es = Ok p →
  schnorr_wf p ∧
  accepts_unless_zero (auth_server_challenge pub (sp_a p) ns es)
    (auth_verify_auth_server p pub ns es) p.
Proof.
  intros Hx Hpub H1 H2 H. pose proof (length_scalarmult_base _ _ Hpub) as Hl.
  apply (complete_from (λ a, auth_server_challenge pub a ns es) wide x); [done..| |].
  - intros a Ha. eexists. split; [by apply auth_server_challenge_run|apply challenge_canonical].
  - by apply (prove_swap (λ pk a, auth_server_challenge pk a ns es)).
Qed.

(** ** Rerandomization *)
Lemma point_add_encoded a b r : auth_point_add a b = Ok r → is_n 32 a ∧ is_n 32 b ∧ is_n 32 r.
Proof. intros H. apply point_add_ok in H as (x & y & -> & -> & ->). unfold is_n. by rewrite !length_senc. Qed.

Lemma rerandomize_ok stored_c stored_blind delta c' b' :
  canonical delta →
  auth_rerandomize_commitment stored_c stored_blind delta = Ok (c', b') →
  ∃ h x, auth_attr_h = Ok (senc h) ∧ stored_c = senc x ∧ h ≠ gzero ∧ load_le delta ≠ 0%Z ∧
    c' = senc (gadd x (gmul (load_le delta) h)) ∧ b' = auth_scalar_add stored_blind delta.
Proof.
  intros Hd H. unfold auth_rerandomize_commitment in H. destruct attr_h_ok as [h Eh].
  rewrite Eh in H. cbn [mbind outcome_bind] in H. rewrite scalarmult_run, canonical_255 in H by done.
  case_decide as Hz; [done|]. cbn [mbind outcome_bind] in H.
  destruct (auth_point_add stored_c _) as [r| |] eqn:Ea; [|done..]. injection H as <- <-.
  apply point_add_ok in Ea as (x & y & -> & Ey & ->). apply senc_inj in Ey as <-.
  exists h, x. split_and!; try done.
  - intros ->. by rewrite gmul_0_r in Hz.
  - intros E. by rewrite E, gmul_0_l in Hz.
Qed.

Lemma rerand_complete wide stored_c stored_blind delta c' b' pid nc ec p :
  canonical delta → is_n 32 pid → is_n 32 nc → is_n 32 ec →
  auth_rerandomize_commitment stored_c stored_blind delta = Ok (c', b') →
  auth_prove_rerandomization wide stored_c c' delta pid nc ec = Ok p →
  schnorr_wf p ∧
  accepts_unless_zero (rerand_challenge pid nc ec stored_c c' (sp_a p))
    (auth_verify_rerandomization p stored_c c' pid nc ec) p.
Proof.
  intros Hd H1 H2 H3 Hr H.
  destruct (rerandomize_ok _ _ _ _ _ Hd Hr) as (h & x & Eh & -> & Hh & Hd0 & -> & _).
  assert (HP : gmul (load_le delta) h ≠ gzero) by (by apply scalar_nonzero).
  set (c' := senc (gadd x (gmul (load_le delta) h))) in *.
  unfold auth_prove_rerandomization, auth_prove_rerandomization_with_bytes in H.
  rewrite Eh in H. cbn [mbind outcome_bind] in H.
  destruct (schnorr_complete (λ a, rerand_challenge pid nc ec (senc x) c' a) wide delta h p Hd HP)
    as (Hw & c & Ec & Hc & Hiff); [|exact H|].
  { intros a Ha. eexists. split; [apply rerand_challenge_run; try done; apply length_senc
      |apply challenge_canonical]. }
  split; [done|]. exists c. split; [done|]. rewrite <- Hiff, <- schnorr_check_true.
  unfold auth_verify_rerandomization. rewrite or_false_true, Eh, Ec. cbn [mbind outcome_bind].
  unfold schnorr_check. destruct (auth_scalarmult (sp_s p) (senc h)); [|done..]. cbn [mbind outcome_bind].
  unfold c'. rewrite point_sub_run. cbn [mbind outcome_bind].
  rewrite (gadd_comm x), <- gadd_assoc, gadd_neg_r, gadd_0_r. done.
Qed.
End completeness.

(** ** The role-set proof *)
Section role_set.
Context {NaCl : Sodium} {HS : SodiumSpec NaCl}.

(** Every result of a computation satisfies [P]. *)
Definition returns {S A} (P : A → Prop) (m : M auth_err_t S A) : Prop :=
  ∀ s a s', m s = (Ok a, s') → P a.

Lemma returns_bind {S A B} (P : B → Prop) (m : M auth_err_t S A) k :
  (∀ a, returns P (k a)) → returns P (m ≫= k).
Proof. intros Hk s b s' H. apply bind_ok_inv in H as (a & s1 & _ & H). by eapply Hk. Qed.

Lemma challenge_returns : returns canonical auth_transcript_challenge.
Proof.
  intros s a s' E. unfold auth_transcript_challenge in E. rewrite bind_run in E. cbn [get] in E.
  apply bind_ok_inv in E as (? & ? & _ & E). injection E as <- _. apply reduce_canonical.
Qed.

Lemma with_transcript_returns {A} (P : A → Prop) m c : returns P m → with_transcript m = Ok c → P c.
Proof.
  unfold with_transcript, eval. intros H E.
  match type of E with (?m ?t).1 = _ => destruct (m t) as [o t'] eqn:Em end. cbn in E. subst o. by eapply H.
Qed.

Lemma master_challenge_canonical roles c' A pid nc ec c :
  role_set_master_challenge roles c' A pid nc ec = Ok c → canonical c.
Proof.
  apply with_transcript_returns. repeat (apply returns_bind; intros _). apply challenge_returns.
Qed.

(** Whatever it absorbs, a challenge is a canonical scalar. *)
Lemma auth_client_challenge_canonical pub a pid nc ec c : auth_client_challenge pub a pid nc ec = Ok c → canonical c.
Proof.
  apply with_transcript_returns. repeat (apply returns_bind; intros _). apply challenge_returns.
Qed.

Lemma find_role_ok roles role i :
  find_role roles role = Some i → roles !! i = Some role.
Proof.
  revert i. induction roles as [|r roles IH]; intros i H; [done|]. cbn [find_role] in H.
  destruct (Z.eqb_spec r role) as [->|]; [by injection H as <-|].
  destruct (find_role roles role); [|done]. injection H as <-. by apply IH.
Qed.

(** [Y_i] as a group element. *)
Definition Y_of (xc : sG) (r : Z) : sG :=
  gadd xc (gneg (gmul (load_le (auth_scalar_from_u64 r) mod 2 ^ 255) gbase)).

Lemma role_set_Y_ok roles xc Y :
  role_set_Y roles (senc xc) = Ok Y → Y = map (λ r, senc (Y_of xc r)) roles.
Proof.
  revert Y. induction roles as [|r roles IH]; intros Y H; cbn [role_set_Y] in H; [by injection H as <-|].
  rewrite scalarmult_base_eq, scalarmult_run in H. case_decide; [done|].
  cbn [mbind outcome_bind] in H. rewrite point_sub_run in H. cbn [mbind outcome_bind] in H.
  destruct (role_set_Y roles _) as [ys| |]; [|done..]. injection H as <-.
  cbn [map]. by rewrite <- (IH ys).
Qed.

Lemma scalar_from_u64_value v : is_u64 v → load_le (auth_scalar_from_u64 v) = v.
Proof.
  intros Hv. unfold auth_scalar_from_u64.
  change (map _ (seq 0 8)) with (map (λ j, u8 (Z.shiftr v (8 * Z.of_nat j))) (seq 0 8)).
  rewrite load_le_app, load_le_zeros, Z.mul_0_r, Z.add_0_r.
  transitivity (load_le (store_le 8 v)); [|by apply load_store_le_8].
  do 2 f_equal.
Qed.

(** *** The simulated branches *)
Definition branch_ok (h : sG) (b : auth_set_branch_t) (y : sG) : Prop :=
  schnorr_holds h (br_a b) (br_s b) (br_c b) (senc y).

Lemma simulate_after h wide ti i consumed Y w bs w' :
  ti < i → simulate_branches h wide ti i consumed Y w = Ok (bs, w') → w' = w.
Proof.
  revert i consumed bs. induction Y as [|y Y IH]; intros i consumed bs Hi H; cbn [simulate_branches] in H.
  { by injection H. }
  rewrite (proj2 (Nat.eqb_neq i ti)) in H by lia.
  do 5 (apply outcome_bind_ok_inv in H as (? & _ & H)).
  apply outcome_bind_ok_inv in H as ([bs' w''] & E & H). injection H as <- <-.
  eapply IH; [|exact E]. lia.
Qed.

Lemma simulate_ok h wide ti i consumed ys w bs w' :
  canonical w → simulate_branches (senc h) wide ti i consumed (map senc ys) w = Ok (bs, w') →
  canonical w' ∧ length bs = length ys ∧
  ∀ j y b, ys !! j = Some y → bs !! j = Some b →
    if i + j =? ti then br_a b = senc (gmul (load_le w') h) ∧ h ≠ gzero
    else branch_ok h b y.
Proof.
  revert i consumed w bs. induction ys as [|y ys IH]; intros i consumed w bs Hw H;
    cbn [simulate_branches map] in H.
  { injection H as <- <-. split_and!; [done..|]. intros j y b Hj. by rewrite lookup_nil in Hj. }
  destruct (Nat.eqb_spec i ti) as [->|Hi].
  - apply outcome_bind_ok_inv in H as (wb & _ & H).
    apply outcome_bind_ok_inv in H as (a & Ea & H).
    apply outcome_bind_ok_inv in H as ([bs' w''] & E & H). injection H as <- <-.
    pose proof (simulate_after _ _ _ _ _ _ _ _ _ (Nat.lt_succ_diag_r ti) E) as ->.
    destruct (IH _ _ _ _ (reduce_canonical wb) E) as (Hc & Hl & Hb).
    split_and!; [done|cbn; by rewrite Hl|]. intros [|j] y' b Hy Hb'.
    + injection Hb' as <-. rewrite Nat.add_0_r, Nat.eqb_refl. cbn [br_a].
      rewrite scalarmult_run, canonical_255 in Ea by done. case_decide as Hz; [done|].
      injection Ea as <-. split; [done|]. intros ->. by rewrite gmul_0_r in Hz.
    + specialize (Hb j y' b Hy Hb'). by rewrite Nat.add_succ_comm in Hb.
  - apply outcome_bind_ok_inv in H as (wc & _ & H).
    apply outcome_bind_ok_inv in H as (ws & _ & H).
    apply outcome_bind_ok_inv in H as (hs & Ehs & H).
    apply outcome_bind_ok_inv in H as (yc & Eyc & H).
    apply outcome_bind_ok_inv in H as (a & Ea & H).
    apply outcome_bind_ok_inv in H as ([bs' w''] & E & H). injection H as <- <-.
    destruct (IH _ _ _ _ Hw E) as (Hc & Hl & Hb).
    split_and!; [done|cbn; by rewrite Hl|]. intros [|j] y' b Hy Hb'.
    + injection Hb' as <-. injection Hy as <-. rewrite Nat.add_0_r, (proj2 (Nat.eqb_neq i ti)) by done.
      apply scalarmult_ok in Ehs as (h' & Eh & -> & Hh), Eyc as (y' & Ey & -> & Hy).
      apply senc_inj in Eh, Ey. subst h' y'. rewrite point_sub_run in Ea. injection Ea as <-.
      unfold branch_ok. cbn [br_a br_s br_c]. eexists _, _. split; [reflexivity|].
      split; [reflexivity|]. cbv zeta. split_and!; [done..|].
      by rewrite <- gadd_assoc, gadd_neg_l, gadd_0_r.
    + specialize (Hb j y' b Hy Hb'). by rewrite Nat.add_succ_comm in Hb.
Qed.

(** *** The sum of the challenges *)
Fixpoint sumZ (skip : option nat) (i : nat) (bs : list auth_set_branch_t) : Z :=
  match bs with
  | [] => 0
  | b :: bs => (if bool_decide (skip = Some i) then 0 else load_le (br_c b)) + sumZ skip (S i) bs
  end%Z.

Lemma sum_challenges_run skip i bs s :
  canonical s →
  canonical (sum_challenges skip i bs s) ∧
  load_le (sum_challenges skip i bs s) = ((load_le s + sumZ skip i bs) mod sL)%Z.
Proof.
  revert i s. induction bs as [|b bs IH]; intros i s Hs; cbn [sum_challenges sumZ].
  - split; [done|]. by rewrite Z.add_0_r, canonical_mod.
  - destruct (bool_decide (skip = Some i)).
    + rewrite Z.add_0_l. by apply IH.
    + destruct (scalar_add_run s (br_c b)) as [Hc E]. destruct (IH (S i) _ Hc) as [H1 H2].
      split; [done|]. rewrite H2, E, Zplus_mod_idemp_l. f_equal. lia.
Qed.

Lemma sumZ_skip_past k i bs : k < i → sumZ (Some k) i bs = sumZ None i bs.
Proof.
  revert i. induction bs as [|b bs IH]; intros i Hk; [done|]. cbn [sumZ].
  rewrite !bool_decide_false by (intros [=]; lia). by rewrite IH by lia.
Qed.

Lemma sumZ_alter (f : auth_set_branch_t → auth_set_branch_t) k i bs b :
  bs !! k = Some b →
  sumZ None i (alter f k bs) = (sumZ (Some (i + k)%nat) i bs + load_le (br_c (f b)))%Z.
Proof.
  revert k i. induction bs as [|b' bs IH]; intros [|k] i Hk; try done.
  - injection Hk as <-. cbn. rewrite Nat.add_0_r, bool_decide_false, bool_decide_true, sumZ_skip_past by (done || lia). lia.
  - change (alter f (S k) (b' :: bs)) with (b' :: alter f k bs). cbn [sumZ].
    rewrite (IH k (S i) Hk), Nat.add_succ_comm.
    rewrite !bool_decide_false by (intros [=]; lia). lia.
Qed.

(** *** Completeness *)
Lemma check_branches_true h bs ys :
  length bs = length ys →
  check_branches (senc h) bs (map senc ys) = Ok true ↔
  ∀ j b y, bs !! j = Some b → ys !! j = Some y → branch_ok h b y.
Proof.
  revert ys. induction bs as [|b bs IH]; intros [|y ys] Hl; try done.
  cbn [map check_branches]. injection Hl as Hl.
  assert (Hb : branch_ok h b y ↔ schnorr_check h (br_a b) (br_s b) (br_c b) (senc y) = Ok true)
    by (symmetry; apply schnorr_check_true).
  unfold schnorr_check in Hb. split.
  - intros H j b' y' Hj Hy.
    destruct (auth_scalarmult (br_s b) (senc h)) as [hs| |]; [|done..]. cbn [mbind outcome_bind] in *.
    destruct (auth_scalarmult (br_c b) (senc y)) as [yc| |]; [|done..]. cbn [mbind outcome_bind] in *.
    destruct (auth_point_add (br_a b) yc) as [rhs| |]; [|done..]. cbn [mbind outcome_bind] in *.
    destruct (points_equal hs rhs); [|done]. destruct j as [|j].
    + injection Hj as <-. injection Hy as <-. by apply Hb.
    + by eapply (proj1 (IH ys Hl)).
  - intros H. pose proof (proj1 Hb (H 0 b y eq_refl eq_refl)) as H0.
    destruct (auth_scalarmult (br_s b) (senc h)) as [hs| |]; [|done..]. cbn [mbind outcome_bind] in *.
    destruct (auth_scalarmult (br_c b) (senc y)) as [yc| |]; [|done..]. cbn [mbind outcome_bind] in *.
    destruct (auth_point_add (br_a b) yc) as [rhs| |]; [|done..]. cbn [mbind outcome_bind] in *.
    injection H0 as ->. apply (IH ys Hl). intros j b' y' Hj Hy. by apply (H (S j)).
Qed.

Lemma map_br_a_alter (f : auth_set_branch_t → auth_set_branch_t) k bs :
  (∀ b, br_a (f b) = br_a b) → map br_a (alter f k bs) = map br_a bs.
Proof.
  intros Hf. revert k. induction bs as [|b bs IH]; intros [|k]; try done.
  - cbn. by rewrite Hf.
  - change (alter f (S k) (b :: bs)) with (b :: alter f k bs). cbn [map]. by rewrite IH.
Qed.
End role_set.

Section role_set_completeness.
Context {NaCl : Sodium} {HS : SodiumSpec NaCl}.

(** [c' = g*role + h*blind] *)
Definition commits_to (c' : bytes) (role : Z) (blind : bytes) : Prop :=
  ∃ h, auth_attr_h = Ok (senc h) ∧
    c' = senc (gadd (gmul role gbase) (gmul (load_le blind) h)).

Lemma make_commits role blind c' :
  is_u64 role → canonical blind → auth_make_role_commitment role blind = Ok c' →
  commits_to c' role blind.
Proof.
  intros Hr Hb H. unfold auth_make_role_commitment in H. destruct attr_h_ok as [h Eh].
  rewrite Eh in H. cbn [mbind outcome_bind] in H.
  rewrite scalarmult_base_eq, (scalarmult_run _ gbase), scalar_from_u64_value in H by done.
  rewrite Z.mod_small in H by (unfold is_u64 in Hr; lia).
  case_decide; [done|]. cbn [mbind outcome_bind] in H.
  rewrite scalarmult_run, canonical_255 in H by done. case_decide; [done|].
  cbn [mbind outcome_bind] in H. rewrite point_add_run in H. injection H as <-. by exists h.
Qed.

Lemma rerandomize_commits c role blind delta c' blind' :
  canonical delta → commits_to c role blind →
  auth_rerandomize_commitment c blind delta = Ok (c', blind') →
  commits_to c' role blind' ∧ canonical blind'.
Proof.
  intros Hd (h & Eh & ->) H.
  destruct (rerandomize_ok _ _ _ _ _ Hd H) as (h' & x & Eh' & Ex & _ & _ & -> & ->).
  rewrite Eh in Eh'. injection Eh' as Eh'. apply senc_inj in Eh', Ex. subst h' x.
  destruct (scalar_add_run blind delta) as [Hc E]. split; [|done]. exists h. split; [done|].
  by rewrite E, gmul_mod, gmul_add, gadd_assoc.
Qed.

Lemma Y_of_commitment role blind h :
  is_u64 role →
  Y_of (gadd (gmul role gbase) (gmul (load_le blind) h)) role = gmul (load_le blind) h.
Proof.
  intros Hr. unfold Y_of. rewrite scalar_from_u64_value by done.
  rewrite Z.mod_small by (unfold is_u64 in Hr; lia).
  by rewrite (gadd_comm (gmul role _)), <- gadd_assoc, gadd_neg_r, gadd_0_r.
Qed.

(** The branch that the prover knows. *)
Lemma true_branch w c blind h :
  canonical w → canonical c → canonical blind → h ≠ gzero →
  let s := auth_scalar_add w (auth_scalar_mul c blind) in
  branch_ok h {| br_a := senc (gmul (load_le w) h); br_c := c; br_s := s |}
    (gmul (load_le blind) h) ↔
  load_le s ≠ 0%Z ∧ load_le c ≠ 0%Z ∧ load_le blind ≠ 0%Z.
Proof.
  intros Hw Hc Hb Hh s. unfold branch_ok. cbn [br_a br_s br_c].
  destruct (decide (load_le blind = 0%Z)) as [E|E].
  - split; [|tauto]. intros (xa & xP & _ & EP & _ & H & _). apply senc_inj in EP.
    by rewrite <- EP, E, gmul_0_l, gmul_0_r in H.
  - pose proof (schnorr_honest h w c blind Hw Hc Hb Hh (proj2 (scalar_nonzero _ _ Hb Hh) E)) as Hi.
    cbv zeta in Hi. fold s in Hi. rewrite Hi. tauto.
Qed.

(** With the challenge of the true branch filled in, the challenges add up to the master
    challenge. *)
Lemma completed_sum (ti : nat) (bs : list auth_set_branch_t) b mc s :
  canonical mc → bs !! ti = Some b →
  let c := auth_scalar_sub mc (sum_challenges (Some ti) 0 bs (zeros 32)) in
  points_equal (sum_challenges None 0 (alter (λ b, {| br_a := br_a b; br_c := c; br_s := s |}) ti bs) (zeros 32)) mc = true.
Proof.
  intros Hmc Hb c. set (f := λ b, {| br_a := br_a b; br_c := c; br_s := s |}). apply memeq_true.
  assert (Hz : canonical (zeros 32)) by (split; [done|rewrite load_le_zeros; apply sL_pos]).
  destruct (sum_challenges_run None 0 (alter f ti bs) _ Hz) as [H1 E1].
  destruct (sum_challenges_run (Some ti) 0 bs _ Hz) as [_ E2].
  apply canonical_inj; [done..|]. rewrite E1.
  rewrite (sumZ_alter f ti 0 bs b Hb), Nat.add_0_l. cbn [br_c f].
  destruct (scalar_sub_run mc (sum_challenges (Some ti) 0 bs (zeros 32))) as [_ E3]. fold c in E3. rewrite E3, E2.
  rewrite load_le_zeros, !Z.add_0_l, Zplus_mod_idemp_r, Z.add_sub_assoc, Zminus_mod_idemp_r.
  rewrite Z.add_comm, Z.add_simpl_r. by apply canonical_mod.
Qed.

(** When the simulated branches hold, all hold if the true one does. *)
Lemma completed_branches h f (ti : nat) (bs : list auth_set_branch_t) b (Ys : list sG) Y :
  bs !! ti = Some b → Ys !! ti = Some Y →
  (∀ (j : nat) b Y, j ≠ ti → bs !! j = Some b → Ys !! j = Some Y → branch_ok h b Y) →
  (∀ (j : nat) b Y, alter f ti bs !! j = Some b → Ys !! j = Some Y → branch_ok h b Y) ↔ branch_ok h (f b) Y.
Proof.
  intros Hb HY Hother. split.
  - intros H. apply (H ti); [by rewrite list_lookup_alter_eq, Hb|done].
  - intros H j b' Y' Hj HY'. destruct (decide (j = ti)) as [->|Hne].
    + rewrite list_lookup_alter_eq, Hb in Hj. injection Hj as <-. rewrite HY in HY'. by injection HY' as <-.
    + rewrite list_lookup_alter_ne in Hj by done. by eapply Hother.
Qed.

(** What the prover has computed when it returns its branches. *)
Lemma prove_role_set_inv wide roles c' role blind pid nc ec bs h :
  auth_attr_h = Ok (senc h) →
  auth_prove_role_set_membership_with_bytes wide roles c' role blind pid nc ec = Ok bs →
  ∃ ti Y bs0 w mc, negb (length roles =? 0) && (length roles <=? AUTH_MAX_ROLES) = true ∧
    roles !! ti = Some role ∧ role_set_Y roles c' = Ok Y ∧
    simulate_branches (senc h) wide ti 0 0 Y (zeros 32) = Ok (bs0, w) ∧
    role_set_master_challenge roles c' (concat (map br_a bs0)) pid nc ec = Ok mc ∧
    let ct := auth_scalar_sub mc (sum_challenges (Some ti) 0 bs0 (zeros 32)) in
    bs = alter (λ b, {| br_a := br_a b; br_c := ct; br_s := auth_scalar_add w (auth_scalar_mul ct blind) |}) ti bs0.
Proof.
  intros Eh H. unfold auth_prove_role_set_membership_with_bytes in H.
  apply outcome_bind_ok_inv in H as ([] & Hn & H). apply check_ok_inv in Hn.
  apply outcome_bind_ok_inv in H as (ti & Eti & H).
  apply outcome_bind_ok_inv in H as ([] & _ & H).
  rewrite Eh in H. cbn [mbind outcome_bind] in H.
  apply outcome_bind_ok_inv in H as (Y & EY & H).
  apply outcome_bind_ok_inv in H as ([bs0 w] & Esim & H). cbv beta iota in H.
  apply outcome_bind_ok_inv in H as (mc & Emc & H). injection H as <-.
  exists ti, Y, bs0, w, mc. split_and!; try done.
  apply find_role_ok. destruct (find_role roles role); [by injection Eti as ->|done].
Qed.

Lemma role_set_complete wide roles c' role blind pid nc ec bs :
  Forall is_u64 roles → canonical blind → commits_to c' role blind →
  auth_prove_role_set_membership_with_bytes wide roles c' role blind pid nc ec = Ok bs →
  length bs = length roles ∧
  ∃ i b, roles !! i = Some role ∧ bs !! i = Some b ∧
    (auth_verify_role_set_membership bs (length bs) roles c' pid nc ec = Ok true ↔
     load_le (br_s b) ≠ 0%Z ∧ load_le (br_c b) ≠ 0%Z ∧ load_le blind ≠ 0%Z).
Proof.
  intros Hroles Hbl (h & Eh & ->) H. set (xc := gadd _ _) in *.
  destruct (prove_role_set_inv _ _ _ _ _ _ _ _ _ _ Eh H) as (ti & Y & bs0 & w & mc & Hn & Hti & EY & Esim & Emc & ->).
  clear H. pose proof (role_set_Y_ok _ _ _ EY) as HY.
  pose proof Esim as Esim'. rewrite HY, <- map_map in Esim'.
  apply simulate_ok in Esim' as (Hw & Hl & Hbs); [|split; [done|rewrite load_le_zeros; apply sL_pos]].
  rewrite length_map in Hl. set (sum := sum_challenges (Some ti) 0 bs0 (zeros 32)) in *.
  set (ct := auth_scalar_sub mc sum). set (st := auth_scalar_add w _).
  set (f := λ b, {| br_a := br_a b; br_c := ct; br_s := st |}). set (bs := alter f ti bs0).
  assert (Hlb : length bs = length roles) by (unfold bs; by rewrite length_alter).
  split; [done|].
  assert (Hin : ti < length bs0) by (rewrite Hl; by eapply lookup_lt_Some).
  destruct (lookup_lt_is_Some_2 _ _ Hin) as [b0 Hb0].
  exists ti, (f b0). split; [done|]. split; [unfold bs; by rewrite list_lookup_alter_eq, Hb0|].
  assert (Hsum : points_equal (sum_challenges None 0 bs (zeros 32)) mc = true)
    by (eapply (completed_sum ti bs0 b0 mc st); [by eapply master_challenge_canonical|done]).
  apply andb_true_iff in Hn as [Hn0 Hn8].
  unfold auth_verify_role_set_membership. rewrite Hlb, Nat.eqb_refl, Hn8.
  apply negb_true_iff in Hn0. rewrite Hn0. cbn [negb orb].
  rewrite or_false_true, Eh. cbn [mbind outcome_bind]. rewrite EY. cbn [mbind outcome_bind].
  rewrite take_ge by lia.
  assert (Hmap : map br_a bs = map br_a bs0) by (by apply map_br_a_alter). rewrite Hmap, Emc.
  cbn [mbind outcome_bind]. rewrite Hsum. cbn [negb].
  rewrite HY, <- map_map, check_branches_true by (by rewrite length_map).
  assert (Htb : br_a b0 = senc (gmul (load_le w) h) ∧ h ≠ gzero).
  { specialize (Hbs ti (Y_of xc role) b0). rewrite Nat.add_0_l, Nat.eqb_refl in Hbs.
    apply Hbs; [by rewrite list_lookup_fmap, Hti|done]. }
  destruct Htb as [Ea Hh].
  pose proof (true_branch w ct blind h Hw (proj1 (scalar_sub_run mc sum)) Hbl Hh) as Hi.
  cbv zeta in Hi. fold st in Hi. cbn [f br_s br_c]. rewrite <- Hi.
  assert (Eb : f b0 = {| br_a := senc (gmul (load_le w) h); br_c := ct; br_s := st |})
    by (unfold f; by rewrite Ea).
  rewrite <- Eb, <- (Y_of_commitment role) by (by eapply list.Forall_lookup_1).
  apply (completed_branches h f ti); [done|by rewrite list_lookup_fmap, Hti|].
  intros j b y Hne Hj Hy. specialize (Hbs j y b Hy Hj). by rewrite Nat.add_0_l, (proj2 (Nat.eqb_neq _ _)) in Hbs.
Qed.
End role_set_completeness.

(** ** What the challenges commit to *)
Section binding.
Context {NaCl : Sodium}.

Fixpoint role_entries (i : nat) (roles : list Z) : list (bytes * bytes) :=
  match roles with
  | [] => []
  | r :: roles => (index_label "r_" i, store_le 8 r) :: role_entries (S i) roles
  end.

Fixpoint commitment_entries (i : nat) (A : list bytes) : list (bytes * bytes) :=
  match A with
  | [] => []
  | a :: A => (index_label "A_" i, a) :: commitment_entries (S i) A
  end.

Definition role_set_entries (roles : list Z) (c' : bytes) (A : list bytes)
    (pid nonce_c eph_c : bytes) : list (bytes * bytes) :=
  [(str_bytes "pid", pid); (str_bytes "nonce_c", nonce_c); (str_bytes "eph_c", eph_c);
   (str_bytes "c_prime", c')] ++ role_entries 0 roles ++ commitment_entries 0 A.

(** The statements that are hashed, with their public inputs. *)
Inductive statement :=
  | SetupClient (device_id device_pub server_pub a client_nonce server_nonce challenge : bytes)
  | SetupServer (device_id device_pub server_pub a client_nonce server_nonce challenge : bytes)
  | AuthClient (pubkey a pid nonce_c eph_c : bytes)
  | AuthServer (server_pub a nonce_s eph_s : bytes)
  | Rerand (pid nonce_c eph_c stored_c c_prime a : bytes)
  | RoleSet (roles : list Z) (c_prime : bytes) (A : list bytes) (pid nonce_c eph_c : bytes)
  | KeyConfirm (pid : bytes) (cp : auth_schnorr_proof_t) (nonce_c eph_c server_pub : bytes)
      (sp : auth_schnorr_proof_t) (nonce_s eph_s : bytes).

Definition statement_domain (st : statement) : bytes :=
  match st with
  | SetupClient _ _ _ _ _ _ _ => auth_ds_setup
  | SetupServer _ _ _ _ _ _ _ => auth_ds_setup_server
  | AuthClient _ _ _ _ _ => auth_ds_client_v2
  | AuthServer _ _ _ _ => auth_ds_server
  | Rerand _ _ _ _ _ _ => auth_ds_role_rerand
  | RoleSet _ _ _ _ _ _ => auth_ds_role_set
  | KeyConfirm _ _ _ _ _ _ _ _ => auth_ds_kc_v2
  end.

Definition statement_entries (st : statement) : list (bytes * bytes) :=
  match st with
  | SetupClient id pub spub a cn sn ch => setup_entries "client" id pub spub a cn sn ch
  | SetupServer id pub spub a cn sn ch => setup_entries "server" id pub spub a cn sn ch
  | AuthClient pub a pid nc ec => auth_client_entries pub a pid nc ec
  | AuthServer spub a ns es => auth_server_entries spub a ns es
  | Rerand pid nc ec sc c' a => rerand_entries pid nc ec sc c' a
  | RoleSet roles c' A pid nc ec => role_set_entries roles c' A pid nc ec
  | KeyConfirm pid cp nc ec spub sp ns es => kc_entries pid cp nc ec spub sp ns es
  end.

Definition hash_input (st : statement) : bytes :=
  wire_transcript (statement_domain st) (statement_entries st).

(** The sizes of the C prototypes. *)
Definition statement_wf (st : statement) : Prop :=
  match st with
  | SetupClient id pub spub a cn sn ch | SetupServer id pub spub a cn sn ch =>
      is_n 32 id ∧ is_n 32 pub ∧ is_n 32 spub ∧ is_n 32 a ∧ is_n 32 cn ∧ is_n 32 sn ∧ is_n 16 ch
  | AuthClient pub a pid nc ec =>
      is_n 32 pub ∧ is_n 32 a ∧ is_n 32 pid ∧ is_n 32 nc ∧ is_n 32 ec
  | AuthServer spub a ns es => is_n 32 spub ∧ is_n 32 a ∧ is_n 32 ns ∧ is_n 32 es
  | Rerand pid nc ec sc c' a =>
      is_n 32 pid ∧ is_n 32 nc ∧ is_n 32 ec ∧ is_n 32 sc ∧ is_n 32 c' ∧ is_n 32 a
  | RoleSet roles c' A pid nc ec =>
      length roles ≤ AUTH_MAX_ROLES ∧ Forall is_u64 roles ∧ is_n 32 c' ∧
      length A = length roles ∧ Forall (is_n 32) A ∧ is_n 32 pid ∧ is_n 32 nc ∧ is_n 32 ec
  | KeyConfirm pid cp nc ec spub sp ns es =>
      is_n 32 pid ∧ schnorr_wf cp ∧ is_n 32 nc ∧ is_n 32 ec ∧ is_n 32 spub ∧ schnorr_wf sp ∧
      is_n 32 ns ∧ is_n 32 es
  end.

(** Labels of the eight indices. *)
Lemma index_label_short prefix i :
  i < 8 → prefix = "r_" ∨ prefix = "A_" → length (index_label prefix i) = 3.
Proof.
  intros Hi [-> | ->]; do 8 (destruct i as [|i]; [reflexivity|]); lia.
Qed.

Lemma appends_roles i roles :
  i + length roles ≤ 8 →
  appends (append_roles i roles) (concat (map wire_entry (role_entries i roles))) (λ _, tt).
Proof.
  revert i. induction roles as [|r roles IH]; intros i Hi; cbn [append_roles role_entries map concat];
    [apply appends_ret|]. cbn [length] in Hi. cbv zeta.
  rewrite index_label_short by (lia || auto). cbn [Nat.ltb Nat.leb require].
  rewrite <- (app_nil_l (wire_entry _ ++ _)). eapply appends_bind; [apply appends_ret|].
  eapply appends_bind; [apply appends_u64; rewrite index_label_short by (lia || auto); lia|].
  apply IH. lia.
Qed.

Lemma appends_commitments i A pre :
  i + length A ≤ 8 → Forall (is_n 32) A → length pre = 32 * i →
  appends (append_commitments i (length A) (pre ++ concat A))
    (concat (map wire_entry (commitment_entries i A))) (λ _, tt).
Proof.
  revert i pre. induction A as [|a A IH]; intros i pre Hi HA Hp;
    cbn [append_commitments commitment_entries map concat length]; [apply appends_ret|].
  cbn [length] in Hi. apply list.Forall_cons in HA as [Ha HA]. cbv zeta.
  rewrite index_label_short by (lia || auto). cbn [Nat.ltb Nat.leb require].
  rewrite <- (app_nil_l (wire_entry _ ++ _)). eapply appends_bind; [apply appends_ret|].
  assert (El : loadn (E:=auth_err_t) (pre ++ a ++ concat A) (32 * i) 32 = Ok a) by (by apply loadn_app).
  rewrite El, <- (app_nil_l (wire_entry _ ++ _)). eapply appends_bind; [apply appends_ret|].
  eapply appends_bind; [apply appends_point; [rewrite index_label_short by (lia || auto); lia|done]|].
  rewrite app_assoc. apply IH; [lia|done|]. rewrite length_app, Hp, Ha. lia.
Qed.

Lemma length_role_entries i roles :
  i + length roles ≤ 8 →
  length (concat (map wire_entry (role_entries i roles))) = 16 * length roles.
Proof.
  revert i. induction roles as [|r roles IH]; intros i Hi; [done|]. cbn [length] in Hi.
  cbn [role_entries map concat length]. rewrite length_app, IH, length_wire_entry by lia.
  cbn [fst snd]. rewrite index_label_short, length_store_le by (lia || auto). lia.
Qed.

Lemma length_commitment_entries i A :
  i + length A ≤ 8 → Forall (is_n 32) A →
  length (concat (map wire_entry (commitment_entries i A))) = 40 * length A.
Proof.
  revert i. induction A as [|a A IH]; intros i Hi HA; [done|]. cbn [length] in Hi.
  apply list.Forall_cons in HA as [Ha HA].
  cbn [commitment_entries map concat length]. rewrite length_app, IH, length_wire_entry by (lia || done).
  cbn [fst snd]. rewrite index_label_short, Ha by (lia || auto). lia.
Qed.

Lemma role_set_challenge_run roles c' A pid nc ec :
  statement_wf (RoleSet roles c' A pid nc ec) →
  role_set_master_challenge roles c' (concat A) pid nc ec =
    Ok (challenge_of auth_ds_role_set (role_set_entries roles c' A pid nc ec)).
Proof.
  intros (Hr & _ & Hc & HlA & HA & Hp & Hn & He). unfold is_n in *. unfold role_set_master_challenge.
  change AUTH_MAX_ROLES with 8 in Hr.
  apply (with_transcript_run _ _ (role_set_entries roles c' A pid nc ec)
    (λ w, crypto_core_ristretto255_scalar_reduce (crypto_hash_sha512 w))).
  - apply Nat.leb_le. reflexivity.
  - eapply appends_eq.
    + do 4 absorb_one. eapply appends_bind; [apply appends_roles; lia|].
      eapply appends_bind; [|apply appends_challenge]. rewrite <- HlA.
      apply (appends_commitments 0 A []); [lia|done|done].
    + unfold role_set_entries. rewrite map_app, concat_app, map_app, concat_app.
      cbn [map concat]. by rewrite !app_nil_r, <- !app_assoc.
  - rewrite length_wire_transcript. unfold role_set_entries.
    rewrite map_app, concat_app, map_app, concat_app, !length_app.
    rewrite length_role_entries, length_commitment_entries by (lia || done).
    cbn [map concat]. rewrite !length_app, !length_wire_entry. cbn [fst snd length].
    rewrite Hc, Hp, Hn, He. change (length auth_ds_role_set) with 18.
    change (length (str_bytes _)) with 3 at 1. len.
Qed.
End binding.

Section binding_lemmas.
Context {NaCl : Sodium}.

Lemma role_entries_length i roles : length (role_entries i roles) = length roles.
Proof. revert i. induction roles as [|r roles IH]; intros i; [done|]. cbn. by rewrite IH. Qed.

Lemma commitment_entries_length i A : length (commitment_entries i A) = length A.
Proof. revert i. induction A as [|a A IH]; intros i; [done|]. cbn. by rewrite IH. Qed.

Lemma role_entries_inj i r1 r2 :
  Forall is_u64 r1 → Forall is_u64 r2 → role_entries i r1 = role_entries i r2 → r1 = r2.
Proof.
  revert i r2. induction r1 as [|x r1 IH]; intros i [|y r2] H1 H2 E; try done.
  apply list.Forall_cons in H1 as [Hx H1], H2 as [Hy H2]. cbn [role_entries] in E.
  apply (f_equal tail) in E as E'. cbn [tail] in E'. apply IH in E' as ->; [|done..].
  apply (f_equal (option_map snd ∘ head)) in E. cbn [head option_map compose snd] in E.
  f_equal. apply (store_le_inj 8 x y Hx Hy). congruence.
Qed.

Lemma commitment_entries_inj i A1 A2 :
  commitment_entries i A1 = commitment_entries i A2 → A1 = A2.
Proof.
  revert i A2. induction A1 as [|x A1 IH]; intros i [|y A2] E; try done.
  cbn [commitment_entries] in E. apply (f_equal tail) in E as E'. cbn [tail] in E'.
  apply IH in E' as ->. by injection E as ->.
Qed.

Lemma role_set_entries_inj roles1 c1 A1 p1 n1 e1 roles2 c2 A2 p2 n2 e2 :
  statement_wf (RoleSet roles1 c1 A1 p1 n1 e1) → statement_wf (RoleSet roles2 c2 A2 p2 n2 e2) →
  role_set_entries roles1 c1 A1 p1 n1 e1 = role_set_entries roles2 c2 A2 p2 n2 e2 →
  RoleSet roles1 c1 A1 p1 n1 e1 = RoleSet roles2 c2 A2 p2 n2 e2.
Proof.
  intros (_ & Hu1 & _ & Hl1 & _) (_ & Hu2 & _ & Hl2 & _) E. unfold role_set_entries in E.
  injection E as -> -> -> -> E.
  assert (Hl : length roles1 = length roles2).
  { apply (f_equal length) in E. rewrite !length_app, !role_entries_length, !commitment_entries_length in E. lia. }
  apply app_inj_1 in E as [Er Ea]; [|by rewrite !role_entries_length].
  apply role_entries_inj in Er as ->; [|done..]. by apply commitment_entries_inj in Ea as ->.
Qed.

Lemma entry_wf_32 l x : length (str_bytes l) ≤ 255 → is_n 32 x → entry_wf (str_bytes l, x).
Proof. intros Hl Hx. unfold is_n in Hx. split; [done|]. cbn [snd]. rewrite Hx. concrete_range. Qed.

Lemma role_entries_wf i roles : i + length roles ≤ 8 → Forall entry_wf (role_entries i roles).
Proof.
  revert i. induction roles as [|r roles IH]; intros i Hi; cbn [role_entries length] in *;
    [done|]. constructor; [|apply IH; lia].
  split; cbn [fst snd]; [rewrite index_label_short by (lia || auto); lia|].
  rewrite length_store_le. concrete_range.
Qed.

Lemma commitment_entries_wf i A :
  i + length A ≤ 8 → Forall (is_n 32) A → Forall entry_wf (commitment_entries i A).
Proof.
  revert i. induction A as [|a A IH]; intros i Hi HA; cbn [commitment_entries length] in *; [done|].
  apply list.Forall_cons in HA as [Ha HA]. constructor; [|apply IH; [lia|done]].
  split; cbn [fst snd]; [rewrite index_label_short by (lia || auto); lia|].
  unfold is_n in Ha. rewrite Ha. concrete_range.
Qed.

Ltac small_entries := unfold is_n in *;
  repeat (apply List.Forall_cons; [split; cbn [fst snd];
    [apply Nat.leb_le; reflexivity
    |repeat match goal with H : length _ = _ |- _ => rewrite H end; concrete_range]|]);
  try apply List.Forall_nil.

Lemma statement_entries_wf st : statement_wf st → Forall entry_wf (statement_entries st).
Proof.
  destruct st; cbn [statement_wf statement_entries]; unfold schnorr_wf; intros Hwf; destruct_and? Hwf;
    unfold setup_entries, auth_client_entries, auth_server_entries, rerand_entries, kc_entries,
      role_set_entries; try (small_entries; fail).
  change AUTH_MAX_ROLES with 8 in *. cbn [app]. small_entries.
  apply Forall_app. split; [apply role_entries_wf; lia|apply commitment_entries_wf; [lia|done]].
Qed.

Lemma statement_domain_short st : length (statement_domain st) ≤ 255.
Proof. destruct st; apply Nat.leb_le; reflexivity. Qed.

Lemma hash_input_inj st1 st2 :
  statement_wf st1 → statement_wf st2 → hash_input st1 = hash_input st2 → st1 = st2.
Proof.
  intros H1 H2 E. unfold hash_input in E.
  apply wire_transcript_inj in E as [Ed Ee];
    [|apply statement_domain_short|apply statement_domain_short
     |by apply statement_entries_wf|by apply statement_entries_wf].
  destruct st1, st2; try discriminate Ed; cbn [statement_entries] in Ee;
    try (by apply role_set_entries_inj);
    unfold setup_entries, auth_client_entries, auth_server_entries, rerand_entries, kc_entries in Ee;
    injection Ee; intros; subst; try done.
  repeat match goal with p : auth_schnorr_proof_t |- _ => destruct p end. cbn in *. by subst.
Qed.
End binding_lemmas.

(** *** The functions that hash the statements *)
Section hashing.
Context {NaCl : Sodium}.

(** The function of [proofs.c] that hashes a statement. *)
Definition hash_statement (st : statement) : outcome auth_err_t bytes :=
  match st with
  | SetupClient id pub spub a cn sn ch => setup_client_challenge id pub spub a cn sn ch
  | SetupServer id pub spub a cn sn ch => setup_server_challenge id pub spub a cn sn ch
  | AuthClient pub a pid nc ec => auth_client_challenge pub a pid nc ec
  | AuthServer spub a ns es => auth_server_challenge spub a ns es
  | Rerand pid nc ec sc c' a => rerand_challenge pid nc ec sc c' a
  | RoleSet roles c' A pid nc ec => role_set_master_challenge roles c' (concat A) pid nc ec
  | KeyConfirm pid cp nc ec spub sp ns es => auth_kc_transcript_hash pid cp nc ec spub sp ns es
  end.

(** What it makes of the bytes: a scalar, and a hash for key confirmation. *)
Definition digest (st : statement) (x : bytes) : bytes :=
  match st with
  | KeyConfirm _ _ _ _ _ _ _ _ => crypto_hash_sha256 x
  | _ => crypto_core_ristretto255_scalar_reduce (crypto_hash_sha512 x)
  end.

Lemma hash_statement_run st : statement_wf st → hash_statement st = Ok (digest st (hash_input st)).
Proof.
  destruct st; cbn [statement_wf hash_statement digest]; intros Hwf; unfold hash_input.
  6: by apply role_set_challenge_run.
  - destruct Hwf as (? & ? & ? & ? & ? & ? & ?). by apply setup_client_challenge_run.
  - destruct Hwf as (? & ? & ? & ? & ? & ? & ?). by apply setup_server_challenge_run.
  - destruct Hwf as (? & ? & ? & ? & ?). by apply auth_client_challenge_run.
  - destruct Hwf as (? & ? & ? & ?). by apply auth_server_challenge_run.
  - destruct Hwf as (? & ? & ? & ? & ? & ?). by apply rerand_challenge_run.
  - destruct Hwf as (? & ? & ? & ? & ? & ? & ? & ?). by apply kc_transcript_hash_run.
Qed.
End hashing.

(** *** What the verifiers of the role commitment decide *)
Section commitments.
Context {NaCl : Sodium} {HS : SodiumSpec NaCl}.

(** [h*s == a + c*(C' - C)], [c] being the hash of all public inputs. *)
Definition rerand_holds (p : auth_schnorr_proof_t) (C C' pid nonce_c eph_c : bytes) : Prop :=
  ∃ h x x', auth_attr_h = Ok (senc h) ∧ C = senc x ∧ C' = senc x' ∧
    schnorr_holds h (sp_a p) (sp_s p)
      (challenge_of auth_ds_role_rerand (rerand_entries pid nonce_c eph_c C C' (sp_a p))) (senc (gadd x' (gneg x))).

Lemma verify_rerandomization_true p C C' pid nc ec :
  schnorr_wf p → is_n 32 C → is_n 32 C' → is_n 32 pid → is_n 32 nc → is_n 32 ec →
  auth_verify_rerandomization p C C' pid nc ec = Ok true ↔ rerand_holds p C C' pid nc ec.
Proof.
  intros [Ha _] HC HC' Hp Hn He. unfold auth_verify_rerandomization, rerand_holds. rewrite or_false_true.
  destruct attr_h_ok as [h Eh]. rewrite Eh, rerand_challenge_run by done. cbn [mbind outcome_bind].
  set (c := challenge_of _ _). split.
  - intros H. destruct (auth_scalarmult (sp_s p) (senc h)) as [hs| |] eqn:Es; [|done..]. cbn [mbind outcome_bind] in H.
    destruct (auth_point_sub C' C) as [df| |] eqn:Ed; [|done..]. cbn [mbind outcome_bind] in H.
    pose proof Ed as Ed'. apply point_sub_ok in Ed' as (x' & x & -> & -> & ->). exists h, x, x'. split_and!; [done..|].
    apply schnorr_check_true. unfold schnorr_check. rewrite Es. exact H.
  - intros (h' & x & x' & Eh' & -> & -> & H). injection Eh' as Eh'. apply senc_inj in Eh' as <-.
    apply schnorr_check_true in H. unfold schnorr_check in H.
    destruct (auth_scalarmult (sp_s p) (senc h)); [|done..]. cbn [mbind outcome_bind] in *.
    rewrite point_sub_run. exact H.
Qed.

Definition sum_of (bs : list auth_set_branch_t) : Z := foldr (λ b, Z.add (load_le (br_c b))) 0%Z bs.

Lemma sumZ_all i bs : sumZ None i bs = sum_of bs.
Proof. revert i. induction bs as [|b bs IH]; intros i; [done|]. cbn. by rewrite IH. Qed.

(** One branch for each role [r], [h*s == A + c*(C' - g*r)], with challenges [c] that add
    up to the hash of all public inputs and of the commitments [A]. *)
Definition role_set_holds (bs : list auth_set_branch_t) (roles : list Z) (C' pid nonce_c eph_c : bytes) : Prop :=
  length bs = length roles ∧ 0 < length roles ≤ AUTH_MAX_ROLES ∧
  ∃ h x', auth_attr_h = Ok (senc h) ∧ C' = senc x' ∧
    (sum_of bs mod sL)%Z =
      load_le (challenge_of auth_ds_role_set (role_set_entries roles C' (map br_a bs) pid nonce_c eph_c)) ∧
    ∀ i b r, bs !! i = Some b → roles !! i = Some r →
      schnorr_holds h (br_a b) (br_s b) (br_c b) (senc (gadd x' (gneg (gmul r gbase)))).

Lemma Y_of_role x r : is_u64 r → Y_of x r = gadd x (gneg (gmul r gbase)).
Proof. intros Hr. unfold Y_of. rewrite scalar_from_u64_value by done. rewrite Z.mod_small; [done|unfold is_u64 in Hr; lia]. Qed.

Lemma role_set_Y_inv roles C' Y : roles ≠ [] → role_set_Y roles C' = Ok Y → ∃ x', C' = senc x'.
Proof.
  destruct roles as [|r roles]; [done|]. intros _ H. cbn [role_set_Y] in H.
  apply outcome_bind_ok_inv in H as (gr & _ & H). apply outcome_bind_ok_inv in H as (y & E & _).
  apply point_sub_ok in E as (x' & ? & -> & _). by exists x'.
Qed.

Lemma verify_role_set_inv branches n roles C' pid nc ec :
  Forall is_u64 roles → n ≤ length branches → Forall branch_wf (take n branches) →
  is_n 32 C' → is_n 32 pid → is_n 32 nc → is_n 32 ec →
  auth_verify_role_set_membership branches n roles C' pid nc ec = Ok true →
  n = length roles ∧ role_set_holds (take n branches) roles C' pid nc ec.
Proof.
  intros Hu Hn Hw HC Hp Hnc He H. unfold auth_verify_role_set_membership in H.
  destruct (Nat.eqb_spec n (length roles)) as [->|]; [|done]. destruct (Nat.eqb_spec (length roles) 0) as [|H0]; [done|].
  destruct (Nat.leb_spec (length roles) AUTH_MAX_ROLES) as [H8|]; [|done]. cbn [negb orb] in H. rewrite or_false_true in H.
  set (bs := take (length roles) branches) in *.
  assert (length bs = length roles) as Hlb by (by apply length_take_le).
  destruct attr_h_ok as [h Eh]. rewrite Eh in H. cbn [mbind outcome_bind] in H.
  apply outcome_bind_ok_inv in H as (Y & EY & H).
  destruct (role_set_Y_inv roles C' Y) as [x' ->]; [by intros ->|done|]. apply role_set_Y_ok in EY as ->.
  assert (statement_wf (RoleSet roles (senc x') (map br_a bs) pid nc ec)) as Hst.
  { split_and!; try done; [by rewrite length_map|]. apply Forall_map. apply (list.Forall_impl _ _ _ Hw). by intros b (? & _). }
  cbv zeta in H. rewrite (role_set_challenge_run _ _ _ _ _ _ Hst) in H. cbn [mbind outcome_bind] in H.
  destruct (points_equal _ _) eqn:Es; [|done]. cbn [negb] in H. apply memeq_true in Es.
  split; [done|]. split; [done|]. split; [lia|]. exists h, x'. split_and!; [done|done| |].
  - destruct (sum_challenges_run None 0 bs (zeros 32)) as [_ E]; [split; [done|rewrite load_le_zeros; apply sL_pos]|].
    by rewrite <- Es, E, load_le_zeros, Z.add_0_l, sumZ_all.
  - intros i b r Hb Hr. rewrite <- map_map, check_branches_true in H by (by rewrite length_map).
    rewrite <- Y_of_role by (by eapply list.Forall_lookup_1). apply (H i); [done|]. by rewrite list_lookup_fmap, Hr.
Qed.
End commitments.

(** ** Key agreement *)
Section session_key.
Context {NaCl : Sodium} {HS : SodiumSpec NaCl}.

Lemma shared_secret_eq a b A B :
  canonical a → canonical b → auth_scalarmult_base a = Ok A → auth_scalarmult_base b = Ok B →
  auth_scalarmult a B = auth_scalarmult b A.
Proof.
  intros Ha Hb EA EB. apply scalarmult_base_ok in EA as (-> & _ & _); [|done].
  apply scalarmult_base_ok in EB as (-> & _ & _); [|done].
  rewrite !scalarmult_run, !canonical_255 by done. by rewrite (gmul_comm (load_le a)).
Qed.

Lemma derive_session_key_ok a B nc ns pid ec es k :
  is_n 32 nc → is_n 32 ns → auth_derive_session_key a B nc ns pid ec es = Ok k →
  ∃ shared, auth_scalarmult a B = Ok shared ∧
    k = rfc5869 (nc ++ ns) shared (str_bytes "session key v2" ++ pid ++ ec ++ es) 32 ∧ is_n 32 k.
Proof.
  intros Hn Hs H. unfold auth_derive_session_key in H.
  apply outcome_bind_ok_inv in H as (sh & Esh & H). exists sh. split; [done|].
  assert (Hl : length sh = 32).
  { apply scalarmult_ok in Esh as (x & _ & -> & _). apply length_senc. }
  rewrite (hkdf_run AUTH_SESSION_KEY_LEN _ _ _ _ _ sh (str_bytes "session key v2" ++ pid ++ ec ++ es)) in H;
    [|apply Nat.ltb_lt; reflexivity|apply Nat.leb_le; reflexivity|done|done|done|done].
  destruct nc as [|b nc]; [done|]. injection H as <-. split; [done|].
  unfold is_n, rfc5869. rewrite length_take_le; [done|]. rewrite (length_T_concat _ _ 0). len.
Qed.
End session_key.

(** ** The correctness of the proofs *)
Section soundness.
Context {NaCl : Sodium} {HS : SodiumSpec NaCl}.

(** The number that the library makes of a response. *)
Definition response (s : bytes) : Z := (load_le s mod 2 ^ 255)%Z.

(** Two accepting transcripts with the same commitment. *)
Lemma extract g a P s1 c1 s2 c2 :
  canonical c1 → canonical c2 →
  schnorr_holds g a s1 c1 P → schnorr_holds g a s2 c2 P → c1 ≠ c2 →
  P = senc (gmul ((response s1 - response s2) * Z.invmod (load_le c1 - load_le c2) sL) g).
Proof.
  intros Hc1 Hc2 (xa & xP & -> & -> & _ & _ & E1) (xa' & xP' & Ea & EP & _ & _ & E2) Hne.
  apply senc_inj in Ea, EP. subst xa' xP'. cbv zeta in E1, E2. rewrite (canonical_255 c1) in E1 by done. rewrite (canonical_255 c2) in E2 by done.
  assert (E : gmul (response s1 - response s2) g = gmul (load_le c1 - load_le c2) xP).
  { unfold response. rewrite !gmul_sub, E1, E2, gneg_gadd, <- gadd_assoc, (gadd_assoc (gmul (load_le c1) xP)).
    rewrite (gadd_comm (gmul (load_le c1) xP) (gneg xa)), <- gadd_assoc, gadd_assoc.
    by rewrite gadd_neg_r, gadd_0_l. }
  assert (Hnz : ((load_le c1 - load_le c2) mod sL)%Z ≠ 0%Z).
  { intros H0. apply Hne, canonical_inj; [done..|].
    apply Z.mod_divide in H0 as [k Hk]; [|pose proof sL_pos; lia].
    destruct Hc1 as [_ H1], Hc2 as [_ H2].
    pose proof (load_le_nonneg c1). pose proof (load_le_nonneg c2). pose proof sL_pos.
    assert (k = 0%Z) as -> by nia. lia. }
  rewrite (Z.mul_comm (response s1 - response s2)), gmul_mul, E, <- gmul_mul.
  rewrite <- (gmul_mod (_ * _)), (Z.invmod_prime _ _ sL_prime Hnz). by rewrite gmul_1.
Qed.
End soundness.

(** An honest Schnorr proof is accepted: whatever the randomness, a proof
    made with the secret scalar of the public key verifies against that key
    and the same public inputs, except when the challenge or the response
    happens to be the zero scalar (which libsodium refuses).  This holds for
    the two setup proofs, the two authentication proofs and the
    rerandomization proof. *)
Theorem honest_proofs_verify {NaCl : Sodium} {HS : SodiumSpec NaCl} wide x pub :
  canonical x → auth_scalarmult_base x = Ok pub →
  (∀ id spub cn sn ch p, is_n 32 id → is_n 32 spub → is_n 32 cn → is_n 32 sn → is_n 16 ch →
     auth_prove_setup_client wide x id pub spub cn sn ch = Ok p →
     accepts_unless_zero (setup_client_challenge id pub spub (sp_a p) cn sn ch)
       (auth_verify_setup_client p id pub spub cn sn ch) p) ∧
  (∀ id dpub cn sn ch p, is_n 32 id → is_n 32 dpub → is_n 32 cn → is_n 32 sn → is_n 16 ch →
     auth_prove_setup_server wide x id dpub pub cn sn ch = Ok p →
     accepts_unless_zero (setup_server_challenge id dpub pub (sp_a p) cn sn ch)
       (auth_verify_setup_server p pub id dpub cn sn ch) p) ∧
  (∀ pid nc ec p, is_n 32 pid → is_n 32 nc → is_n 32 ec →
     auth_prove_auth_client wide x pid nc ec = Ok p →
     accepts_unless_zero (auth_client_challenge pub (sp_a p) pid nc ec)
       (auth_verify_auth_client p pub pid nc ec) p) ∧
  (∀ ns es p, is_n 32 ns → is_n 32 es →
     auth_prove_auth_server wide x ns es = Ok p →
     accepts_unless_zero (auth_server_challenge pub (sp_a p) ns es)
       (auth_verify_auth_server p pub ns es) p) ∧
  (∀ C blind C' blind' pid nc ec p, is_n 32 pid → is_n 32 nc → is_n 32 ec →
     auth_rerandomize_commitment C blind x = Ok (C', blind') →
     auth_prove_rerandomization wide C C' x pid nc ec = Ok p →
     accepts_unless_zero (rerand_challenge pid nc ec C C' (sp_a p))
       (auth_verify_rerandomization p C C' pid nc ec) p).
Proof.
  intros Hx Hpub. pose proof (length_scalarmult_base _ _ Hpub). split_and!; intros.
  - by eapply setup_client_complete.
  - by eapply setup_server_complete.
  - by eapply auth_client_complete.
  - by eapply auth_server_complete.
  - by eapply rerand_complete.
Qed.

Definition sample_random (n : nat) : bytes := map (λ i, u8 (Z.of_nat (i * i + 3))) (seq 0 n).

Lemma honest_proofs_verify_witness :
  ∃ p, auth_prove_auth_server (NaCl := Toy.sodium) (sample_random 64)
      (store_le 32 9) (zeros 32) (replicate 32 Byte.x01) = Ok p ∧
    accepts_unless_zero (auth_server_challenge (NaCl := Toy.sodium) (store_le 32 9) (sp_a p)
        (zeros 32) (replicate 32 Byte.x01))
      (auth_verify_auth_server (NaCl := Toy.sodium) p (store_le 32 9) (zeros 32)
        (replicate 32 Byte.x01)) p.
Proof.
  eexists. split; [vm_compute; reflexivity|].
  destruct (honest_proofs_verify (NaCl := Toy.sodium) (sample_random 64) (store_le 32 9)
    (store_le 32 9)) as (_ & _ & _ & H & _); [split; reflexivity|vm_compute; reflexivity|].
  apply H; [reflexivity|reflexivity|vm_compute; reflexivity].
Defined.

(** C38: an honest role-set proof is accepted: a commitment to an allowed role
    with its blinding scalar gives a proof with one branch per role that
    verifies against the same roles, except when the challenge or the response
    of the true branch, or the blinding, is the zero scalar. *)
Theorem role_set_proof_verifies {NaCl : Sodium} {HS : SodiumSpec NaCl} drawn roles C' role blind
    pid nc ec bs :
  Forall is_u64 roles → canonical blind → commits_to C' role blind →
  auth_prove_role_set_membership drawn roles C' role blind pid nc ec = Ok bs →
  length bs = length roles ∧
  ∃ i b, roles !! i = Some role ∧ bs !! i = Some b ∧
    (auth_verify_role_set_membership bs (length bs) roles C' pid nc ec = Ok true ↔
     load_le (br_s b) ≠ 0%Z ∧ load_le (br_c b) ≠ 0%Z ∧ load_le blind ≠ 0%Z).
Proof.
  intros Hr Hb Hc H. apply outcome_bind_ok_inv in H as (_ & _ & H).
  by eapply role_set_complete.
Qed.

Definition sample_commitment : bytes :=
  match auth_make_role_commitment (NaCl := Toy.sodium) 3 (store_le 32 5) with
  | Ok c => c
  | _ => []
  end.

Lemma role_set_proof_verifies_witness :
  ∃ bs, auth_prove_role_set_membership (NaCl := Toy.sodium) sample_random [7; 3]%Z
      sample_commitment 3 (store_le 32 5) (zeros 32) (zeros 32) (zeros 32) = Ok bs ∧
    length bs = 2 ∧
    ∃ i b, [7; 3]%Z !! i = Some 3%Z ∧ bs !! i = Some b ∧
      (auth_verify_role_set_membership (NaCl := Toy.sodium) bs (length bs) [7; 3]%Z
         sample_commitment (zeros 32) (zeros 32) (zeros 32) = Ok true ↔
       load_le (br_s b) ≠ 0%Z ∧ load_le (br_c b) ≠ 0%Z ∧ load_le (store_le 32 5) ≠ 0%Z).
Proof.
  eexists. split; [vm_compute; reflexivity|].
  apply (role_set_proof_verifies (NaCl := Toy.sodium) sample_random [7; 3]%Z
    sample_commitment 3 (store_le 32 5)).
  - repeat (apply List.Forall_cons; [concrete_range|]). apply List.Forall_nil.
  - split; reflexivity.
  - apply make_commits; [concrete_range|split; reflexivity|vm_compute; reflexivity].
  - vm_compute. reflexivity.
Defined.

(** The verifiers decide the Schnorr equation: a proof is accepted exactly
    when the commitment and the key are canonical encodings with
    [s*G = a + c*P], both sides' scalar multiples being different from the
    identity, and [c] the hash of the statement with every public input.  No
    input makes a verifier read outside a buffer. *)
Theorem verifiers_decide_equation {NaCl : Sodium} {HS : SodiumSpec NaCl} p :
  is_n 32 (sp_a p) →
  let chal st := crypto_core_ristretto255_scalar_reduce (crypto_hash_sha512 (hash_input st)) in
  (∀ id pub spub cn sn ch, statement_wf (SetupClient id pub spub (sp_a p) cn sn ch) →
     auth_verify_setup_client p id pub spub cn sn ch = Ok true ↔
     schnorr_holds gbase (sp_a p) (sp_s p) (chal (SetupClient id pub spub (sp_a p) cn sn ch)) pub) ∧
  (∀ id pub spub cn sn ch, statement_wf (SetupServer id pub spub (sp_a p) cn sn ch) →
     auth_verify_setup_server p spub id pub cn sn ch = Ok true ↔
     schnorr_holds gbase (sp_a p) (sp_s p) (chal (SetupServer id pub spub (sp_a p) cn sn ch)) spub) ∧
  (∀ pub pid nc ec, statement_wf (AuthClient pub (sp_a p) pid nc ec) →
     auth_verify_auth_client p pub pid nc ec = Ok true ↔
     schnorr_holds gbase (sp_a p) (sp_s p) (chal (AuthClient pub (sp_a p) pid nc ec)) pub) ∧
  (∀ spub ns es, statement_wf (AuthServer spub (sp_a p) ns es) →
     auth_verify_auth_server p spub ns es = Ok true ↔
     schnorr_holds gbase (sp_a p) (sp_s p) (chal (AuthServer spub (sp_a p) ns es)) spub).
Proof.
  intros Ha chal. unfold chal, hash_input. split_and!; intros; unfold statement_wf in *; destruct_and?;
    apply verify_iff;
    [ by apply setup_client_challenge_run | by apply setup_server_challenge_run
    | by apply auth_client_challenge_run | by apply auth_server_challenge_run ].
Qed.

Lemma verifiers_decide_equation_witness :
  auth_verify_auth_server (NaCl := Toy.sodium) sample_schnorr (zeros 32) (zeros 32) (zeros 32) = Ok true ↔
  schnorr_holds (NaCl := Toy.sodium) gbase (sp_a sample_schnorr) (sp_s sample_schnorr)
    (crypto_core_ristretto255_scalar_reduce (crypto_hash_sha512
      (hash_input (AuthServer (zeros 32) (sp_a sample_schnorr) (zeros 32) (zeros 32))))) (zeros 32).
Proof.
  destruct (verifiers_decide_equation (NaCl := Toy.sodium) sample_schnorr eq_refl)
    as (_ & _ & _ & H). apply H. split_and!; reflexivity.
Defined.

(** C39: special soundness of the client authentication proof: from two proofs that the
    verifier accepts, whatever their bytes, with the same commitment and two challenges
    that differ, the secret scalar of the public key is computed: the difference of the
    responses, as the library reads them, over that of the challenges. *)
Theorem auth_client_special_soundness {NaCl : Sodium} {HS : SodiumSpec NaCl} p1 p2 pub
    pid1 nc1 ec1 pid2 nc2 ec2 c1 c2 :
  sp_a p1 = sp_a p2 →
  auth_client_challenge pub (sp_a p1) pid1 nc1 ec1 = Ok c1 →
  auth_client_challenge pub (sp_a p2) pid2 nc2 ec2 = Ok c2 → c1 ≠ c2 →
  auth_verify_auth_client p1 pub pid1 nc1 ec1 = Ok true →
  auth_verify_auth_client p2 pub pid2 nc2 ec2 = Ok true →
  pub = senc (gmul ((response (sp_s p1) - response (sp_s p2)) *
                    Z.invmod (load_le c1 - load_le c2) sL) gbase).
Proof.
  intros Ha E1 E2 Hne V1 V2.
  pose proof (auth_client_challenge_canonical _ _ _ _ _ _ E1). pose proof (auth_client_challenge_canonical _ _ _ _ _ _ E2).
  apply (verify_iff _ _ _ _ _ E1) in V1. apply (verify_iff _ _ _ _ _ E2) in V2.
  rewrite <- Ha in V2. by apply (extract gbase (sp_a p1)).
Qed.

(** A proof of the toy group's secret 9, with the challenge it is checked against. *)
Definition sample_auth_proof (pid : bytes) : auth_schnorr_proof_t :=
  match auth_prove_auth_client (NaCl := Toy.sodium) (sample_random 64) (store_le 32 9) pid
          (zeros 32) (zeros 32) with
  | Ok p => p
  | _ => sample_schnorr
  end.

Definition sample_auth_challenge (pid : bytes) : bytes :=
  match auth_client_challenge (NaCl := Toy.sodium) (store_le 32 9) (sp_a (sample_auth_proof pid))
          pid (zeros 32) (zeros 32) with
  | Ok c => c
  | _ => []
  end.

Lemma auth_client_special_soundness_witness :
  let p1 := sample_auth_proof (zeros 32) in
  let p2 := sample_auth_proof (replicate 32 Byte.x01) in
  let c1 := sample_auth_challenge (zeros 32) in
  let c2 := sample_auth_challenge (replicate 32 Byte.x01) in
  store_le 32 9 = senc (NaCl := Toy.sodium) (gmul ((response (sp_s p1) - response (sp_s p2)) *
                    Z.invmod (load_le c1 - load_le c2) sL) gbase).
Proof.
  intros p1 p2 c1 c2.
  apply (auth_client_special_soundness (NaCl := Toy.sodium) p1 p2 _ (zeros 32) (zeros 32) (zeros 32)
    (replicate 32 Byte.x01) (zeros 32) (zeros 32));
    [vm_compute; reflexivity | vm_compute; reflexivity | vm_compute; reflexivity | vm_compute; discriminate
    | vm_compute; reflexivity | vm_compute; reflexivity].
Defined.

(** C40: domain separation and binding of what the code hashes.  The function that hashes
    each of the seven kinds of statement of the protocol (the challenges of the two setup
    proofs, of the two authentication proofs, of the rerandomization and role-set proofs,
    and the hash for key confirmation) returns the digest of one string of bytes, and
    these strings are equal for two statements, of the same or of different kinds, only
    if the statements are the same with all their public inputs. *)
Theorem hash_input_binding {NaCl : Sodium} st1 st2 :
  statement_wf st1 → statement_wf st2 →
  hash_statement st1 = Ok (digest st1 (hash_input st1)) ∧ hash_statement st2 = Ok (digest st2 (hash_input st2)) ∧
  (hash_input st1 = hash_input st2 ↔ st1 = st2).
Proof.
  intros H1 H2. split_and!; [by apply hash_statement_run..|]. split; [by apply hash_input_inj|by intros ->].
Qed.

Lemma hash_input_binding_witness :
  let st a := AuthServer (zeros 32) a (zeros 32) (zeros 32) in
  let st1 := st (zeros 32) in let st2 := st (replicate 32 Byte.x01) in
  hash_statement (NaCl := Toy.sodium) st1 = Ok (digest (NaCl := Toy.sodium) st1 (hash_input st1)) ∧
  hash_statement (NaCl := Toy.sodium) st2 = Ok (digest (NaCl := Toy.sodium) st2 (hash_input st2)) ∧
  (hash_input st1 = hash_input st2 ↔ st1 = st2).
Proof. intros st st1 st2. apply (hash_input_binding (NaCl := Toy.sodium)); split_and!; reflexivity. Defined.

(** The two sides derive the same session key, from their own ephemeral
    secret and the other side's public value, or fail alike. *)
Theorem session_keys_agree {NaCl : Sodium} {HS : SodiumSpec NaCl} eph_secret_c eph_secret_s
    eph_c eph_s nonce_c nonce_s pid :
  canonical eph_secret_c → canonical eph_secret_s →
  auth_scalarmult_base eph_secret_c = Ok eph_c → auth_scalarmult_base eph_secret_s = Ok eph_s →
  auth_derive_session_key eph_secret_c eph_s nonce_c nonce_s pid eph_c eph_s =
  auth_derive_session_key eph_secret_s eph_c nonce_c nonce_s pid eph_c eph_s.
Proof.
  intros Hc Hs Ec Es. unfold auth_derive_session_key.
  by rewrite (shared_secret_eq eph_secret_c eph_secret_s eph_c eph_s).
Qed.

Lemma session_keys_agree_witness :
  auth_derive_session_key (NaCl := Toy.sodium) (store_le 32 3) (store_le 32 4) (zeros 32) (zeros 32)
    (zeros 32) (store_le 32 3) (store_le 32 4) =
  auth_derive_session_key (NaCl := Toy.sodium) (store_le 32 4) (store_le 32 3) (zeros 32) (zeros 32)
    (zeros 32) (store_le 32 3) (store_le 32 4).
Proof.
  apply session_keys_agree; [split; reflexivity|split; reflexivity|vm_compute; reflexivity
    |vm_compute; reflexivity].
Defined.
