(* ===== verification/Proto.v ===== *)
(** The setup and authentication state machines:
    [src/c/include/auth/proto.h] and [src/c/src/proto/proto.c].

    A client operation works on the client context; one that builds a packet
    also writes the caller's output buffer, whose length is [out_cap], and
    returns [*out_len].  A server operation works on the pending record and the
    output buffer.  [Err e] is the early [return e]; the state keeps what was
    assigned before it.  Random bytes are arguments, in the order in which they
    are drawn. *)
From S2P Require Export Proofs.

(** ** State *)
Record auth_client_ctx_t := {
  c_device_root : bytes;
  c_device_id : bytes;
  c_device_sk : bytes;
  c_device_pub : bytes;
  c_server_pub_pinned : bytes;
  c_has_pinned_server : bool;
  c_role_commitment : bytes;
  c_role_blind : bytes;
  c_role_code : Z;
  c_has_role : bool;
  c_session_id : bytes;
  c_seq : Z;
  c_client_nonce : bytes;
  c_eph_secret : bytes;
  c_eph_c : bytes;
  c_pending_client_proof : auth_schnorr_proof_t;
  c_pending_server_pub : bytes;
  c_pending_server_nonce : bytes;
  c_pending_setup_challenge : bytes;
  c_session_key : bytes;
  c_kc_th : bytes;
  c_kc_k_s2c : bytes;
  c_kc_k_c2s : bytes;
  c_auth_complete : bool
}.

Record auth_pending_setup_t := {
  ps_session_id : bytes;
  ps_device_id : bytes;
  ps_device_pub : bytes;
  ps_role_commitment : bytes;
  ps_client_nonce : bytes;
  ps_server_nonce : bytes;
  ps_setup_challenge : bytes;
  ps_server_pub : bytes;
  ps_response_packet : bytes;
  ps_response_packet_len : nat
}.

Record auth_pending_auth_t := {
  pa_session_id : bytes;
  pa_device_id : bytes;
  pa_device_pub : bytes;
  pa_pid : bytes;
  pa_nonce_c : bytes;
  pa_nonce_s : bytes;
  pa_eph_c : bytes;
  pa_eph_s : bytes;
  pa_session_key : bytes;
  pa_kc_th : bytes;
  pa_kc_k_s2c : bytes;
  pa_kc_k_c2s : bytes;
  pa_response_packet : bytes;
  pa_response_packet_len : nat
}.

(** Assignments to one field. *)
Definition eta_ctx (c : auth_client_ctx_t) : auth_client_ctx_t :=
  {| c_device_root := c_device_root c; c_device_id := c_device_id c;
     c_device_sk := c_device_sk c; c_device_pub := c_device_pub c;
     c_server_pub_pinned := c_server_pub_pinned c;
     c_has_pinned_server := c_has_pinned_server c;
     c_role_commitment := c_role_commitment c; c_role_blind := c_role_blind c;
     c_role_code := c_role_code c; c_has_role := c_has_role c;
     c_session_id := c_session_id c; c_seq := c_seq c; c_client_nonce := c_client_nonce c;
     c_eph_secret := c_eph_secret c; c_eph_c := c_eph_c c;
     c_pending_client_proof := c_pending_client_proof c;
     c_pending_server_pub := c_pending_server_pub c;
     c_pending_server_nonce := c_pending_server_nonce c;
     c_pending_setup_challenge := c_pending_setup_challenge c;
     c_session_key := c_session_key c; c_kc_th := c_kc_th c; c_kc_k_s2c := c_kc_k_s2c c;
     c_kc_k_c2s := c_kc_k_c2s c; c_auth_complete := c_auth_complete c |}.

Definition set_session_id v c : auth_client_ctx_t := ltac:(set_field eta_ctx c_session_id c v).
Definition set_seq v c : auth_client_ctx_t := ltac:(set_field eta_ctx c_seq c v).
Definition set_has_pinned v c : auth_client_ctx_t := ltac:(set_field eta_ctx c_has_pinned_server c v).
Definition set_pinned v c : auth_client_ctx_t := ltac:(set_field eta_ctx c_server_pub_pinned c v).
Definition set_role_commitment v c : auth_client_ctx_t := ltac:(set_field eta_ctx c_role_commitment c v).
Definition set_role_blind v c : auth_client_ctx_t := ltac:(set_field eta_ctx c_role_blind c v).
Definition set_role_code v c : auth_client_ctx_t := ltac:(set_field eta_ctx c_role_code c v).
Definition set_has_role v c : auth_client_ctx_t := ltac:(set_field eta_ctx c_has_role c v).
Definition set_client_nonce v c : auth_client_ctx_t := ltac:(set_field eta_ctx c_client_nonce c v).
Definition set_eph_secret v c : auth_client_ctx_t := ltac:(set_field eta_ctx c_eph_secret c v).
Definition set_eph_c v c : auth_client_ctx_t := ltac:(set_field eta_ctx c_eph_c c v).
Definition set_client_proof v c : auth_client_ctx_t := ltac:(set_field eta_ctx c_pending_client_proof c v).
Definition set_pending_server_pub v c : auth_client_ctx_t := ltac:(set_field eta_ctx c_pending_server_pub c v).
Definition set_pending_server_nonce v c : auth_client_ctx_t := ltac:(set_field eta_ctx c_pending_server_nonce c v).
Definition set_pending_challenge v c : auth_client_ctx_t := ltac:(set_field eta_ctx c_pending_setup_challenge c v).
Definition set_session_key v c : auth_client_ctx_t := ltac:(set_field eta_ctx c_session_key c v).
Definition set_kc_th v c : auth_client_ctx_t := ltac:(set_field eta_ctx c_kc_th c v).
Definition set_kc_k_s2c v c : auth_client_ctx_t := ltac:(set_field eta_ctx c_kc_k_s2c c v).
Definition set_kc_k_c2s v c : auth_client_ctx_t := ltac:(set_field eta_ctx c_kc_k_c2s c v).
Definition set_auth_complete v c : auth_client_ctx_t := ltac:(set_field eta_ctx c_auth_complete c v).

(** ** Calls on a part of the state *)
Definition on_ctx {S A} (m : M auth_err_t S A) : M auth_err_t (S * bytes) A := λ '(s, out),
  let '(o, s') := m s in (o, (s', out)).

Definition on_out {S A} (m : M auth_err_t bytes A) : M auth_err_t (S * bytes) A := λ '(s, out),
  let '(o, out') := m out in (o, (s, out')).

(** [uint8_t payload[cap]; err = encode(..., payload, cap, &len); if (err) return err;]:
    the bytes written. *)
Definition local_encode (cap : nat) (encode : M auth_err_t bytes nat) : outcome auth_err_t bytes :=
  match encode (zeros cap) with
  | (Ok n, buf) => loadn buf 0 n
  | (Err e, _) => Err e
  | (Fault, _) => Fault
  end.

(** The code of a received ERROR packet; it starts as [AUTH_ERR_UNSPECIFIED] and the result of
    the parser is ignored. *)
Definition received_error (payload : bytes) : outcome auth_err_t auth_err_t :=
  match auth_packet_parse_error (Some payload) with
  | Ok (code, _) => Ok code
  | Err _ => Ok AUTH_ERR_UNSPECIFIED
  | Fault => Fault
  end.

(** What the four client handlers do first: decode the header, return the code
    of an ERROR packet, and check the packet type. *)
Definition open_reply (pkt_type : byte) (inp : ptr bytes) :
    outcome auth_err_t (auth_header_t * bytes) :=
  inp ← nonnull inp AUTH_ERR_INVALID_ARGUMENT;
  '(hdr, payload) ← auth_header_decode (Some inp);
  if bool_decide (hdr_pkt_type hdr = AUTH_PKT_ERROR)
  then code ← received_error payload; Err code
  else _ ← check (bool_decide (hdr_pkt_type hdr = pkt_type)) AUTH_ERR_UNKNOWN_PKT_TYPE;
       mret (hdr, payload).

(** [if (!f(...)) return e;] for a function that returns a C boolean. *)
Definition check_call (o : outcome auth_err_t bool) (e : auth_err_t) : outcome auth_err_t unit :=
  b ← o; check b e.

(** The outputs of [auth_derive_kc_keys]; an error in it would leave them
    uninitialised. *)
Definition kc_keys {NaCl : Sodium} (session_key th : bytes) : outcome auth_err_t (bytes * bytes) :=
  match auth_derive_kc_keys session_key th with
  | (Ok k_s2c, Ok k_c2s) => Ok (k_s2c, k_c2s)
  | _ => Fault
  end.

Section proto.
Context {NaCl : Sodium}.

(** ** Client: init *)
Definition auth_client_ctx_init (session_id : bytes) : M auth_err_t auth_client_ctx_t unit :=
  modify (set_session_id session_id);;
  modify (set_seq 0%Z);;
  modify (set_has_pinned false);;
  modify (set_has_role false);;
  modify (set_auth_complete false).

(** [ctx->seq += 1; return auth_packet_build(...);] *)
Definition send_next (pkt_type : byte) (payload : bytes) : M auth_err_t (auth_client_ctx_t * bytes) nat :=
  on_ctx (modify (λ c, set_seq (u32 (c_seq c + 1)) c));;
  '(ctx, _) ← get;
  on_out (auth_packet_build pkt_type (Some (c_session_id ctx)) (c_seq ctx) (Some payload)
            (length payload)).

(** ** Client: SETUP *)
(** [if (!ctx->has_role)]: the default role, a fresh blinding and the commitment. *)
Definition ensure_role (wide_blind : bytes) : M auth_err_t auth_client_ctx_t unit :=
  ctx ← get;
  if c_has_role ctx then mret tt
  else
    (if (c_role_code ctx =? 0)%Z then modify (set_role_code 1%Z) else mret tt);;
    modify (set_role_blind (auth_random_scalar wide_blind));;
    ctx ← get;
    C ← lift (auth_make_role_commitment (c_role_code ctx) (c_role_blind ctx));
    modify (set_role_commitment C);;
    modify (set_has_role true).

Definition auth_client_build_setup1 (nonce wide_blind : bytes) (pairing_token : ptr bytes)
    (pairing_token_len : nat) : M auth_err_t (auth_client_ctx_t * bytes) nat :=
  require (pairing_token_len <=? AUTH_MAX_PAIRING_TOKEN) AUTH_ERR_INVALID_ARGUMENT;;
  require (negb ((0 <? pairing_token_len) && bool_decide (pairing_token = NULL)))
    AUTH_ERR_INVALID_ARGUMENT;;
  on_ctx (modify (set_client_nonce (auth_random_bytes32 nonce)));;
  on_ctx (ensure_role wide_blind);;
  token ← (if 0 <? pairing_token_len
           then x ← lift (loadn (default [] pairing_token) 0 pairing_token_len);
                lift (copy_into (zeros AUTH_MAX_PAIRING_TOKEN) x)
           else mret (zeros AUTH_MAX_PAIRING_TOKEN));
  '(ctx, _) ← get;
  let s1 := {| s1_pairing_token := token; s1_pairing_token_len := pairing_token_len;
               s1_device_id := c_device_id ctx; s1_device_pub := c_device_pub ctx;
               s1_client_nonce := c_client_nonce ctx;
               s1_role_commitment := c_role_commitment ctx |} in
  payload ← lift (local_encode AUTH_MAX_PAYLOAD (auth_setup1_encode (Some s1)));
  send_next AUTH_PKT_SETUP_1 payload.

(** The TOFU and pinning check. *)
Definition pin_server (server_pub : bytes) (allow_tofu : bool) : M auth_err_t auth_client_ctx_t unit :=
  ctx ← get;
  if c_has_pinned_server ctx
  then require (memeq (c_server_pub_pinned ctx) server_pub) AUTH_ERR_PEER_KEY_MISMATCH
  else if negb allow_tofu then fail AUTH_ERR_PEER_KEY_MISMATCH
  else modify (set_pinned server_pub);; modify (set_has_pinned true).

Definition auth_client_handle_setup2 (inp : ptr bytes) (allow_tofu : bool) :
    M auth_err_t auth_client_ctx_t unit :=
  '(hdr, payload) ← lift (open_reply AUTH_PKT_SETUP_2 inp);
  ctx ← get;
  require (memeq (hdr_session_id hdr) (c_session_id ctx)) AUTH_ERR_UNKNOWN_SESSION;;
  s2 ← lift (auth_setup2_decode (Some payload));
  lift (auth_check_point (s2_server_pub s2));;
  pin_server (s2_server_pub s2) allow_tofu;;
  lift (check_call (auth_verify_setup_server (s2_server_proof s2) (s2_server_pub s2)
          (c_device_id ctx) (c_device_pub ctx) (c_client_nonce ctx) (s2_server_nonce s2)
          (s2_setup_challenge s2)) AUTH_ERR_PROOF_VERIFY);;
  modify (set_pending_server_pub (s2_server_pub s2));;
  modify (set_pending_server_nonce (s2_server_nonce s2));;
  modify (set_pending_challenge (s2_setup_challenge s2)).

Definition auth_client_build_setup3 (wide : bytes) : M auth_err_t (auth_client_ctx_t * bytes) nat :=
  '(ctx, _) ← get;
  p ← lift (auth_prove_setup_client wide (c_device_sk ctx) (c_device_id ctx) (c_device_pub ctx)
              (c_pending_server_pub ctx) (c_client_nonce ctx) (c_pending_server_nonce ctx)
              (c_pending_setup_challenge ctx));
  payload ← lift (local_encode AUTH_MAX_PAYLOAD (auth_setup3_encode (Some {| s3_client_proof := p |})));
  send_next AUTH_PKT_SETUP_3 payload.

Definition auth_client_handle_setup_ack (inp : ptr bytes) : M auth_err_t auth_client_ctx_t unit :=
  '(_, payload) ← lift (open_reply AUTH_PKT_SETUP_ACK inp);
  lift (auth_ack_decode (Some payload)).

(** ** Client: AUTH *)
Definition auth_client_build_auth1 (nonce wide_eph wide_delta wide_client wide_rerand : bytes)
    (drawn : nat → bytes) (allowed_roles : ptr (list Z)) :
    M auth_err_t (auth_client_ctx_t * bytes) nat :=
  allowed_roles ← deref allowed_roles AUTH_ERR_INVALID_ARGUMENT;
  '(ctx, _) ← get;
  require (c_has_pinned_server ctx) AUTH_ERR_DEVICE_NOT_ENROLLED;;
  require (c_has_role ctx) AUTH_ERR_ROLE_NOT_PERMITTED;;
  let n_allowed := length allowed_roles in
  require (negb (n_allowed =? 0) && (n_allowed <=? AUTH_MAX_ROLES)) AUTH_ERR_INVALID_ARGUMENT;;
  on_ctx (modify (set_client_nonce (auth_random_bytes32 nonce)));;
  on_ctx (modify (set_eph_secret (auth_random_scalar wide_eph)));;
  eph_c ← lift (auth_scalarmult_base (auth_random_scalar wide_eph));
  on_ctx (modify (set_eph_c eph_c));;
  '(ctx, _) ← get;
  let pid := auth_compute_pid (c_device_pub ctx) (c_client_nonce ctx) (c_eph_c ctx)
               (c_server_pub_pinned ctx) in
  let delta := auth_random_scalar wide_delta in
  '(c_prime, blind_prime) ← lift (auth_rerandomize_commitment (c_role_commitment ctx)
                                    (c_role_blind ctx) delta);
  client_proof ← lift (auth_prove_auth_client wide_client (c_device_sk ctx) pid
                         (c_client_nonce ctx) (c_eph_c ctx));
  on_ctx (modify (set_client_proof client_proof));;
  rerand_proof ← lift (auth_prove_rerandomization wide_rerand (c_role_commitment ctx) c_prime delta
                         pid (c_client_nonce ctx) (c_eph_c ctx));
  branches ← lift (auth_prove_role_set_membership drawn allowed_roles c_prime (c_role_code ctx)
                     blind_prime pid (c_client_nonce ctx) (c_eph_c ctx));
  let a1 := {| a1_pid := pid; a1_client_proof := client_proof; a1_nonce_c := c_client_nonce ctx;
               a1_eph_c := c_eph_c ctx; a1_c_prime := c_prime; a1_rerand_proof := rerand_proof;
               a1_branches := branches ++ replicate (AUTH_MAX_ROLES - length branches) zero_branch;
               a1_n_branches := length branches |} in
  payload ← lift (local_encode AUTH_MAX_PAYLOAD (auth_auth1_encode (Some a1)));
  send_next AUTH_PKT_AUTH_1 payload.

Definition auth_client_handle_auth2 (inp : ptr bytes) : M auth_err_t auth_client_ctx_t unit :=
  '(hdr, payload) ← lift (open_reply AUTH_PKT_AUTH_2 inp);
  ctx ← get;
  require (memeq (hdr_session_id hdr) (c_session_id ctx)) AUTH_ERR_UNKNOWN_SESSION;;
  a2 ← lift (auth_auth2_decode (Some payload));
  lift (auth_check_point (a2_server_pub a2));;
  lift (auth_check_point (a2_eph_s a2));;
  require (memeq (a2_server_pub a2) (c_server_pub_pinned ctx)) AUTH_ERR_PEER_KEY_MISMATCH;;
  lift (check_call (auth_verify_auth_server (a2_server_proof a2) (a2_server_pub a2)
          (a2_nonce_s a2) (a2_eph_s a2)) AUTH_ERR_PROOF_VERIFY);;
  let pid := auth_compute_pid (c_device_pub ctx) (c_client_nonce ctx) (c_eph_c ctx)
               (c_server_pub_pinned ctx) in
  session_key ← lift (auth_derive_session_key (c_eph_secret ctx) (a2_eph_s a2)
                        (c_client_nonce ctx) (a2_nonce_s a2) pid (c_eph_c ctx) (a2_eph_s a2));
  modify (set_session_key session_key);;
  kc_th ← lift (auth_kc_transcript_hash pid (c_pending_client_proof ctx) (c_client_nonce ctx)
                  (c_eph_c ctx) (a2_server_pub a2) (a2_server_proof a2) (a2_nonce_s a2)
                  (a2_eph_s a2));
  modify (set_kc_th kc_th);;
  '(k_s2c, k_c2s) ← lift (kc_keys session_key kc_th);
  modify (set_kc_k_s2c k_s2c);;
  modify (set_kc_k_c2s k_c2s);;
  let expect_tag := auth_hmac_tag k_s2c (str_bytes "server finished") kc_th in
  require (memeq expect_tag (a2_tag_s a2)) AUTH_ERR_KEY_CONFIRM.

Definition auth_client_build_auth3 : M auth_err_t (auth_client_ctx_t * bytes) nat :=
  '(ctx, _) ← get;
  let a3 := {| a3_tag_c := auth_hmac_tag (c_kc_k_c2s ctx) (str_bytes "client finished") (c_kc_th ctx) |} in
  payload ← lift (local_encode AUTH_MAX_PAYLOAD (auth_auth3_encode (Some a3)));
  send_next AUTH_PKT_AUTH_3 payload.

Definition auth_client_handle_auth_ack (inp : ptr bytes) : M auth_err_t auth_client_ctx_t unit :=
  '(_, payload) ← lift (open_reply AUTH_PKT_AUTH_ACK inp);
  lift (auth_ack_decode (Some payload));;
  modify (set_auth_complete true).

(** ** Server: SETUP *)
Definition pending_setup_init (session_id : bytes) (s1 : auth_setup1_t)
    (server_pub server_nonce setup_challenge : bytes) : auth_pending_setup_t :=
  {| ps_session_id := session_id; ps_device_id := s1_device_id s1;
     ps_device_pub := s1_device_pub s1; ps_role_commitment := s1_role_commitment s1;
     ps_client_nonce := s1_client_nonce s1; ps_server_nonce := server_nonce;
     ps_setup_challenge := setup_challenge; ps_server_pub := server_pub;
     ps_response_packet := zeros AUTH_MAX_DATAGRAM; ps_response_packet_len := 0 |}.

(** [if ( *out_len <= sizeof pending->response_packet)]: caches the packet. *)
Definition cache_setup_response (packet : bytes) (p : auth_pending_setup_t) : auth_pending_setup_t :=
  if length packet <=? length (ps_response_packet p) then
    {| ps_session_id := ps_session_id p; ps_device_id := ps_device_id p;
       ps_device_pub := ps_device_pub p; ps_role_commitment := ps_role_commitment p;
       ps_client_nonce := ps_client_nonce p; ps_server_nonce := ps_server_nonce p;
       ps_setup_challenge := ps_setup_challenge p; ps_server_pub := ps_server_pub p;
       ps_response_packet := packet ++ drop (length packet) (ps_response_packet p);
       ps_response_packet_len := length packet |}
  else p.

Definition auth_server_handle_setup1 (session_id : bytes) (seq : Z) (in_payload : ptr bytes)
    (server_sk server_pub : bytes) (require_pairing_token : ptr bytes)
    (server_nonce setup_challenge wide : bytes) :
    M auth_err_t (auth_pending_setup_t * bytes) nat :=
  in_payload ← deref in_payload AUTH_ERR_INVALID_ARGUMENT;
  s1 ← lift (auth_setup1_decode (Some in_payload));
  match require_pairing_token with
  | Some expect =>
      require ((s1_pairing_token_len s1 =? length expect) &&
               memeq (take (length expect) (s1_pairing_token s1)) expect)
        AUTH_ERR_PAIRING_TOKEN_BAD
  | None => mret tt
  end;;
  lift (auth_check_point (s1_device_pub s1));;
  lift (match auth_check_point (s1_role_commitment s1) with
        | Err AUTH_ERR_IDENTITY_POINT => Ok tt
        | o => o
        end);;
  on_ctx (put (pending_setup_init session_id s1 server_pub (auth_random_bytes32 server_nonce)
                 setup_challenge));;
  p ← lift (auth_prove_setup_server wide server_sk (s1_device_id s1) (s1_device_pub s1) server_pub
              (s1_client_nonce s1) (auth_random_bytes32 server_nonce) setup_challenge);
  let s2 := {| s2_server_nonce := auth_random_bytes32 server_nonce;
               s2_setup_challenge := setup_challenge; s2_server_pub := server_pub;
               s2_server_proof := p |} in
  payload ← lift (local_encode AUTH_MAX_PAYLOAD (auth_setup2_encode (Some s2)));
  out_len ← on_out (auth_packet_build AUTH_PKT_SETUP_2 (Some session_id) seq (Some payload)
                      (length payload));
  '(_, out) ← get;
  packet ← lift (loadn out 0 out_len);
  on_ctx (modify (cache_setup_response packet));;
  mret out_len.

Definition send_ack (pkt_type : byte) (session_id : bytes) (seq : Z) : M auth_err_t bytes nat :=
  ack ← lift (local_encode 1 auth_ack_encode);
  auth_packet_build pkt_type (Some session_id) seq (Some ack) (length ack).

Definition auth_server_handle_setup3 (pending : auth_pending_setup_t) (session_id : bytes) (seq : Z)
    (in_payload : ptr bytes) : M auth_err_t bytes nat :=
  in_payload ← deref in_payload AUTH_ERR_INVALID_ARGUMENT;
  require (memeq session_id (ps_session_id pending)) AUTH_ERR_UNKNOWN_SESSION;;
  s3 ← lift (auth_setup3_decode (Some in_payload));
  lift (check_call (auth_verify_setup_client (s3_client_proof s3) (ps_device_id pending)
          (ps_device_pub pending) (ps_server_pub pending) (ps_client_nonce pending)
          (ps_server_nonce pending) (ps_setup_challenge pending)) AUTH_ERR_PROOF_VERIFY);;
  send_ack AUTH_PKT_SETUP_ACK session_id seq.

(** ** Server: AUTH *)
(** The registry callback, with its context: [device_pub] and [role_commitment]. *)
Definition auth_registry_lookup_fn : Type := ptr bytes → outcome auth_err_t (bytes * bytes).

(** The checks on AUTH_1, in the order of the code. *)
Definition auth1_checks (a1 : auth_auth1_t) (server_pub : bytes) (lookup_fn : auth_registry_lookup_fn)
    (allowed_roles : list Z) : outcome auth_err_t bytes :=
  auth_check_point (a1_eph_c a1);;
  match auth_check_point (a1_c_prime a1) with
  | Err AUTH_ERR_IDENTITY_POINT => Ok tt
  | o => o
  end;;
  '(device_pub, stored_c) ← lookup_fn NULL;
  check_call (auth_verify_auth_client (a1_client_proof a1) device_pub (a1_pid a1) (a1_nonce_c a1)
                (a1_eph_c a1)) AUTH_ERR_PROOF_VERIFY;;
  let expect_pid := auth_compute_pid device_pub (a1_nonce_c a1) (a1_eph_c a1) server_pub in
  check (memeq expect_pid (a1_pid a1)) AUTH_ERR_PROOF_VERIFY;;
  check_call (auth_verify_rerandomization (a1_rerand_proof a1) stored_c (a1_c_prime a1) (a1_pid a1)
                (a1_nonce_c a1) (a1_eph_c a1)) AUTH_ERR_PROOF_VERIFY;;
  check_call (auth_verify_role_set_membership (a1_branches a1) (a1_n_branches a1) allowed_roles
                (a1_c_prime a1) (a1_pid a1) (a1_nonce_c a1) (a1_eph_c a1))
    AUTH_ERR_ROLE_NOT_PERMITTED;;
  mret device_pub.

Definition auth_server_handle_auth1 (session_id : bytes) (seq : Z) (in_payload : ptr bytes)
    (server_sk server_pub : bytes) (lookup_fn : ptr auth_registry_lookup_fn)
    (allowed_roles : ptr (list Z)) (wide_eph nonce wide : bytes) :
    M auth_err_t (auth_pending_auth_t * bytes) nat :=
  in_payload ← deref in_payload AUTH_ERR_INVALID_ARGUMENT;
  lookup_fn ← deref lookup_fn AUTH_ERR_INVALID_ARGUMENT;
  allowed_roles ← deref allowed_roles AUTH_ERR_INVALID_ARGUMENT;
  a1 ← lift (auth_auth1_decode (Some in_payload));
  device_pub ← lift (auth1_checks a1 server_pub lookup_fn allowed_roles);
  let eph_s_secret := auth_random_scalar wide_eph in
  eph_s ← lift (auth_scalarmult_base eph_s_secret);
  let nonce_s := auth_random_bytes32 nonce in
  server_proof ← lift (auth_prove_auth_server wide server_sk nonce_s eph_s);
  session_key ← lift (auth_derive_session_key eph_s_secret (a1_eph_c a1) (a1_nonce_c a1) nonce_s
                        (a1_pid a1) (a1_eph_c a1) eph_s);
  kc_th ← lift (auth_kc_transcript_hash (a1_pid a1) (a1_client_proof a1) (a1_nonce_c a1)
                  (a1_eph_c a1) server_pub server_proof nonce_s eph_s);
  '(k_s2c, k_c2s) ← lift (kc_keys session_key kc_th);
  let tag_s := auth_hmac_tag k_s2c (str_bytes "server finished") kc_th in
  let a2 := {| a2_server_pub := server_pub; a2_server_proof := server_proof; a2_nonce_s := nonce_s;
               a2_eph_s := eph_s; a2_tag_s := tag_s |} in
  payload ← lift (local_encode AUTH_MAX_PAYLOAD (auth_auth2_encode (Some a2)));
  out_len ← on_out (auth_packet_build AUTH_PKT_AUTH_2 (Some session_id) seq (Some payload)
                      (length payload));
  '(_, out) ← get;
  packet ← lift (loadn out 0 out_len);
  let cached := length packet <=? AUTH_MAX_DATAGRAM in
  on_ctx (put {| pa_session_id := session_id; pa_device_id := zeros AUTH_DEVICE_ID_LEN;
                 pa_device_pub := device_pub; pa_pid := a1_pid a1; pa_nonce_c := a1_nonce_c a1;
                 pa_nonce_s := nonce_s; pa_eph_c := a1_eph_c a1; pa_eph_s := eph_s;
                 pa_session_key := session_key; pa_kc_th := kc_th; pa_kc_k_s2c := k_s2c;
                 pa_kc_k_c2s := k_c2s;
                 pa_response_packet :=
                   if cached then packet ++ zeros (AUTH_MAX_DATAGRAM - length packet)
                   else zeros AUTH_MAX_DATAGRAM;
                 pa_response_packet_len := if cached then length packet else 0 |});;
  mret out_len.

Definition auth_server_handle_auth3 (pending : auth_pending_auth_t) (session_id : bytes) (seq : Z)
    (in_payload : ptr bytes) : M auth_err_t bytes nat :=
  in_payload ← deref in_payload AUTH_ERR_INVALID_ARGUMENT;
  require (memeq session_id (pa_session_id pending)) AUTH_ERR_UNKNOWN_SESSION;;
  a3 ← lift (auth_auth3_decode (Some in_payload));
  let expect_tag := auth_hmac_tag (pa_kc_k_c2s pending) (str_bytes "client finished") (pa_kc_th pending) in
  require (memeq expect_tag (a3_tag_c a3)) AUTH_ERR_KEY_CONFIRM;;
  send_ack AUTH_PKT_AUTH_ACK session_id seq.
End proto.
