(* ===== verification/Handshake.v ===== *)
(** The protocol between a client and a server: what the state machines of
    [src/c/src/proto/proto.c] achieve together.

    [setup_exchange] and [auth_exchange] run the two sides against each other
    over a network that delivers every packet, as the client program and the
    server's dispatcher call them; the theorems of this file are about them
    and about the answers of each handler to arbitrary packets. *)
From S2P Require Export Proto.

(** ** Running an operation *)
(** An operation that writes into the buffer [out0]: the packet, and the new state. *)
Definition send_from {S} (out0 : bytes) (m : M auth_err_t (S * bytes) nat) (s : S) : outcome auth_err_t (bytes * S) :=
  match m (s, out0) with
  | (Ok n, (s', out)) => packet ← loadn out 0 n; mret (packet, s')
  | (Err e, _) => Err e
  | (Fault, _) => Fault
  end.

Definition reply_from (out0 : bytes) (m : M auth_err_t bytes nat) : outcome auth_err_t bytes :=
  match m out0 with
  | (Ok n, out) => loadn out 0 n
  | (Err e, _) => Err e
  | (Fault, _) => Fault
  end.

(** ... into a buffer of [AUTH_MAX_DATAGRAM] zero bytes. *)
Abbreviation send := (send_from (zeros AUTH_MAX_DATAGRAM)).
Abbreviation reply := (reply_from (zeros AUTH_MAX_DATAGRAM)).

Lemma is_n_zeros n : is_n n (zeros n).
Proof. apply length_replicate. Qed.
#[export] Hint Resolve is_n_zeros : core.

Definition receive {S} (m : M auth_err_t S unit) (s : S) : outcome auth_err_t S :=
  match m s with
  | (Ok _, s') => Ok s'
  | (Err e, _) => Err e
  | (Fault, _) => Fault
  end.

Ltac pstep :=
  rewrite bind_run;
  cbn [mret M_ret get put modify deref require lift fail fault on_ctx on_out].
Tactic Notation "pstep" "by" uconstr(eq) := pstep; rewrite eq; cbv beta iota.

(** ** Packets and payloads *)
Lemma local_encode_codec `{PayloadCodec A wf wire encode decode} m :
  wf m → local_encode AUTH_MAX_PAYLOAD (encode (Some m)) = Ok (wire m).
Proof.
  intros Hm. pose proof (codec_fits (encode := encode) (decode := decode) m Hm) as Hf.
  unfold local_encode. rewrite (codec_encode (decode := decode)); [|done| |].
  - unfold loadn, mem_load. rewrite length_written by (unfold zeros; by rewrite length_replicate).
    rewrite (proj2 (Nat.leb_le _ _)) by (unfold zeros; by rewrite length_replicate).
    by rewrite drop_0, take_written.
  - unfold zeros. by rewrite length_replicate.
  - unfold zeros. rewrite length_replicate. split; [lia|]. reflexivity.
Qed.

Lemma local_encode_ack : local_encode 1 auth_ack_encode = Ok [AUTH_ACK_BYTE].
Proof. reflexivity. Qed.

Lemma build_packet out0 t sid seq payload :
  is_n AUTH_MAX_DATAGRAM out0 →
  length sid = AUTH_SESSION_ID_LEN → is_u32 seq → length payload ≤ AUTH_MAX_PAYLOAD →
  ∃ out, auth_packet_build t (Some sid) seq (Some payload) (length payload) out0
      = (Ok (AUTH_HEADER_LEN + length payload), out) ∧
    (∀ E, loadn (E := E) out 0 (AUTH_HEADER_LEN + length payload) = Ok (wire_packet t sid seq payload)).
Proof.
  intros Hl Hs Hq Hp. unfold is_n in Hl.
  assert (Hb : AUTH_HEADER_LEN + length payload ≤ length out0)
    by (rewrite Hl; unfold AUTH_MAX_PAYLOAD in Hp; len).
  eexists. split; [by apply packet_build_run|]. intros E.
  assert (Hw : length (wire_packet t sid seq payload) = AUTH_HEADER_LEN + length payload)
    by (by apply length_wire_packet).
  unfold loadn, mem_load. rewrite length_written by (by rewrite Hw).
  rewrite (proj2 (Nat.leb_le _ _)) by done. by rewrite drop_0, <- Hw, take_written.
Qed.

Lemma header_of_packet t sid seq payload :
  length sid = AUTH_SESSION_ID_LEN → is_u32 seq →
  auth_header_decode (Some (wire_packet t sid seq payload)) = Ok (packet_header t sid seq, payload).
Proof.
  intros Hs Hq. apply header_decode_ok. split_and!; [by apply packet_header_wf| |done].
  cbn. by vm_compute.
Qed.

Lemma open_reply_packet t sid seq payload :
  length sid = AUTH_SESSION_ID_LEN → is_u32 seq → t ≠ AUTH_PKT_ERROR →
  open_reply t (Some (wire_packet t sid seq payload)) = Ok (packet_header t sid seq, payload).
Proof.
  intros Hs Hq Ht. unfold open_reply. cbn [nonnull mbind outcome_bind].
  rewrite header_of_packet by done. cbn [mbind outcome_bind hdr_pkt_type packet_header].
  by rewrite bool_decide_false, bool_decide_true by done.
Qed.

(** The identity of a sender is in the packet, nothing else is accepted. *)
Lemma open_reply_ok t inp hdr payload :
  t ≠ AUTH_PKT_ERROR →
  open_reply t inp = Ok (hdr, payload) ↔
  ∃ buf, inp = Some buf ∧ auth_header_decode (Some buf) = Ok (hdr, payload) ∧ hdr_pkt_type hdr = t.
Proof.
  intros Ht. unfold open_reply. split.
  - intros H. apply outcome_bind_ok_inv in H as (buf & Hb & H). destruct inp as [b|]; [|done].
    injection Hb as ->. apply outcome_bind_ok_inv in H as ([h p] & Hd & H). exists buf.
    case_bool_decide; [by apply outcome_bind_ok_inv in H as (? & _ & [=])|].
    apply outcome_bind_ok_inv in H as (u & Hc & H). apply check_ok_inv, bool_decide_eq_true in Hc.
    injection H as <- <-. done.
  - intros (buf & -> & Hd & Et). cbn [nonnull mbind outcome_bind]. rewrite Hd.
    cbn [mbind outcome_bind]. rewrite Et. by rewrite bool_decide_false, bool_decide_true by done.
Qed.

(** ** What the callers provide *)
Section honest.
Context {NaCl : Sodium} {HS : SodiumSpec NaCl} (out0 : bytes) (Hout0 : is_n AUTH_MAX_DATAGRAM out0).

Definition keypair (sk pub : bytes) : Prop := canonical sk ∧ auth_scalarmult_base sk = Ok pub.

(** A context whose identity has been filled in. *)
Record ctx_wf (c : auth_client_ctx_t) : Prop := {
  cw_device_id : is_n 32 (c_device_id c);
  cw_keys : keypair (c_device_sk c) (c_device_pub c);
  cw_session_id : is_n 16 (c_session_id c);
  cw_seq : is_u32 (c_seq c);
  cw_role_code : is_u64 (c_role_code c)
}.

(** The proof can be made, and neither its challenge nor its response is the
    zero scalar, for which libsodium's multiplication fails. *)
Definition good_proof (prove : outcome auth_err_t auth_schnorr_proof_t)
    (challenge : bytes → outcome auth_err_t bytes) : Prop :=
  ∃ p c, prove = Ok p ∧ challenge (sp_a p) = Ok c ∧ load_le (sp_s p) ≠ 0%Z ∧ load_le c ≠ 0%Z.

Lemma good_proof_verifies prove chal (verify : auth_schnorr_proof_t → outcome auth_err_t bool) :
  good_proof prove chal →
  (∀ p, prove = Ok p → schnorr_wf p ∧ accepts_unless_zero (chal (sp_a p)) (verify p) p) →
  ∃ p, prove = Ok p ∧ schnorr_wf p ∧ ∀ e, check_call (verify p) e = Ok tt.
Proof.
  intros (p & c & Ep & Ec & Hs & Hc) H. exists p. split; [done|].
  destruct (H p Ep) as (Hw & c' & Ec' & Hv). split; [done|]. intros e.
  rewrite Ec in Ec'. injection Ec' as <-. unfold check_call. by rewrite (proj2 Hv).
Qed.

Lemma keypair_point sk pub : keypair sk pub → is_n 32 pub ∧ auth_check_point pub = Ok tt.
Proof.
  intros [Hc E]. split; [by eapply length_scalarmult_base|]. apply check_point_ok.
  apply scalarmult_base_ok in E as (-> & Hn & _); [|done]. by eexists.
Qed.

Lemma send_next_run t payload c :
  is_n 16 (c_session_id c) → is_u32 (c_seq c) → length payload ≤ AUTH_MAX_PAYLOAD →
  send_from out0 (send_next t payload) c =
    Ok (wire_packet t (c_session_id c) (u32 (c_seq c + 1)) payload, set_seq (u32 (c_seq c + 1)) c).
Proof.
  intros Hs Hq Hp. set (seq := u32 (c_seq c + 1)).
  assert (Hq' : is_u32 seq) by (apply Z.mod_pos_bound; lia).
  destruct (build_packet out0 t (c_session_id c) seq payload Hout0 Hs Hq' Hp) as (out & E & El).
  unfold send_from, send_next. pstep. pstep. fold seq. cbn [c_seq c_session_id set_seq].
  change (c_seq (set_seq seq c)) with seq. change (c_session_id (set_seq seq c)) with (c_session_id c).
  rewrite E. by rewrite El.
Qed.

(** [send] over a bind whose first part keeps the buffer. *)
Lemma send_step {S A} (m : M auth_err_t (S * bytes) A) (k : A → M auth_err_t (S * bytes) nat) s a s' :
  m (s, out0) = (Ok a, (s', out0)) →
  send_from out0 (m ≫= k) s = send_from out0 (k a) s'.
Proof. intros H. unfold send_from. by rewrite bind_run, H. Qed.
End honest.

Ltac sstep := erewrite send_step by reflexivity; cbv beta iota zeta.
Tactic Notation "sstep" "by" uconstr(eq) :=
  erewrite send_step by (cbn [lift on_ctx on_out]; rewrite eq; reflexivity); cbv beta iota zeta.

(** ** The setup exchange *)
Section setup.
Context {NaCl : Sodium} {HS : SodiumSpec NaCl} (out0 : bytes) (Hout0 : is_n AUTH_MAX_DATAGRAM out0).

(** The stored commitment opens to the role code with the stored blinding. *)
Definition role_ok (c : auth_client_ctx_t) : Prop :=
  commits_to (c_role_commitment c) (c_role_code c) (c_role_blind c) ∧ canonical (c_role_blind c) ∧
  is_u64 (c_role_code c) ∧ c_has_role c = true.

Definition with_role_of (c1 c : auth_client_ctx_t) : auth_client_ctx_t :=
  set_has_role (c_has_role c1) (set_role_commitment (c_role_commitment c1)
    (set_role_blind (c_role_blind c1) (set_role_code (c_role_code c1) c))).

Definition default_role (code : Z) : Z := if (code =? 0)%Z then 1%Z else code.

Definition role_available (wide_blind : bytes) (c : auth_client_ctx_t) : Prop :=
  if c_has_role c then role_ok c
  else ∃ C, auth_make_role_commitment (default_role (c_role_code c)) (auth_random_scalar wide_blind) = Ok C.

Lemma ensure_role_run wb c :
  is_u64 (c_role_code c) → role_available wb c →
  ∃ c1, ensure_role wb c = (Ok tt, c1) ∧ role_ok c1 ∧ c1 = with_role_of c1 c.
Proof.
  unfold role_available, ensure_role. intros Hu H. destruct (c_has_role c) eqn:Hr.
  - exists c. split; [pstep; by rewrite Hr|]. split; [done|]. unfold with_role_of. by destruct c.
  - destruct H as [C E].
    assert (Hd : is_u64 (default_role (c_role_code c))).
    { unfold default_role. destruct (_ =? _)%Z; [concrete_range|done]. }
    exists (set_has_role true (set_role_commitment C (set_role_blind (auth_random_scalar wb)
      (set_role_code (default_role (c_role_code c)) c)))).
    split; [|split; [split_and!|]].
    + pstep. rewrite Hr. unfold default_role in *.
      assert (Hm : (if (c_role_code c =? 0)%Z then modify (set_role_code 1%Z) else mret tt) c =
        (Ok (E := auth_err_t) tt, set_role_code (if (c_role_code c =? 0)%Z then 1%Z else c_role_code c) c))
        by (destruct (_ =? _)%Z; [done|by destruct c]).
      rewrite bind_run, Hm. pstep. pstep. cbn [c_role_code c_role_blind set_role_blind set_role_code].
      pstep by E. by pstep.
    + cbn. by apply make_commits; [|apply reduce_canonical|].
    + apply reduce_canonical.
    + done.
    + done.
    + by destruct c.
Qed.

(** The SETUP_1 message of a context. *)
Definition setup1_of (token : bytes) (c : auth_client_ctx_t) : auth_setup1_t :=
  {| s1_pairing_token := token_field token; s1_pairing_token_len := length token;
     s1_device_id := c_device_id c; s1_device_pub := c_device_pub c;
     s1_client_nonce := c_client_nonce c; s1_role_commitment := c_role_commitment c |}.

Lemma length_commits_to C role blind : commits_to C role blind → is_n 32 C.
Proof. intros (h & _ & ->). apply length_senc. Qed.

Lemma setup1_of_wf token c :
  length token ≤ 128 → is_n 32 (c_device_id c) → is_n 32 (c_device_pub c) →
  is_n 32 (c_client_nonce c) → is_n 32 (c_role_commitment c) → setup1_wf (setup1_of token c).
Proof.
  intros Ht H1 H2 H3 H4. unfold setup1_wf, setup1_of, token_field. cbn -[drop zeros].
  split_and!; try done.
  - unfold is_n. rewrite length_app, length_drop. unfold zeros. rewrite length_replicate.
    unfold AUTH_MAX_PAIRING_TOKEN. lia.
  - rewrite drop_app_length. unfold zeros. by rewrite drop_replicate.
Qed.

Lemma token_buffer token c :
  length token ≤ AUTH_MAX_PAIRING_TOKEN →
  (if 0 <? length token
   then x ← lift (loadn (default [] (Some token)) 0 (length token));
        lift (copy_into (zeros AUTH_MAX_PAIRING_TOKEN) x)
   else mret (zeros AUTH_MAX_PAIRING_TOKEN)) c =
  (Ok (E := auth_err_t) (token_field token), (c : auth_client_ctx_t * bytes)).
Proof.
  intros Ht. destruct (0 <? length token) eqn:E0; bool_to_prop.
  - rewrite bind_run. cbn [lift default]. rewrite loadn_ok, drop_0, firstn_all by done.
    rewrite copy_into_run; [done|]. unfold zeros. by rewrite length_replicate.
  - destruct token; [|cbn in E0; lia]. done.
Qed.

Lemma build_setup1_run nonce wb token c c1 :
  ctx_wf c → is_n 32 nonce → length token ≤ 128 →
  ensure_role wb (set_client_nonce nonce c) = (Ok tt, c1) →
  role_ok c1 → c1 = with_role_of c1 (set_client_nonce nonce c) →
  send_from out0 (auth_client_build_setup1 nonce wb (Some token) (length token)) c =
    Ok (wire_packet AUTH_PKT_SETUP_1 (c_session_id c) (u32 (c_seq c + 1)) (wire_setup1 (setup1_of token c1)),
        set_seq (u32 (c_seq c + 1)) c1).
Proof.
  intros Hc Hn Ht Er (Hco & _) Ec1. destruct Hc. pose proof (keypair_point _ _ cw_keys0) as [Hp _].
  unfold auth_client_build_setup1, auth_random_bytes32.
  rewrite (proj2 (Nat.leb_le _ _)) by done. cbn [require].
  sstep. rewrite (bool_decide_false (Some token = NULL)) by done. rewrite andb_false_r. sstep.
  sstep. sstep by Er. erewrite send_step by (by apply token_buffer). sstep.
  assert (Hs1 : setup1_wf (setup1_of token c1)).
  { apply setup1_of_wf; [done|by rewrite Ec1..|]. by eapply length_commits_to. }
  pose proof (local_encode_codec (encode := auth_setup1_encode) _ Hs1) as El.
  unfold setup1_of at 1 in El. sstep by El.
  assert (Es : c_session_id c1 = c_session_id c) by (rewrite Ec1; reflexivity).
  assert (Eq : c_seq c1 = c_seq c) by (rewrite Ec1; reflexivity).
  rewrite send_next_run; rewrite ?Es, ?Eq; try done.
  by apply (codec_fits (encode := auth_setup1_encode)).
Qed.

(** How a server handler ends: it builds the packet and reads it back. *)
Lemma send_server_packet {S} t sid seq payload (k : bytes → M auth_err_t S unit) s s' :
  is_n 16 sid → is_u32 seq → length payload ≤ AUTH_MAX_PAYLOAD →
  k (wire_packet t sid seq payload) s = (Ok tt, s') →
  send_from out0 (out_len ← on_out (auth_packet_build t (Some sid) seq (Some payload) (length payload));
        '(_, out) ← get;
        packet ← lift (loadn out 0 out_len);
        on_ctx (k packet);;
        mret out_len) s = Ok (wire_packet t sid seq payload, s').
Proof.
  intros Hs Hq Hp Hk. destruct (build_packet out0 t sid seq payload Hout0 Hs Hq Hp) as (out & E & El).
  unfold send_from. pstep by E. pstep. pstep by (El auth_err_t). pstep by Hk. cbn [mret M_ret].
  by rewrite El.
Qed.

Lemma reply_ack t sid seq :
  is_n 16 sid → is_u32 seq → reply_from out0 (send_ack t sid seq) = Ok (wire_packet t sid seq [AUTH_ACK_BYTE]).
Proof.
  intros Hs Hq. unfold reply_from, send_ack.
  destruct (build_packet out0 t sid seq [AUTH_ACK_BYTE] Hout0 Hs Hq) as (out & E & El); [apply Nat.leb_le; reflexivity|].
  pstep by local_encode_ack. rewrite E. apply El.
Qed.

Definition token_accepted (require_pairing_token : ptr bytes) (token : bytes) (n : nat) : Prop :=
  match require_pairing_token with
  | Some expect => n = length expect ∧ take n token = expect
  | None => True
  end.

Lemma token_check (m : M auth_err_t (auth_pending_setup_t * bytes) nat) s1 rtoken s :
  token_accepted rtoken (s1_pairing_token s1) (s1_pairing_token_len s1) →
  send_from out0 (match rtoken with
        | Some expect =>
            require ((s1_pairing_token_len s1 =? length expect) &&
                     memeq (take (length expect) (s1_pairing_token s1)) expect)
              AUTH_ERR_PAIRING_TOKEN_BAD
        | None => mret tt
        end;; m) s = send_from out0 m s.
Proof.
  intros H. destruct rtoken as [expect|]; [|by erewrite send_step by reflexivity].
  destruct H as [Hl Ht]. rewrite Hl in *. rewrite Nat.eqb_refl, Ht, memeq_refl.
  by erewrite send_step by reflexivity.
Qed.

Lemma check_point_or_identity x :
  match auth_check_point (senc x) with Err AUTH_ERR_IDENTITY_POINT => Ok tt | o => o end = Ok tt.
Proof.
  destruct (auth_check_point (senc x)) as [[]|e|] eqn:E; [done| |].
  - by apply check_point_err in E as [[-> _]|[_ E]]; [|rewrite sdec_senc in E].
  - unfold auth_check_point in E. repeat case_match; done.
Qed.

Definition setup2_of (server_nonce setup_challenge server_pub : bytes) (p : auth_schnorr_proof_t) :
    auth_setup2_t :=
  {| s2_server_nonce := server_nonce; s2_setup_challenge := setup_challenge;
     s2_server_pub := server_pub; s2_server_proof := p |}.

Lemma handle_setup1_run sid seq s1 ssk spub rtoken sn sc wide pend x p :
  setup1_wf s1 → is_n 16 sid → is_u32 seq → is_n 32 spub → is_n 32 sn → is_n 16 sc →
  token_accepted rtoken (s1_pairing_token s1) (s1_pairing_token_len s1) →
  auth_check_point (s1_device_pub s1) = Ok tt → s1_role_commitment s1 = senc x →
  auth_prove_setup_server wide ssk (s1_device_id s1) (s1_device_pub s1) spub (s1_client_nonce s1)
    sn sc = Ok p → schnorr_wf p →
  send_from out0 (auth_server_handle_setup1 sid seq (Some (wire_setup1 s1)) ssk spub rtoken sn sc wide) pend =
    let packet := wire_packet AUTH_PKT_SETUP_2 sid seq (wire_setup2 (setup2_of sn sc spub p)) in
    Ok (packet, cache_setup_response packet (pending_setup_init sid s1 spub sn sc)).
Proof.
  intros Hs1 Hsid Hseq Hspub Hsn Hsc Htok Hdp Hrc Hp Hpw.
  unfold auth_server_handle_setup1, auth_random_bytes32. cbn [deref]. sstep.
  sstep by (proj2 (codec_decode (decode := auth_setup1_decode) (wire_setup1 s1) s1) (conj Hs1 eq_refl)).
  rewrite token_check by done. sstep by Hdp. rewrite Hrc. sstep by (check_point_or_identity x). sstep.
  sstep by Hp.
  assert (H2 : setup2_wf (setup2_of sn sc spub p)) by done.
  pose proof (local_encode_codec (encode := auth_setup2_encode) _ H2) as El.
  unfold setup2_of at 1 in El. sstep by El.
  apply (send_server_packet _ _ _ _ (λ packet, modify (cache_setup_response packet))); try done.
  by apply (codec_fits (encode := auth_setup2_encode)).
Qed.

(** The client takes the server's key when none is pinned. *)
Definition pin_accepted (spub : bytes) (allow_tofu : bool) (c : auth_client_ctx_t) : Prop :=
  if c_has_pinned_server c then c_server_pub_pinned c = spub else allow_tofu = true.

Lemma pin_server_run spub allow_tofu c :
  pin_accepted spub allow_tofu c →
  pin_server spub allow_tofu c = (Ok tt, set_has_pinned true (set_pinned spub c)).
Proof.
  unfold pin_accepted, pin_server. pstep. destruct (c_has_pinned_server c) eqn:Hp.
  - intros <-. rewrite memeq_refl. destruct c; cbn in *. by subst.
  - intros ->. reflexivity.
Qed.

Definition after_setup2 (s2 : auth_setup2_t) (c : auth_client_ctx_t) : auth_client_ctx_t :=
  set_pending_challenge (s2_setup_challenge s2) (set_pending_server_nonce (s2_server_nonce s2)
    (set_pending_server_pub (s2_server_pub s2) (set_has_pinned true (set_pinned (s2_server_pub s2) c)))).

Lemma handle_setup2_run sid seq s2 c allow_tofu :
  sid = c_session_id c → is_n 16 sid → is_u32 seq → setup2_wf s2 →
  auth_check_point (s2_server_pub s2) = Ok tt → pin_accepted (s2_server_pub s2) allow_tofu c →
  check_call (auth_verify_setup_server (s2_server_proof s2) (s2_server_pub s2) (c_device_id c)
    (c_device_pub c) (c_client_nonce c) (s2_server_nonce s2) (s2_setup_challenge s2))
    AUTH_ERR_PROOF_VERIFY = Ok tt →
  receive (auth_client_handle_setup2 (Some (wire_packet AUTH_PKT_SETUP_2 sid seq (wire_setup2 s2)))
    allow_tofu) c = Ok (after_setup2 s2 c).
Proof.
  intros Hsid Hl Hseq H2 Hcp Hpin Hv. unfold receive, auth_client_handle_setup2.
  pstep by (open_reply_packet AUTH_PKT_SETUP_2 sid seq (wire_setup2 s2) Hl Hseq ltac:(done)).
  pstep. cbn [hdr_session_id packet_header]. rewrite Hsid, memeq_refl. pstep.
  pstep by (proj2 (codec_decode (decode := auth_setup2_decode) (wire_setup2 s2) s2) (conj H2 eq_refl)).
  pstep by Hcp. pstep by (pin_server_run _ _ _ Hpin). pstep by Hv. done.
Qed.

Lemma build_setup3_run wide c p :
  is_n 16 (c_session_id c) → is_u32 (c_seq c) →
  auth_prove_setup_client wide (c_device_sk c) (c_device_id c) (c_device_pub c)
    (c_pending_server_pub c) (c_client_nonce c) (c_pending_server_nonce c)
    (c_pending_setup_challenge c) = Ok p → schnorr_wf p →
  send_from out0 (auth_client_build_setup3 wide) c =
    Ok (wire_packet AUTH_PKT_SETUP_3 (c_session_id c) (u32 (c_seq c + 1))
          (wire_setup3 {| s3_client_proof := p |}), set_seq (u32 (c_seq c + 1)) c).
Proof.
  intros Hs Hq Hp Hw. unfold auth_client_build_setup3. sstep. sstep by Hp.
  assert (H3 : setup3_wf {| s3_client_proof := p |}) by done.
  sstep by (local_encode_codec (encode := auth_setup3_encode) _ H3).
  apply send_next_run; [done..|]. by apply (codec_fits (encode := auth_setup3_encode)).
Qed.

Lemma handle_setup3_run pend sid seq p :
  sid = ps_session_id pend → is_n 16 sid → is_u32 seq → schnorr_wf p →
  check_call (auth_verify_setup_client p (ps_device_id pend) (ps_device_pub pend)
    (ps_server_pub pend) (ps_client_nonce pend) (ps_server_nonce pend) (ps_setup_challenge pend))
    AUTH_ERR_PROOF_VERIFY = Ok tt →
  reply_from out0 (auth_server_handle_setup3 pend sid seq (Some (wire_setup3 {| s3_client_proof := p |}))) =
    Ok (wire_packet AUTH_PKT_SETUP_ACK sid seq [AUTH_ACK_BYTE]).
Proof.
  intros Hsid Hl Hq Hw Hv. rewrite <- (reply_ack AUTH_PKT_SETUP_ACK sid seq Hl Hq).
  assert (H3 : setup3_wf {| s3_client_proof := p |}) by done.
  unfold reply_from, auth_server_handle_setup3. cbn [deref]. pstep.
  rewrite Hsid, memeq_refl. pstep.
  pstep by (proj2 (codec_decode (decode := auth_setup3_decode) _ _) (conj H3 eq_refl)).
  pstep. cbn [s3_client_proof]. by rewrite Hv.
Qed.

Lemma handle_setup_ack_run sid seq c :
  is_n 16 sid → is_u32 seq →
  receive (auth_client_handle_setup_ack (Some (wire_packet AUTH_PKT_SETUP_ACK sid seq [AUTH_ACK_BYTE]))) c
    = Ok c.
Proof.
  intros Hl Hq. unfold receive, auth_client_handle_setup_ack.
  by pstep by (open_reply_packet AUTH_PKT_SETUP_ACK sid seq _ Hl Hq ltac:(done)).
Qed.
End setup.

(** The random bytes of the two sides. *)
Record setup_draws := {
  sd_client_nonce : bytes;
  sd_role_blind : bytes;
  sd_server_nonce : bytes;
  sd_challenge : bytes;
  sd_server_proof : bytes;
  sd_client_proof : bytes
}.

Definition setup_draws_wf (d : setup_draws) : Prop :=
  is_n 32 (sd_client_nonce d) ∧ is_n 32 (sd_server_nonce d) ∧ is_n 16 (sd_challenge d).

(** SETUP_1 and SETUP_2, then SETUP_3 and SETUP_ACK. *)
Definition setup_open {NaCl : Sodium} (server_sk server_pub : bytes) (required token : ptr bytes)
    (token_len : nat) (allow_tofu : bool) (d : setup_draws) (c : auth_client_ctx_t)
    (pending : auth_pending_setup_t) : outcome auth_err_t (auth_client_ctx_t * auth_pending_setup_t) :=
  '(p1, c) ← send (auth_client_build_setup1 (sd_client_nonce d) (sd_role_blind d) token token_len) c;
  '(h1, in1) ← auth_header_decode (Some p1);
  '(p2, pending) ← send (auth_server_handle_setup1 (hdr_session_id h1) (hdr_seq h1) (Some in1)
                            server_sk server_pub required (sd_server_nonce d) (sd_challenge d)
                            (sd_server_proof d)) pending;
  c ← receive (auth_client_handle_setup2 (Some p2) allow_tofu) c;
  mret (c, pending).

Definition setup_close {NaCl : Sodium} (d : setup_draws) (c : auth_client_ctx_t)
    (pending : auth_pending_setup_t) : outcome auth_err_t auth_client_ctx_t :=
  '(p3, c) ← send (auth_client_build_setup3 (sd_client_proof d)) c;
  '(h3, in3) ← auth_header_decode (Some p3);
  p4 ← reply (auth_server_handle_setup3 pending (hdr_session_id h3) (hdr_seq h3) (Some in3));
  receive (auth_client_handle_setup_ack (Some p4)) c.

Definition setup_exchange {NaCl : Sodium} (server_sk server_pub : bytes) (required token : ptr bytes)
    (token_len : nat) (allow_tofu : bool) (d : setup_draws) (c : auth_client_ctx_t)
    (pending : auth_pending_setup_t) : outcome auth_err_t (auth_client_ctx_t * auth_pending_setup_t) :=
  '(c, pending) ← setup_open server_sk server_pub required token token_len allow_tofu d c pending;
  c ← setup_close d c pending;
  mret (c, pending).

(** The two sides agree on who is enrolled. *)
Record enrolled {NaCl : Sodium} {HS : SodiumSpec NaCl} (c : auth_client_ctx_t)
    (pending : auth_pending_setup_t) (server_pub : bytes) : Prop := {
  en_pinned : c_has_pinned_server c = true ∧ c_server_pub_pinned c = server_pub;
  en_role : role_ok c;
  en_session : ps_session_id pending = c_session_id c;
  en_device : ps_device_id pending = c_device_id c ∧ ps_device_pub pending = c_device_pub c;
  en_commitment : ps_role_commitment pending = c_role_commitment c;
  en_server : ps_server_pub pending = server_pub
}.

(** The role that a SETUP_1 carries: its commitment, with the opening that the device keeps. *)
Definition role_fields (c : auth_client_ctx_t) : bytes * bytes * Z := (c_role_commitment c, c_role_blind c, c_role_code c).

Definition chosen_role {NaCl : Sodium} (nonce wide_blind : bytes) (c : auth_client_ctx_t) : bytes * bytes * Z :=
  role_fields (ensure_role wide_blind (set_client_nonce nonce c)).2.

(** The draws that both sides know after SETUP_2. *)
Record opened {NaCl : Sodium} (d : setup_draws) (c c' : auth_client_ctx_t) (pending : auth_pending_setup_t)
    (server_pub : bytes) : Prop := {
  op_identity : c_device_id c' = c_device_id c ∧ c_device_pub c' = c_device_pub c ∧
                c_device_sk c' = c_device_sk c ∧ c_session_id c' = c_session_id c;
  op_seq : c_seq c' = u32 (c_seq c + 1);
  op_nonce : c_client_nonce c' = sd_client_nonce d ∧ ps_client_nonce pending = sd_client_nonce d;
  op_server_nonce : c_pending_server_nonce c' = sd_server_nonce d ∧
                    ps_server_nonce pending = sd_server_nonce d;
  op_challenge : c_pending_setup_challenge c' = sd_challenge d ∧
                 ps_setup_challenge pending = sd_challenge d;
  op_server : c_pending_server_pub c' = server_pub;
  op_role : role_fields c' = chosen_role (sd_client_nonce d) (sd_role_blind d) c
}.

Ltac xstep := cbn [mbind outcome_bind].
Tactic Notation "xstep" "by" uconstr(eq) := erewrite eq; cbn [mbind outcome_bind].

Lemma is_u32_u32 z : is_u32 (u32 z).
Proof. apply Z.mod_pos_bound. lia. Qed.

Section exchange.
Context {NaCl : Sodium} {HS : SodiumSpec NaCl} (server_sk server_pub : bytes).
Implicit Types (d : setup_draws) (c : auth_client_ctx_t).

Lemma after_setup1_setup2 packet d sid token c1 c ps :
  ensure_role (sd_role_blind d) (set_client_nonce (sd_client_nonce d) c) = (Ok tt, c1) →
  role_ok c1 → c1 = with_role_of c1 (set_client_nonce (sd_client_nonce d) c) → sid = c_session_id c →
  let c' := after_setup2 (setup2_of (sd_server_nonce d) (sd_challenge d) server_pub ps)
              (set_seq (u32 (c_seq c + 1)) c1) in
  let pending := cache_setup_response packet (pending_setup_init sid (setup1_of token c1) server_pub
                   (sd_server_nonce d) (sd_challenge d)) in
  enrolled c' pending server_pub ∧ opened d c c' pending server_pub.
Proof.
  intros Er Hr Ec1 -> c' pending. unfold pending, cache_setup_response, c'.
  split; constructor; try exact Hr; try (unfold chosen_role; by rewrite Er); try (destruct (_ <=? _)); try done; by rewrite Ec1.
Qed.

(** The packets of the two halves, whatever the buffers they are built in. *)
Definition opens (required : ptr bytes) (token : bytes) (allow_tofu : bool) d c (pending : auth_pending_setup_t)
    c' (pending' : auth_pending_setup_t) : Prop :=
  ∃ payload1 payload2 c1,
    let sid := c_session_id c in let seq := u32 (c_seq c + 1) in
    length payload1 ≤ AUTH_MAX_PAYLOAD ∧ length payload2 ≤ AUTH_MAX_PAYLOAD ∧
    (∀ out0, is_n AUTH_MAX_DATAGRAM out0 →
      send_from out0 (auth_client_build_setup1 (sd_client_nonce d) (sd_role_blind d) (Some token) (length token)) c =
        Ok (wire_packet AUTH_PKT_SETUP_1 sid seq payload1, c1)) ∧
    (∀ out0, is_n AUTH_MAX_DATAGRAM out0 →
      send_from out0 (auth_server_handle_setup1 sid seq (Some payload1) server_sk server_pub required (sd_server_nonce d)
        (sd_challenge d) (sd_server_proof d)) pending = Ok (wire_packet AUTH_PKT_SETUP_2 sid seq payload2, pending')) ∧
    receive (auth_client_handle_setup2 (Some (wire_packet AUTH_PKT_SETUP_2 sid seq payload2)) allow_tofu) c1 = Ok c'.

Definition closes d c (pending : auth_pending_setup_t) c' : Prop :=
  ∃ payload3,
    let sid := c_session_id c in let seq := u32 (c_seq c + 1) in
    length payload3 ≤ AUTH_MAX_PAYLOAD ∧
    (∀ out0, is_n AUTH_MAX_DATAGRAM out0 →
      send_from out0 (auth_client_build_setup3 (sd_client_proof d)) c = Ok (wire_packet AUTH_PKT_SETUP_3 sid seq payload3, c')) ∧
    (∀ out0, is_n AUTH_MAX_DATAGRAM out0 →
      reply_from out0 (auth_server_handle_setup3 pending sid seq (Some payload3)) =
        Ok (wire_packet AUTH_PKT_SETUP_ACK sid seq [AUTH_ACK_BYTE])) ∧
    receive (auth_client_handle_setup_ack (Some (wire_packet AUTH_PKT_SETUP_ACK sid seq [AUTH_ACK_BYTE]))) c' = Ok c'.

Lemma opens_run required token allow_tofu d c pending c' pending' :
  is_n 16 (c_session_id c) → opens required token allow_tofu d c pending c' pending' →
  setup_open server_sk server_pub required (Some token) (length token) allow_tofu d c pending = Ok (c', pending').
Proof.
  intros Hsid (payload1 & payload2 & c1 & _ & _ & E1 & E2 & E3). pose proof (is_u32_u32 (c_seq c + 1)) as Hq.
  unfold setup_open. xstep by E1; [|done]. xstep by header_of_packet; [|done..]. cbn [hdr_session_id hdr_seq packet_header].
  xstep by E2; [|done]. by xstep by E3.
Qed.

Lemma closes_run d c pending c' : is_n 16 (c_session_id c) → closes d c pending c' → setup_close d c pending = Ok c'.
Proof.
  intros Hsid (payload3 & _ & E1 & E2 & E3). pose proof (is_u32_u32 (c_seq c + 1)) as Hq.
  unfold setup_close. xstep by E1; [|done]. xstep by header_of_packet; [|done..]. cbn [hdr_session_id hdr_seq packet_header].
  by xstep by E2.
Qed.

Lemma setup_open_run required token allow_tofu d c pending :
  ctx_wf c → keypair server_sk server_pub → setup_draws_wf d →
  length token ≤ AUTH_MAX_PAIRING_TOKEN → required = None ∨ required = Some token →
  role_available (sd_role_blind d) c → pin_accepted server_pub allow_tofu c →
  good_proof (auth_prove_setup_server (sd_server_proof d) server_sk (c_device_id c) (c_device_pub c)
      server_pub (sd_client_nonce d) (sd_server_nonce d) (sd_challenge d))
    (λ a, setup_server_challenge (c_device_id c) (c_device_pub c) server_pub a (sd_client_nonce d)
      (sd_server_nonce d) (sd_challenge d)) →
  ∃ c' pending',
    opens required token allow_tofu d c pending c' pending' ∧
    enrolled c' pending' server_pub ∧ opened d c c' pending' server_pub.
Proof.
  intros Hc Hk (Hn & Hsn & Hsc) Ht Hreq Hrole Hpin Hgs.
  pose proof Hc as [Hid Hck Hsid Hseq Hru].
  pose proof (keypair_point _ _ Hk) as [Hspub Hsp]. pose proof (keypair_point _ _ Hck) as [Hdpub Hdp].
  destruct (ensure_role_run (sd_role_blind d) (set_client_nonce (sd_client_nonce d) c))
    as (c1 & Er & Hr1 & Ec1); [done|done|].
  destruct (good_proof_verifies _ _
    (λ p, auth_verify_setup_server p server_pub (c_device_id c) (c_device_pub c) (sd_client_nonce d)
            (sd_server_nonce d) (sd_challenge d)) Hgs) as (ps & Eps & Hpsw & Vs).
  { intros p Hp. destruct Hk as [Hk1 Hk2]. by eapply setup_server_complete. }
  pose proof Hr1 as (Hco & _). pose proof (length_commits_to _ _ _ Hco) as Hcl. destruct Hco as (h & _ & HC).
  assert (Hs1 : setup1_wf (setup1_of token c1)) by (apply setup1_of_wf; try done; rewrite Ec1; done).
  pose proof (is_u32_u32 (c_seq c + 1)) as Hq1.
  set (s2 := setup2_of (sd_server_nonce d) (sd_challenge d) server_pub ps).
  assert (setup2_wf s2) as H2 by done.
  set (packet := wire_packet AUTH_PKT_SETUP_2 (c_session_id c) (u32 (c_seq c + 1)) (wire_setup2 s2)).
  exists (after_setup2 s2 (set_seq (u32 (c_seq c + 1)) c1)).
  exists (cache_setup_response packet (pending_setup_init (c_session_id c) (setup1_of token c1) server_pub
            (sd_server_nonce d) (sd_challenge d))).
  split; [|by apply after_setup1_setup2]. exists (wire_setup1 (setup1_of token c1)), (wire_setup2 s2), (set_seq (u32 (c_seq c + 1)) c1).
  cbv zeta. split_and!.
  - by apply (codec_fits (encode := auth_setup1_encode)).
  - by apply (codec_fits (encode := auth_setup2_encode)).
  - intros out0 Ho. by apply build_setup1_run.
  - intros out0 Ho. eapply (handle_setup1_run out0 Ho); [done..| | |exact HC| |done].
    + destruct Hreq as [-> | ->]; [done|]. split; [done|]. cbn [s1_pairing_token setup1_of s1_pairing_token_len].
      unfold token_field. apply take_app_length.
    + cbn. by rewrite Ec1.
    + cbn [setup1_of s1_device_id s1_device_pub s1_client_nonce]. rewrite Ec1. exact Eps.
  - apply handle_setup2_run; [rewrite Ec1; reflexivity|done..| |].
    + unfold pin_accepted in *. by rewrite Ec1.
    + rewrite Ec1. apply Vs.
Qed.

Lemma setup_close_run d c0 c pending :
  ctx_wf c0 → keypair server_sk server_pub → setup_draws_wf d →
  enrolled c pending server_pub → opened d c0 c pending server_pub →
  good_proof (auth_prove_setup_client (sd_client_proof d) (c_device_sk c0) (c_device_id c0)
      (c_device_pub c0) server_pub (sd_client_nonce d) (sd_server_nonce d) (sd_challenge d))
    (λ a, setup_client_challenge (c_device_id c0) (c_device_pub c0) server_pub a (sd_client_nonce d)
      (sd_server_nonce d) (sd_challenge d)) →
  closes d c pending (set_seq (u32 (c_seq c + 1)) c).
Proof.
  intros [Hid Hck Hsid Hseq Hru] Hk (Hn & Hsn & Hsc)
    [_ _ Ess [Edi Edp] Ec Esp] [(O1 & O2 & O3 & O4) O5 [O6 O7] [O8 O9] [O10 O11] O12 _] Hgc.
  pose proof (keypair_point _ _ Hk) as [Hspub _]. pose proof (keypair_point _ _ Hck) as [Hdpub _].
  destruct (good_proof_verifies _ _
    (λ p, auth_verify_setup_client p (c_device_id c0) (c_device_pub c0) server_pub (sd_client_nonce d)
            (sd_server_nonce d) (sd_challenge d)) Hgc) as (pc & Epc & Hpcw & Vc).
  { intros p Hp. destruct Hck as [Hk1 Hk2]. by eapply setup_client_complete. }
  pose proof (is_u32_u32 (c_seq c + 1)) as Hq.
  assert (Hs : is_n 16 (c_session_id c)) by (by rewrite O4).
  assert (setup3_wf {| s3_client_proof := pc |}) as H3 by done.
  exists (wire_setup3 {| s3_client_proof := pc |}). cbv zeta. split_and!.
  - by apply (codec_fits (encode := auth_setup3_encode)).
  - intros out0 Ho. apply build_setup3_run; [done|done|rewrite O5; apply is_u32_u32| |done].
    by rewrite O1, O2, O3, O6, O8, O10, O12.
  - intros out0 Ho. apply handle_setup3_run; [done|by rewrite <- Ess|done..|].
    by rewrite Edi, Edp, Esp, O1, O2, O7, O9, O11.
  - by apply handle_setup_ack_run.
Qed.
End exchange.

(** C2: the setup handshake between an honest device and an honest server
    completes: for all random draws for which the role commitment and the two
    Schnorr proofs can be made (no zero scalar among secret, challenge and
    response), the four messages are accepted, the device ends up with the
    server's key pinned and a commitment that opens to its role, and the
    server's record names the device's identifier, key and commitment. *)
Theorem setup_completes {NaCl : Sodium} {HS : SodiumSpec NaCl} server_sk server_pub required token
    allow_tofu d c pending :
  ctx_wf c → keypair server_sk server_pub → setup_draws_wf d →
  length token ≤ AUTH_MAX_PAIRING_TOKEN → required = None ∨ required = Some token →
  role_available (sd_role_blind d) c → pin_accepted server_pub allow_tofu c →
  good_proof (auth_prove_setup_server (sd_server_proof d) server_sk (c_device_id c) (c_device_pub c)
      server_pub (sd_client_nonce d) (sd_server_nonce d) (sd_challenge d))
    (λ a, setup_server_challenge (c_device_id c) (c_device_pub c) server_pub a (sd_client_nonce d)
      (sd_server_nonce d) (sd_challenge d)) →
  good_proof (auth_prove_setup_client (sd_client_proof d) (c_device_sk c) (c_device_id c)
      (c_device_pub c) server_pub (sd_client_nonce d) (sd_server_nonce d) (sd_challenge d))
    (λ a, setup_client_challenge (c_device_id c) (c_device_pub c) server_pub a (sd_client_nonce d)
      (sd_server_nonce d) (sd_challenge d)) →
  ∃ c' pending',
    setup_exchange server_sk server_pub required (Some token) (length token) allow_tofu d c pending
      = Ok (c', pending') ∧
    enrolled c' pending' server_pub ∧ c_seq c' = u32 (c_seq c + 2).
Proof.
  intros Hc Hk Hd Ht Hreq Hrole Hpin Hgs Hgc. unfold setup_exchange. pose proof (cw_session_id _ Hc) as Hsid.
  destruct (setup_open_run server_sk server_pub required token allow_tofu d c pending)
    as (c1 & p1 & E1 & He & Ho); [done..|]. pose proof (op_identity _ _ _ _ _ Ho) as (_ & _ & _ & Es).
  xstep by (opens_run server_sk server_pub _ _ _ _ _ _ _ _ Hsid E1).
  xstep by (closes_run d c1 p1 (set_seq (u32 (c_seq c1 + 1)) c1)); [|by rewrite Es|by apply (setup_close_run server_sk server_pub d c)].
  eexists _, _. split; [reflexivity|]. split.
  - by destruct He as [? ? ? ? ? ?].
  - cbn. rewrite (op_seq _ _ _ _ _ Ho). unfold u32. rewrite Zplus_mod_idemp_l. f_equal. lia.
Qed.

(** A fresh device of the toy group, with the secret 9, and its draws. *)
Definition sample_ctx : auth_client_ctx_t :=
  {| c_device_root := zeros 32; c_device_id := replicate 32 Byte.x07; c_device_sk := store_le 32 9;
     c_device_pub := store_le 32 9; c_server_pub_pinned := zeros 32; c_has_pinned_server := false;
     c_role_commitment := zeros 32; c_role_blind := zeros 32; c_role_code := 0; c_has_role := false;
     c_session_id := replicate 16 Byte.x05; c_seq := 0; c_client_nonce := zeros 32;
     c_eph_secret := zeros 32; c_eph_c := zeros 32; c_pending_client_proof := sample_schnorr;
     c_pending_server_pub := zeros 32; c_pending_server_nonce := zeros 32;
     c_pending_setup_challenge := zeros 16; c_session_key := zeros 32; c_kc_th := zeros 32;
     c_kc_k_s2c := zeros 32; c_kc_k_c2s := zeros 32; c_auth_complete := false |}.

Definition sample_setup_draws : setup_draws :=
  {| sd_client_nonce := replicate 32 Byte.x01; sd_role_blind := sample_random 64;
     sd_server_nonce := replicate 32 Byte.x02; sd_challenge := replicate 16 Byte.x03;
     sd_server_proof := sample_random 63; sd_client_proof := sample_random 62 |}.

Definition sample_pending_setup : auth_pending_setup_t :=
  {| ps_session_id := []; ps_device_id := []; ps_device_pub := []; ps_role_commitment := [];
     ps_client_nonce := []; ps_server_nonce := []; ps_setup_challenge := []; ps_server_pub := [];
     ps_response_packet := []; ps_response_packet_len := 0 |}.

Lemma setup_completes_witness :
  ∃ c' pending',
    setup_exchange (NaCl := Toy.sodium) (store_le 32 4) (store_le 32 4) (Some (str_bytes "tok"))
      (Some (str_bytes "tok")) 3 true sample_setup_draws sample_ctx sample_pending_setup
      = Ok (c', pending') ∧
    enrolled (NaCl := Toy.sodium) c' pending' (store_le 32 4) ∧ c_seq c' = u32 2.
Proof.
  apply (setup_completes (NaCl := Toy.sodium)).
  - constructor; [reflexivity|split; [split; reflexivity|vm_compute; reflexivity]|reflexivity
      |concrete_range|concrete_range].
  - split; [split; reflexivity|vm_compute; reflexivity].
  - split_and!; reflexivity.
  - apply Nat.leb_le. reflexivity.
  - right. reflexivity.
  - eexists. vm_compute. reflexivity.
  - reflexivity.
  - eexists _, _. split; [vm_compute; reflexivity|]. split; [vm_compute; reflexivity|].
    split; vm_compute; discriminate.
  - eexists _, _. split; [vm_compute; reflexivity|]. split; [vm_compute; reflexivity|].
    split; vm_compute; discriminate.
Defined.
