(* ===== verification/AuthExchange.v ===== *)
(** The authentication exchange: AUTH_1, AUTH_2, AUTH_3, AUTH_ACK between a
    client and a server of [src/c/src/proto/proto.c].

    [auth_exchange] runs the two state machines against each other; the theorem
    [auth_completes] shows that honest parties accept each other and end with
    the same keys. *)
From S2P Require Export Handshake.

(** ** Lemmas on the cryptography *)
Section lemmas.
Context {NaCl : Sodium} {HS : SodiumSpec NaCl}.

Lemma length_rfc5869 salt ikm info l : l = 32 → is_n 32 (rfc5869 salt ikm info l).
Proof.
  intros ->. unfold is_n, rfc5869. rewrite length_take_le; [done|].
  rewrite (length_T_concat _ _ 0). len.
Qed.

Lemma derive_session_key_run a B nc ns pid ec es shared :
  is_n 32 nc → is_n 32 ns → auth_scalarmult a B = Ok shared →
  ∃ k, auth_derive_session_key a B nc ns pid ec es = Ok k ∧ is_n 32 k.
Proof.
  intros Hn Hs E. unfold auth_derive_session_key. xstep by E.
  assert (Hl : length shared = 32).
  { apply scalarmult_ok in E as (x & _ & -> & _). apply length_senc. }
  eexists. split; [apply hkdf_run|by apply length_rfc5869];
    first [apply Nat.ltb_lt; reflexivity|apply Nat.leb_le; reflexivity|done].
Qed.

Lemma kc_keys_run sk th :
  is_n 32 sk → ∃ k1 k2, kc_keys sk th = Ok (k1, k2) ∧ is_n 32 k1 ∧ is_n 32 k2.
Proof.
  intros Hs. unfold kc_keys, auth_derive_kc_keys, lbl.
  assert (Hr : ∀ info, length info = 6 → ∃ k,
    auth_hkdf_sha256 AUTH_MAC_KEY_LEN (Some th) (Some sk) AUTH_SESSION_KEY_LEN (Some info) 6 = Ok k ∧
    is_n 32 k).
  { intros info Hi. eexists. split; [apply hkdf_run|by apply length_rfc5869];
      first [done|apply Nat.ltb_lt; reflexivity|apply Nat.leb_le; reflexivity]. }
  destruct (Hr (str_bytes "kc s2c") eq_refl) as (k1 & -> & H1).
  destruct (Hr (str_bytes "kc c2s") eq_refl) as (k2 & -> & H2). by exists k1, k2.
Qed.

(** The two ephemeral keys have a shared secret. *)
Lemma shared_secret_ok a b A B :
  canonical a → canonical b → auth_scalarmult_base a = Ok A → auth_scalarmult_base b = Ok B →
  ∃ shared, auth_scalarmult a B = Ok shared ∧ auth_scalarmult b A = Ok shared.
Proof.
  intros Ha Hb EA EB. rewrite (shared_secret_eq b a B A) by done.
  apply scalarmult_base_ok in EA as (-> & HA & Ha0); [|done].
  apply scalarmult_base_ok in EB as (-> & HB & _); [|done].
  eexists. split; by apply scalarmult_canonical.
Qed.

(** Padding the array of branches changes nothing. *)
Lemma verify_role_set_pad bs pad roles c' pid nc ec :
  auth_verify_role_set_membership (bs ++ pad) (length bs) roles c' pid nc ec =
  auth_verify_role_set_membership bs (length bs) roles c' pid nc ec.
Proof.
  unfold auth_verify_role_set_membership. destruct (Nat.eqb_spec (length bs) (length roles)) as [E|]; [|done].
  by rewrite <- E, take_app_length, firstn_all.
Qed.

(** Every branch has the size of three encodings. *)
Lemma simulate_branch_wf h wide ti i consumed Y w bs w' :
  simulate_branches h wide ti i consumed Y w = Ok (bs, w') → Forall branch_wf bs.
Proof.
  revert i consumed w bs. induction Y as [|y Y IH]; intros i consumed w bs H; cbn [simulate_branches] in H.
  { injection H as <- <-. by apply list.Forall_nil. }
  destruct (i =? ti).
  - apply outcome_bind_ok_inv in H as (x & _ & H).
    apply outcome_bind_ok_inv in H as (a & Ea & H).
    apply outcome_bind_ok_inv in H as ([bs' w''] & E & H). injection H as <- <-.
    apply list.Forall_cons. split; [|by eapply IH].
    apply scalarmult_ok in Ea as (g & _ & -> & _). split; [apply length_senc|done].
  - apply outcome_bind_ok_inv in H as (x & _ & H). apply outcome_bind_ok_inv in H as (x' & _ & H).
    apply outcome_bind_ok_inv in H as (hs & _ & H). apply outcome_bind_ok_inv in H as (yc & _ & H).
    apply outcome_bind_ok_inv in H as (a & Ea & H).
    apply outcome_bind_ok_inv in H as ([bs' w''] & E & H). injection H as <- <-.
    apply list.Forall_cons. split; [|by eapply IH].
    apply point_sub_ok in Ea as (g1 & g2 & _ & _ & ->).
    split; [apply length_senc|]. split; apply reduce_canonical.
Qed.

Lemma role_set_branches_wf drawn roles c' role blind pid nc ec bs :
  auth_prove_role_set_membership drawn roles c' role blind pid nc ec = Ok bs →
  Forall branch_wf bs.
Proof.
  intros H. apply outcome_bind_ok_inv in H as (_ & _ & H).
  unfold auth_prove_role_set_membership_with_bytes in H.
  do 3 apply outcome_bind_ok_inv in H as (? & _ & H).
  apply outcome_bind_ok_inv in H as (h & _ & H). apply outcome_bind_ok_inv in H as (Y & _ & H).
  apply outcome_bind_ok_inv in H as ([bs0 w] & E & H). cbv beta iota in H.
  apply outcome_bind_ok_inv in H as (mc & _ & H). injection H as <-.
  apply simulate_branch_wf in E. apply list.Forall_lookup. intros i b Hb.
  rewrite list_lookup_alter in Hb. case_decide.
  - apply fmap_Some in Hb as (b0 & Hb0 & ->).
    apply list.Forall_lookup with (1 := E) in Hb0 as (Ha & _ & _).
    split; [done|]. split; [apply (scalar_sub_run _ _)|apply (scalar_add_run _ _)].
  - by apply list.Forall_lookup with (1 := E) in Hb.
Qed.

Lemma pid_length dp nc ec sp : is_n 32 (auth_compute_pid dp nc ec sp).
Proof. apply length_sha256. Qed.
End lemmas.

(** ** AUTH_1 *)
(** The random bytes of the two sides. *)
Record auth_draws := {
  ad_nonce : bytes;
  ad_eph : bytes;
  ad_delta : bytes;
  ad_client_proof : bytes;
  ad_rerand_proof : bytes;
  ad_role_set : nat → bytes;
  ad_server_eph : bytes;
  ad_server_nonce : bytes;
  ad_server_proof : bytes
}.

Definition auth_draws_wf (d : auth_draws) : Prop := is_n 32 (ad_nonce d) ∧ is_n 32 (ad_server_nonce d).

Section auth1.
Context {NaCl : Sodium} {HS : SodiumSpec NaCl}.
Implicit Types (roles : list Z) (d : auth_draws) (c : auth_client_ctx_t).

(** [a1] is the message that the context makes with the draws. *)
Record auth1_made roles d c (a1 : auth_auth1_t) (bs : list auth_set_branch_t) (blind' : bytes) : Prop := {
  m1_nonce : a1_nonce_c a1 = ad_nonce d;
  m1_eph : auth_scalarmult_base (auth_random_scalar (ad_eph d)) = Ok (a1_eph_c a1);
  m1_pid : a1_pid a1 = auth_compute_pid (c_device_pub c) (ad_nonce d) (a1_eph_c a1) (c_server_pub_pinned c);
  m1_commitment : auth_rerandomize_commitment (c_role_commitment c) (c_role_blind c)
                    (auth_random_scalar (ad_delta d)) = Ok (a1_c_prime a1, blind');
  m1_client : auth_prove_auth_client (ad_client_proof d) (c_device_sk c) (a1_pid a1) (a1_nonce_c a1)
                (a1_eph_c a1) = Ok (a1_client_proof a1);
  m1_rerand : auth_prove_rerandomization (ad_rerand_proof d) (c_role_commitment c) (a1_c_prime a1)
                (auth_random_scalar (ad_delta d)) (a1_pid a1) (a1_nonce_c a1) (a1_eph_c a1)
              = Ok (a1_rerand_proof a1);
  m1_roles : auth_prove_role_set_membership (ad_role_set d) roles (a1_c_prime a1) (c_role_code c) blind'
               (a1_pid a1) (a1_nonce_c a1) (a1_eph_c a1) = Ok bs;
  m1_branches : a1_branches a1 = bs ++ replicate (AUTH_MAX_ROLES - length bs) zero_branch;
  m1_n : a1_n_branches a1 = length bs
}.

(** Neither challenge nor response of its proofs is the zero scalar. *)
Definition nonzero_proof (p : auth_schnorr_proof_t) (challenge : outcome auth_err_t bytes) : Prop :=
  ∃ ch, challenge = Ok ch ∧ load_le (sp_s p) ≠ 0%Z ∧ load_le ch ≠ 0%Z.

Record auth1_good roles c (a1 : auth_auth1_t) (bs : list auth_set_branch_t) (blind' : bytes) : Prop := {
  g1_client : nonzero_proof (a1_client_proof a1) (auth_client_challenge (c_device_pub c)
                (sp_a (a1_client_proof a1)) (a1_pid a1) (a1_nonce_c a1) (a1_eph_c a1));
  g1_rerand : nonzero_proof (a1_rerand_proof a1) (rerand_challenge (a1_pid a1) (a1_nonce_c a1)
                (a1_eph_c a1) (c_role_commitment c) (a1_c_prime a1) (sp_a (a1_rerand_proof a1)));
  g1_roles : ∀ i b, roles !! i = Some (c_role_code c) → bs !! i = Some b →
               load_le (br_s b) ≠ 0%Z ∧ load_le (br_c b) ≠ 0%Z;
  g1_blind : load_le blind' ≠ 0%Z
}.

Lemma nonzero_accepts p chal (verify : outcome auth_err_t bool) e :
  nonzero_proof p chal → accepts_unless_zero chal verify p → check_call verify e = Ok tt.
Proof.
  intros (ch & Ec & Hs & Hc) (ch' & Ec' & Hv). rewrite Ec in Ec'. injection Ec' as <-.
  unfold check_call. by rewrite (proj2 Hv).
Qed.

Definition roles_wf roles : Prop :=
  Forall is_u64 roles ∧ length roles ≠ 0 ∧ length roles ≤ AUTH_MAX_ROLES.

(** The message verifies against the device that made it. *)
Lemma auth1_verifies roles d c a1 bs blind' server_pub lookup_fn :
  ctx_wf c → role_ok c → auth_draws_wf d → roles_wf roles → c_server_pub_pinned c = server_pub →
  lookup_fn NULL = Ok (c_device_pub c, c_role_commitment c) →
  auth1_made roles d c a1 bs blind' → auth1_good roles c a1 bs blind' →
  auth1_wf a1 ∧ auth1_checks a1 server_pub lookup_fn roles = Ok (c_device_pub c).
Proof.
  intros [Hid Hck Hsid Hseq Hru] (Hco & Hbl & _ & _) [Hn _] (Hr64 & _ & _) Hpin Hlk
    [E1 E2 E3 E4 E5 E6 E7 E8 E9] [G1 G2 G3 G4].
  assert (Hk : keypair (auth_random_scalar (ad_eph d)) (a1_eph_c a1)) by (split; [apply reduce_canonical|done]).
  destruct (keypair_point _ _ Hk) as [Hec Hecp]. rewrite <- E1 in Hn.
  assert (Hpid : is_n 32 (a1_pid a1)) by (rewrite E3; apply pid_length).
  pose proof (auth_client_complete _ _ _ _ _ _ _ (proj1 Hck) (proj2 Hck) Hpid Hn Hec E5) as [Hpw V1].
  pose proof (rerand_complete _ _ _ _ _ _ _ _ _ _ (reduce_canonical (ad_delta d)) Hpid Hn Hec E4 E6)
    as [Hrw V2].
  destruct (rerandomize_commits _ _ _ _ _ _ (reduce_canonical (ad_delta d)) Hco E4) as [Hco' Hbl'].
  pose proof (role_set_branches_wf _ _ _ _ _ _ _ _ _ E7) as Hbw.
  apply outcome_bind_ok_inv in E7 as ([] & Hn8 & E7). apply check_ok_inv, andb_true_iff in Hn8 as [_ Hn8].
  apply Nat.leb_le in Hn8.
  destruct (role_set_complete _ _ _ _ _ _ _ _ _ Hr64 Hbl' Hco' E7) as (Hl & i & b & Hi & Hb & V3).
  split.
  - unfold auth1_wf. rewrite E8, E9, take_app_length, drop_app_length, length_app, length_replicate, Hl.
    split_and!; try done; [by eapply length_commits_to|lia].
  - unfold auth1_checks. xstep by Hecp. destruct Hco' as (h & _ & HC). rewrite HC.
    xstep by check_point_or_identity. rewrite <- HC. xstep by Hlk.
    xstep by (nonzero_accepts _ _ _ AUTH_ERR_PROOF_VERIFY G1 V1). rewrite E1, <- Hpin, <- E3, memeq_refl. xstep.
    rewrite <- E1. cbn [check mbind outcome_bind]. xstep by (nonzero_accepts _ _ _ AUTH_ERR_PROOF_VERIFY G2 V2).
    rewrite E8, E9, verify_role_set_pad. unfold check_call. rewrite (proj2 V3); [done|].
    destruct (G3 i b Hi Hb). done.
Qed.

(** The context after AUTH_1 has been built. *)
Definition after_auth1 d (a1 : auth_auth1_t) c : auth_client_ctx_t :=
  set_seq (u32 (c_seq c + 1)) (set_client_proof (a1_client_proof a1) (set_eph_c (a1_eph_c a1)
    (set_eph_secret (auth_random_scalar (ad_eph d)) (set_client_nonce (ad_nonce d) c)))).

Lemma build_auth1_run out0 roles d c a1 bs blind' :
  is_n AUTH_MAX_DATAGRAM out0 →
  ctx_wf c → c_has_pinned_server c = true → c_has_role c = true → roles_wf roles → auth1_wf a1 →
  auth1_made roles d c a1 bs blind' →
  send_from out0 (auth_client_build_auth1 (ad_nonce d) (ad_eph d) (ad_delta d) (ad_client_proof d)
          (ad_rerand_proof d) (ad_role_set d) (Some roles)) c =
    Ok (wire_packet AUTH_PKT_AUTH_1 (c_session_id c) (u32 (c_seq c + 1)) (wire_auth1 a1),
        after_auth1 d a1 c).
Proof.
  intros Hout0 [Hid Hck Hsid Hseq Hru] Hpin Hrole (_ & Hn0 & Hn8) Hw [E1 E2 E3 E4 E5 E6 E7 E8 E9].
  unfold auth_client_build_auth1, auth_random_bytes32. cbn [deref]. sstep. sstep. rewrite Hpin. sstep.
  rewrite Hrole. sstep. rewrite (proj2 (Nat.eqb_neq _ _) Hn0), (proj2 (Nat.leb_le _ _) Hn8).
  sstep. sstep. sstep. sstep by E2. sstep. sstep.
  cbn [c_device_pub c_client_nonce c_eph_c c_server_pub_pinned c_role_commitment c_role_blind c_device_sk
    c_role_code set_eph_c set_eph_secret set_client_nonce].
  sstep by E4. rewrite <- E3. rewrite E1 in E5, E6, E7. sstep by E5. sstep. sstep by E6. sstep by E7.
  assert (Ea : {| a1_pid := a1_pid a1; a1_client_proof := a1_client_proof a1; a1_nonce_c := ad_nonce d;
                  a1_eph_c := a1_eph_c a1; a1_c_prime := a1_c_prime a1;
                  a1_rerand_proof := a1_rerand_proof a1;
                  a1_branches := bs ++ replicate (AUTH_MAX_ROLES - length bs) zero_branch;
                  a1_n_branches := length bs |} = a1).
  { rewrite <- E1, <- E8, <- E9. by destruct a1. }
  rewrite Ea. sstep by (local_encode_codec (encode := auth_auth1_encode) _ Hw).
  rewrite send_next_run; [done|done|done|done|by apply (codec_fits (encode := auth_auth1_encode))].
Qed.
End auth1.

(** ** AUTH_2, AUTH_3, AUTH_ACK *)
Section auth2.
Context {NaCl : Sodium} {HS : SodiumSpec NaCl}.

(** What both sides derive from the two messages. *)
Record session_keys := {
  k_session : bytes;
  k_th : bytes;
  k_s2c : bytes;
  k_c2s : bytes
}.

Record derived (a1 : auth_auth1_t) (server_pub : bytes) (ps : auth_schnorr_proof_t)
    (nonce_s eph_s eph_secret peer : bytes) (k : session_keys) : Prop := {
  dv_session : auth_derive_session_key eph_secret peer (a1_nonce_c a1) nonce_s (a1_pid a1)
                 (a1_eph_c a1) eph_s = Ok (k_session k);
  dv_th : auth_kc_transcript_hash (a1_pid a1) (a1_client_proof a1) (a1_nonce_c a1) (a1_eph_c a1)
            server_pub ps nonce_s eph_s = Ok (k_th k);
  dv_keys : kc_keys (k_session k) (k_th k) = Ok (k_s2c k, k_c2s k)
}.

Definition tag_of (key : bytes) (label : string) (th : bytes) : bytes :=
  auth_hmac_tag key (str_bytes label) th.

Definition auth2_of (server_pub : bytes) (ps : auth_schnorr_proof_t) (nonce_s eph_s : bytes)
    (k : session_keys) : auth_auth2_t :=
  {| a2_server_pub := server_pub; a2_server_proof := ps; a2_nonce_s := nonce_s; a2_eph_s := eph_s;
     a2_tag_s := tag_of (k_s2c k) "server finished" (k_th k) |}.

Definition pending_auth_of (sid dpub : bytes) (a1 : auth_auth1_t) (nonce_s eph_s : bytes)
    (k : session_keys) (packet : bytes) : auth_pending_auth_t :=
  let cached := length packet <=? AUTH_MAX_DATAGRAM in
  {| pa_session_id := sid; pa_device_id := zeros AUTH_DEVICE_ID_LEN; pa_device_pub := dpub;
     pa_pid := a1_pid a1; pa_nonce_c := a1_nonce_c a1; pa_nonce_s := nonce_s;
     pa_eph_c := a1_eph_c a1; pa_eph_s := eph_s; pa_session_key := k_session k; pa_kc_th := k_th k;
     pa_kc_k_s2c := k_s2c k; pa_kc_k_c2s := k_c2s k;
     pa_response_packet := if cached then packet ++ zeros (AUTH_MAX_DATAGRAM - length packet)
                           else zeros AUTH_MAX_DATAGRAM;
     pa_response_packet_len := if cached then length packet else 0 |}.

Lemma auth2_of_wf server_pub ps nonce_s eph_s k :
  is_n 32 server_pub → schnorr_wf ps → is_n 32 nonce_s → is_n 32 eph_s →
  auth2_wf (auth2_of server_pub ps nonce_s eph_s k).
Proof. intros. split_and!; try done. apply length_hmacsha256. Qed.

Lemma handle_auth1_run out0 sid seq a1 ssk spub lookup_fn roles wide_eph nonce wide pend dpub eph_s ps k :
  is_n AUTH_MAX_DATAGRAM out0 →
  is_n 16 sid → is_u32 seq → auth1_wf a1 → is_n 32 spub → is_n 32 nonce → is_n 32 eph_s → schnorr_wf ps →
  auth1_checks a1 spub lookup_fn roles = Ok dpub →
  auth_scalarmult_base (auth_random_scalar wide_eph) = Ok eph_s →
  auth_prove_auth_server wide ssk nonce eph_s = Ok ps →
  derived a1 spub ps nonce eph_s (auth_random_scalar wide_eph) (a1_eph_c a1) k →
  let packet := wire_packet AUTH_PKT_AUTH_2 sid seq (wire_auth2 (auth2_of spub ps nonce eph_s k)) in
  send_from out0 (auth_server_handle_auth1 sid seq (Some (wire_auth1 a1)) ssk spub (Some lookup_fn) (Some roles)
          wide_eph nonce wide) pend =
    Ok (packet, pending_auth_of sid dpub a1 nonce eph_s k packet).
Proof.
  intros Hout0 Hs Hq Hw Hsp Hn He Hpw Hck Ee Ep [D1 D2 D3] packet.
  unfold auth_server_handle_auth1, auth_random_bytes32. cbn [deref]. do 3 sstep.
  sstep by (proj2 (codec_decode (decode := auth_auth1_decode) _ _) (conj Hw eq_refl)).
  sstep by Hck. sstep by Ee. sstep by Ep. sstep by D1. sstep by D2. sstep by D3.
  pose proof (auth2_of_wf spub ps nonce eph_s k Hsp Hpw Hn He) as H2.
  pose proof (local_encode_codec (encode := auth_auth2_encode) _ H2) as El.
  unfold auth2_of at 1, tag_of at 1 in El. sstep by El.
  unfold packet. apply (send_server_packet out0 Hout0 AUTH_PKT_AUTH_2 sid seq _
    (λ packet, put (pending_auth_of sid dpub a1 nonce eph_s k packet))); [done..| |done].
  by apply (codec_fits (encode := auth_auth2_encode)).
Qed.

Definition after_auth2 (k : session_keys) (c : auth_client_ctx_t) : auth_client_ctx_t :=
  set_kc_k_c2s (k_c2s k) (set_kc_k_s2c (k_s2c k) (set_kc_th (k_th k) (set_session_key (k_session k) c))).

Lemma handle_auth2_run sid seq a1 spub ps nonce_s eph_s k c :
  is_n 16 sid → is_u32 seq → auth2_wf (auth2_of spub ps nonce_s eph_s k) → sid = c_session_id c →
  auth_check_point spub = Ok tt → auth_check_point eph_s = Ok tt → spub = c_server_pub_pinned c →
  check_call (auth_verify_auth_server ps spub nonce_s eph_s) AUTH_ERR_PROOF_VERIFY = Ok tt →
  a1_pid a1 = auth_compute_pid (c_device_pub c) (c_client_nonce c) (c_eph_c c) (c_server_pub_pinned c) →
  a1_nonce_c a1 = c_client_nonce c → a1_eph_c a1 = c_eph_c c →
  a1_client_proof a1 = c_pending_client_proof c →
  derived a1 spub ps nonce_s eph_s (c_eph_secret c) eph_s k →
  receive (auth_client_handle_auth2 (Some (wire_packet AUTH_PKT_AUTH_2 sid seq
    (wire_auth2 (auth2_of spub ps nonce_s eph_s k))))) c = Ok (after_auth2 k c).
Proof.
  intros Hs Hq H2 Hsid Hcs Hce Hpin Hv Epid En Ee Ep [D1 D2 D3]. unfold receive, auth_client_handle_auth2.
  pstep by open_reply_packet; [|done..]. pstep. cbn [hdr_session_id packet_header].
  rewrite Hsid, memeq_refl. pstep.
  pstep by (proj2 (codec_decode (decode := auth_auth2_decode) _ _) (conj H2 eq_refl)).
  cbn [a2_server_pub a2_server_proof a2_nonce_s a2_eph_s a2_tag_s auth2_of].
  pstep by Hcs. pstep by Hce. rewrite <- Hpin, memeq_refl. pstep. pstep by Hv.
  rewrite Hpin, <- Epid, <- En, <- Ee. pstep by D1. pstep. rewrite <- Ep. rewrite Hpin in D2. pstep by D2. pstep. pstep by D3.
  pstep. pstep. unfold tag_of. by rewrite memeq_refl.
Qed.

Definition auth3_of (key th : bytes) : auth_auth3_t := {| a3_tag_c := tag_of key "client finished" th |}.

Lemma build_auth3_run out0 c :
  is_n AUTH_MAX_DATAGRAM out0 →
  is_n 16 (c_session_id c) → is_u32 (c_seq c) →
  send_from out0 auth_client_build_auth3 c =
    Ok (wire_packet AUTH_PKT_AUTH_3 (c_session_id c) (u32 (c_seq c + 1))
          (wire_auth3 (auth3_of (c_kc_k_c2s c) (c_kc_th c))), set_seq (u32 (c_seq c + 1)) c).
Proof.
  intros Hout0 Hs Hq. unfold auth_client_build_auth3. sstep.
  assert (H3 : auth3_wf (auth3_of (c_kc_k_c2s c) (c_kc_th c))) by apply length_hmacsha256.
  pose proof (local_encode_codec (encode := auth_auth3_encode) _ H3) as El.
  unfold auth3_of at 1, tag_of at 1 in El. sstep by El.
  apply send_next_run; [done..|]. by apply (codec_fits (encode := auth_auth3_encode)).
Qed.

Lemma handle_auth3_run out0 pend sid seq :
  is_n AUTH_MAX_DATAGRAM out0 →
  sid = pa_session_id pend → is_n 16 sid → is_u32 seq →
  reply_from out0 (auth_server_handle_auth3 pend sid seq
           (Some (wire_auth3 (auth3_of (pa_kc_k_c2s pend) (pa_kc_th pend))))) =
    Ok (wire_packet AUTH_PKT_AUTH_ACK sid seq [AUTH_ACK_BYTE]).
Proof.
  intros Hout0 Hsid Hl Hq. rewrite <- (reply_ack out0 Hout0 AUTH_PKT_AUTH_ACK sid seq Hl Hq).
  assert (H3 : auth3_wf (auth3_of (pa_kc_k_c2s pend) (pa_kc_th pend))) by apply length_hmacsha256.
  unfold reply_from, auth_server_handle_auth3. cbn [deref]. pstep.
  rewrite Hsid, memeq_refl. pstep.
  pstep by (proj2 (codec_decode (decode := auth_auth3_decode) _ _) (conj H3 eq_refl)).
  cbn [a3_tag_c auth3_of]. unfold tag_of. rewrite memeq_refl. by pstep.
Qed.

Lemma handle_auth_ack_run sid seq c :
  is_n 16 sid → is_u32 seq →
  receive (auth_client_handle_auth_ack (Some (wire_packet AUTH_PKT_AUTH_ACK sid seq [AUTH_ACK_BYTE]))) c
    = Ok (set_auth_complete true c).
Proof.
  intros Hl Hq. unfold receive, auth_client_handle_auth_ack.
  by pstep by (open_reply_packet AUTH_PKT_AUTH_ACK sid seq _ Hl Hq ltac:(done)).
Qed.
End auth2.

(** ** The exchange *)
Definition auth_open {NaCl : Sodium} (server_sk server_pub : bytes) (lookup_fn : auth_registry_lookup_fn)
    (client_roles server_roles : list Z) (d : auth_draws) (c : auth_client_ctx_t)
    (pending : auth_pending_auth_t) : outcome auth_err_t (auth_client_ctx_t * auth_pending_auth_t) :=
  '(p1, c) ← send (auth_client_build_auth1 (ad_nonce d) (ad_eph d) (ad_delta d) (ad_client_proof d)
                     (ad_rerand_proof d) (ad_role_set d) (Some client_roles)) c;
  '(h1, in1) ← auth_header_decode (Some p1);
  '(p2, pending) ← send (auth_server_handle_auth1 (hdr_session_id h1) (hdr_seq h1) (Some in1) server_sk
                            server_pub (Some lookup_fn) (Some server_roles) (ad_server_eph d)
                            (ad_server_nonce d) (ad_server_proof d)) pending;
  c ← receive (auth_client_handle_auth2 (Some p2)) c;
  mret (c, pending).

Definition auth_close {NaCl : Sodium} (c : auth_client_ctx_t) (pending : auth_pending_auth_t) :
    outcome auth_err_t auth_client_ctx_t :=
  '(p3, c) ← send auth_client_build_auth3 c;
  '(h3, in3) ← auth_header_decode (Some p3);
  p4 ← reply (auth_server_handle_auth3 pending (hdr_session_id h3) (hdr_seq h3) (Some in3));
  receive (auth_client_handle_auth_ack (Some p4)) c.

Definition auth_exchange {NaCl : Sodium} (server_sk server_pub : bytes)
    (lookup_fn : auth_registry_lookup_fn) (client_roles server_roles : list Z) (d : auth_draws)
    (c : auth_client_ctx_t) (pending : auth_pending_auth_t) :
    outcome auth_err_t (auth_client_ctx_t * auth_pending_auth_t) :=
  '(c, pending) ← auth_open server_sk server_pub lookup_fn client_roles server_roles d c pending;
  c ← auth_close c pending;
  mret (c, pending).

(** Both sides hold the same keys for the same session and device. *)
Record keys_agree (c : auth_client_ctx_t) (pending : auth_pending_auth_t) : Prop := {
  ka_session_id : pa_session_id pending = c_session_id c;
  ka_device : pa_device_pub pending = c_device_pub c;
  ka_session_key : pa_session_key pending = c_session_key c ∧ is_n 32 (c_session_key c);
  ka_th : pa_kc_th pending = c_kc_th c;
  ka_s2c : pa_kc_k_s2c pending = c_kc_k_s2c c;
  ka_c2s : pa_kc_k_c2s pending = c_kc_k_c2s c
}.

Section auth_exchange.
Context {NaCl : Sodium} {HS : SodiumSpec NaCl} (server_sk server_pub : bytes).
Implicit Types (d : auth_draws) (c : auth_client_ctx_t).

(** The server's part of the draws is usable. *)
Definition server_good d (eph_s : bytes) : Prop :=
  auth_scalarmult_base (auth_random_scalar (ad_server_eph d)) = Ok eph_s ∧
  good_proof (auth_prove_auth_server (ad_server_proof d) server_sk (ad_server_nonce d) eph_s)
    (λ a, auth_server_challenge server_pub a (ad_server_nonce d) eph_s).

(** The two sides derive the same keys. *)
Lemma derived_both d a1 ps eph_s :
  auth_draws_wf d → auth1_wf a1 → schnorr_wf ps → is_n 32 server_pub → is_n 32 eph_s →
  auth_scalarmult_base (auth_random_scalar (ad_eph d)) = Ok (a1_eph_c a1) →
  auth_scalarmult_base (auth_random_scalar (ad_server_eph d)) = Ok eph_s →
  ∃ k, derived a1 server_pub ps (ad_server_nonce d) eph_s (auth_random_scalar (ad_server_eph d))
         (a1_eph_c a1) k ∧
       derived a1 server_pub ps (ad_server_nonce d) eph_s (auth_random_scalar (ad_eph d)) eph_s k ∧
       is_n 32 (k_session k).
Proof.
  intros [Hn Hsn] (W1 & W2 & W3 & W4 & _) Hps Hsp He E1 E2.
  destruct (shared_secret_ok _ _ _ _ (reduce_canonical (ad_eph d)) (reduce_canonical (ad_server_eph d)) E1 E2)
    as (sh & S1 & S2).
  destruct (derive_session_key_run _ _ (a1_nonce_c a1) (ad_server_nonce d) (a1_pid a1) (a1_eph_c a1) eph_s sh
    W3 Hsn S2) as (sk & K & Hsk).
  set (th := crypto_hash_sha256 (wire_transcript auth_ds_kc_v2 (kc_entries (a1_pid a1) (a1_client_proof a1)
    (a1_nonce_c a1) (a1_eph_c a1) server_pub ps (ad_server_nonce d) eph_s))).
  assert (T : auth_kc_transcript_hash (a1_pid a1) (a1_client_proof a1) (a1_nonce_c a1) (a1_eph_c a1)
    server_pub ps (ad_server_nonce d) eph_s = Ok th) by (by apply kc_transcript_hash_run).
  destruct (kc_keys_run sk th Hsk) as (k1 & k2 & Ek & _ & _).
  exists {| k_session := sk; k_th := th; k_s2c := k1; k_c2s := k2 |}. split; [by constructor|].
  split; [constructor; try done|done]. cbn. revert K. unfold auth_derive_session_key, auth_random_scalar,
    auth_scalar_from_wide in *. by rewrite S1, S2.
Qed.

(** The packets of the two halves, whatever the buffers they are built in. *)
Record auth_opens lookup_fn (roles : list Z) d c (a1 : auth_auth1_t) (payload2 : bytes) c' (pending' : auth_pending_auth_t) : Prop := {
  ao_length : length (wire_auth1 a1) ≤ AUTH_MAX_PAYLOAD ∧ length payload2 ≤ AUTH_MAX_PAYLOAD;
  ao_build out0 : is_n AUTH_MAX_DATAGRAM out0 →
    send_from out0 (auth_client_build_auth1 (ad_nonce d) (ad_eph d) (ad_delta d) (ad_client_proof d)
        (ad_rerand_proof d) (ad_role_set d) (Some roles)) c =
      Ok (wire_packet AUTH_PKT_AUTH_1 (c_session_id c) (u32 (c_seq c + 1)) (wire_auth1 a1), after_auth1 d a1 c);
  ao_handle out0 pending : is_n AUTH_MAX_DATAGRAM out0 →
    send_from out0 (auth_server_handle_auth1 (c_session_id c) (u32 (c_seq c + 1)) (Some (wire_auth1 a1)) server_sk server_pub
        (Some lookup_fn) (Some roles) (ad_server_eph d) (ad_server_nonce d) (ad_server_proof d)) pending =
      Ok (wire_packet AUTH_PKT_AUTH_2 (c_session_id c) (u32 (c_seq c + 1)) payload2, pending');
  ao_receive : receive (auth_client_handle_auth2
      (Some (wire_packet AUTH_PKT_AUTH_2 (c_session_id c) (u32 (c_seq c + 1)) payload2))) (after_auth1 d a1 c) = Ok c'
}.

Record auth_closes c (pending : auth_pending_auth_t) (payload3 : bytes) : Prop := {
  ac_length : length payload3 ≤ AUTH_MAX_PAYLOAD;
  ac_build out0 : is_n AUTH_MAX_DATAGRAM out0 →
    send_from out0 auth_client_build_auth3 c =
      Ok (wire_packet AUTH_PKT_AUTH_3 (c_session_id c) (u32 (c_seq c + 1)) payload3, set_seq (u32 (c_seq c + 1)) c);
  ac_handle out0 : is_n AUTH_MAX_DATAGRAM out0 →
    reply_from out0 (auth_server_handle_auth3 pending (c_session_id c) (u32 (c_seq c + 1)) (Some payload3)) =
      Ok (wire_packet AUTH_PKT_AUTH_ACK (c_session_id c) (u32 (c_seq c + 1)) [AUTH_ACK_BYTE]);
  ac_receive : receive (auth_client_handle_auth_ack
      (Some (wire_packet AUTH_PKT_AUTH_ACK (c_session_id c) (u32 (c_seq c + 1)) [AUTH_ACK_BYTE]))) (set_seq (u32 (c_seq c + 1)) c) =
    Ok (set_auth_complete true (set_seq (u32 (c_seq c + 1)) c))
}.

Lemma auth_opens_exists lookup_fn roles d c a1 bs blind' eph_s :
  ctx_wf c → role_ok c → keypair server_sk server_pub → auth_draws_wf d → roles_wf roles →
  c_has_pinned_server c = true → c_server_pub_pinned c = server_pub →
  lookup_fn NULL = Ok (c_device_pub c, c_role_commitment c) →
  auth1_made roles d c a1 bs blind' → auth1_good roles c a1 bs blind' → server_good d eph_s →
  ∃ k packet payload2, is_n 32 (k_session k) ∧ auth1_wf a1 ∧
    auth_opens lookup_fn roles d c a1 payload2 (after_auth2 k (after_auth1 d a1 c))
      (pending_auth_of (c_session_id c) (c_device_pub c) a1 (ad_server_nonce d) eph_s k packet).
Proof.
  intros Hc Hr Hk Hd Hroles Hp Hpin Hlk Hm Hg [Ees Hgs].
  destruct (auth1_verifies roles d c a1 bs blind' server_pub lookup_fn) as [Hw Hck]; [done..|].
  pose proof (is_u32_u32 (c_seq c + 1)) as Hq. pose proof (cw_session_id _ Hc) as Hsid.
  pose proof (keypair_point _ _ Hk) as [Hsp Hspc].
  assert (Hek : keypair (auth_random_scalar (ad_server_eph d)) eph_s) by (split; [apply reduce_canonical|done]).
  destruct (keypair_point _ _ Hek) as [Hes Hesc]. pose proof Hd as [Hn Hsn].
  destruct (good_proof_verifies _ _ (λ p, auth_verify_auth_server p server_pub (ad_server_nonce d) eph_s) Hgs)
    as (ps & Eps & Hps & Vs). { intros p Hpr. destruct Hk. by eapply auth_server_complete. }
  destruct (derived_both d a1 ps eph_s) as (k & D1 & D2 & Hl); [done..|apply Hm|done|].
  pose proof (auth2_of_wf server_pub ps (ad_server_nonce d) eph_s k Hsp Hps Hsn Hes) as H2.
  eexists k, _, (wire_auth2 (auth2_of server_pub ps (ad_server_nonce d) eph_s k)). split; [done|]. split; [done|]. constructor.
  - split; [by apply (codec_fits (encode := auth_auth1_encode))|by apply (codec_fits (encode := auth_auth2_encode))].
  - intros out0 Hout0. eapply build_auth1_run; try done; by apply Hr.
  - intros out0 pending Hout0.
    exact (handle_auth1_run out0 _ _ a1 _ _ _ _ _ _ _ pending _ _ ps k Hout0 Hsid Hq Hw Hsp Hsn Hes Hps Hck Ees Eps D1).
  - apply (handle_auth2_run _ _ a1); try done; [exact (m1_pid _ _ _ _ _ _ Hm)|exact (m1_nonce _ _ _ _ _ _ Hm)].
Qed.

Lemma auth_closes_exists c pending :
  is_n 16 (c_session_id c) → is_u32 (c_seq c) → pa_session_id pending = c_session_id c → pa_kc_k_c2s pending = c_kc_k_c2s c →
  pa_kc_th pending = c_kc_th c → auth_closes c pending (wire_auth3 (auth3_of (c_kc_k_c2s c) (c_kc_th c))).
Proof.
  intros Hsid Hq Es Ek Et. pose proof (is_u32_u32 (c_seq c + 1)) as Hq1.
  assert (H3 : auth3_wf (auth3_of (c_kc_k_c2s c) (c_kc_th c))) by apply length_hmacsha256. constructor.
  - by apply (codec_fits (encode := auth_auth3_encode)).
  - intros out0 Hout0. by apply build_auth3_run.
  - intros out0 Hout0. rewrite <- Ek, <- Et. by apply handle_auth3_run.
  - by apply handle_auth_ack_run.
Qed.

Lemma auth_opens_run lookup_fn roles d c a1 payload2 c' pending pending' :
  is_n 16 (c_session_id c) → auth_opens lookup_fn roles d c a1 payload2 c' pending' →
  auth_open server_sk server_pub lookup_fn roles roles d c pending = Ok (c', pending').
Proof.
  intros Hsid [_ E1 E2 E3]. pose proof (is_u32_u32 (c_seq c + 1)) as Hq. unfold auth_open. xstep by E1; [|done].
  xstep by header_of_packet; [|done..]. cbn [hdr_session_id hdr_seq packet_header]. xstep by E2; [|done]. by xstep by E3.
Qed.

Lemma auth_closes_run c pending payload3 :
  is_n 16 (c_session_id c) → auth_closes c pending payload3 →
  auth_close c pending = Ok (set_auth_complete true (set_seq (u32 (c_seq c + 1)) c)).
Proof.
  intros Hsid [_ E1 E2 E3]. pose proof (is_u32_u32 (c_seq c + 1)) as Hq. unfold auth_close. xstep by E1; [|done].
  xstep by header_of_packet; [|done..]. cbn [hdr_session_id hdr_seq packet_header]. xstep by E2; [|done]. exact E3.
Qed.
End auth_exchange.

(** C1: the authentication exchange between an enrolled device and the server
    whose key it has pinned completes: for all random draws whose proofs can be
    made with no zero scalar, the four messages are accepted, the device marks
    the session complete, and both sides hold the same session key, transcript
    hash and confirmation keys, for the same session and device. *)
Theorem auth_completes {NaCl : Sodium} {HS : SodiumSpec NaCl} server_sk server_pub lookup_fn roles d c
    a1 bs blind' eph_s pending :
  ctx_wf c → role_ok c → keypair server_sk server_pub → auth_draws_wf d → roles_wf roles →
  c_has_pinned_server c = true → c_server_pub_pinned c = server_pub →
  lookup_fn NULL = Ok (c_device_pub c, c_role_commitment c) →
  auth1_made roles d c a1 bs blind' → auth1_good roles c a1 bs blind' →
  server_good server_sk server_pub d eph_s →
  ∃ c' pending', auth_exchange server_sk server_pub lookup_fn roles roles d c pending = Ok (c', pending') ∧
    c_auth_complete c' = true ∧ keys_agree c' pending' ∧ c_seq c' = u32 (c_seq c + 2).
Proof.
  intros Hc Hr Hk Hd Hroles Hp Hpin Hlk Hm Hg Hs.
  destruct (auth_opens_exists server_sk server_pub lookup_fn roles d c a1 bs blind' eph_s)
    as (k & packet & payload2 & Hl & _ & Ho); [done..|]. pose proof (cw_session_id _ Hc) as Hsid.
  unfold auth_exchange. xstep by (auth_opens_run _ _ _ _ _ _ _ _ _ pending _ Hsid Ho).
  set (c1 := after_auth2 k (after_auth1 d a1 c)). set (p1 := pending_auth_of _ _ _ _ _ _ _).
  assert (auth_closes c1 p1 (wire_auth3 (auth3_of (c_kc_k_c2s c1) (c_kc_th c1)))) as Hcl by (apply auth_closes_exists; try done; apply is_u32_u32).
  xstep by (auth_closes_run c1 p1 _ Hsid Hcl). eexists _, _. split; [reflexivity|]. split; [done|]. split; [by constructor|].
  cbn. unfold u32. rewrite Zplus_mod_idemp_l. f_equal. lia.
Qed.

(** The device of [sample_ctx] once it is enrolled, and a run of the toy group. *)
Definition sample_enrolled : auth_client_ctx_t := Eval vm_compute in
  match setup_exchange (NaCl := Toy.sodium) (store_le 32 4) (store_le 32 4) None (Some []) 0 true
          sample_setup_draws sample_ctx sample_pending_setup with
  | Ok (c, _) => c
  | _ => sample_ctx
  end.

Definition sample_auth_draws : auth_draws :=
  {| ad_nonce := replicate 32 Byte.x01; ad_eph := sample_random 61; ad_delta := sample_random 60;
     ad_client_proof := sample_random 59; ad_rerand_proof := sample_random 58;
     ad_role_set := sample_random; ad_server_eph := sample_random 57;
     ad_server_nonce := replicate 32 Byte.x02; ad_server_proof := sample_random 55 |}.

Definition sample_auth1 : auth_auth1_t := Eval vm_compute in
  match (p ← send (auth_client_build_auth1 (NaCl := Toy.sodium) (ad_nonce sample_auth_draws)
               (ad_eph sample_auth_draws) (ad_delta sample_auth_draws) (ad_client_proof sample_auth_draws)
               (ad_rerand_proof sample_auth_draws) (ad_role_set sample_auth_draws) (Some [7; 1]%Z))
               sample_enrolled;
         h ← auth_header_decode (Some p.1); auth_auth1_decode (Some h.2)) with
  | Ok a1 => a1
  | _ => {| a1_pid := []; a1_client_proof := sample_schnorr; a1_nonce_c := []; a1_eph_c := [];
            a1_c_prime := []; a1_rerand_proof := sample_schnorr; a1_branches := []; a1_n_branches := 0 |}
  end.

Definition sample_blind' : bytes := Eval vm_compute in
  match auth_rerandomize_commitment (NaCl := Toy.sodium) (c_role_commitment sample_enrolled)
          (c_role_blind sample_enrolled)
          (auth_random_scalar (NaCl := Toy.sodium) (ad_delta sample_auth_draws)) with
  | Ok (_, b) => b
  | _ => []
  end.

Definition sample_eph_s : bytes := Eval vm_compute in
  match auth_scalarmult_base (NaCl := Toy.sodium) (auth_random_scalar (NaCl := Toy.sodium)
          (ad_server_eph sample_auth_draws)) with
  | Ok e => e
  | _ => []
  end.

Definition sample_pending_auth : auth_pending_auth_t :=
  {| pa_session_id := []; pa_device_id := []; pa_device_pub := []; pa_pid := []; pa_nonce_c := [];
     pa_nonce_s := []; pa_eph_c := []; pa_eph_s := []; pa_session_key := []; pa_kc_th := [];
     pa_kc_k_s2c := []; pa_kc_k_c2s := []; pa_response_packet := []; pa_response_packet_len := 0 |}.

Lemma auth_completes_witness :
  ∃ c' pending',
    auth_exchange (NaCl := Toy.sodium) (store_le 32 4) (store_le 32 4)
      (λ _, Ok (c_device_pub sample_enrolled, c_role_commitment sample_enrolled)) [7; 1]%Z [7; 1]%Z
      sample_auth_draws sample_enrolled sample_pending_auth = Ok (c', pending') ∧
    c_auth_complete c' = true ∧ keys_agree c' pending' ∧ c_seq c' = u32 (c_seq sample_enrolled + 2).
Proof.
  eapply (auth_completes (NaCl := Toy.sodium) (store_le 32 4) (store_le 32 4) _ [7; 1]%Z
    sample_auth_draws sample_enrolled sample_auth1 (take 2 (a1_branches sample_auth1)) sample_blind' sample_eph_s).
  - constructor; [reflexivity|split; [split; reflexivity|vm_compute; reflexivity]|reflexivity
      |concrete_range|concrete_range].
  - split; [apply make_commits; [concrete_range|split; reflexivity|vm_compute; reflexivity]|].
    split; [split; reflexivity|]. split; [concrete_range|reflexivity].
  - split; [split; reflexivity|vm_compute; reflexivity].
  - split; reflexivity.
  - split; [|split; [discriminate|apply Nat.leb_le; reflexivity]].
    repeat (apply List.Forall_cons; [concrete_range|]). apply List.Forall_nil.
  - reflexivity.
  - vm_compute. reflexivity.
  - reflexivity.
  - constructor; vm_compute; reflexivity.
  - constructor.
    + eexists. split; [vm_compute; reflexivity|]. split; vm_compute; discriminate.
    + eexists. split; [vm_compute; reflexivity|]. split; vm_compute; discriminate.
    + intros [|[|i]] b Hi Hb; vm_compute in Hi; [discriminate Hi| |discriminate Hi].
      vm_compute in Hb. injection Hb as <-. split; vm_compute; discriminate.
    + vm_compute. discriminate.
  - split; [vm_compute; reflexivity|]. eexists _, _. split; [vm_compute; reflexivity|].
    split; [vm_compute; reflexivity|]. split; vm_compute; discriminate.
Defined.
