(* ===== verification/ProtoSafety.v ===== *)
(** Memory safety and state invariants of the protocol's state machines.

    With the program logic of [Prelude], every handler of
    [src/c/src/proto/proto.c] is shown to keep the sizes of the context's
    buffers and never to read or write out of bounds, whatever packet it gets. *)
From S2P Require Export AuthExchange.

(** The state of an operation with an output buffer of [cap] bytes. *)
Definition with_out {S} (I : S → Prop) (cap : nat) (s : S * bytes) : Prop :=
  I s.1 ∧ length s.2 = cap.

Lemma triple_on_ctx {S A} (I : S → Prop) cap (m : M auth_err_t S A) Q :
  triple I m Q → triple (with_out I cap) (on_ctx m) Q.
Proof.
  intros Hm [s out] [Hs Hl]. unfold on_ctx. destruct (Hm s Hs) as [Ho Hs'].
  by destruct (m s) as [o s'].
Qed.

Lemma triple_on_out {S A} (I : S → Prop) cap (m : M auth_err_t bytes A) Q :
  triple (λ out, length out = cap) m Q → triple (with_out I cap) (on_out m) Q.
Proof.
  intros Hm [s out] [Hs Hl]. unfold on_out. destruct (Hm out Hl) as [Ho Hl'].
  by destruct (m out) as [o out'].
Qed.

(** ** Packets *)
Lemma build_packet_good cap t sid seq payload :
  is_n 16 sid → is_u32 seq →
  triple (λ out, length out = cap) (auth_packet_build t (Some sid) seq (Some payload) (length payload))
    (λ n, n = AUTH_HEADER_LEN + length payload ∧ n ≤ cap).
Proof.
  intros Hs Hq out Hl.
  destruct (decide (length payload ≤ AUTH_MAX_PAYLOAD)) as [Hp|Hp];
    [destruct (decide (AUTH_HEADER_LEN + length payload ≤ length out)) as [Hb|Hb]|].
  - rewrite packet_build_run by done. cbn [fst snd good]. rewrite length_written; [by rewrite <- Hl|].
    by rewrite length_wire_packet.
  - assert (E : auth_packet_build t (Some sid) seq (Some payload) (length payload) out =
      (Err AUTH_ERR_BUFFER_TOO_SMALL, out)).
    { unfold auth_packet_build. rewrite bool_decide_false by done. cbn [andb negb require].
      do 2 pstep. rewrite (proj2 (Nat.leb_le _ _)) by done. do 2 pstep.
      by rewrite (proj2 (Nat.leb_gt _ _)) by lia. }
    by rewrite E.
  - assert (E : auth_packet_build t (Some sid) seq (Some payload) (length payload) out =
      (Err AUTH_ERR_PAYLOAD_TOO_LARGE, out)).
    { unfold auth_packet_build. rewrite bool_decide_false by done. cbn [andb negb require].
      do 2 pstep. by rewrite (proj2 (Nat.leb_gt _ _)) by lia. }
    by rewrite E.
Qed.

Lemma received_error_good payload : good (received_error payload) (λ e, e ≠ AUTH_OK).
Proof.
  unfold received_error. destruct payload as [|c0 [|c1 msg]]; [done..|].
  pose proof (packet_parse_error_run c0 c1 msg) as Ep. cbn [app] in Ep. rewrite Ep. cbn. intros E.
  pose proof (normalize_in_cases (load_le [c0; c1])) as H. rewrite E in H.
  apply wire_error_cases_spec in H as [H|H]; discriminate H.
Qed.

Lemma header_decode_good inp :
  good (auth_header_decode (Some inp)) (λ r, header_wf r.1).
Proof.
  destruct (auth_header_decode (Some inp)) as [[h p]|e|] eqn:E; [|done|].
  - by apply header_decode_ok in E as (H & _).
  - by apply header_decode_no_fault in E.
Qed.

Lemma open_reply_good t inp : good (open_reply t inp) (λ r, header_wf r.1).
Proof.
  unfold open_reply. eapply good_bind; [apply good_nonnull|]. intros buf _ _.
  eapply good_bind; [apply header_decode_good|]. intros [h payload] _ Hh. case_bool_decide.
  - eapply good_bind; [apply received_error_good|]. done.
  - eapply good_bind; [apply good_check|]. done.
Qed.

Lemma decode_good `{PayloadCodec A wf wire encode decode} buf : good (decode (Some buf)) wf.
Proof.
  destruct (decode (Some buf)) as [m|e|] eqn:E; [|done|].
  - by apply (codec_decode (encode := encode) (decode := decode)) in E as [Hw _].
  - by apply (codec_decode_safe (encode := encode) (decode := decode)) in E.
Qed.

Lemma encode_good `{PayloadCodec A wf wire encode decode} m :
  wf m → good (local_encode AUTH_MAX_PAYLOAD (encode (Some m))) (λ _, True).
Proof. intros Hm. by rewrite (local_encode_codec (encode := encode) (decode := decode)). Qed.

(** ** Cryptography *)
Section crypto.
Context {NaCl : Sodium} {HS : SodiumSpec NaCl}.

Lemma or_err_good {A} (o : option A) e : good (or_err o e) (λ a, o = Some a).
Proof. by destruct o. Qed.

Lemma scalarmult_good s p : good (auth_scalarmult s p) (is_n 32).
Proof.
  destruct (auth_scalarmult s p) as [q|e|] eqn:E; [|done|].
  - apply scalarmult_ok in E as (x & _ & -> & _). apply length_senc.
  - by apply or_err_ne_fault in E.
Qed.

Lemma scalarmult_base_good s : good (auth_scalarmult_base s) (is_n 32).
Proof. rewrite scalarmult_base_eq. apply scalarmult_good. Qed.

Lemma point_add_good a b : good (auth_point_add a b) (is_n 32).
Proof.
  destruct (auth_point_add a b) as [q|e|] eqn:E; [|done|].
  - apply point_add_ok in E as (x & y & _ & _ & ->). apply length_senc.
  - by apply or_err_ne_fault in E.
Qed.

Lemma point_sub_good a b : good (auth_point_sub a b) (is_n 32).
Proof.
  destruct (auth_point_sub a b) as [q|e|] eqn:E; [|done|].
  - apply point_sub_ok in E as (x & y & _ & _ & ->). apply length_senc.
  - by apply or_err_ne_fault in E.
Qed.

Lemma check_point_good p : good (auth_check_point p) (λ _, True).
Proof. unfold auth_check_point. by repeat case_match. Qed.

Lemma check_call_good o e : good o (λ _, True) → good (check_call o e) (λ _, True).
Proof.
  intros H. eapply good_bind; [exact H|]. intros b _ _.
  eapply good_mono; [apply good_check|done].
Qed.

Lemma or_false_good o : good o (λ _, True) → good (or_false o) (λ _, True).
Proof. by destruct o. Qed.

Lemma attr_h_good : good auth_attr_h (is_n 32).
Proof. destruct attr_h_ok as [h ->]. apply length_senc. Qed.

Lemma role_commitment_good role blind : good (auth_make_role_commitment role blind) (is_n 32).
Proof.
  unfold auth_make_role_commitment. eapply good_bind; [apply attr_h_good|]. intros h _ _.
  eapply good_bind; [apply scalarmult_base_good|]. intros g _ _.
  eapply good_bind; [apply scalarmult_good|]. intros hb _ _. apply point_add_good.
Qed.

Lemma rerandomize_good C blind delta :
  good (auth_rerandomize_commitment C blind delta) (λ r, is_n 32 r.1 ∧ is_n 32 r.2).
Proof.
  unfold auth_rerandomize_commitment. eapply good_bind; [apply attr_h_good|]. intros h _ _.
  eapply good_bind; [apply scalarmult_good|]. intros hd _ _.
  eapply good_bind; [apply point_add_good|]. intros c _ Hc.
  split; [done|apply (scalar_add_run blind delta)].
Qed.

(** The provers and verifiers of one Schnorr statement. *)
Lemma prove_good (chal : bytes → outcome auth_err_t bytes) g r x :
  (∀ a, is_n 32 a → good (chal a) (λ _, True)) → good g (is_n 32) →
  good (a ← g; c ← chal a;
        mret {| sp_a := a; sp_s := auth_scalar_add r (auth_scalar_mul c x) |}) schnorr_wf.
Proof.
  intros Hc Hg. eapply good_bind; [exact Hg|]. intros a _ Ha.
  eapply good_bind; [by apply Hc|]. intros c _ _.
  split; [done|]. cbn. apply (scalar_add_run r (auth_scalar_mul c x)).
Qed.

Lemma verify_good (chal : outcome auth_err_t bytes) P g a :
  good chal (λ _, True) → good g (λ _, True) →
  good (or_false (c ← chal; gs ← g; pc ← p_times c P; rhs ← auth_point_add a pc;
                  mret (points_equal gs rhs))) (λ _, True).
Proof.
  intros Hc Hg. apply or_false_good. eapply good_bind; [exact Hc|]. intros c _ _.
  eapply good_bind; [exact Hg|]. intros gs _ _.
  eapply good_bind; [apply scalarmult_good|]. intros pc _ _.
  eapply good_bind; [apply point_add_good|]. done.
Qed.

Lemma prove_setup_client_good wide x id pub spub cn sn sc :
  is_n 32 id → is_n 32 pub → is_n 32 spub → is_n 32 cn → is_n 32 sn → is_n 16 sc →
  good (auth_prove_setup_client wide x id pub spub cn sn sc) schnorr_wf.
Proof.
  intros. apply (prove_good (λ a, setup_client_challenge id pub spub a cn sn sc));
    [|apply scalarmult_base_good]. intros a Ha. by rewrite setup_client_challenge_run.
Qed.

Lemma prove_setup_server_good wide x id pub spub cn sn sc :
  is_n 32 id → is_n 32 pub → is_n 32 spub → is_n 32 cn → is_n 32 sn → is_n 16 sc →
  good (auth_prove_setup_server wide x id pub spub cn sn sc) schnorr_wf.
Proof.
  intros. apply (prove_good (λ a, setup_server_challenge id pub spub a cn sn sc));
    [|apply scalarmult_base_good]. intros a Ha. by rewrite setup_server_challenge_run.
Qed.

Lemma verify_setup_client_good p id pub spub cn sn sc :
  schnorr_wf p → is_n 32 id → is_n 32 pub → is_n 32 spub → is_n 32 cn → is_n 32 sn → is_n 16 sc →
  good (auth_verify_setup_client p id pub spub cn sn sc) (λ _, True).
Proof.
  intros [? ?] ? ? ? ? ? ?. apply verify_good; [by rewrite setup_client_challenge_run|].
  eapply good_mono; [apply scalarmult_base_good|done].
Qed.

Lemma verify_setup_server_good p id pub spub cn sn sc :
  schnorr_wf p → is_n 32 id → is_n 32 pub → is_n 32 spub → is_n 32 cn → is_n 32 sn → is_n 16 sc →
  good (auth_verify_setup_server p spub id pub cn sn sc) (λ _, True).
Proof.
  intros [? ?] ? ? ? ? ? ?. apply verify_good; [by rewrite setup_server_challenge_run|].
  eapply good_mono; [apply scalarmult_base_good|done].
Qed.

Lemma prove_auth_client_good wide x pid nc ec :
  is_n 32 pid → is_n 32 nc → is_n 32 ec → good (auth_prove_auth_client wide x pid nc ec) schnorr_wf.
Proof.
  intros. unfold auth_prove_auth_client, auth_prove_auth_client_with_bytes.
  eapply good_bind; [apply scalarmult_base_good|]. intros a _ Ha.
  eapply good_bind; [apply scalarmult_base_good|]. intros pk _ Hpk.
  rewrite auth_client_challenge_run by done. split; [done|]. apply (scalar_add_run _ _).
Qed.

Lemma prove_auth_server_good wide x ns es :
  is_n 32 ns → is_n 32 es → good (auth_prove_auth_server wide x ns es) schnorr_wf.
Proof.
  intros. unfold auth_prove_auth_server, auth_prove_auth_server_with_bytes.
  eapply good_bind; [apply scalarmult_base_good|]. intros a _ Ha.
  eapply good_bind; [apply scalarmult_base_good|]. intros pk _ Hpk.
  rewrite auth_server_challenge_run by done. split; [done|]. apply (scalar_add_run _ _).
Qed.

Lemma verify_auth_client_good p pub pid nc ec :
  schnorr_wf p → is_n 32 pub → is_n 32 pid → is_n 32 nc → is_n 32 ec →
  good (auth_verify_auth_client p pub pid nc ec) (λ _, True).
Proof.
  intros [? ?] ? ? ? ?. apply verify_good; [by rewrite auth_client_challenge_run|].
  eapply good_mono; [apply scalarmult_base_good|done].
Qed.

Lemma verify_auth_server_good p pub ns es :
  schnorr_wf p → is_n 32 pub → is_n 32 ns → is_n 32 es →
  good (auth_verify_auth_server p pub ns es) (λ _, True).
Proof.
  intros [? ?] ? ? ?. apply verify_good; [by rewrite auth_server_challenge_run|].
  eapply good_mono; [apply scalarmult_base_good|done].
Qed.

Lemma prove_rerand_good wide C C' delta pid nc ec :
  is_n 32 C → is_n 32 C' → is_n 32 pid → is_n 32 nc → is_n 32 ec →
  good (auth_prove_rerandomization wide C C' delta pid nc ec) schnorr_wf.
Proof.
  intros. unfold auth_prove_rerandomization, auth_prove_rerandomization_with_bytes.
  eapply good_bind; [apply attr_h_good|]. intros h _ _.
  apply (prove_good (λ a, rerand_challenge pid nc ec C C' a)); [|apply scalarmult_good].
  intros a Ha. by rewrite rerand_challenge_run.
Qed.

Lemma verify_rerand_good p C C' pid nc ec :
  schnorr_wf p → is_n 32 C → is_n 32 C' → is_n 32 pid → is_n 32 nc → is_n 32 ec →
  good (auth_verify_rerandomization p C C' pid nc ec) (λ _, True).
Proof.
  intros [? ?] ? ? ? ? ?. apply or_false_good. eapply good_bind; [apply attr_h_good|]. intros h _ _.
  rewrite rerand_challenge_run by done. cbn [mbind outcome_bind].
  eapply good_bind; [apply scalarmult_good|]. intros hs _ _.
  eapply good_bind; [apply point_sub_good|]. intros df _ _.
  eapply good_bind; [apply scalarmult_good|]. intros dc _ _.
  eapply good_bind; [apply point_add_good|]. done.
Qed.
End crypto.

(** *** The role-set proof *)
Section role_set.
Context {NaCl : Sodium} {HS : SodiumSpec NaCl}.

Lemma role_set_Y_good roles c' : good (role_set_Y roles c') (λ Y, length Y = length roles).
Proof.
  induction roles as [|r roles IH]; [done|]. cbn [role_set_Y].
  eapply good_bind; [apply scalarmult_base_good|]. intros gr _ _.
  eapply good_bind; [apply point_sub_good|]. intros y _ _.
  eapply good_bind; [exact IH|]. intros ys _ Hl. cbn. by rewrite Hl.
Qed.

Lemma check_branches_good h bs Y : length bs = length Y → good (check_branches h bs Y) (λ _, True).
Proof.
  revert Y. induction bs as [|b bs IH]; intros [|y Y] Hl; try done. cbn [check_branches].
  eapply good_bind; [apply scalarmult_good|]. intros hs _ _.
  eapply good_bind; [apply scalarmult_good|]. intros yc _ _.
  eapply good_bind; [apply point_add_good|]. intros rhs _ _.
  case_match; [|done]. apply IH. by injection Hl.
Qed.

Lemma branches_a_wf bs : Forall branch_wf bs → Forall (is_n 32) (map br_a bs).
Proof. intros H. apply list.Forall_fmap. eapply list.Forall_impl; [exact H|]. by intros b [? _]. Qed.

Lemma verify_role_set_good bs n roles c' pid nc ec :
  Forall is_u64 roles → length bs = AUTH_MAX_ROLES → Forall branch_wf (take n bs) →
  is_n 32 c' → is_n 32 pid → is_n 32 nc → is_n 32 ec →
  good (auth_verify_role_set_membership bs n roles c' pid nc ec) (λ _, True).
Proof.
  intros Hr Hl Hb Hc Hp Hn He. unfold auth_verify_role_set_membership.
  destruct (Nat.eqb_spec n (length roles)) as [->|]; [|done]. cbn [negb orb].
  destruct (_ =? 0); [done|]. destruct (Nat.leb_spec (length roles) AUTH_MAX_ROLES) as [H8|]; [|done].
  cbn [negb orb]. apply or_false_good. eapply good_bind; [apply attr_h_good|]. intros h _ _.
  eapply good_bind; [apply role_set_Y_good|]. intros Y _ HY. cbv zeta.
  assert (Ht : length (take (length roles) bs) = length roles) by (rewrite length_take; lia).
  rewrite role_set_challenge_run.
  - cbn [mbind outcome_bind]. case_match; [done|]. apply check_branches_good. by rewrite Ht, HY.
  - split_and!; try done; [by rewrite length_map|by apply branches_a_wf].
Qed.

(** What the loop over the branches still needs of the random bytes. *)
Definition branch_cost (true_idx i n : nat) : nat :=
  128 * n - (if (i <=? true_idx) && (true_idx <? i + n) then 64 else 0).

Lemma branch_cost_step ti i n :
  branch_cost ti i (S n) = (if i =? ti then 64 else 128) + branch_cost ti (S i) n.
Proof.
  unfold branch_cost. destruct (Nat.eqb_spec i ti) as [->|Hi].
  - rewrite Nat.leb_refl, (proj2 (Nat.ltb_lt ti (ti + S n))) by lia. cbn [andb].
    rewrite (proj2 (Nat.leb_gt (S ti) ti)) by lia. cbn [andb]. lia.
  - assert (Eb : (i <=? ti) && (ti <? i + S n) = (S i <=? ti) && (ti <? S i + n)).
    { apply eq_true_iff_eq. rewrite !andb_true_iff, !Nat.leb_le, !Nat.ltb_lt. lia. }
    rewrite Eb. destruct ((S i <=? ti) && (ti <? S i + n)) eqn:E; [|lia].
    apply andb_true_iff in E as [E1 E2]. bool_to_prop. lia.
Qed.

Lemma simulate_good h wide ti i consumed Y w :
  consumed + branch_cost ti i (length Y) ≤ length wide →
  good (simulate_branches h wide ti i consumed Y w) (λ r, length r.1 = length Y).
Proof.
  revert i consumed w. induction Y as [|y Y IH]; intros i consumed w Hc; [done|].
  cbn [length] in Hc. rewrite branch_cost_step in Hc. cbn [simulate_branches]. destruct (i =? ti).
  - rewrite loadn_ok by lia. cbn [mbind outcome_bind].
    eapply good_bind; [apply scalarmult_good|]. intros a _ _.
    eapply good_bind; [apply IH; lia|]. intros [bs w'] _ Hl. cbn in *. by rewrite Hl.
  - rewrite loadn_ok by lia. cbn [mbind outcome_bind]. rewrite loadn_ok by lia. cbn [mbind outcome_bind].
    eapply good_bind; [apply scalarmult_good|]. intros hs _ _.
    eapply good_bind; [apply scalarmult_good|]. intros yc _ _.
    eapply good_bind; [apply point_sub_good|]. intros a _ _.
    eapply good_bind; [apply IH; lia|]. intros [bs w'] _ Hl. cbn in *. by rewrite Hl.
Qed.

Lemma find_role_lt roles role i : find_role roles role = Some i → i < length roles.
Proof. intros H. apply find_role_ok in H. by eapply lookup_lt_Some. Qed.

Lemma prove_role_set_good drawn roles c' role blind pid nc ec :
  Forall is_u64 roles → (∀ n, length (drawn n) = n) → is_n 32 c' → is_n 32 pid → is_n 32 nc →
  is_n 32 ec →
  good (auth_prove_role_set_membership drawn roles c' role blind pid nc ec)
    (λ bs, length bs ≤ AUTH_MAX_ROLES ∧ Forall branch_wf bs).
Proof.
  intros Hr Hd Hc Hp Hn He.
  assert (Hg : good (auth_prove_role_set_membership drawn roles c' role blind pid nc ec)
    (λ bs, length bs ≤ AUTH_MAX_ROLES)).
  { unfold auth_prove_role_set_membership, auth_prove_role_set_membership_with_bytes.
    eapply good_bind; [apply good_check|]. intros [] _ Hb. cbv zeta. rewrite Hb.
    apply andb_true_iff in Hb as [Hb0 Hb8]. bool_to_prop. cbn [check mbind outcome_bind].
    eapply good_bind; [apply good_nonnull|]. intros ti _ Hti. apply find_role_lt in Hti.
    rewrite Hd, Nat.leb_refl. cbn [check mbind outcome_bind].
    eapply good_bind; [apply attr_h_good|]. intros h _ _.
    eapply good_bind; [apply role_set_Y_good|]. intros Y _ HY.
    eapply good_bind; [apply simulate_good|]. { rewrite Hd, HY. unfold branch_cost.
      rewrite (proj2 (Nat.leb_le 0 ti)), (proj2 (Nat.ltb_lt ti (0 + _))) by lia. cbn [andb]. lia. }
    intros [bs w] E Hl. cbn [fst] in Hl. apply simulate_branch_wf in E.
    rewrite role_set_challenge_run; [cbn; by rewrite length_alter, Hl, HY|].
    split_and!; try done; [by rewrite length_map, Hl, HY|by apply branches_a_wf]. }
  destruct (auth_prove_role_set_membership drawn roles c' role blind pid nc ec) as [bs|e|] eqn:E; [|done..].
  split; [exact Hg|by eapply role_set_branches_wf].
Qed.
End role_set.

(** ** The client *)
(** The buffers of the context have the sizes of their declarations. *)
Record ctx_sizes (c : auth_client_ctx_t) : Prop := {
  cs_device_id : is_n 32 (c_device_id c);
  cs_device_pub : is_n 32 (c_device_pub c);
  cs_pinned : is_n 32 (c_server_pub_pinned c);
  cs_commitment : is_n 32 (c_role_commitment c);
  cs_session_id : is_n 16 (c_session_id c);
  cs_seq : is_u32 (c_seq c);
  cs_nonce : is_n 32 (c_client_nonce c);
  cs_eph_c : is_n 32 (c_eph_c c);
  cs_proof : schnorr_wf (c_pending_client_proof c);
  cs_server_pub : is_n 32 (c_pending_server_pub c);
  cs_server_nonce : is_n 32 (c_pending_server_nonce c);
  cs_challenge : is_n 16 (c_pending_setup_challenge c)
}.

(** An assignment of a value of the right size to one field. *)
Ltac sizes := let H := fresh in intros ? H; destruct H; constructor; cbn; done || assumption.

Section client.
Context {NaCl : Sodium} {HS : SodiumSpec NaCl}.

Lemma triple_modify_sizes f (Q : unit → Prop) :
  (∀ c, ctx_sizes c → ctx_sizes (f c)) → Q tt → triple ctx_sizes (modify f : M auth_err_t _ _) Q.
Proof. intros Hf HQ. eapply triple_conseq; [by apply triple_modify|by intros []]. Qed.

Ltac assign :=
  eapply triple_bind;
  [first [apply triple_on_ctx, (triple_modify_sizes _ (λ _, True))
         |apply (triple_modify_sizes _ (λ _, True))]; [sizes|done]|intros _ _].

Lemma send_next_safe cap t payload :
  triple (with_out ctx_sizes cap) (send_next t payload) (λ n, n ≤ cap).
Proof.
  unfold send_next. eapply triple_bind; [apply triple_on_ctx, (triple_modify_sizes _ (λ _, True))|].
  - intros c []. constructor; try done. apply is_u32_u32.
  - done.
  - intros [] _. eapply triple_bind; [apply triple_get|cbv beta]. intros [c out] [[] _].
    apply triple_on_out. eapply triple_conseq; [by apply build_packet_good|]. by intros n [_ H].
Qed.

Lemma ensure_role_safe wide : triple ctx_sizes (ensure_role wide) (λ _, True).
Proof.
  unfold ensure_role. eapply triple_bind; [apply triple_get|cbv beta]. intros c Hc.
  destruct (c_has_role c); [by apply triple_ret|].
  eapply triple_bind; [|intros _ _; eapply triple_bind; [|intros _ _]].
  - instantiate (1 := λ _, True).
    destruct (_ =? _)%Z; [apply triple_modify_sizes; [sizes|done]|by apply triple_ret].
  - apply (triple_modify_sizes _ (λ _, True)); [sizes|done].
  - eapply triple_bind; [apply triple_get|cbv beta]. intros c' _.
    eapply triple_bind; [apply triple_lift, role_commitment_good|cbv beta]. intros C HC.
    assign. apply triple_modify_sizes; [sizes|done].
Qed.

Lemma build_setup1_safe cap nonce wide token n :
  is_n 32 nonce → (token = None ∨ ∃ x, token = Some x ∧ n ≤ length x) →
  triple (with_out ctx_sizes cap) (auth_client_build_setup1 nonce wide token n) (λ k, k ≤ cap).
Proof.
  intros Hn Ht. unfold auth_client_build_setup1.
  eapply triple_bind; [apply triple_require|cbv beta]. intros _ H128. bool_to_prop.
  eapply triple_bind; [apply triple_require|cbv beta]. intros _ Hnn. bool_to_prop.
  assign. eapply triple_bind; [apply triple_on_ctx, ensure_role_safe|cbv beta]. intros _ _.
  eapply triple_bind.
  { instantiate (1 := λ x, ∃ y, length y = n ∧ x = token_field y).
    destruct (Nat.ltb_spec 0 n) as [H0|H0].
    - cbn [andb] in Hnn. apply bool_decide_eq_false in Hnn.
      destruct Ht as [->|(x & -> & Hx)]; [done|]. cbn [default].
      apply (triple_bind _ _ _ (λ y, y = take n x)); [apply triple_lift; by rewrite loadn_ok, drop_0|].
      intros y ->. apply triple_lift. rewrite copy_into_run.
      + exists (take n x). split; [by apply length_take_le|done].
      + rewrite length_take_le by done. unfold zeros. by rewrite length_replicate.
    - apply triple_ret. exists []. by replace n with 0 by lia. }
  intros tok (y & Hy & ->). eapply triple_bind; [apply triple_get|cbv beta]. intros [c out] [[] _].
  eapply triple_bind; [apply triple_lift, (encode_good (encode := auth_setup1_encode))|].
  - subst n. by apply setup1_of_wf.
  - intros payload _. apply send_next_safe.
Qed.

Lemma pin_server_safe spub tofu : is_n 32 spub → triple ctx_sizes (pin_server spub tofu) (λ _, True).
Proof.
  intros Hs. unfold pin_server. eapply triple_bind; [apply triple_get|cbv beta]. intros c _.
  destruct (c_has_pinned_server c);
    [eapply triple_conseq; [apply triple_require|done]|].
  destruct tofu; [|apply triple_fail].
  assign. apply triple_modify_sizes; [sizes|done].
Qed.

Lemma handle_setup2_safe inp tofu : triple ctx_sizes (auth_client_handle_setup2 inp tofu) (λ _, True).
Proof.
  unfold auth_client_handle_setup2.
  eapply triple_bind; [apply triple_lift, open_reply_good|cbv beta]. intros [hdr payload] _.
  eapply triple_bind; [apply triple_get|cbv beta]. intros c [].
  eapply triple_bind; [apply triple_require|cbv beta]. intros _ _.
  eapply triple_bind; [apply triple_lift, (decode_good (decode := auth_setup2_decode))|cbv beta].
  intros s2 (H1 & H2 & H3 & H4).
  eapply triple_bind; [apply triple_lift, check_point_good|cbv beta]. intros _ _.
  eapply triple_bind; [by apply pin_server_safe|cbv beta]. intros _ _.
  eapply triple_bind; [by apply triple_lift, check_call_good, verify_setup_server_good|cbv beta]. intros _ _.
  assign.
  assign.
  apply triple_modify_sizes; [sizes|done].
Qed.

Lemma build_setup3_safe cap wide :
  triple (with_out ctx_sizes cap) (auth_client_build_setup3 wide) (λ k, k ≤ cap).
Proof.
  unfold auth_client_build_setup3. eapply triple_bind; [apply triple_get|cbv beta]. intros [c out] [[] _].
  eapply triple_bind; [by apply triple_lift, prove_setup_client_good|cbv beta]. intros p Hp.
  eapply triple_bind; [by apply triple_lift, (encode_good (encode := auth_setup3_encode))|cbv beta].
  intros payload _. apply send_next_safe.
Qed.

Lemma ack_decode_good payload : good (auth_ack_decode (Some payload)) (λ _, True).
Proof.
  destruct (decide (payload = [AUTH_ACK_BYTE])) as [->|Hn]; [by rewrite (proj2 (ack_decode_ok _))|].
  rewrite ack_decode_other; [done|]. by intros [= ->].
Qed.

Lemma handle_setup_ack_safe inp : triple ctx_sizes (auth_client_handle_setup_ack inp) (λ _, True).
Proof.
  unfold auth_client_handle_setup_ack.
  eapply triple_bind; [apply triple_lift, open_reply_good|cbv beta]. intros [hdr payload] _.
  apply triple_lift, ack_decode_good.
Qed.

Lemma build_auth1_safe cap nonce we wd wc wr drawn roles :
  is_n 32 nonce → (∀ n, length (drawn n) = n) → (∀ r, roles = Some r → Forall is_u64 r) →
  triple (with_out ctx_sizes cap) (auth_client_build_auth1 nonce we wd wc wr drawn roles) (λ k, k ≤ cap).
Proof.
  intros Hn Hd Hr. unfold auth_client_build_auth1, auth_random_bytes32.
  eapply triple_bind; [apply triple_deref|cbv beta]. intros rs Hrs. specialize (Hr rs Hrs).
  eapply triple_bind; [apply triple_get|cbv beta]. intros [c0 out0] _.
  do 3 (eapply triple_bind; [apply triple_require|cbv beta]; intros _ _).
  assign.
  assign.
  eapply triple_bind; [apply triple_lift, scalarmult_base_good|cbv beta]. intros ec Hec.
  assign.
  eapply triple_bind; [apply triple_get|cbv beta]. intros [c out] [[] _]. cbv zeta.
  assert (Hpid : is_n 32 (auth_compute_pid (c_device_pub c) (c_client_nonce c) (c_eph_c c)
    (c_server_pub_pinned c))) by apply pid_length.
  eapply triple_bind; [apply triple_lift, rerandomize_good|cbv beta]. intros [c' b'] [Hc' Hb'].
  eapply triple_bind; [by apply triple_lift, prove_auth_client_good|cbv beta]. intros p Hp.
  assign.
  eapply triple_bind; [by apply triple_lift, prove_rerand_good|cbv beta]. intros q Hq.
  eapply triple_bind; [by apply triple_lift, prove_role_set_good|cbv beta]. intros bs [Hb8 Hb].
  eapply triple_bind; [apply triple_lift, (encode_good (encode := auth_auth1_encode))|].
  - split_and!; try done; cbn [a1_n_branches a1_branches].
    + rewrite length_app, length_replicate. unfold AUTH_MAX_ROLES in *. lia.
    + by rewrite take_app_length.
    + by rewrite drop_app_length.
  - intros payload _. apply send_next_safe.
Qed.

Lemma kc_keys_good sk th : is_n 32 sk → good (kc_keys sk th) (λ _, True).
Proof. intros Hs. by destruct (kc_keys_run sk th Hs) as (k1 & k2 & -> & _). Qed.

Lemma session_key_good a B nc ns pid ec es :
  is_n 32 nc → is_n 32 ns → good (auth_derive_session_key a B nc ns pid ec es) (is_n 32).
Proof.
  intros Hn Hs. destruct (auth_scalarmult a B) as [sh|e|] eqn:E.
  - by destruct (derive_session_key_run a B nc ns pid ec es sh Hn Hs E) as (k & -> & Hk).
  - unfold auth_derive_session_key. by rewrite E.
  - by apply or_err_ne_fault in E.
Qed.

Lemma kc_th_good pid cp nc ec spub sp ns es :
  is_n 32 pid → schnorr_wf cp → is_n 32 nc → is_n 32 ec → is_n 32 spub → schnorr_wf sp →
  is_n 32 ns → is_n 32 es → good (auth_kc_transcript_hash pid cp nc ec spub sp ns es) (λ _, True).
Proof. intros. by rewrite kc_transcript_hash_run. Qed.

Lemma handle_auth2_safe inp : triple ctx_sizes (auth_client_handle_auth2 inp) (λ _, True).
Proof.
  unfold auth_client_handle_auth2.
  eapply triple_bind; [apply triple_lift, open_reply_good|cbv beta]. intros [hdr payload] _.
  eapply triple_bind; [apply triple_get|cbv beta]. intros c [].
  eapply triple_bind; [apply triple_require|cbv beta]. intros _ _.
  eapply triple_bind; [apply triple_lift, (decode_good (decode := auth_auth2_decode))|cbv beta].
  intros a2 (H1 & H2 & H3 & H4 & H5).
  eapply triple_bind; [apply triple_lift, check_point_good|cbv beta]. intros _ _.
  eapply triple_bind; [apply triple_lift, check_point_good|cbv beta]. intros _ _.
  eapply triple_bind; [apply triple_require|cbv beta]. intros _ _.
  eapply triple_bind; [by apply triple_lift, check_call_good, verify_auth_server_good|cbv beta]. intros _ _.
  cbv zeta. eapply triple_bind; [by apply triple_lift, session_key_good|cbv beta]. intros sk Hsk.
  assign.
  eapply triple_bind; [apply triple_lift, kc_th_good; try done; apply pid_length|cbv beta]. intros th _.
  assign.
  eapply triple_bind; [by apply triple_lift, kc_keys_good|cbv beta]. intros [k1 k2] _.
  assign.
  assign.
  eapply triple_conseq; [apply triple_require|done].
Qed.

Lemma build_auth3_safe cap : triple (with_out ctx_sizes cap) auth_client_build_auth3 (λ k, k ≤ cap).
Proof.
  unfold auth_client_build_auth3. eapply triple_bind; [apply triple_get|cbv beta]. intros [c out] _.
  eapply triple_bind; [apply triple_lift, (encode_good (encode := auth_auth3_encode))|].
  - apply length_hmacsha256.
  - intros payload _. apply send_next_safe.
Qed.

Lemma handle_auth_ack_safe inp : triple ctx_sizes (auth_client_handle_auth_ack inp) (λ _, True).
Proof.
  unfold auth_client_handle_auth_ack.
  eapply triple_bind; [apply triple_lift, open_reply_good|cbv beta]. intros [hdr payload] _.
  eapply triple_bind; [apply triple_lift, ack_decode_good|cbv beta]. intros _ _.
  apply triple_modify_sizes; [sizes|done].
Qed.

Lemma ctx_init_safe sid : is_n 16 sid → triple ctx_sizes (auth_client_ctx_init sid) (λ _, True).
Proof.
  intros Hs. unfold auth_client_ctx_init.
  do 4 assign.
  apply triple_modify_sizes; [sizes|done].
Qed.
End client.

(** ** The server *)
Record setup_sizes (p : auth_pending_setup_t) : Prop := {
  ss_session_id : is_n 16 (ps_session_id p);
  ss_device_id : is_n 32 (ps_device_id p);
  ss_device_pub : is_n 32 (ps_device_pub p);
  ss_commitment : is_n 32 (ps_role_commitment p);
  ss_client_nonce : is_n 32 (ps_client_nonce p);
  ss_server_nonce : is_n 32 (ps_server_nonce p);
  ss_challenge : is_n 16 (ps_setup_challenge p);
  ss_server_pub : is_n 32 (ps_server_pub p);
  ss_response : is_n AUTH_MAX_DATAGRAM (ps_response_packet p);
  ss_response_len : ps_response_packet_len p ≤ AUTH_MAX_DATAGRAM
}.

Record auth_sizes (p : auth_pending_auth_t) : Prop := {
  as_session_id : is_n 16 (pa_session_id p);
  as_device_pub : is_n 32 (pa_device_pub p);
  as_session_key : is_n 32 (pa_session_key p);
  as_response : is_n AUTH_MAX_DATAGRAM (pa_response_packet p);
  as_response_len : pa_response_packet_len p ≤ AUTH_MAX_DATAGRAM
}.

(** A registry callback that returns encodings of the right size. *)
Definition lookup_sizes (f : auth_registry_lookup_fn) : Prop :=
  ∀ p, good (f p) (λ r, is_n 32 r.1 ∧ is_n 32 r.2).

Section server.
Context {NaCl : Sodium} {HS : SodiumSpec NaCl}.

Lemma length_zeros n : length (zeros n) = n.
Proof. apply length_replicate. Qed.

Lemma cache_sizes packet p : setup_sizes p → setup_sizes (cache_setup_response packet p).
Proof.
  intros []. unfold cache_setup_response, is_n in *. destruct (Nat.leb_spec (length packet) (length (ps_response_packet p)));
    [|by constructor].
  constructor; cbn; try done; unfold is_n; [|lia]. rewrite length_app, length_drop. lia.
Qed.

Lemma pending_init_sizes sid s1 spub sn sc :
  is_n 16 sid → setup1_wf s1 → is_n 32 spub → is_n 32 sn → is_n 16 sc →
  setup_sizes (pending_setup_init sid s1 spub sn sc).
Proof.
  intros ? (_ & _ & _ & ? & ? & ? & ?) ? ? ?.
  constructor; try done; first [apply length_zeros|apply Nat.le_0_l].
Qed.

Lemma identity_allowed_good x :
  good (match auth_check_point x with Err AUTH_ERR_IDENTITY_POINT => Ok tt | o => o end) (λ _, True).
Proof. unfold auth_check_point. by repeat case_match. Qed.

(** How a server handler ends. *)
Lemma finish_safe {S} (I : S → Prop) cap t sid seq payload (k : bytes → M auth_err_t S unit) :
  is_n 16 sid → is_u32 seq → (∀ packet, triple I (k packet) (λ _, True)) →
  triple (with_out I cap)
    (out_len ← on_out (auth_packet_build t (Some sid) seq (Some payload) (length payload));
     '(_, out) ← get;
     packet ← lift (loadn out 0 out_len);
     on_ctx (k packet);;
     mret out_len) (λ n, n ≤ cap).
Proof.
  intros Hs Hq Hk. eapply triple_bind; [by apply triple_on_out, build_packet_good|cbv beta].
  intros n [_ Hn]. eapply triple_bind; [apply triple_get|cbv beta]. intros [s out] [_ Hl]. cbn in Hl.
  eapply (triple_bind _ _ _ (λ _, True)); [apply triple_lift; by rewrite loadn_ok by lia|].
  intros packet _. eapply triple_bind; [apply triple_on_ctx, Hk|cbv beta].
  intros _ _. by apply triple_ret.
Qed.

Lemma handle_setup1_safe cap sid seq inp ssk spub token sn sc wide :
  is_n 16 sid → is_u32 seq → is_n 32 spub → is_n 32 sn → is_n 16 sc →
  triple (with_out setup_sizes cap)
    (auth_server_handle_setup1 sid seq inp ssk spub token sn sc wide) (λ n, n ≤ cap).
Proof.
  intros Hs Hq Hsp Hsn Hsc. unfold auth_server_handle_setup1, auth_random_bytes32.
  eapply triple_bind; [apply triple_deref|cbv beta]. intros buf _.
  eapply triple_bind; [apply triple_lift, (decode_good (decode := auth_setup1_decode))|cbv beta].
  intros s1 H1. eapply (triple_bind _ _ _ (λ _, True)).
  { destruct token; [eapply triple_conseq; [apply triple_require|done]|by apply triple_ret]. }
  intros _ _. eapply triple_bind; [apply triple_lift, check_point_good|cbv beta]. intros _ _.
  eapply triple_bind; [apply triple_lift, identity_allowed_good|cbv beta]. intros _ _.
  pose proof H1 as (_ & _ & _ & Hid & Hpub & Hn & Hc).
  eapply triple_bind; [by apply triple_on_ctx, triple_put, pending_init_sizes|cbv beta]. intros _ _.
  eapply triple_bind; [by apply triple_lift, prove_setup_server_good|cbv beta]. intros p Hp.
  eapply triple_bind; [by apply triple_lift, (encode_good (encode := auth_setup2_encode))|cbv beta].
  intros payload _. apply (finish_safe _ _ _ _ _ _ (λ packet, modify (cache_setup_response packet))); [done..|].
  intros packet. apply triple_modify. apply cache_sizes.
Qed.

Lemma send_ack_safe cap t sid seq :
  is_n 16 sid → is_u32 seq →
  triple (λ out, length out = cap) (send_ack t sid seq) (λ n, n ≤ cap).
Proof.
  intros Hs Hq. unfold send_ack.
  eapply (triple_bind _ _ _ (λ _, True)); [by apply triple_lift|]. intros ack _.
  eapply triple_conseq; [by apply build_packet_good|]. by intros n [_ H].
Qed.

Lemma handle_setup3_safe cap pend sid seq inp :
  setup_sizes pend → is_n 16 sid → is_u32 seq →
  triple (λ out, length out = cap) (auth_server_handle_setup3 pend sid seq inp) (λ n, n ≤ cap).
Proof.
  intros [] Hs Hq. unfold auth_server_handle_setup3.
  eapply triple_bind; [apply triple_deref|cbv beta]. intros buf _.
  eapply triple_bind; [apply triple_require|cbv beta]. intros _ _.
  eapply triple_bind; [apply triple_lift, (decode_good (decode := auth_setup3_decode))|cbv beta].
  intros s3 H3. eapply triple_bind; [by apply triple_lift, check_call_good, verify_setup_client_good|cbv beta].
  intros _ _. by apply send_ack_safe.
Qed.

Lemma auth1_checks_good a1 spub f roles :
  auth1_wf a1 → lookup_sizes f → Forall is_u64 roles → good (auth1_checks a1 spub f roles) (is_n 32).
Proof.
  intros (H1 & H2 & H3 & H4 & H5 & H6 & H7 & H8 & H9 & _) Hf Hr. unfold auth1_checks.
  eapply good_bind; [apply check_point_good|]. intros _ _ _.
  eapply good_bind; [apply identity_allowed_good|]. intros _ _ _.
  eapply good_bind; [apply Hf|]. intros [dp C] _ [Hdp HC].
  eapply good_bind; [by apply check_call_good, verify_auth_client_good|]. intros _ _ _.
  eapply good_bind; [apply good_check|]. intros u _ _.
  eapply good_bind; [by apply check_call_good, verify_rerand_good|]. intros _ _ _.
  eapply good_bind; [by apply check_call_good, verify_role_set_good|]. done.
Qed.

Lemma handle_auth1_safe cap sid seq inp ssk spub f roles we nonce wide :
  is_n 16 sid → is_u32 seq → is_n 32 spub → is_n 32 nonce →
  (∀ g, f = Some g → lookup_sizes g) → (∀ r, roles = Some r → Forall is_u64 r) →
  triple (with_out auth_sizes cap)
    (auth_server_handle_auth1 sid seq inp ssk spub f roles we nonce wide) (λ n, n ≤ cap).
Proof.
  intros Hs Hq Hsp Hn Hf Hr. unfold auth_server_handle_auth1, auth_random_bytes32.
  eapply triple_bind; [apply triple_deref|cbv beta]. intros buf _.
  eapply triple_bind; [apply triple_deref|cbv beta]. intros g Hg.
  eapply triple_bind; [apply triple_deref|cbv beta]. intros rs Hrs.
  eapply triple_bind; [apply triple_lift, (decode_good (decode := auth_auth1_decode))|cbv beta].
  intros a1 H1. eapply triple_bind; [apply triple_lift, auth1_checks_good; auto|cbv beta].
  intros dp Hdp. destruct H1 as (Hpid & Hp & Hnc & Hec & _). cbv zeta.
  eapply triple_bind; [apply triple_lift, scalarmult_base_good|cbv beta]. intros es Hes.
  eapply triple_bind; [by apply triple_lift, prove_auth_server_good|cbv beta]. intros sp Hsp'.
  eapply triple_bind; [by apply triple_lift, session_key_good|cbv beta]. intros sk Hsk.
  eapply triple_bind; [by apply triple_lift, kc_th_good|cbv beta]. intros th _.
  eapply triple_bind; [by apply triple_lift, kc_keys_good|cbv beta]. intros [k1 k2] _.
  eapply triple_bind; [apply triple_lift, (encode_good (encode := auth_auth2_encode))|cbv beta].
  { split_and!; try done. apply length_hmacsha256. }
  intros payload _. apply (finish_safe _ _ _ _ _ _ (λ packet, put (pending_auth_of sid dp a1 nonce es
    {| k_session := sk; k_th := th; k_s2c := k1; k_c2s := k2 |} packet))); [done..|].
  intros packet. apply triple_put. unfold pending_auth_of.
  destruct (Nat.leb_spec (length packet) AUTH_MAX_DATAGRAM);
    constructor; cbn [pa_session_id pa_device_pub pa_session_key pa_response_packet pa_response_packet_len k_session];
    unfold is_n; rewrite ?length_app, ?length_zeros; done || lia.
Qed.

Lemma handle_auth3_safe cap pend sid seq inp :
  is_n 16 sid → is_u32 seq →
  triple (λ out, length out = cap) (auth_server_handle_auth3 pend sid seq inp) (λ n, n ≤ cap).
Proof.
  intros Hs Hq. unfold auth_server_handle_auth3.
  eapply triple_bind; [apply triple_deref|cbv beta]. intros buf _.
  eapply triple_bind; [apply triple_require|cbv beta]. intros _ _.
  eapply triple_bind; [apply triple_lift, (decode_good (decode := auth_auth3_decode))|cbv beta].
  intros a3 H3. eapply triple_bind; [apply triple_require|cbv beta]. intros _ _. by apply send_ack_safe.
Qed.
End server.
