(* ===== verification/ProtoRules.v ===== *)
(** What the handlers of [src/c/src/proto/proto.c] accept, and what a sequence
    of client operations cannot change.

    [client_op] names the operations of the client with their inputs and
    [run_client] runs a sequence of them, errors included; the theorems speak of
    every sequence and every input. *)
From S2P Require Export ProtoSafety.

(** ** The client's operations *)
Inductive client_op :=
  | BuildSetup1 (nonce wide_blind : bytes) (token : ptr bytes) (token_len : nat)
  | HandleSetup2 (inp : ptr bytes) (allow_tofu : bool)
  | BuildSetup3 (wide : bytes)
  | HandleSetupAck (inp : ptr bytes)
  | BuildAuth1 (nonce wide_eph wide_delta wide_client wide_rerand : bytes) (drawn : nat → bytes)
      (allowed_roles : ptr (list Z))
  | HandleAuth2 (inp : ptr bytes)
  | BuildAuth3
  | HandleAuthAck (inp : ptr bytes).

Section ops.
Context {NaCl : Sodium}.

Definition client_step (op : client_op) : M auth_err_t (auth_client_ctx_t * bytes) unit :=
  match op with
  | BuildSetup1 nonce wide token n => auth_client_build_setup1 nonce wide token n;; mret tt
  | HandleSetup2 inp tofu => on_ctx (auth_client_handle_setup2 inp tofu)
  | BuildSetup3 wide => auth_client_build_setup3 wide;; mret tt
  | HandleSetupAck inp => on_ctx (auth_client_handle_setup_ack inp)
  | BuildAuth1 nonce we wd wc wr drawn roles =>
      auth_client_build_auth1 nonce we wd wc wr drawn roles;; mret tt
  | HandleAuth2 inp => on_ctx (auth_client_handle_auth2 inp)
  | BuildAuth3 => auth_client_build_auth3;; mret tt
  | HandleAuthAck inp => on_ctx (auth_client_handle_auth_ack inp)
  end.

(** Every operation is run on the state the one before it left. *)
Fixpoint run_client (ops : list client_op) (s : auth_client_ctx_t * bytes) :
    auth_client_ctx_t * bytes :=
  match ops with
  | [] => s
  | op :: ops => run_client ops (client_step op s).2
  end.
End ops.

(** The random bytes have their lengths, a token pointer covers its length, and
    roles are 64-bit integers. *)
Definition inputs_ok (op : client_op) : Prop :=
  match op with
  | BuildSetup1 nonce _ token n =>
      is_n 32 nonce ∧ (token = None ∨ ∃ x, token = Some x ∧ n ≤ length x)
  | BuildAuth1 nonce _ _ _ _ drawn roles =>
      is_n 32 nonce ∧ (∀ n, length (drawn n) = n) ∧ ∀ r, roles = Some r → Forall is_u64 r
  | _ => True
  end.

(** ** What no operation changes *)
Definition keeps {S A} (I : S → Prop) (m : M auth_err_t S A) : Prop := ∀ s, I s → I (m s).2.

Section keeps.
Context {S : Type} (I : S → Prop).

Lemma keeps_ret {A} (a : A) : keeps I (mret a).
Proof. by intros s Hs. Qed.
Lemma keeps_fail {A} e : keeps I (fail e : M _ _ A).
Proof. by intros s Hs. Qed.
Lemma keeps_get : keeps I get.
Proof. by intros s Hs. Qed.
Lemma keeps_require b e : keeps I (require b e).
Proof. intros s Hs. by destruct b. Qed.
Lemma keeps_deref {A} (p : ptr A) e : keeps I (deref p e).
Proof. intros s Hs. by destruct p. Qed.
Lemma keeps_lift {A} (o : outcome auth_err_t A) : keeps I (lift o).
Proof. by intros s Hs. Qed.
Lemma keeps_modify f : (∀ s, I s → I (f s)) → keeps I (modify f).
Proof. intros H s Hs. by apply H. Qed.
Lemma keeps_bind {A B} (m : M auth_err_t S A) (k : A → M auth_err_t S B) :
  keeps I m → (∀ a, keeps I (k a)) → keeps I (m ≫= k).
Proof.
  intros Hm Hk s Hs. rewrite bind_run. specialize (Hm s Hs).
  destruct (m s) as [[a|e|] s']; [by apply Hk|done|done].
Qed.
Lemma keeps_if {A} (b : bool) (m1 m2 : M auth_err_t S A) :
  keeps I m1 → keeps I m2 → keeps I (if b then m1 else m2).
Proof. by destruct b. Qed.
Lemma keeps_prod {A B C} (p : A * B) (k : A → B → M auth_err_t S C) :
  (∀ a b, keeps I (k a b)) → keeps I (let '(a, b) := p in k a b).
Proof. by destruct p. Qed.
End keeps.

Lemma keeps_on_ctx {S A} (I : S → Prop) (m : M auth_err_t S A) :
  keeps I m → keeps (λ s : S * bytes, I s.1) (on_ctx m).
Proof. intros H [s out] Hs. unfold on_ctx. specialize (H s Hs). by destruct (m s). Qed.

Lemma keeps_on_out {S A} (I : S → Prop) (m : M auth_err_t bytes A) :
  keeps (λ s : S * bytes, I s.1) (on_out m).
Proof. intros [s out] Hs. unfold on_out. by destruct (m out). Qed.

Create HintDb keeps.
#[export] Hint Resolve keeps_ret keeps_fail keeps_get keeps_require keeps_deref keeps_lift : keeps.

(** The identity of the device, the session and the pinned server. *)
Definition bound_to (c0 c : auth_client_ctx_t) : Prop :=
  c_device_id c = c_device_id c0 ∧ c_device_sk c = c_device_sk c0 ∧ c_device_pub c = c_device_pub c0 ∧
  c_session_id c = c_session_id c0 ∧
  c_has_pinned_server c = true ∧ c_server_pub_pinned c = c_server_pub_pinned c0.

(** Goes through a computation; [modify] must not touch the invariant. *)
Ltac keeps :=
  repeat (cbv zeta; match goal with
  | |- keeps _ (_ ≫= _) => apply keeps_bind; [|intros]
  | |- keeps _ (let '(_, _) := ?p in _) => destruct p
  | |- keeps _ (if ?b then _ else _) => destruct b
  | |- keeps _ (on_ctx _) => apply keeps_on_ctx
  | |- keeps _ (on_out _) => apply keeps_on_out
  | |- keeps _ (modify _) => apply keeps_modify; intros [] ?; unfold bound_to in *; cbn in *; tauto
  | |- _ => solve [auto with keeps]
  end).

Section bound.
Context {NaCl : Sodium} (c0 : auth_client_ctx_t).

Lemma keeps_send_next t payload : keeps (λ s, bound_to c0 s.1) (send_next t payload).
Proof. unfold send_next. keeps. Qed.

Lemma keeps_ensure_role wide : keeps (bound_to c0) (ensure_role wide).
Proof. unfold ensure_role. keeps. Qed.

Lemma keeps_pin_server spub tofu : keeps (bound_to c0) (pin_server spub tofu).
Proof.
  intros c Hc. pose proof Hc as (_ & _ & _ & _ & Hp & _). unfold pin_server.
  pstep. rewrite Hp. by destruct (memeq _ _).
Qed.

Hint Resolve keeps_send_next keeps_ensure_role keeps_pin_server : keeps.

Lemma client_step_bound op : keeps (λ s, bound_to c0 s.1) (client_step op).
Proof.
  destruct op; cbn [client_step];
    unfold auth_client_build_setup1, auth_client_handle_setup2, auth_client_build_setup3,
      auth_client_handle_setup_ack, auth_client_build_auth1, auth_client_handle_auth2,
      auth_client_build_auth3, auth_client_handle_auth_ack; keeps.
Qed.
End bound.

(** ** Errors leave the state alone *)
(** An error leaves the state as it was. *)
Definition err_keeps {S A} (I : S → Prop) (m : M auth_err_t S A) : Prop :=
  ∀ s, I s → (∃ a, (m s).1 = Ok a) ∨ I (m s).2.

Lemma err_keeps_bind {S A B} (I : S → Prop) (m : M auth_err_t S A) (k : A → M auth_err_t S B) :
  keeps I m → (∀ a, err_keeps I (k a)) → err_keeps I (m ≫= k).
Proof.
  intros Hm Hk s Hs. rewrite bind_run. specialize (Hm s Hs).
  destruct (m s) as [[a|e|] s']; [by apply Hk|by right..].
Qed.

Lemma err_keeps_prod {S A B C} (I : S → Prop) (p : A * B) (k : A → B → M auth_err_t S C) :
  (∀ a b, err_keeps I (k a b)) → err_keeps I (let '(a, b) := p in k a b).
Proof. by destruct p. Qed.

(** The last step may assign: it always succeeds. *)
Lemma err_keeps_put {S A} (I : S * bytes → Prop) (s' : S) (a : A) :
  err_keeps I (on_ctx (put s');; mret a).
Proof. intros [s out] _. left. by exists a. Qed.

Section accept.
Context {NaCl : Sodium} {HS : SodiumSpec NaCl}.

Lemma check_call_inv o e u : check_call o e = Ok u → o = Ok true.
Proof. unfold check_call. intros H. apply outcome_bind_ok_inv in H as (b & -> & H). by destruct b. Qed.

Lemma lift_ok_inv {S A} (o : outcome auth_err_t A) (s s' : S) a : lift o s = (Ok a, s') → o = Ok a ∧ s' = s.
Proof. by intros [= -> ->]. Qed.

Lemma decode_inv `{PayloadCodec A wf wire encode decode} buf m :
  decode (Some buf) = Ok m → wf m ∧ buf = wire m.
Proof. apply (codec_decode (encode := encode)). Qed.

Lemma decode_auth3 x : is_n 32 x → auth_auth3_decode (Some x) = Ok {| a3_tag_c := x |}.
Proof. intros Hx. by apply (codec_decode (decode := auth_auth3_decode) x {| a3_tag_c := x |}). Qed.

(** The client proof, in terms of the group. *)
Definition client_proof_holds (a1 : auth_auth1_t) (pub : bytes) : Prop :=
  schnorr_holds gbase (sp_a (a1_client_proof a1)) (sp_s (a1_client_proof a1))
    (challenge_of auth_ds_client_v2 (auth_client_entries pub (sp_a (a1_client_proof a1)) (a1_pid a1)
      (a1_nonce_c a1) (a1_eph_c a1))) pub.

(** What AUTH_1 has proved for a registered device. *)
Record auth1_proved (a1 : auth_auth1_t) (server_pub dp C : bytes) (roles : list Z) : Prop := {
  ap_client : client_proof_holds a1 dp;
  ap_pid : a1_pid a1 = auth_compute_pid dp (a1_nonce_c a1) (a1_eph_c a1) server_pub;
  ap_rerand : rerand_holds (a1_rerand_proof a1) C (a1_c_prime a1) (a1_pid a1) (a1_nonce_c a1) (a1_eph_c a1);
  ap_count : a1_n_branches a1 = length roles;
  ap_roles : role_set_holds (take (a1_n_branches a1) (a1_branches a1)) roles (a1_c_prime a1)
               (a1_pid a1) (a1_nonce_c a1) (a1_eph_c a1)
}.

Lemma auth1_checks_inv a1 spub f roles dp :
  auth1_wf a1 → lookup_sizes f → Forall is_u64 roles → auth1_checks a1 spub f roles = Ok dp →
  ∃ C, f NULL = Ok (dp, C) ∧ auth1_proved a1 spub dp C roles.
Proof.
  intros (H1 & [H2 _] & H3 & H4 & H5 & H6 & H7 & H8 & H9 & _) Hf Hu H. unfold auth1_checks in H.
  apply outcome_bind_ok_inv in H as (u1 & _ & H). apply outcome_bind_ok_inv in H as (u2 & _ & H).
  apply outcome_bind_ok_inv in H as ([dp' C] & E & H). cbv beta iota in H.
  apply outcome_bind_ok_inv in H as (u3 & V1 & H). apply outcome_bind_ok_inv in H as (u4 & V2 & H).
  apply outcome_bind_ok_inv in H as (u5 & V3 & H). apply outcome_bind_ok_inv in H as (u6 & V4 & H).
  injection H as ->. exists C. split; [done|].
  apply check_call_inv in V1, V3, V4. apply check_ok_inv, memeq_true in V2.
  specialize (Hf NULL). rewrite E in Hf. destruct Hf as [Hdp HC]. cbn in Hdp, HC.
  apply verify_rerandomization_true in V3; [|done..].
  apply verify_role_set_inv in V4 as [Hn V4]; [|done|rewrite H8; lia|done..].
  split; try done. unfold client_proof_holds.
  by eapply verify_iff in V1; [|by apply auth_client_challenge_run].
Qed.

Lemma handle_auth1_inv sid seq inp ssk spub f roles we nonce wide pend out n pend' out' :
  auth_server_handle_auth1 sid seq inp ssk spub (Some f) (Some roles) we nonce wide (pend, out) =
    (Ok n, (pend', out')) →
  ∃ a1 dp es sp k packet, auth1_wf a1 ∧ inp = Some (wire_auth1 a1) ∧
    auth1_checks a1 spub f roles = Ok dp ∧
    derived a1 spub sp nonce es (auth_random_scalar we) (a1_eph_c a1) k ∧
    pend' = pending_auth_of sid dp a1 nonce es k packet.
Proof.
  unfold auth_server_handle_auth1, auth_random_bytes32. intros H.
  apply bind_ok_inv in H as (buf & s1 & H1 & H). apply deref_ok_inv in H1 as [-> ->].
  do 2 (apply bind_ok_inv in H as (? & s1 & H1 & H); apply deref_ok_inv in H1 as [[= <-] ->]).
  apply bind_ok_inv in H as (a1 & s1 & H1 & H). apply lift_ok_inv in H1 as [H1 ->].
  apply (decode_inv (decode := auth_auth1_decode)) in H1 as [Hw ->].
  apply bind_ok_inv in H as (dp & s1 & H1 & H). apply lift_ok_inv in H1 as [Hck ->].
  cbv zeta in H. apply bind_ok_inv in H as (es & s1 & H1 & H). apply lift_ok_inv in H1 as [_ ->].
  apply bind_ok_inv in H as (sp & s1 & H1 & H). apply lift_ok_inv in H1 as [_ ->].
  apply bind_ok_inv in H as (sk & s1 & H1 & H). apply lift_ok_inv in H1 as [Hsk ->].
  apply bind_ok_inv in H as (th & s1 & H1 & H). apply lift_ok_inv in H1 as [Hth ->].
  apply bind_ok_inv in H as ([k1 k2] & s1 & H1 & H). apply lift_ok_inv in H1 as [Hk ->].
  apply bind_ok_inv in H as (pl & s1 & H1 & H). apply lift_ok_inv in H1 as [_ ->].
  apply bind_ok_inv in H as (n' & s1 & _ & H). apply bind_ok_inv in H as ([p1 o1] & s2 & _ & H).
  apply bind_ok_inv in H as (packet & [p3 o3] & _ & H). injection H as _ <- _.
  exists a1, dp, es, sp, {| k_session := sk; k_th := th; k_s2c := k1; k_c2s := k2 |}, packet. done.
Qed.

Lemma handle_auth1_err sid seq inp ssk spub f roles we nonce wide pend0 :
  err_keeps (λ s, s.1 = pend0) (auth_server_handle_auth1 sid seq inp ssk spub f roles we nonce wide).
Proof.
  unfold auth_server_handle_auth1.
  repeat (cbv zeta; first [apply err_keeps_put | apply err_keeps_bind; [solve [auto with keeps]|intros]
    | apply err_keeps_prod; intros | apply err_keeps_bind; [apply (keeps_on_out (λ p, p = pend0))|intros] ]).
Qed.
End accept.

(** ** The correctness of the handlers *)

(** C7: the server accepts AUTH_1 only from a registered device, with every proof
    checked: the packet is the encoding of a message, the registry returned the device,
    the client's Schnorr equation holds for the device's key, the pseudonym is the hash
    of that key with the message and the server's key, the equation of the
    rerandomization proof, [h*s = a + c*(C' - C)], holds between the registered
    commitment and the one of the message, and the message has one branch for each
    allowed role [r], whose equations [h*s = A + c*(C' - g*r)] all hold with challenges
    that add up to the hash of all public inputs.  Then the pending record holds the
    session key derived from the exchange under the packet's session id, and the
    confirmation keys derived from it.  Any error leaves the record as it was. *)
Theorem server_accepts_auth1 {NaCl : Sodium} {HS : SodiumSpec NaCl} sid seq inp ssk spub f roles we nonce
    wide pend out o pend' out' :
  lookup_sizes f → Forall is_u64 roles →
  auth_server_handle_auth1 sid seq inp ssk spub (Some f) (Some roles) we nonce wide (pend, out) =
    (o, (pend', out')) →
  match o with
  | Ok _ => ∃ a1 dp C, auth1_wf a1 ∧ inp = Some (wire_auth1 a1) ∧ f NULL = Ok (dp, C) ∧
      auth1_proved a1 spub dp C roles ∧
      pa_session_id pend' = sid ∧ pa_device_pub pend' = dp ∧ pa_pid pend' = a1_pid a1 ∧
      auth_derive_session_key (auth_random_scalar we) (a1_eph_c a1) (a1_nonce_c a1) nonce (a1_pid a1)
        (a1_eph_c a1) (pa_eph_s pend') = Ok (pa_session_key pend') ∧
      kc_keys (pa_session_key pend') (pa_kc_th pend') = Ok (pa_kc_k_s2c pend', pa_kc_k_c2s pend')
  | _ => pend' = pend
  end.
Proof.
  intros Hf Hu H. destruct o as [n|e|].
  - apply handle_auth1_inv in H as (a1 & dp & es & sp & k & packet & Hw & -> & Hck & [D _ K] & ->).
    apply auth1_checks_inv in Hck as (C & Hlk & Hp); [|done..]. by exists a1, dp, C.
  - destruct (handle_auth1_err sid seq inp ssk spub (Some f) (Some roles) we nonce wide pend (pend, out) eq_refl)
      as [[a E]|E]; rewrite H in E; done.
  - destruct (handle_auth1_err sid seq inp ssk spub (Some f) (Some roles) we nonce wide pend (pend, out) eq_refl)
      as [[a E]|E]; rewrite H in E; done.
Qed.

Definition sample_lookup : auth_registry_lookup_fn :=
  λ _, Ok (c_device_pub sample_enrolled, c_role_commitment sample_enrolled).

Lemma server_accepts_auth1_witness :
  ∃ a1 dp C, wire_auth1 sample_auth1 = wire_auth1 a1 ∧ sample_lookup NULL = Ok (dp, C) ∧
    auth1_proved (NaCl := Toy.sodium) a1 (store_le 32 4) dp C [7; 1]%Z.
Proof.
  destruct (auth_server_handle_auth1 (NaCl := Toy.sodium) (replicate 16 Byte.x05) 3
    (Some (wire_auth1 sample_auth1)) (store_le 32 4) (store_le 32 4) (Some sample_lookup) (Some [7; 1]%Z)
    (ad_server_eph sample_auth_draws) (ad_server_nonce sample_auth_draws)
    (ad_server_proof sample_auth_draws) (sample_pending_auth, zeros AUTH_MAX_DATAGRAM))
    as [o [pend' out']] eqn:E.
  assert (Ho : match o with Ok _ => true | _ => false end = true).
  { change o with (o, (pend', out')).1. rewrite <- E. vm_compute. reflexivity. }
  apply (server_accepts_auth1 (NaCl := Toy.sodium)) in E;
    [|intros p; split; vm_compute; reflexivity
     |apply List.Forall_cons; [concrete_range|apply List.Forall_cons; [concrete_range|apply List.Forall_nil]]].
  destruct o as [n| |]; [|discriminate Ho|discriminate Ho].
  destruct E as (a1 & dp & C & _ & Ei & El & Hp & _). injection Ei as Ei. exists a1, dp, C.
  split; [exact Ei|]. split; [exact El|exact Hp].
Defined.



(** What AUTH_2 has proved to the client. *)
Record auth2_proved {NaCl : Sodium} {HS : SodiumSpec NaCl} (a2 : auth_auth2_t)
    (c c' : auth_client_ctx_t) : Prop := {
  a2p_server : a2_server_pub a2 = c_server_pub_pinned c;
  a2p_proof : schnorr_holds gbase (sp_a (a2_server_proof a2)) (sp_s (a2_server_proof a2))
    (challenge_of auth_ds_server (auth_server_entries (a2_server_pub a2) (sp_a (a2_server_proof a2))
      (a2_nonce_s a2) (a2_eph_s a2))) (a2_server_pub a2);
  a2p_key : auth_derive_session_key (c_eph_secret c) (a2_eph_s a2) (c_client_nonce c) (a2_nonce_s a2)
    (auth_compute_pid (c_device_pub c) (c_client_nonce c) (c_eph_c c) (c_server_pub_pinned c))
    (c_eph_c c) (a2_eph_s a2) = Ok (c_session_key c');
  a2p_confirmed : kc_keys (c_session_key c') (c_kc_th c') = Ok (c_kc_k_s2c c', c_kc_k_c2s c') ∧
    a2_tag_s a2 = tag_of (c_kc_k_s2c c') "server finished" (c_kc_th c')
}.

Lemma handle_auth2_inv {NaCl : Sodium} {HS : SodiumSpec NaCl} inp c c' :
  is_n 32 (c_server_pub_pinned c) →
  auth_client_handle_auth2 inp c = (Ok tt, c') →
  ∃ hdr a2, inp = Some (wire_header hdr ++ wire_auth2 a2) ∧ hdr_pkt_type hdr = AUTH_PKT_AUTH_2 ∧
    hdr_session_id hdr = c_session_id c ∧ auth2_wf a2 ∧ auth2_proved a2 c c'.
Proof.
  intros Hpin H. unfold auth_client_handle_auth2 in H.
  apply bind_ok_inv in H as ([hdr pl] & s1 & H1 & H). apply lift_ok_inv in H1 as [H1 ->].
  apply open_reply_ok in H1 as (buf & -> & Hd & Ht); [|done]. apply header_decode_ok in Hd as (_ & _ & ->).
  apply bind_ok_inv in H as (c1 & s1 & H1 & H). injection H1 as <- <-.
  apply bind_ok_inv in H as ([] & s1 & H1 & H). apply require_ok_inv in H1 as [Hsid ->].
  apply bind_ok_inv in H as (a2 & s1 & H1 & H). apply lift_ok_inv in H1 as [H1 ->].
  apply (decode_inv (decode := auth_auth2_decode)) in H1 as [Hw ->].
  do 2 (apply bind_ok_inv in H as (? & s1 & H1 & H); apply lift_ok_inv in H1 as [_ ->]).
  apply bind_ok_inv in H as ([] & s1 & H1 & H). apply require_ok_inv in H1 as [Hpk ->].
  apply bind_ok_inv in H as ([] & s1 & H1 & H). apply lift_ok_inv in H1 as [Hv ->]. cbv zeta in H.
  apply bind_ok_inv in H as (sk & s1 & H1 & H). apply lift_ok_inv in H1 as [Hsk ->].
  apply bind_ok_inv in H as ([] & s1 & H1 & H). injection H1 as <-.
  apply bind_ok_inv in H as (th & s1 & H1 & H). apply lift_ok_inv in H1 as [_ ->].
  apply bind_ok_inv in H as ([] & s1 & H1 & H). injection H1 as <-.
  apply bind_ok_inv in H as ([k1 k2] & s1 & H1 & H). apply lift_ok_inv in H1 as [Hk ->].
  do 2 (apply bind_ok_inv in H as ([] & s1 & H1 & H); injection H1 as <-).
  apply require_ok_inv in H as [Htag ->]. bool_to_prop.
  exists hdr, a2. split_and!; [done..|]. apply check_call_inv in Hv.
  destruct Hw as (W1 & [W2 _] & W3 & W4 & _).
  eapply verify_iff in Hv; [|by apply auth_server_challenge_run]. by split.
Qed.

(** C9: the client accepts AUTH_2 only from the pinned server with the key
    confirmed: the packet is an AUTH_2 of the client's own session, it carries
    the pinned key, the server's Schnorr equation holds for that key, and the
    tag is the one computed with the confirmation key derived from the session
    key the client now holds. *)
Theorem client_accepts_auth2 {NaCl : Sodium} {HS : SodiumSpec NaCl} inp c c' :
  is_n 32 (c_server_pub_pinned c) →
  auth_client_handle_auth2 inp c = (Ok tt, c') →
  ∃ hdr a2, inp = Some (wire_header hdr ++ wire_auth2 a2) ∧ hdr_pkt_type hdr = AUTH_PKT_AUTH_2 ∧
    hdr_session_id hdr = c_session_id c ∧ auth2_wf a2 ∧ auth2_proved a2 c c'.
Proof. apply handle_auth2_inv. Qed.

(** The answer of the toy server to [sample_auth1]. *)
Definition sample_auth2_packet : bytes := Eval vm_compute in
  match send (auth_server_handle_auth1 (NaCl := Toy.sodium) (replicate 16 Byte.x05) 3
    (Some (wire_auth1 sample_auth1)) (store_le 32 4) (store_le 32 4) (Some sample_lookup) (Some [7; 1]%Z)
    (ad_server_eph sample_auth_draws) (ad_server_nonce sample_auth_draws)
    (ad_server_proof sample_auth_draws)) sample_pending_auth with
  | Ok (p, _) => p
  | _ => []
  end.

Definition sample_waiting : auth_client_ctx_t :=
  after_auth1 (NaCl := Toy.sodium) sample_auth_draws sample_auth1 sample_enrolled.

Lemma client_accepts_auth2_witness :
  ∃ hdr a2, Some sample_auth2_packet = Some (wire_header hdr ++ wire_auth2 a2) ∧
    a2_server_pub a2 = store_le 32 4.
Proof.
  destruct (auth_client_handle_auth2 (NaCl := Toy.sodium) (Some sample_auth2_packet) sample_waiting)
    as [o c'] eqn:E.
  assert (Ho : o = Ok tt). { change o with (o, c').1. rewrite <- E. vm_compute. reflexivity. }
  rewrite Ho in E. apply (client_accepts_auth2 (NaCl := Toy.sodium)) in E; [|vm_compute; reflexivity].
  destruct E as (hdr & a2 & Ei & _ & _ & _ & Hp). exists hdr, a2. split; [exact Ei|].
  destruct Hp as [Hs _ _ _]. rewrite Hs. vm_compute. reflexivity.
Defined.

Section safety.
Context {NaCl : Sodium} {HS : SodiumSpec NaCl}.

Lemma triple_then {S A B} (I : S → Prop) (m : M auth_err_t S A) (b : B) Q :
  triple I m Q → triple I (m;; mret b) (λ _, True).
Proof. intros H. eapply triple_bind; [exact H|]. intros a _. by apply triple_ret. Qed.

Lemma client_step_safe op cap :
  inputs_ok op → triple (with_out ctx_sizes cap) (client_step op) (λ _, True).
Proof.
  destruct op; cbn [inputs_ok client_step]; intros H.
  - destruct H. by eapply triple_then, build_setup1_safe.
  - apply triple_on_ctx, handle_setup2_safe.
  - eapply triple_then, build_setup3_safe.
  - apply triple_on_ctx, handle_setup_ack_safe.
  - destruct H as (? & ? & ?). by eapply triple_then, build_auth1_safe.
  - apply triple_on_ctx, handle_auth2_safe.
  - eapply triple_then, build_auth3_safe.
  - apply triple_on_ctx, handle_auth_ack_safe.
Qed.

Lemma run_client_safe ops s cap :
  Forall inputs_ok ops → with_out ctx_sizes cap s → with_out ctx_sizes cap (run_client ops s).
Proof.
  revert s. induction ops as [|op ops IH]; intros s Hops Hs; [done|].
  apply list.Forall_cons in Hops as [Hop Hops]. cbn [run_client]. apply IH; [done|].
  by destruct (client_step_safe op cap Hop s Hs).
Qed.

Lemma run_client_bound c0 ops s : bound_to c0 s.1 → bound_to c0 (run_client ops s).1.
Proof.
  revert s. induction ops as [|op ops IH]; intros s Hs; [done|]. cbn [run_client].
  by apply IH, client_step_bound.
Qed.
End safety.

(** C32: the client is memory safe: after any sequence of operations, with any
    packets as input, the buffers of the context have their declared sizes, and
    the next operation does not read or write outside an object, whatever the
    size of the output buffer. *)
Theorem client_memory_safe {NaCl : Sodium} {HS : SodiumSpec NaCl} ops op c out :
  ctx_sizes c → Forall inputs_ok (op :: ops) →
  let s := run_client ops (c, out) in
  ctx_sizes s.1 ∧ length s.2 = length out ∧ (client_step op s).1 ≠ Fault.
Proof.
  intros Hc Hops s. apply list.Forall_cons in Hops as [Hop Hops].
  destruct (run_client_safe ops (c, out) (length out)) as [H1 H2]; [done..|].
  split_and!; [done..|]. destruct (client_step_safe op (length out) Hop s) as [H3 _]; [done|].
  intros E. by rewrite E in H3.
Qed.

Lemma client_memory_safe_witness :
  (client_step (NaCl := Toy.sodium) (HandleAuth2 (Some (zeros 3)))
    (run_client (NaCl := Toy.sodium) [HandleSetup2 (Some (zeros 200)) true; BuildSetup3 (sample_random 64)]
      (sample_ctx, zeros 100))).1 ≠ Fault.
Proof.
  apply (client_memory_safe (NaCl := Toy.sodium)).
  - constructor; first [reflexivity|concrete_range|split; reflexivity].
  - repeat (apply List.Forall_cons; [exact I|]). apply List.Forall_nil.
Defined.

(** C33: the server's handlers are memory safe: for any payload and any size of
    the output buffer they stay inside their objects, keep the sizes of the
    pending record, and return a length that fits the buffer. *)
Theorem server_memory_safe {NaCl : Sodium} {HS : SodiumSpec NaCl} cap sid seq inp ssk spub nonce :
  is_n 16 sid → is_u32 seq → is_n 32 spub → is_n 32 nonce →
  (∀ token ch wide, is_n 16 ch → triple (with_out setup_sizes cap)
     (auth_server_handle_setup1 sid seq inp ssk spub token nonce ch wide) (λ n, n ≤ cap)) ∧
  (∀ pend, setup_sizes pend → triple (λ out, length out = cap)
     (auth_server_handle_setup3 pend sid seq inp) (λ n, n ≤ cap)) ∧
  (∀ f roles we wide, (∀ g, f = Some g → lookup_sizes g) → (∀ r, roles = Some r → Forall is_u64 r) →
     triple (with_out auth_sizes cap)
       (auth_server_handle_auth1 sid seq inp ssk spub f roles we nonce wide) (λ n, n ≤ cap)) ∧
  (∀ pend, triple (λ out, length out = cap) (auth_server_handle_auth3 pend sid seq inp) (λ n, n ≤ cap)).
Proof.
  intros Hs Hq Hsp Hn. split_and!; intros.
  - by apply handle_setup1_safe.
  - by apply handle_setup3_safe.
  - by apply handle_auth1_safe.
  - by apply handle_auth3_safe.
Qed.

Lemma server_memory_safe_witness :
  triple (λ out, length out = 40) (auth_server_handle_auth3 (NaCl := Toy.sodium) sample_pending_auth
    (replicate 16 Byte.x05) 3 (Some (zeros 7))) (λ n, n ≤ 40).
Proof.
  destruct (server_memory_safe (NaCl := Toy.sodium) 40 (replicate 16 Byte.x05) 3 (Some (zeros 7)) []
    (zeros 32) (zeros 32)) as (_ & _ & _ & H); [reflexivity|concrete_range|reflexivity|reflexivity|].
  apply H.
Defined.

(** Nothing a peer sends changes who the client talks to: after any sequence
    of operations and errors, a client that has pinned a server still has the
    same key pinned, and its device identity, keys and session id are the ones
    it started with. *)
Theorem client_binding_stable {NaCl : Sodium} ops c out :
  c_has_pinned_server c = true → bound_to c (run_client ops (c, out)).1.
Proof.
  intros Hp. assert (H : ∀ s, bound_to c s.1 → bound_to c (run_client ops s).1).
  { induction ops as [|op ops IH]; intros s Hs; [done|]. cbn [run_client].
    by apply IH, client_step_bound. }
  by apply H.
Qed.

Lemma client_binding_stable_witness :
  bound_to sample_enrolled (run_client (NaCl := Toy.sodium)
    [HandleSetup2 (Some (zeros 200)) true; HandleAuth2 (Some sample_auth2_packet)]
    (sample_enrolled, zeros 100)).1.
Proof. apply client_binding_stable. reflexivity. Defined.

(** SETUP_2 pins before it verifies: a context without a pinned server that
    gets a well-formed SETUP_2 of its session with a valid point and a proof
    that does not verify returns [AUTH_ERR_PROOF_VERIFY] with that point pinned,
    and from then on refuses every other server key. *)
Theorem setup2_pins_before_verification {NaCl : Sodium} {HS : SodiumSpec NaCl} c seq s2 :
  is_n 16 (c_session_id c) → is_u32 seq → setup2_wf s2 → c_has_pinned_server c = false →
  auth_check_point (s2_server_pub s2) = Ok tt →
  auth_verify_setup_server (s2_server_proof s2) (s2_server_pub s2) (c_device_id c) (c_device_pub c)
    (c_client_nonce c) (s2_server_nonce s2) (s2_setup_challenge s2) = Ok false →
  let packet m := Some (wire_packet AUTH_PKT_SETUP_2 (c_session_id c) seq (wire_setup2 m)) in
  let c' := set_has_pinned true (set_pinned (s2_server_pub s2) c) in
  auth_client_handle_setup2 (packet s2) true c = (Err AUTH_ERR_PROOF_VERIFY, c') ∧
  ∀ honest tofu, setup2_wf honest → auth_check_point (s2_server_pub honest) = Ok tt →
    s2_server_pub honest ≠ s2_server_pub s2 →
    auth_client_handle_setup2 (packet honest) tofu c' = (Err AUTH_ERR_PEER_KEY_MISMATCH, c').
Proof.
  intros Hsid Hq H2 Hp Hcp Hv packet c'. unfold packet, auth_client_handle_setup2. split.
  - pstep by open_reply_packet; [|done..]. pstep. cbn [hdr_session_id packet_header].
    rewrite memeq_refl. pstep.
    pstep by (proj2 (codec_decode (decode := auth_setup2_decode) _ _) (conj H2 eq_refl)).
    pstep by Hcp. pstep by (pin_server_run (s2_server_pub s2) true c); [|by unfold pin_accepted; rewrite Hp].
    rewrite bind_run. unfold check_call. by rewrite Hv.
  - intros honest tofu Hh Hhp Hne. pstep by open_reply_packet; [|done..]. pstep.
    cbn [hdr_session_id packet_header]. rewrite memeq_refl. pstep.
    pstep by (proj2 (codec_decode (decode := auth_setup2_decode) _ _) (conj Hh eq_refl)).
    pstep by Hhp. rewrite bind_run. unfold pin_server. pstep.
    cbn [c_has_pinned_server c_server_pub_pinned set_has_pinned set_pinned c'].
    by rewrite (proj2 (memeq_false _ _)).
Qed.

Definition sample_forged_setup2 : auth_setup2_t :=
  {| s2_server_nonce := zeros 32; s2_setup_challenge := zeros 16; s2_server_pub := store_le 32 5;
     s2_server_proof := {| sp_a := store_le 32 5; sp_s := store_le 32 5 |} |}.

Lemma setup2_pins_before_verification_witness :
  auth_client_handle_setup2 (NaCl := Toy.sodium) (Some (wire_packet AUTH_PKT_SETUP_2 (replicate 16 Byte.x05) 1
    (wire_setup2 sample_forged_setup2))) true sample_ctx =
  (Err AUTH_ERR_PROOF_VERIFY, set_has_pinned true (set_pinned (store_le 32 5) sample_ctx)).
Proof.
  destruct (setup2_pins_before_verification (NaCl := Toy.sodium) sample_ctx 1 sample_forged_setup2) as [H _];
    [reflexivity|concrete_range|split_and!; try reflexivity; split; reflexivity|reflexivity|vm_compute; reflexivity
    |vm_compute; reflexivity|].
  exact H.
Defined.
