(* ===== verification/Replay.v ===== *)
(** Replay protection: [src/c/include/auth/replay.h] and [src/c/src/store/replay.c]
    (the bounded cache of seen keys), [replay_continuity.h] and
    [replay_continuity.c] (may the cache be trusted after a restart), and
    [replay_guard.h] and [replay_guard.c] (AUTH_1 behind the cache).

    The cache is an array with an eviction index; it implements the window of
    the last 64 keys, which is the specification in Module [Window]. *)
From S2P Require Export ProtoRules.

Definition AUTH_REPLAY_KEY_LEN : nat := 32.
Definition AUTH_REPLAY_CACHE_CAPACITY : nat := 64.

Record auth_replay_cache_t := {
  rc_keys : list bytes;
  rc_n : nat;
  rc_next_evict : nat
}.

Definition AUTH_REPLAY_DOMAIN : bytes := str_bytes "iot-auth/replay-key/v2".

Definition auth_replay_key {NaCl : Sodium} (pid nonce_c eph_c : bytes) : bytes :=
  crypto_hash_sha256 (AUTH_REPLAY_DOMAIN ++ pid ++ nonce_c ++ eph_c).

Definition auth_replay_cache_init : M auth_err_t auth_replay_cache_t unit :=
  put {| rc_keys := replicate AUTH_REPLAY_CACHE_CAPACITY (zeros AUTH_REPLAY_KEY_LEN);
         rc_n := 0; rc_next_evict := 0 |}.

(** [for (i = i0; i < i0 + n; ++i)]: an index outside the array is a fault. *)
Fixpoint contains_loop (keys : list bytes) (key : bytes) (i n : nat) : outcome auth_err_t bool :=
  match n with
  | O => mret false
  | S n =>
      match keys !! i with
      | Some k => if memeq k key then mret true else contains_loop keys key (S i) n
      | None => Fault
      end
  end.

Definition auth_replay_cache_contains (cache : auth_replay_cache_t) (key : ptr bytes) :
    outcome auth_err_t bool :=
  match key with
  | None => mret false
  | Some key => contains_loop (rc_keys cache) key 0 (rc_n cache)
  end.

(** [memcpy(cache->keys[i], key, 32)] *)
Definition set_key (keys : list bytes) (i : nat) (key : bytes) : outcome auth_err_t (list bytes) :=
  if i <? length keys then Ok (<[i := key]> keys) else Fault.

Definition auth_replay_cache_insert (key : ptr bytes) : M auth_err_t auth_replay_cache_t bool :=
  cache ← get;
  match key with
  | None => mret false
  | Some k =>
      seen ← lift (auth_replay_cache_contains cache key);
      if (seen : bool) then mret false
      else if rc_n cache <? AUTH_REPLAY_CACHE_CAPACITY then
        keys ← lift (set_key (rc_keys cache) (rc_n cache) k);
        put {| rc_keys := keys; rc_n := rc_n cache + 1; rc_next_evict := rc_next_evict cache |};;
        mret true
      else
        keys ← lift (set_key (rc_keys cache) (rc_next_evict cache) k);
        put {| rc_keys := keys; rc_n := rc_n cache;
               rc_next_evict := (rc_next_evict cache + 1) mod AUTH_REPLAY_CACHE_CAPACITY |};;
        mret true
  end.

(** ** Continuity *)
Inductive auth_replay_continuity_state_t :=
  | AUTH_REPLAY_CONTINUITY_TRUSTED
  | AUTH_REPLAY_CONTINUITY_RESTORING
  | AUTH_REPLAY_CONTINUITY_BROKEN.

Inductive auth_replay_continuity_event_t :=
  | AUTH_REPLAY_EVENT_RESTART
  | AUTH_REPLAY_EVENT_RESTORED_TRUSTED_WINDOW
  | AUTH_REPLAY_EVENT_RESTORE_MISSING
  | AUTH_REPLAY_EVENT_RESTORE_CORRUPT
  | AUTH_REPLAY_EVENT_RESTORE_STALE
  | AUTH_REPLAY_EVENT_ROLLBACK_SUSPECTED
  | AUTH_REPLAY_EVENT_EMPTY_CACHE_RESET
  | AUTH_REPLAY_EVENT_FRESH_OUTER_SESSION
  | AUTH_REPLAY_EVENT_FAILED_AUTH.

#[export] Instance continuity_state_eq_dec : EqDecision auth_replay_continuity_state_t.
Proof. solve_decision. Defined.
#[export] Instance continuity_event_eq_dec : EqDecision auth_replay_continuity_event_t.
Proof. solve_decision. Defined.

Definition auth_replay_continuity_init (state : auth_replay_continuity_state_t) :
    auth_replay_continuity_state_t := state.

(** The new state, and whether 0 is returned (otherwise -1). *)
Definition auth_replay_continuity_apply (state : auth_replay_continuity_state_t)
    (event : auth_replay_continuity_event_t) : auth_replay_continuity_state_t * bool :=
  match state with
  | AUTH_REPLAY_CONTINUITY_TRUSTED =>
      if bool_decide (event = AUTH_REPLAY_EVENT_RESTART) then (AUTH_REPLAY_CONTINUITY_RESTORING, true)
      else if bool_decide (event = AUTH_REPLAY_EVENT_FAILED_AUTH) then (state, true)
      else (state, false)
  | AUTH_REPLAY_CONTINUITY_RESTORING =>
      if bool_decide (event = AUTH_REPLAY_EVENT_RESTORED_TRUSTED_WINDOW)
      then (AUTH_REPLAY_CONTINUITY_TRUSTED, true)
      else if bool_decide (event = AUTH_REPLAY_EVENT_RESTORE_MISSING) ||
              bool_decide (event = AUTH_REPLAY_EVENT_RESTORE_CORRUPT) ||
              bool_decide (event = AUTH_REPLAY_EVENT_RESTORE_STALE) ||
              bool_decide (event = AUTH_REPLAY_EVENT_ROLLBACK_SUSPECTED)
      then (AUTH_REPLAY_CONTINUITY_BROKEN, true)
      else if bool_decide (event = AUTH_REPLAY_EVENT_FAILED_AUTH) then (state, true)
      else (state, false)
  | AUTH_REPLAY_CONTINUITY_BROKEN =>
      if bool_decide (event = AUTH_REPLAY_EVENT_EMPTY_CACHE_RESET) ||
         bool_decide (event = AUTH_REPLAY_EVENT_FRESH_OUTER_SESSION) ||
         bool_decide (event = AUTH_REPLAY_EVENT_FAILED_AUTH) then (state, true)
      else (state, false)
  end.

Definition auth_replay_continuity_auth_allowed (state : auth_replay_continuity_state_t) : bool :=
  bool_decide (state = AUTH_REPLAY_CONTINUITY_TRUSTED).

(** ** The guard *)
(** The caller's cache, and the state of [auth_server_handle_auth1]. *)
Definition guard_state : Type := auth_replay_cache_t * (auth_pending_auth_t * bytes).

Definition on_cache {A} (m : M auth_err_t auth_replay_cache_t A) : M auth_err_t guard_state A :=
  λ '(c, s), let '(o, c') := m c in (o, (c', s)).

Definition on_rest {A} (m : M auth_err_t (auth_pending_auth_t * bytes) A) : M auth_err_t guard_state A :=
  λ '(c, s), let '(o, s') := m s in (o, (c, s')).

(** [memset(pending_out, 0, sizeof *pending_out)] *)
Definition zero_pending_auth : auth_pending_auth_t :=
  {| pa_session_id := zeros 16; pa_device_id := zeros 32; pa_device_pub := zeros 32; pa_pid := zeros 32;
     pa_nonce_c := zeros 32; pa_nonce_s := zeros 32; pa_eph_c := zeros 32; pa_eph_s := zeros 32;
     pa_session_key := zeros 32; pa_kc_th := zeros 32; pa_kc_k_s2c := zeros 32; pa_kc_k_c2s := zeros 32;
     pa_response_packet := zeros AUTH_MAX_DATAGRAM; pa_response_packet_len := 0 |}.

Definition auth_server_handle_auth1_guarded {NaCl : Sodium} (session_id : bytes) (seq : Z)
    (in_payload : ptr bytes) (server_sk server_pub : bytes) (lookup_fn : ptr auth_registry_lookup_fn)
    (allowed_roles : ptr (list Z)) (wide_eph nonce wide : bytes) : M auth_err_t guard_state nat :=
  payload ← deref in_payload AUTH_ERR_INVALID_ARGUMENT;
  deref lookup_fn AUTH_ERR_INVALID_ARGUMENT;;
  deref allowed_roles AUTH_ERR_INVALID_ARGUMENT;;
  a1 ← lift (auth_auth1_decode (Some payload));
  let replay_key := auth_replay_key (a1_pid a1) (a1_nonce_c a1) (a1_eph_c a1) in
  '(cache, _) ← get;
  seen ← lift (auth_replay_cache_contains cache (Some replay_key));
  require (negb seen) AUTH_ERR_REPLAY_DETECTED;;
  out_len ← on_rest (auth_server_handle_auth1 session_id seq in_payload server_sk server_pub lookup_fn
                       allowed_roles wide_eph nonce wide);
  inserted ← on_cache (auth_replay_cache_insert (Some replay_key));
  if (inserted : bool) then mret out_len
  else on_rest (on_ctx (put zero_pending_auth));; fail AUTH_ERR_REPLAY_DETECTED.

(** ** The window *)
Module Window.
(** The keys that are remembered, oldest first. *)
Definition t : Type := list bytes.

Definition mem (k : bytes) (w : t) : bool := bool_decide (k ∈ w).

Definition insert (k : bytes) (w : t) : bool * t :=
  if mem k w then (false, w)
  else (true, drop (S (length w) - AUTH_REPLAY_CACHE_CAPACITY) (w ++ [k])).
End Window.

(** The representation invariant and the window of a cache. *)
Record cache_wf (c : auth_replay_cache_t) : Prop := {
  rw_keys : length (rc_keys c) = AUTH_REPLAY_CACHE_CAPACITY;
  rw_n : rc_n c ≤ AUTH_REPLAY_CACHE_CAPACITY;
  rw_evict : rc_next_evict c < AUTH_REPLAY_CACHE_CAPACITY;
  rw_filling : rc_n c < AUTH_REPLAY_CACHE_CAPACITY → rc_next_evict c = 0
}.

Definition window (c : auth_replay_cache_t) : Window.t :=
  drop (rc_next_evict c) (take (rc_n c) (rc_keys c)) ++ take (rc_next_evict c) (rc_keys c).

Lemma contains_loop_run keys key i n :
  i + n ≤ length keys → contains_loop keys key i n = Ok (bool_decide (key ∈ take n (drop i keys))).
Proof.
  revert i. induction n as [|n IH]; intros i Hi; cbn [contains_loop].
  { by rewrite bool_decide_false by (apply not_elem_of_nil). }
  destruct (lookup_lt_is_Some_2 keys i) as [k Hk]; [lia|]. rewrite Hk.
  rewrite (drop_S _ _ _ Hk). cbn [take]. destruct (memeq k key) eqn:E; bool_to_prop.
  - subst. by rewrite bool_decide_true by (by left).
  - rewrite IH by lia. f_equal. apply bool_decide_ext. rewrite elem_of_cons. split; [by right|]. by intros [->|?].
Qed.

Lemma window_elem c k : cache_wf c → k ∈ window c ↔ k ∈ take (rc_n c) (rc_keys c).
Proof.
  intros [Hk Hn He Hf]. unfold window. rewrite elem_of_app.
  destruct (decide (rc_n c < AUTH_REPLAY_CACHE_CAPACITY)) as [Hlt|Hge].
  - rewrite Hf by done. rewrite drop_0, take_0, elem_of_nil. tauto.
  - assert (rc_n c = length (rc_keys c)) as -> by lia. rewrite firstn_all.
    rewrite <- (take_drop (rc_next_evict c) (rc_keys c)) at 3. rewrite elem_of_app. tauto.
Qed.

Lemma contains_run c k : cache_wf c → auth_replay_cache_contains c (Some k) = Ok (Window.mem k (window c)).
Proof.
  intros Hc. cbn [auth_replay_cache_contains]. rewrite contains_loop_run by (destruct Hc; lia).
  rewrite drop_0. f_equal. apply bool_decide_ext. by rewrite window_elem.
Qed.

Lemma length_window c : cache_wf c → length (window c) = rc_n c.
Proof.
  intros [Hk Hn He Hf]. unfold window. rewrite length_app, length_drop, !length_take.
  destruct (decide (rc_n c < AUTH_REPLAY_CACHE_CAPACITY)) as [Hlt|Hge]; [rewrite Hf by done|]; lia.
Qed.

Lemma set_key_run keys i k : i < length keys → set_key keys i k = Ok (<[i := k]> keys).
Proof. intros H. unfold set_key. by rewrite (proj2 (Nat.ltb_lt _ _)). Qed.

(** Overwriting the oldest key moves the window by one. *)
Lemma window_rotate keys e k :
  e < length keys → length keys = AUTH_REPLAY_CACHE_CAPACITY →
  window {| rc_keys := <[e := k]> keys; rc_n := length keys;
            rc_next_evict := (e + 1) mod AUTH_REPLAY_CACHE_CAPACITY |} =
  drop 1 (drop e keys ++ take e keys) ++ [k].
Proof.
  intros He Hl. unfold window. cbn [rc_keys rc_n rc_next_evict].
  rewrite (take_ge (<[e:=k]> keys)) by (rewrite length_insert; lia).
  destruct (lookup_lt_is_Some_2 keys e He) as [k0 Hk0].
  rewrite (drop_S _ _ _ Hk0). cbn [app drop].
  destruct (decide (e + 1 = AUTH_REPLAY_CACHE_CAPACITY)) as [E|E].
  - rewrite E, Nat.Div0.mod_same, drop_0, take_0, app_nil_r.
    rewrite insert_take_drop by done. by rewrite !drop_ge by lia.
  - rewrite Nat.mod_small by lia. rewrite Nat.add_1_r.
    rewrite drop_insert_lt, (take_S_r _ _ k) by (rewrite ?list_lookup_insert_eq; lia || done).
    by rewrite take_insert_ge, app_assoc by lia.
Qed.

(** *** The cache refines the window *)
Lemma insert_refines c k :
  cache_wf c →
  let '(o, c') := auth_replay_cache_insert (Some k) c in
  cache_wf c' ∧ o = Ok (Window.insert k (window c)).1 ∧ window c' = (Window.insert k (window c)).2.
Proof.
  intros Hc. pose proof (contains_run c k Hc) as Hmem. pose proof (length_window c Hc) as Hlen.
  unfold auth_replay_cache_insert, Window.insert. pstep. rewrite Hmem. cbv beta iota.
  destruct (Window.mem k (window c)); [done|]. destruct Hc as [Hk Hn He Hf].
  destruct (Nat.ltb_spec (rc_n c) AUTH_REPLAY_CACHE_CAPACITY) as [Hlt|Hge].
  - rewrite bind_run. cbn [lift]. rewrite set_key_run by lia. cbv beta iota. cbn [snd fst].
    specialize (Hf Hlt). pstep. cbn [mret M_ret]. split; [|split; [done|]].
    + constructor; cbn; rewrite ?length_insert; lia.
    + rewrite Hlen, (proj2 (Nat.sub_0_le _ _)), drop_0 by lia. unfold window. cbn [rc_keys rc_n rc_next_evict].
      rewrite Hf, !drop_0, !take_0, !app_nil_r, Nat.add_1_r.
      rewrite (take_S_r _ _ k) by (apply list_lookup_insert_eq; lia). by rewrite take_insert_ge by lia.
  - assert (En : rc_n c = AUTH_REPLAY_CACHE_CAPACITY) by lia.
    rewrite bind_run. cbn [lift]. rewrite set_key_run by lia. cbv beta iota. cbn [snd fst].
    pstep. cbn [mret M_ret]. split; [|split; [done|]].
    + constructor; cbn [rc_keys rc_n rc_next_evict]; rewrite ?length_insert; try lia.
      apply Nat.mod_upper_bound. discriminate.
    + rewrite Hlen. unfold window at 2. replace (rc_n c) with (length (rc_keys c)) by lia.
      rewrite window_rotate by lia. rewrite firstn_all.
      replace (S (length (rc_keys c)) - AUTH_REPLAY_CACHE_CAPACITY) with 1 by lia.
      assert (Hd : length (drop (rc_next_evict c) (rc_keys c) ++ take (rc_next_evict c) (rc_keys c)) =
        length (rc_keys c)) by (rewrite length_app, length_drop, length_take; lia).
      by rewrite (drop_app_le (_ ++ _) [k]) by (rewrite Hd, Hk; apply Nat.leb_le; reflexivity).
Qed.

Lemma init_refines c : let '(o, c') := auth_replay_cache_init c in
  o = Ok tt ∧ cache_wf c' ∧ window c' = [].
Proof. split_and!; [done| |done]. constructor; cbn; unfold AUTH_REPLAY_CACHE_CAPACITY; lia || done. Qed.

(** ** Sequences of insertions *)
Fixpoint insert_all (ks : list bytes) : M auth_err_t auth_replay_cache_t (list bool) :=
  match ks with
  | [] => mret []
  | k :: ks => b ← auth_replay_cache_insert (Some k); bs ← insert_all ks; mret (b :: bs)
  end.

Fixpoint window_insert_all (ks : list bytes) (w : Window.t) : list bool * Window.t :=
  match ks with
  | [] => ([], w)
  | k :: ks =>
      let '(b, w) := Window.insert k w in
      let '(bs, w) := window_insert_all ks w in (b :: bs, w)
  end.

(** The last 64 elements of a list. *)
Definition newest (ks : list bytes) : Window.t := drop (length ks - AUTH_REPLAY_CACHE_CAPACITY) ks.

Lemma insert_all_refines ks c :
  cache_wf c →
  let '(o, c') := insert_all ks c in
  cache_wf c' ∧ o = Ok (window_insert_all ks (window c)).1 ∧
  window c' = (window_insert_all ks (window c)).2.
Proof.
  revert c. induction ks as [|k ks IH]; intros c Hc; [done|]. cbn [insert_all window_insert_all].
  pose proof (insert_refines c k Hc) as Hi. rewrite bind_run.
  destruct (auth_replay_cache_insert (Some k) c) as [o c1]. destruct Hi as (Hc1 & -> & Ew).
  destruct (Window.insert k (window c)) as [b w]. cbn [fst snd] in *. rewrite bind_run.
  specialize (IH c1 Hc1). rewrite Ew in IH. destruct (insert_all ks c1) as [o c2].
  destruct IH as (Hc2 & -> & Ew2). destruct (window_insert_all ks w) as [bs w2]. done.
Qed.

Lemma newest_snoc pre k :
  drop (S (length (newest pre)) - AUTH_REPLAY_CACHE_CAPACITY) (newest pre ++ [k]) = newest (pre ++ [k]).
Proof.
  unfold newest. rewrite length_drop, length_app. cbn [length].
  rewrite <- drop_app_le by lia. rewrite drop_drop. f_equal. lia.
Qed.

Lemma window_insert_all_fresh ks pre :
  NoDup (pre ++ ks) → (window_insert_all ks (newest pre)).2 = newest (pre ++ ks) ∧
  (window_insert_all ks (newest pre)).1 = replicate (length ks) true.
Proof.
  revert pre. induction ks as [|k ks IH]; intros pre Hnd; [by rewrite app_nil_r|].
  cbn [window_insert_all]. unfold Window.insert at 1 2, Window.mem.
  assert (Hk : k ∉ newest pre).
  { intros Hin. apply list.NoDup_app in Hnd as (_ & Hd & _). apply (Hd k); [|by left].
    unfold newest in Hin. rewrite <- (take_drop (length pre - AUTH_REPLAY_CACHE_CAPACITY) pre).
    apply elem_of_app. by right. }
  rewrite bool_decide_false by done. rewrite newest_snoc.
  destruct (IH (pre ++ [k])) as [E1 E2]; [by rewrite <- app_assoc|].
  destruct (window_insert_all ks (newest (pre ++ [k]))) as [bs w]. cbn [fst snd] in *.
  rewrite <- app_assoc in E1. cbn [length replicate]. by rewrite E1, E2.
Qed.

(** ** The correctness of replay protection *)

(** C11: the replay cache implements the window of the last 64 keys: from the
    empty cache, any sequence of insertions returns the same answers as the
    window, and membership in the cache is membership in the window; in
    particular the array is never indexed out of bounds. *)
Theorem replay_cache_refines_window c0 ks :
  let m := auth_replay_cache_init;; insert_all ks in
  let spec := window_insert_all ks [] in
  ∃ c, m c0 = (Ok spec.1, c) ∧ cache_wf c ∧
    ∀ k, auth_replay_cache_contains c (Some k) = Ok (Window.mem k spec.2).
Proof.
  intros m spec. unfold m. pose proof (init_refines c0) as Hi. rewrite bind_run.
  destruct (auth_replay_cache_init c0) as [o c1]. destruct Hi as (-> & Hc1 & Ew).
  pose proof (insert_all_refines ks c1 Hc1) as H. rewrite Ew in H. fold spec in H.
  destruct (insert_all ks c1) as [o c]. destruct H as (Hc & -> & Ew2).
  exists c. split_and!; [done..|]. intros k. by rewrite contains_run, Ew2.
Qed.

(** The cache remembers exactly the 64 most recent of the distinct keys that
    were inserted: such a key is found, every older one has been evicted. *)
Theorem replay_window_exact c0 ks :
  NoDup ks →
  ∃ c, (auth_replay_cache_init;; insert_all ks) c0 = (Ok (replicate (length ks) true), c) ∧
    ∀ k, auth_replay_cache_contains c (Some k) = Ok (bool_decide (k ∈ newest ks)).
Proof.
  intros Hnd. pose proof (init_refines c0) as Hi. rewrite bind_run.
  destruct (auth_replay_cache_init c0) as [o c1]. destruct Hi as (-> & Hc1 & Ew).
  pose proof (insert_all_refines ks c1 Hc1) as H. rewrite Ew in H.
  destruct (window_insert_all_fresh ks [] Hnd) as [E2 E1]. cbn [app] in E2.
  change (newest []) with (@nil bytes) in E1, E2. rewrite E1, E2 in H.
  destruct (insert_all ks c1) as [o c]. destruct H as (Hc & -> & Ew2).
  exists c. split; [done|]. intros k. by rewrite contains_run, Ew2.
Qed.

Lemma replay_window_exact_witness :
  let ks := map (λ i, store_le 32 (Z.of_nat i)) (seq 0 66) in
  ∃ c, (auth_replay_cache_init;; insert_all ks) {| rc_keys := []; rc_n := 3; rc_next_evict := 9 |} =
      (Ok (replicate (length ks) true), c) ∧
    ∀ k, auth_replay_cache_contains c (Some k) = Ok (bool_decide (k ∈ newest ks)).
Proof.
  intros ks. apply replay_window_exact. apply (bool_decide_unpack _). vm_compute. exact I.
Defined.

(** C34: a broken replay history stays broken and closes authentication: no
    sequence of events leaves the broken state, authentication becomes allowed
    only by the restoration of a trusted window while restoring, and an event
    that is refused changes nothing. *)
Theorem replay_continuity_fails_closed s e :
  let '(s', accepted) := auth_replay_continuity_apply s e in
  (∀ es, fold_left (λ s e, (auth_replay_continuity_apply s e).1) es AUTH_REPLAY_CONTINUITY_BROKEN =
         AUTH_REPLAY_CONTINUITY_BROKEN) ∧
  (auth_replay_continuity_auth_allowed s = false → auth_replay_continuity_auth_allowed s' = true →
   s = AUTH_REPLAY_CONTINUITY_RESTORING ∧ e = AUTH_REPLAY_EVENT_RESTORED_TRUSTED_WINDOW) ∧
  (auth_replay_continuity_auth_allowed s = true → auth_replay_continuity_auth_allowed s' = false →
   e = AUTH_REPLAY_EVENT_RESTART) ∧
  (accepted = false → s' = s).
Proof.
  assert (Hb : ∀ es, fold_left (λ s e, (auth_replay_continuity_apply s e).1) es
      AUTH_REPLAY_CONTINUITY_BROKEN = AUTH_REPLAY_CONTINUITY_BROKEN).
  { induction es as [|e' es IH]; [done|]. cbn [fold_left].
    assert (Ee : (auth_replay_continuity_apply AUTH_REPLAY_CONTINUITY_BROKEN e').1 =
      AUTH_REPLAY_CONTINUITY_BROKEN) by (by destruct e'). by rewrite Ee. }
  destruct s, e; cbn; split_and!; done.
Qed.

Section guard.
Context {NaCl : Sodium}.

Definition key_of (a1 : auth_auth1_t) : bytes := auth_replay_key (a1_pid a1) (a1_nonce_c a1) (a1_eph_c a1).

Lemma guarded_seen sid seq a1 ssk spub f roles we nonce wide c s :
  cache_wf c → auth1_wf a1 → key_of a1 ∈ window c →
  auth_server_handle_auth1_guarded sid seq (Some (wire_auth1 a1)) ssk spub (Some f) (Some roles) we nonce
    wide (c, s) = (Err AUTH_ERR_REPLAY_DETECTED, (c, s)).
Proof.
  intros Hc Hw Hk. unfold auth_server_handle_auth1_guarded. do 3 pstep.
  pstep by (proj2 (codec_decode (decode := auth_auth1_decode) _ _) (conj Hw eq_refl)). cbv zeta. pstep.
  fold (key_of a1). pstep by (contains_run c (key_of a1) Hc). unfold Window.mem.
  by rewrite bool_decide_true.
Qed.

(** What a success of the guarded handler went through; a failure leaves the cache. *)
Lemma guarded_cases sid seq inp ssk spub f roles we nonce wide c s o c' s' :
  cache_wf c →
  auth_server_handle_auth1_guarded sid seq inp ssk spub (Some f) (Some roles) we nonce wide (c, s) =
    (o, (c', s')) →
  cache_wf c' ∧
  match o with
  | Ok n => ∃ a1, inp = Some (wire_auth1 a1) ∧ auth1_wf a1 ∧ Window.mem (key_of a1) (window c) = false ∧
      window c' = snd (Window.insert (key_of a1) (window c)) ∧
      auth_server_handle_auth1 sid seq inp ssk spub (Some f) (Some roles) we nonce wide s = (Ok n, s')
  | _ => c' = c
  end.
Proof.
  intros Hc H. unfold auth_server_handle_auth1_guarded in H.
  destruct inp as [buf|]; [|by injection H as <- <- <-].
  do 3 (rewrite bind_run in H; cbn [deref mret M_ret] in H). rewrite bind_run in H. cbn [lift] in H.
  destruct (auth_auth1_decode (Some buf)) as [a1|e|] eqn:Ed; [|by injection H as <- <- <-..].
  apply (decode_inv (decode := auth_auth1_decode)) in Ed as [Hw ->].
  cbv zeta in H. fold (key_of a1) in H. rewrite bind_run in H. cbn [get] in H.
  rewrite bind_run in H. cbn [lift] in H. rewrite contains_run in H by done.
  rewrite bind_run in H. destruct (Window.mem (key_of a1) (window c)) eqn:Em;
    cbn [negb require fail mret M_ret] in H; [by injection H as <- <- <-|].
  rewrite bind_run in H. cbn [on_rest] in H.
  destruct (auth_server_handle_auth1 _ _ _ _ _ _ _ _ _ _ s) as [[n|e|] s1] eqn:Eh;
    [|by injection H as <- <- <-..].
  rewrite bind_run in H. cbn [on_cache] in H. pose proof (insert_refines c (key_of a1) Hc) as Hi.
  destruct (auth_replay_cache_insert (Some (key_of a1)) c) as [oi c1]. destruct Hi as (Hc1 & -> & Ew).
  assert (Ei : (Window.insert (key_of a1) (window c)).1 = true) by (unfold Window.insert; by rewrite Em).
  rewrite Ei in H. cbn [mret M_ret] in H. injection H as <- <- <-. split; [done|]. by exists a1.
Qed.

(** The guarded handler is as safe as the one it guards. *)
Lemma guarded_safe {HS : SodiumSpec NaCl} cap sid seq inp ssk spub f roles we nonce wide :
  is_n 16 sid → is_u32 seq → is_n 32 spub → is_n 32 nonce → lookup_sizes f → Forall is_u64 roles →
  triple (λ s, cache_wf s.1 ∧ with_out auth_sizes cap s.2)
    (auth_server_handle_auth1_guarded sid seq inp ssk spub (Some f) (Some roles) we nonce wide) (λ n, n ≤ cap).
Proof.
  intros Hs Hq Hsp Hn Hf Hr. unfold auth_server_handle_auth1_guarded.
  eapply triple_bind; [apply triple_deref|cbv beta]. intros buf _.
  eapply triple_bind; [apply triple_deref|cbv beta]. intros g _.
  eapply triple_bind; [apply triple_deref|cbv beta]. intros rs _.
  eapply triple_bind; [apply triple_lift, (decode_good (decode := auth_auth1_decode))|cbv beta]. intros a1 _.
  cbv zeta. eapply triple_bind; [apply triple_get|cbv beta]. intros [c l] [Hc _]. cbn [fst] in Hc.
  eapply (triple_bind _ _ _ (λ _, True)); [apply triple_lift; by rewrite contains_run|]. intros seen _.
  eapply triple_bind; [apply triple_require|cbv beta]. intros _ _.
  apply (triple_bind _ _ _ (λ n, n ≤ cap)).
  { intros [c1 l1] [Hc1 Hl1]. cbn [on_rest].
    destruct (handle_auth1_safe cap sid seq inp ssk spub (Some f) (Some roles) we nonce wide Hs Hq Hsp Hn
      ltac:(by intros ? [= <-]) ltac:(by intros ? [= <-]) l1 Hl1) as [H1 H2].
    by destruct (auth_server_handle_auth1 _ _ _ _ _ _ _ _ _ _ l1) as [o l2]. }
  intros n Hle. apply (triple_bind _ _ _ (λ _, True)).
  { intros [c1 l1] [Hc1 Hl1]. cbn [on_cache].
    pose proof (insert_refines c1 (auth_replay_key (a1_pid a1) (a1_nonce_c a1) (a1_eph_c a1)) Hc1) as Hi.
    destruct (auth_replay_cache_insert _ c1) as [oi c2]. by destruct Hi as (Hc2 & -> & _). }
  intros [] _; [by apply triple_ret|]. apply (triple_bind _ _ _ (λ _, True)); [|intros; apply triple_fail].
  intros [c1 [p1 o1]] [Hc1 [_ Hl1]]. cbn. split; [done|]. split; [done|]. split; [|done].
  constructor; try apply length_zeros. cbn. lia.
Qed.

Lemma mem_insert k w : Window.mem k (Window.insert k w).2 = true.
Proof.
  unfold Window.insert. destruct (Window.mem k w) eqn:E; [done|]. cbn [snd]. apply bool_decide_eq_true.
  rewrite drop_app_le by (unfold AUTH_REPLAY_CACHE_CAPACITY; lia). apply elem_of_app. right. by left.
Qed.
End guard.

(** C10: an AUTH_1 is accepted at most once while its key is in the window: a
    success of the guarded handler means that the key was not remembered, and
    then any packet with the same pseudonym, nonce and ephemeral key is refused
    as a replay with nothing changed; a packet that fails leaves the cache as it
    was, so unverified packets cannot fill it. *)
Theorem guard_refuses_replays {NaCl : Sodium} sid seq inp ssk spub f roles we nonce wide c s o c' s' :
  cache_wf c →
  auth_server_handle_auth1_guarded sid seq inp ssk spub (Some f) (Some roles) we nonce wide (c, s) =
    (o, (c', s')) →
  cache_wf c' ∧
  match o with
  | Ok _ => ∃ a1, inp = Some (wire_auth1 a1) ∧ auth1_wf a1 ∧ ¬ (key_of a1 ∈ window c) ∧
      window c' = snd (Window.insert (key_of a1) (window c)) ∧
      ∀ sid2 seq2 a2 we2 nonce2 wide2 s2, auth1_wf a2 → key_of a2 = key_of a1 →
        auth_server_handle_auth1_guarded sid2 seq2 (Some (wire_auth1 a2)) ssk spub (Some f) (Some roles)
          we2 nonce2 wide2 (c', s2) = (Err AUTH_ERR_REPLAY_DETECTED, (c', s2))
  | _ => c' = c
  end.
Proof.
  intros Hc H. pose proof (guarded_cases _ _ _ _ _ _ _ _ _ _ _ _ _ _ _ Hc H) as [Hc' Ho]. split; [done|].
  destruct o as [n|e|]; [|done..]. destruct Ho as (a1 & Ei & Hw & Em & Ew & _). exists a1.
  split_and!; [done|done|by apply bool_decide_eq_false in Em|done|].
  intros sid2 seq2 a2 we2 nonce2 wide2 s2 Hw2 Ek. apply guarded_seen; [done..|]. rewrite Ek, Ew.
  apply (bool_decide_eq_true _). apply mem_insert.
Qed.

Lemma guard_refuses_replays_witness :
  let run cache := auth_server_handle_auth1_guarded (NaCl := Toy.sodium) (replicate 16 Byte.x05) 3
    (Some (wire_auth1 sample_auth1)) (store_le 32 4) (store_le 32 4) (Some sample_lookup) (Some [7; 1]%Z)
    (ad_server_eph sample_auth_draws) (ad_server_nonce sample_auth_draws)
    (ad_server_proof sample_auth_draws) (cache, (sample_pending_auth, zeros AUTH_MAX_DATAGRAM)) in
  ∃ c', run c' = (Err AUTH_ERR_REPLAY_DETECTED, (c', (sample_pending_auth, zeros AUTH_MAX_DATAGRAM))).
Proof.
  intros run. destruct (run (auth_replay_cache_init {| rc_keys := []; rc_n := 0; rc_next_evict := 0 |}).2)
    as [o [c' s']] eqn:E.
  assert (Ho : match o with Ok _ => true | _ => false end = true).
  { apply (f_equal fst) in E. cbn [fst] in E. rewrite <- E. vm_compute. reflexivity. }
  apply (guard_refuses_replays (NaCl := Toy.sodium)) in E; [|constructor; apply Nat.ltb_lt || apply Nat.leb_le || idtac; reflexivity].
  destruct o as [n| |]; [|discriminate Ho|discriminate Ho].
  destruct E as (_ & a1 & Ei & Hw & _ & _ & H). exists c'. unfold run. rewrite Ei. apply H; [exact Hw|reflexivity].
Defined.
