(* ===== verification/SessionTable.v ===== *)
(** The server's table of sessions: [src/c/include/auth/session_table.h] and
    [src/c/src/store/session_table.c].

    A slot is a state and a union; the union's member is meaningful in the states
    SETUP and AUTH only, so a slot is an inductive type with the pending record
    in these two.  An operation works on the slots of the caller's table; a slot
    index is a C [int], -1 when there is none. *)
From S2P Require Export Replay.

Definition AUTH_SESSION_TABLE_CAPACITY : nat := 64.

Inductive auth_session_slot_state_t :=
  | AUTH_SESSION_SLOT_FREE
  | AUTH_SESSION_SLOT_RESERVED
  | AUTH_SESSION_SLOT_SETUP
  | AUTH_SESSION_SLOT_AUTH.

#[export] Instance slot_state_eq_dec : EqDecision auth_session_slot_state_t.
Proof. solve_decision. Defined.

Inductive auth_session_slot_t :=
  | Slot_free
  | Slot_reserved
  | Slot_setup (p : auth_pending_setup_t)
  | Slot_auth (p : auth_pending_auth_t).

Definition slot_state (s : auth_session_slot_t) : auth_session_slot_state_t :=
  match s with
  | Slot_free => AUTH_SESSION_SLOT_FREE
  | Slot_reserved => AUTH_SESSION_SLOT_RESERVED
  | Slot_setup _ => AUTH_SESSION_SLOT_SETUP
  | Slot_auth _ => AUTH_SESSION_SLOT_AUTH
  end.

(** [table->slots] *)
Abbreviation auth_session_table_t := (list auth_session_slot_t).

Definition valid_slot (slot : Z) : bool :=
  (0 <=? slot)%Z && (slot <? Z.of_nat AUTH_SESSION_TABLE_CAPACITY)%Z.

(** [table->slots[i]] *)
Definition read_slot (table : auth_session_table_t) (i : nat) : outcome auth_err_t auth_session_slot_t :=
  match table !! i with Some s => Ok s | None => Fault end.

Definition write_slot (i : nat) (s : auth_session_slot_t) : M auth_err_t auth_session_table_t unit :=
  λ table, if i <? length table then (Ok tt, <[i := s]> table) else (Fault, table).

(** The loops [for (i = i0; i < i0 + n; ++i) if (f(&table->slots[i])) return i; return -1;] *)
Fixpoint find_slot (f : auth_session_slot_t → bool) (table : auth_session_table_t) (i n : nat) :
    outcome auth_err_t Z :=
  match n with
  | O => mret (-1)%Z
  | S n =>
      s ← read_slot table i;
      if f s then mret (Z.of_nat i) else find_slot f table (S i) n
  end.

Definition is_free (s : auth_session_slot_t) : bool := bool_decide (slot_state s = AUTH_SESSION_SLOT_FREE).

Definition is_setup (session_id : bytes) (s : auth_session_slot_t) : bool :=
  match s with Slot_setup p => memeq (ps_session_id p) session_id | _ => false end.

Definition is_auth (session_id : bytes) (s : auth_session_slot_t) : bool :=
  match s with Slot_auth p => memeq (pa_session_id p) session_id | _ => false end.

Definition auth_session_table_init : M auth_err_t auth_session_table_t unit :=
  put (replicate AUTH_SESSION_TABLE_CAPACITY Slot_free).

Definition auth_session_table_reserve : M auth_err_t auth_session_table_t Z :=
  table ← get;
  i ← lift (find_slot is_free table 0 AUTH_SESSION_TABLE_CAPACITY);
  if (i <? 0)%Z then mret (-1)%Z
  else write_slot (Z.to_nat i) Slot_reserved;; mret i.

(** What the two activations share; [entry] is the slot with its new state. *)
Definition activate (slot : Z) (new_entry : auth_session_slot_t) : M auth_err_t auth_session_table_t unit :=
  require (valid_slot slot) AUTH_ERR_INVALID_ARGUMENT;;
  table ← get;
  entry ← lift (read_slot table (Z.to_nat slot));
  require (bool_decide (slot_state entry = AUTH_SESSION_SLOT_RESERVED)) AUTH_ERR_INVALID_ARGUMENT;;
  write_slot (Z.to_nat slot) new_entry.

Definition auth_session_table_activate_setup (slot : Z) (pending : ptr auth_pending_setup_t) :
    M auth_err_t auth_session_table_t unit :=
  p ← deref pending AUTH_ERR_INVALID_ARGUMENT;
  activate slot (Slot_setup p).

Definition auth_session_table_activate_auth (slot : Z) (pending : ptr auth_pending_auth_t) :
    M auth_err_t auth_session_table_t unit :=
  p ← deref pending AUTH_ERR_INVALID_ARGUMENT;
  activate slot (Slot_auth p).

Definition auth_session_table_find_setup (table : auth_session_table_t) (session_id : ptr bytes) :
    outcome auth_err_t Z :=
  match session_id with
  | None => mret (-1)%Z
  | Some sid => find_slot (is_setup sid) table 0 AUTH_SESSION_TABLE_CAPACITY
  end.

Definition auth_session_table_find_auth (table : auth_session_table_t) (session_id : ptr bytes) :
    outcome auth_err_t Z :=
  match session_id with
  | None => mret (-1)%Z
  | Some sid => find_slot (is_auth sid) table 0 AUTH_SESSION_TABLE_CAPACITY
  end.

Definition auth_session_table_release (slot : Z) : M auth_err_t auth_session_table_t unit :=
  require (valid_slot slot) AUTH_ERR_INVALID_ARGUMENT;;
  write_slot (Z.to_nat slot) Slot_free.

Definition auth_session_table_state (table : auth_session_table_t) (slot : Z) :
    outcome auth_err_t auth_session_slot_state_t :=
  if negb (valid_slot slot) then mret AUTH_SESSION_SLOT_FREE
  else s ← read_slot table (Z.to_nat slot); mret (slot_state s).

(** ** The invariant and the searches *)
Definition table_wf (t : auth_session_table_t) : Prop := length t = AUTH_SESSION_TABLE_CAPACITY.

(** [r] is the first index at which [f] holds, -1 when there is none. *)
Definition first_index (f : auth_session_slot_t → bool) (t : auth_session_table_t) (r : Z) : Prop :=
  match list_find (λ s, f s = true) t with
  | Some (i, _) => r = Z.of_nat i
  | None => r = (-1)%Z
  end.

Lemma find_slot_run f t i n :
  i + n = length t → ∃ r, find_slot f t i n = Ok r ∧
    match list_find (λ s, f s = true) (drop i t) with
    | Some (j, _) => r = Z.of_nat (i + j)
    | None => r = (-1)%Z
    end.
Proof.
  revert i. induction n as [|n IH]; intros i Hi; cbn [find_slot].
  { rewrite drop_ge by lia. by eexists. }
  destruct (lookup_lt_is_Some_2 t i) as [s Hs]; [lia|]. unfold read_slot. rewrite Hs.
  rewrite (drop_S _ _ _ Hs). cbn [mbind outcome_bind list_find]. destruct (f s) eqn:E.
  - rewrite decide_True by done. eexists. split; [done|]. by rewrite Nat.add_0_r.
  - rewrite decide_False by done. destruct (IH (S i)) as (r & Er & Hr); [lia|]. exists r. split; [done|].
    destruct (list_find _ (drop (S i) t)) as [[j s']|]; cbn; [|done]. rewrite Hr. f_equal. lia.
Qed.

Lemma find_run f t : table_wf t → ∃ r, find_slot f t 0 AUTH_SESSION_TABLE_CAPACITY = Ok r ∧ first_index f t r.
Proof.
  intros Ht. destruct (find_slot_run f t 0 AUTH_SESSION_TABLE_CAPACITY) as (r & Er & Hr); [by rewrite Ht|].
  exists r. split; [done|]. unfold first_index. rewrite drop_0 in Hr. by destruct (list_find _ t) as [[]|].
Qed.

Lemma first_index_cases f t r :
  first_index f t r →
  (r = (-1)%Z ∧ Forall (λ s, f s = false) t) ∨
  (∃ i s, r = Z.of_nat i ∧ t !! i = Some s ∧ f s = true ∧ ∀ j s', t !! j = Some s' → j < i → f s' = false).
Proof.
  unfold first_index. destruct (list_find _ t) as [[i s]|] eqn:E; intros ->.
  - apply list_find_Some in E as (Hi & Hf & Hj). right. exists i, s. split_and!; [done..|].
    intros j s' Hs' Hlt. specialize (Hj j s' Hs' Hlt). by destruct (f s').
  - left. split; [done|]. apply list_find_None in E. apply (list.Forall_impl _ _ _ E). intros s Hs. by destruct (f s).
Qed.

Lemma valid_slot_iff z : valid_slot z = true ↔ ∃ i, z = Z.of_nat i ∧ i < AUTH_SESSION_TABLE_CAPACITY.
Proof.
  unfold valid_slot. rewrite andb_true_iff, Z.leb_le, Z.ltb_lt. split.
  - intros [? ?]. exists (Z.to_nat z). split; lia.
  - intros (i & -> & ?). lia.
Qed.

Lemma read_slot_run t i s : t !! i = Some s → read_slot t i = Ok s.
Proof. intros H. unfold read_slot. by rewrite H. Qed.

Lemma write_slot_run t i s : table_wf t → i < AUTH_SESSION_TABLE_CAPACITY → write_slot i s t = (Ok tt, <[i := s]> t).
Proof. intros Ht Hi. unfold write_slot. by rewrite Ht, (proj2 (Nat.ltb_lt _ _)). Qed.

Lemma table_lookup t i : table_wf t → i < AUTH_SESSION_TABLE_CAPACITY → ∃ s, t !! i = Some s.
Proof. intros Ht Hi. apply lookup_lt_is_Some_2. by rewrite Ht. Qed.

Lemma lookup_in_table t i s : table_wf t → t !! i = Some s → i < AUTH_SESSION_TABLE_CAPACITY.
Proof. intros Ht H. apply lookup_lt_Some in H. by rewrite Ht in H. Qed.

Lemma insert_wf t i s : table_wf t → table_wf (<[i := s]> t).
Proof. intros Ht. unfold table_wf. by rewrite length_insert. Qed.

(** ** What each operation does *)
Lemma reserve_run t :
  table_wf t →
  (auth_session_table_reserve t = (Ok (-1)%Z, t) ∧ Forall (λ s, is_free s = false) t) ∨
  ∃ i, t !! i = Some Slot_free ∧ (∀ j s, t !! j = Some s → j < i → is_free s = false) ∧
    auth_session_table_reserve t = (Ok (Z.of_nat i), <[i := Slot_reserved]> t).
Proof.
  intros Ht. unfold auth_session_table_reserve. pstep. destruct (find_run is_free t Ht) as (r & Er & Hr).
  pstep by Er. apply first_index_cases in Hr as [[-> Hf]|(i & s & -> & Hs & Hf & Hj)].
  - left. done.
  - right. exists i. rewrite (proj2 (Z.ltb_ge _ _)), Nat2Z.id by lia.
    pstep by (write_slot_run t i Slot_reserved Ht (lookup_in_table _ _ _ Ht Hs)). cbn [mret M_ret].
    split_and!; [|done|done]. by destruct s.
Qed.

Lemma release_run t i :
  table_wf t → i < AUTH_SESSION_TABLE_CAPACITY →
  auth_session_table_release (Z.of_nat i) t = (Ok tt, <[i := Slot_free]> t).
Proof.
  intros Ht Hi. unfold auth_session_table_release. rewrite (proj2 (valid_slot_iff _)) by eauto. pstep.
  rewrite Nat2Z.id. by apply write_slot_run.
Qed.

(** An activation of anything but a reserved slot is refused and changes nothing. *)
Lemma activate_cases t z e :
  table_wf t →
  (∃ i, z = Z.of_nat i ∧ t !! i = Some Slot_reserved ∧ activate z e t = (Ok tt, <[i := e]> t)) ∨
  (¬ (∃ i, z = Z.of_nat i ∧ t !! i = Some Slot_reserved)) ∧ activate z e t = (Err AUTH_ERR_INVALID_ARGUMENT, t).
Proof.
  intros Ht. unfold activate. destruct (valid_slot z) eqn:Ev; pstep.
  - apply valid_slot_iff in Ev as (i & -> & Hi). destruct (table_lookup t i Ht Hi) as [s Hs].
    pstep. rewrite Nat2Z.id. pstep by (read_slot_run t i _ Hs). case_bool_decide as E; pstep.
    + left. exists i. destruct s; try discriminate E. by rewrite write_slot_run.
    + right. split; [|done]. intros (j & Ej & Hj). apply Nat2Z.inj in Ej as ->. rewrite Hj in Hs. by injection Hs as <-.
  - right. split; [|done]. intros (i & -> & Hi). apply lookup_in_table in Hi; [|done].
    by rewrite (proj2 (valid_slot_iff _)) in Ev by eauto.
Qed.

Lemma activate_run t i e :
  table_wf t → t !! i = Some Slot_reserved → activate (Z.of_nat i) e t = (Ok tt, <[i := e]> t).
Proof.
  intros Ht Hi. destruct (activate_cases t (Z.of_nat i) e Ht) as [(j & Ej & _ & ->)|[Hn _]].
  - by apply Nat2Z.inj in Ej as ->.
  - by destruct Hn; eauto.
Qed.

Lemma find_setup_run t sid :
  table_wf t → ∃ r, auth_session_table_find_setup t (Some sid) = Ok r ∧ first_index (is_setup sid) t r.
Proof. intros Ht. by apply find_run. Qed.

Lemma find_auth_run t sid :
  table_wf t → ∃ r, auth_session_table_find_auth t (Some sid) = Ok r ∧ first_index (is_auth sid) t r.
Proof. intros Ht. by apply find_run. Qed.

(** ** The life of a slot *)
Inductive table_op :=
  | Op_init
  | Op_reserve
  | Op_activate_setup (slot : Z) (pending : ptr auth_pending_setup_t)
  | Op_activate_auth (slot : Z) (pending : ptr auth_pending_auth_t)
  | Op_release (slot : Z).

Definition table_step (op : table_op) : M auth_err_t auth_session_table_t Z :=
  match op with
  | Op_init => auth_session_table_init;; mret 0%Z
  | Op_reserve => auth_session_table_reserve
  | Op_activate_setup z p => auth_session_table_activate_setup z p;; mret z
  | Op_activate_auth z p => auth_session_table_activate_auth z p;; mret z
  | Op_release z => auth_session_table_release z;; mret z
  end.

(** The changes a slot may undergo. *)
Inductive slot_edge : auth_session_slot_t → auth_session_slot_t → Prop :=
  | edge_reserve : slot_edge Slot_free Slot_reserved
  | edge_setup p : slot_edge Slot_reserved (Slot_setup p)
  | edge_auth p : slot_edge Slot_reserved (Slot_auth p)
  | edge_release s : slot_edge s Slot_free.

(** One slot takes an edge. *)
Definition moves (t t' : auth_session_table_t) (i : nat) : Prop :=
  ∃ s s', t !! i = Some s ∧ slot_edge s s' ∧ t' = <[i := s']> t.

Lemma activate_moves t z e :
  table_wf t → slot_edge Slot_reserved e →
  let '(o, t') := activate z e t in
  (o = Err AUTH_ERR_INVALID_ARGUMENT ∧ t' = t) ∨ (o = Ok tt ∧ ∃ i, z = Z.of_nat i ∧ moves t t' i).
Proof.
  intros Ht He. destruct (activate_cases t z e Ht) as [(i & -> & Hi & ->)|[_ ->]]; [right|by left].
  split; [done|]. exists i. split; [done|]. by exists Slot_reserved, e.
Qed.

Lemma release_moves t z :
  table_wf t →
  let '(o, t') := auth_session_table_release z t in
  (o = Err AUTH_ERR_INVALID_ARGUMENT ∧ t' = t) ∨ (o = Ok tt ∧ ∃ i, z = Z.of_nat i ∧ moves t t' i).
Proof.
  intros Ht. destruct (valid_slot z) eqn:Ev.
  - pose proof Ev as Ev'. apply valid_slot_iff in Ev' as (i & -> & Hi). rewrite release_run by done. right.
    split; [done|]. exists i. split; [done|]. destruct (table_lookup t i Ht Hi) as [s Hs].
    exists s, Slot_free. split_and!; [done|constructor|done].
  - unfold auth_session_table_release. rewrite Ev, bind_run. by left.
Qed.

Lemma reserve_moves t :
  table_wf t →
  let '(o, t') := auth_session_table_reserve t in
  (o = Ok (-1)%Z ∧ t' = t) ∨ (∃ i, o = Ok (Z.of_nat i) ∧ moves t t' i).
Proof.
  intros Ht. destruct (reserve_run t Ht) as [[-> _]|(i & Hi & _ & ->)]; [by left|]. right. exists i.
  split; [done|]. exists Slot_free, Slot_reserved. split_and!; [done|constructor|done].
Qed.

Lemma moves_wf t t' i : table_wf t → moves t t' i → table_wf t'.
Proof. intros Ht (s & s' & _ & _ & ->). by apply insert_wf. Qed.

(** C31: every operation on the session table keeps its 64 slots and never indexes
    outside them; it changes at most one slot, the one it is given or returns, and
    that slot goes from FREE to RESERVED, from RESERVED to an active session, or
    back to FREE; a failed operation changes nothing. *)
Theorem session_slots_lifecycle t op :
  table_wf t →
  let '(o, t') := table_step op t in
  o ≠ Fault ∧ table_wf t' ∧
  match o with
  | Ok z => t' = t ∧ z = (-1)%Z ∧ op = Op_reserve ∨ (∃ i, z = Z.of_nat i ∧ moves t t' i) ∨
            op = Op_init ∧ Forall (λ s, s = Slot_free) t'
  | _ => t' = t
  end.
Proof.
  intros Ht. destruct op as [| |z p|z p|z]; cbn [table_step].
  - unfold auth_session_table_init. rewrite bind_run. cbn [put mret M_ret].
    split; [done|split; [done|]]. right; right. split; [done|]. by apply Forall_replicate.
  - pose proof (reserve_moves t Ht) as H. destruct (auth_session_table_reserve t) as [o t'].
    destruct H as [[-> ->]|(i & -> & Hm)]; [split_and!; [done|done|by left]|].
    split_and!; [done|by eapply moves_wf|right; left; eauto].
  - destruct p as [p|]; [|done]. unfold auth_session_table_activate_setup. rewrite bind_run.
    cbn [deref]. rewrite bind_run. cbn [mret M_ret].
    pose proof (activate_moves t z (Slot_setup p) Ht (edge_setup p)) as H.
    destruct (activate z (Slot_setup p) t) as [o t']. destruct H as [[-> ->]|(-> & i & -> & Hm)]; [done|].
    split_and!; [done|by eapply moves_wf|right; left; eauto].
  - destruct p as [p|]; [|done]. unfold auth_session_table_activate_auth. rewrite bind_run.
    cbn [deref]. rewrite bind_run. cbn [mret M_ret].
    pose proof (activate_moves t z (Slot_auth p) Ht (edge_auth p)) as H.
    destruct (activate z (Slot_auth p) t) as [o t']. destruct H as [[-> ->]|(-> & i & -> & Hm)]; [done|].
    split_and!; [done|by eapply moves_wf|right; left; eauto].
  - rewrite bind_run. pose proof (release_moves t z Ht) as H.
    destruct (auth_session_table_release z t) as [o t']. destruct H as [[-> ->]|(-> & i & -> & Hm)]; [done|].
    split_and!; [done|by eapply moves_wf|right; left; eauto].
Qed.

Lemma session_slots_lifecycle_witness :
  let t := replicate 64 Slot_reserved in
  let '(o, t') := table_step Op_reserve t in o ≠ Fault ∧ table_wf t'.
Proof.
  intros t. pose proof (session_slots_lifecycle t Op_reserve eq_refl) as H.
  destruct (table_step Op_reserve t) as [o t']. destruct H as (H1 & H2 & _). split; assumption.
Defined.

(** ** Reservations *)
Definition free_count (t : auth_session_table_t) : nat := length (filter (λ s, is_free s = true) t).

Fixpoint reserve_n (n : nat) : M auth_err_t auth_session_table_t (list Z) :=
  match n with
  | O => mret []
  | S n => r ← auth_session_table_reserve; rs ← reserve_n n; mret (r :: rs)
  end.

Lemma free_count_insert t i :
  t !! i = Some Slot_free → free_count t = S (free_count (<[i := Slot_reserved]> t)).
Proof.
  intros Hi. pose proof (lookup_lt_Some _ _ _ Hi) as Hl. rewrite insert_take_drop by done.
  rewrite <- (take_drop_middle t i Slot_free Hi) at 1. unfold free_count.
  rewrite !list.filter_app, !length_app. cbn [filter list_filter].
  rewrite (decide_True (P := is_free Slot_free = true)) by done.
  rewrite (decide_False (P := is_free Slot_reserved = true)) by done. cbn [length]. lia.
Qed.

Lemma no_free_count t : Forall (λ s, is_free s = false) t → free_count t = 0.
Proof.
  intros H. unfold free_count. induction H as [|s t Hs _ IH]; [done|]. cbn [filter list_filter].
  by rewrite decide_False by (by rewrite Hs).
Qed.

(** The slots in [rs] that were obtained. *)
Definition obtained (rs : list Z) : list Z := filter (λ r, r ≠ (-1)%Z) rs.

Lemma obtained_cons i rs : obtained (Z.of_nat i :: rs) = Z.of_nat i :: obtained rs.
Proof. unfold obtained. rewrite list.filter_cons_True; [done|lia]. Qed.

Lemma reserve_n_run n t :
  table_wf t → ∃ rs t', reserve_n n t = (Ok rs, t') ∧ table_wf t' ∧ length (obtained rs) = min n (free_count t) ∧
    NoDup (obtained rs) ∧
    Forall (λ r, ∃ i, r = Z.of_nat i ∧ t !! i = Some Slot_free ∧ t' !! i = Some Slot_reserved) (obtained rs) ∧
    ∀ j, t !! j = Some Slot_reserved → t' !! j = Some Slot_reserved.
Proof.
  revert t. induction n as [|n IH]; intros t Ht; cbn [reserve_n].
  { exists [], t. split_and!; [done|done|done|apply NoDup_nil_2|constructor|done]. }
  rewrite bind_run. destruct (reserve_run t Ht) as [[-> Hf]|(i & Hi & _ & ->)].
  - rewrite bind_run. destruct (IH t Ht) as (rs & t' & -> & Hw & Hl & Hn & Hf' & Hr).
    exists ((-1)%Z :: rs), t'. cbn [mret M_ret]. split_and!; [done|done| |done|done|done].
    rewrite (no_free_count t Hf) in *. rewrite Nat.min_0_r in *. done.
  - rewrite bind_run.
    destruct (IH (<[i := Slot_reserved]> t)) as (rs & t' & -> & Hw & Hl & Hn & Hf' & Hr); [by apply insert_wf|].
    exists (Z.of_nat i :: rs), t'. cbn [mret M_ret]. rewrite obtained_cons.
    pose proof (lookup_lt_Some _ _ _ Hi) as Hlt.
    assert (Hti : t' !! i = Some Slot_reserved) by (apply Hr, list_lookup_insert_eq; done).
    split_and!; [done|done|cbn [length]; rewrite Hl, (free_count_insert t i Hi); lia| | |].
    + apply NoDup_cons_2; [|done]. intros Hin. rewrite list.Forall_forall in Hf'.
      destruct (Hf' _ Hin) as (j & Ej & Hj & _). apply Nat2Z.inj in Ej as <-.
      by rewrite list_lookup_insert_eq in Hj.
    + apply list.Forall_cons. split; [by exists i|]. apply (list.Forall_impl _ _ _ Hf').
      intros r (j & -> & Hj & Hj'). exists j. split_and!; [done| |done].
      destruct (decide (i = j)) as [->|]; [by rewrite list_lookup_insert_eq in Hj|].
      by rewrite list_lookup_insert_ne in Hj.
    + intros j Hj. apply Hr. destruct (decide (i = j)) as [->|]; [congruence|]. by rewrite list_lookup_insert_ne.
Qed.

(** Reservations are exclusive and complete: [n] of them without a release give
    pairwise different slots that were all free and are now reserved, and exactly
    as many as there are free slots; the others are refused with -1. *)
Theorem reservations_exclusive n t :
  table_wf t →
  ∃ rs t', reserve_n n t = (Ok rs, t') ∧ length (obtained rs) = min n (free_count t) ∧
    NoDup (obtained rs) ∧
    Forall (λ r, ∃ i, r = Z.of_nat i ∧ t !! i = Some Slot_free ∧ t' !! i = Some Slot_reserved) (obtained rs).
Proof.
  intros Ht. destruct (reserve_n_run n t Ht) as (rs & t' & Er & _ & Hl & Hn & Hf & _). by exists rs, t'.
Qed.

Lemma reservations_exclusive_witness :
  ∃ rs t', reserve_n 65 (replicate 64 Slot_free) = (Ok rs, t') ∧ length (obtained rs) = 64.
Proof.
  destruct (reservations_exclusive 65 (replicate 64 Slot_free) eq_refl) as (rs & t' & E & Hl & _).
  exists rs, t'. split; [exact E|]. rewrite Hl. vm_compute. reflexivity.
Defined.
