(* ===== verification/Store.v ===== *)
(** The filesystem stores: [src/c/include/auth/store.h] and
    [src/c/src/store/store_fs.c].

    The POSIX calls work on a [world]: the files by name, and a script of the
    answers that the operating system gives to the next calls (a full transfer, a
    short one, an interruption, a failure); after the script every call succeeds.
    Any finite behaviour of the system is some script, and the theorems hold for
    all of them.  What is written reaches the disk when it is synced, or at any earlier
    or later time: [unsynced] are the files whose contents may not be there yet, and
    after a crash they can hold anything.  [history] is a ghost: the states that there
    have been, which another process could have seen and of which a crash can leave any
    one ([after_crash]), because the directory itself is never synced. *)
From stdpp Require Import gmap.
From S2P Require Export SessionTable.

#[export] Instance byte_countable : Countable byte := inj_countable Byte.to_N Byte.of_N Byte.of_to_N.

(** ** POSIX *)
Inductive answer := A_full | A_short (n : nat) | A_interrupted | A_failed.

Abbreviation fs := (gmap bytes bytes).

(** The files, and the names of those whose contents may not be on the disk. *)
Abbreviation snapshot := (fs * gset bytes)%type.

Record world := { files : fs; unsynced : gset bytes; answers : list answer; history : list snapshot }.

Definition now (w : world) : snapshot := (files w, unsynced w).

(** The answer to the next call. *)
Definition next_answer : M auth_err_t world answer := λ w,
  match answers w with
  | [] => (Ok A_full, w)
  | a :: l => (Ok a, {| files := files w; unsynced := unsynced w; answers := l; history := history w |})
  end.

Definition set_disk (f : fs) (u : gset bytes) : M auth_err_t world unit := λ w,
  (Ok tt, {| files := f; unsynced := u; answers := answers w; history := (f, u) :: history w |}).

Definition succeeds (a : answer) : bool := match a with A_full | A_short _ => true | _ => false end.

(** How much of [len] bytes a call transfers: something, unless it fails. *)
Definition transferred (a : answer) (len : nat) : option nat :=
  match a with
  | A_full => Some len
  | A_short n => Some (min (S n) len)
  | _ => None
  end.

(** [open(path, O_CREAT | O_TRUNC | O_WRONLY, mode) >= 0] *)
Definition sys_create (path : bytes) : M auth_err_t world bool :=
  a ← next_answer;
  if succeeds a then w ← get; set_disk (<[path := []]> (files w)) ({[path]} ∪ unsynced w);; mret true
  else mret false.

(** [write] at the end of the file; [None] is -1, with [errno]. *)
Definition sys_write (path data : bytes) : M auth_err_t world (answer * option nat) :=
  a ← next_answer;
  w ← get;
  match transferred a (length data), files w !! path with
  | Some n, Some old => set_disk (<[path := old ++ take n data]> (files w)) ({[path]} ∪ unsynced w);; mret (a, Some n)
  | _, _ => mret (a, None)
  end.

(** [fsync(fd) == 0], [fd] being open on [path] *)
Definition sys_fsync (path : bytes) : M auth_err_t world bool :=
  a ← next_answer;
  w ← get;
  if succeeds a then set_disk (files w) (unsynced w ∖ {[path]});; mret true else mret false.

(** [close(fd) == 0] *)
Definition sys_ok : M auth_err_t world bool := a ← next_answer; mret (succeeds a).

(** [rename(from, to) == 0] *)
Definition sys_rename (from to : bytes) : M auth_err_t world bool :=
  a ← next_answer;
  w ← get;
  match succeeds a, files w !! from with
  | true, Some data =>
      let u := unsynced w ∖ {[from; to]} in
      set_disk (<[to := data]> (delete from (files w))) (if decide (from ∈ unsynced w) then {[to]} ∪ u else u);; mret true
  | _, _ => mret false
  end.

Definition sys_unlink (path : bytes) : M auth_err_t world unit :=
  a ← next_answer;
  w ← get;
  if succeeds a then set_disk (delete path (files w)) (unsynced w ∖ {[path]}) else mret tt.

(** [open(path, O_RDONLY)]: the file, [ENOENT], or another error. *)
Inductive opened_file := Opened (data : bytes) | Enoent | Open_error.

Definition sys_open (path : bytes) : M auth_err_t world opened_file :=
  a ← next_answer;
  w ← get;
  if succeeds a then match files w !! path with Some d => mret (Opened d) | None => mret Enoent end
  else mret Open_error.

(** [read] of at most [cap] bytes at offset [off]; an empty result is the end of
    the file. *)
Definition sys_read (data : bytes) (off cap : nat) : M auth_err_t world (answer * option bytes) :=
  a ← next_answer;
  let rest := take cap (drop off data) in
  mret (a, n ← transferred a (length rest); Some (take n rest)).

(** ** Little-endian helpers *)
Definition w32le (v : Z) : bytes :=
  [u8 (Z.land v 255); u8 (Z.land (Z.shiftr v 8) 255);
   u8 (Z.land (Z.shiftr v 16) 255); u8 (Z.land (Z.shiftr v 24) 255)].

Definition r32le (p : bytes) : outcome auth_err_t Z :=
  b0 ← load8 p 0; b1 ← load8 p 1; b2 ← load8 p 2; b3 ← load8 p 3;
  mret (Z.lor (Z.lor (Z.lor (b2z b0) (u32 (Z.shiftl (b2z b1) 8)))
                 (u32 (Z.shiftl (b2z b2) 16))) (u32 (Z.shiftl (b2z b3) 24))).

Definition w64le (v : Z) : bytes := store_le 8 v.

Definition r64le (p : bytes) : outcome auth_err_t Z := x ← loadn p 0 8; mret (load_le x).

(** ** The atomic write *)
(** The loop; every turn but the last takes an answer of the script. *)
Fixpoint write_loop (fuel : nat) (tmp data : bytes) (off : nat) : M auth_err_t world bool :=
  if length data <=? off then mret true
  else match fuel with
  | O => fault
  | S fuel =>
      '(a, w) ← sys_write tmp (drop off data);
      match w with
      | None => match a with A_interrupted => write_loop fuel tmp data off | _ => mret false end
      | Some n => write_loop fuel tmp data (off + n)
      end
  end.

(** [if (!ok) { ...; unlink(tmp); return AUTH_ERR_STORAGE_FAILURE; }]; [closing] when the
    descriptor is closed first. *)
Definition or_unlink (ok closing : bool) (tmp : bytes) : M auth_err_t world unit :=
  if ok then mret tt
  else (if closing then sys_ok;; mret tt else mret tt);; sys_unlink tmp;; fail AUTH_ERR_STORAGE_FAILURE.

Definition atomic_write (path data : bytes) : M auth_err_t world unit :=
  let tmp := path ++ str_bytes ".tmp" in
  require (length tmp <? 512) AUTH_ERR_INVALID_ARGUMENT;;
  opened ← sys_create tmp;
  require opened AUTH_ERR_STORAGE_FAILURE;;
  w ← get;
  wrote ← write_loop (S (length (answers w))) tmp data 0;
  or_unlink wrote true tmp;;
  synced ← sys_fsync tmp;
  or_unlink synced true tmp;;
  closed ← sys_ok;
  or_unlink closed false tmp;;
  renamed ← sys_rename tmp path;
  or_unlink renamed false tmp.

(** The bytes read so far are [acc]. *)
Fixpoint read_loop (fuel : nat) (data : bytes) (buf_cap : nat) (acc : bytes) : M auth_err_t world bytes :=
  if buf_cap <=? length acc then mret acc
  else match fuel with
  | O => fault
  | S fuel =>
      '(a, r) ← sys_read data (length acc) (buf_cap - length acc);
      match r with
      | None => match a with
                | A_interrupted => read_loop fuel data buf_cap acc
                | _ => sys_ok;; fail AUTH_ERR_STORAGE_FAILURE
                end
      | Some [] => mret acc
      | Some x => read_loop fuel data buf_cap (acc ++ x)
      end
  end.

(** [buf[0 .. *n_read_out - 1]] *)
Definition read_whole_file (path : bytes) (buf_cap : nat) : M auth_err_t world bytes :=
  f ← sys_open path;
  match f with
  | Enoent => fail AUTH_ERR_CREDENTIAL_MISSING
  | Open_error => fail AUTH_ERR_STORAGE_FAILURE
  | Opened data =>
      w ← get;
      x ← read_loop (S (S (length (answers w)))) data buf_cap [];
      sys_ok;;
      mret x
  end.

(** ** Calls on a part of the state *)
Definition on_obj {S A} (m : M auth_err_t S A) : M auth_err_t (S * world) A := λ '(s, w),
  let '(o, s') := m s in (o, (s', w)).

Definition on_fs {S A} (m : M auth_err_t world A) : M auth_err_t (S * world) A := λ '(s, w),
  let '(o, w') := m w in (o, (s, w')).

(** ** Credentials *)
Definition CRED_FILE_LEN : nat := 154.
Definition CRED_MAGIC : bytes := str_bytes "IACRED" ++ [Byte.x00; Byte.x01].

Record auth_credentials_t := {
  cr_device_root : bytes;
  cr_has_pinned_server : bool;
  cr_server_pub_pinned : bytes;
  cr_has_role : bool;
  cr_role_commitment : bytes;
  cr_role_blind : bytes;
  cr_role_code : Z
}.

Definition zero_credentials : auth_credentials_t :=
  {| cr_device_root := zeros 32; cr_has_pinned_server := false; cr_server_pub_pinned := zeros 32;
     cr_has_role := false; cr_role_commitment := zeros 32; cr_role_blind := zeros 32; cr_role_code := 0 |}.

Definition auth_creds_init_fresh (random : bytes) : M auth_err_t auth_credentials_t unit :=
  put zero_credentials;;
  modify (λ c, {| cr_device_root := auth_random_bytes32 random;
                  cr_has_pinned_server := cr_has_pinned_server c;
                  cr_server_pub_pinned := cr_server_pub_pinned c; cr_has_role := cr_has_role c;
                  cr_role_commitment := cr_role_commitment c; cr_role_blind := cr_role_blind c;
                  cr_role_code := cr_role_code c |}).

(** What a file of the right length holds. *)
Definition parse_credentials (buf : bytes) : outcome auth_err_t auth_credentials_t :=
  magic ← loadn buf 0 8;
  check (memeq magic CRED_MAGIC) AUTH_ERR_REGISTRY_CORRUPT;;
  version ← load8 buf 8;
  check (bool_decide (version = Byte.x01)) AUTH_ERR_REGISTRY_CORRUPT;;
  flags ← load8 buf 9;
  root ← loadn buf 10 32;
  pub ← loadn buf 42 32;
  commitment ← loadn buf 74 32;
  blind ← loadn buf 106 32;
  code ← (x ← loadn buf 138 8; r64le x);
  mret {| cr_device_root := root;
          cr_has_pinned_server := negb (Z.land (b2z flags) 1 =? 0)%Z;
          cr_server_pub_pinned := pub;
          cr_has_role := negb (Z.land (b2z flags) 2 =? 0)%Z;
          cr_role_commitment := commitment; cr_role_blind := blind; cr_role_code := code |}.

Definition auth_creds_load (path : ptr bytes) : M auth_err_t (auth_credentials_t * world) unit :=
  path ← deref path AUTH_ERR_INVALID_ARGUMENT;
  on_obj (put zero_credentials);;
  buf ← on_fs (read_whole_file path CRED_FILE_LEN);
  require (length buf =? CRED_FILE_LEN) AUTH_ERR_REGISTRY_CORRUPT;;
  c ← lift (parse_credentials buf);
  on_obj (put c).

(** The file: [uint8_t buf[CRED_FILE_LEN] = {0}] and its assignments. *)
Definition write_credentials (c : auth_credentials_t) : M auth_err_t bytes unit :=
  store_at 0 CRED_MAGIC;;
  store_at 8 [Byte.x01];;
  store_at 9 [u8 (Z.lor (if cr_has_pinned_server c then 1 else 0) (if cr_has_role c then 2 else 0))];;
  store_at 10 (cr_device_root c);;
  (if cr_has_pinned_server c then store_at 42 (cr_server_pub_pinned c) else mret tt);;
  if cr_has_role c then
    store_at 74 (cr_role_commitment c);;
    store_at 106 (cr_role_blind c);;
    store_at 138 (w64le (cr_role_code c))
  else mret tt.

(** A local buffer after [m]. *)
Definition local_buffer (n : nat) (m : M auth_err_t bytes unit) : outcome auth_err_t bytes :=
  match m (zeros n) with
  | (Ok _, buf) => Ok buf
  | (Err e, _) => Err e
  | (Fault, _) => Fault
  end.

Definition auth_creds_save (c : ptr auth_credentials_t) (path : ptr bytes) : M auth_err_t world unit :=
  c ← deref c AUTH_ERR_INVALID_ARGUMENT;
  path ← deref path AUTH_ERR_INVALID_ARGUMENT;
  buf ← lift (local_buffer CRED_FILE_LEN (write_credentials c));
  atomic_write path buf.

(** ** The server key *)
Definition SKEY_FILE_LEN : nat := 41.
Definition SKEY_MAGIC : bytes := str_bytes "IASKEY" ++ [Byte.x00; Byte.x01].

Definition parse_server_key (buf : bytes) : outcome auth_err_t bytes :=
  check (length buf =? SKEY_FILE_LEN) AUTH_ERR_REGISTRY_CORRUPT;;
  magic ← loadn buf 0 8;
  check (memeq magic SKEY_MAGIC) AUTH_ERR_REGISTRY_CORRUPT;;
  version ← load8 buf 8;
  check (bool_decide (version = Byte.x01)) AUTH_ERR_REGISTRY_CORRUPT;;
  loadn buf 9 AUTH_SCALAR_LEN.

Definition write_server_key (server_sk : bytes) : M auth_err_t bytes unit :=
  store_at 0 SKEY_MAGIC;;
  store_at 8 [Byte.x01];;
  store_at 9 server_sk.

(** The key that is loaded or created; [wide] is the randomness of a fresh one. *)
Definition auth_server_key_load_or_create {NaCl : Sodium} (wide : bytes) (path : ptr bytes) :
    M auth_err_t (bytes * world) unit :=
  path ← deref path AUTH_ERR_INVALID_ARGUMENT;
  '(sk, w) ← get;
  match read_whole_file path SKEY_FILE_LEN w with
  | (Ok buf, w') => put (sk, w');; sk ← lift (parse_server_key buf); on_obj (put sk)
  | (Err AUTH_ERR_CREDENTIAL_MISSING, w') =>
      put (auth_random_scalar wide, w');;
      fresh ← lift (local_buffer SKEY_FILE_LEN (write_server_key (auth_random_scalar wide)));
      on_fs (atomic_write path fresh)
  | (o, w') => put (sk, w');; lift o;; mret tt
  end.

(** ** What the calls do to the files *)
(** The states of the disk since [w0] satisfy [P]. *)
Definition always (P : snapshot → Prop) (w0 w : world) : Prop :=
  P (now w) ∧ ∃ h, history w = h ++ history w0 ∧ Forall P h.

Lemma always_refl (P : snapshot → Prop) w : P (now w) → always P w w.
Proof. intros H. split; [done|]. by exists []. Qed.

Lemma always_trans P w0 w1 w2 : always P w0 w1 → always P w1 w2 → always P w0 w2.
Proof.
  intros [_ (h1 & E1 & H1)] [H2 (h2 & E2 & H3)]. split; [done|]. exists (h2 ++ h1).
  rewrite E2, E1, app_assoc. split; [done|]. by apply Forall_app.
Qed.

Lemma always_mono (P Q : snapshot → Prop) w0 w : (∀ s, P s → Q s) → always P w0 w → always Q w0 w.
Proof. intros HPQ [H (h & E & Hh)]. split; [auto|]. exists h. split; [done|]. by apply (list.Forall_impl _ _ _ Hh). Qed.

(** [m] keeps [P] at every moment. *)
Lemma keeps_next_answer P w0 : keeps (always P w0) next_answer.
Proof. intros w [H Hh]. unfold next_answer. by destruct (answers w). Qed.

Lemma set_disk_always (P : snapshot → Prop) w0 w f u : always P w0 w → P (f, u) → always P w0 (set_disk f u w).2.
Proof.
  intros [H (h & E & Hh)] Hf. split; [done|]. exists ((f, u) :: h). cbn. rewrite E. split; [done|].
  by apply list.Forall_cons.
Qed.

(** What a crash can leave of a state: every file is there, and as it was if its contents
    had been synced. *)
Definition flushed (s : snapshot) (f : fs) : Prop :=
  ∀ q, (q ∉ s.2 → f !! q = s.1 !! q) ∧ (is_Some (f !! q) ↔ is_Some (s.1 !! q)).

(** What a crash can leave: one of the states of the directory, flushed. *)
Definition after_crash (w : world) (f : fs) : Prop := ∃ s, s ∈ now w :: history w ∧ flushed s f.

(** The file [q] is the same in both states, on the disk too. *)
Definition same_file (q : bytes) (s0 s : snapshot) : Prop := s.1 !! q = s0.1 !! q ∧ (q ∈ s.2 ↔ q ∈ s0.2).

(** [s] agrees with [s0] outside [tmp]. *)
Definition agree (tmp : bytes) (s0 s : snapshot) : Prop := ∀ q, q ≠ tmp → same_file q s0 s.

Lemma agree_refl tmp s : agree tmp s s.
Proof. by intros q _. Qed.

Lemma agree_insert tmp s0 s x : agree tmp s0 s → agree tmp s0 (<[tmp := x]> s.1, {[tmp]} ∪ s.2).
Proof.
  intros H q Hq. destruct (H q Hq) as [H1 H2]. split; cbn; [by rewrite lookup_insert_ne by done|].
  rewrite <- H2. set_solver.
Qed.

Lemma agree_delete tmp s0 s : agree tmp s0 s → agree tmp s0 (delete tmp s.1, s.2 ∖ {[tmp]}).
Proof.
  intros H q Hq. destruct (H q Hq) as [H1 H2]. split; cbn; [by rewrite lookup_delete_ne by done|].
  rewrite <- H2. set_solver.
Qed.

Lemma agree_sync tmp s0 s : agree tmp s0 s → agree tmp s0 (s.1, s.2 ∖ {[tmp]}).
Proof. intros H q Hq. destruct (H q Hq) as [H1 H2]. split; cbn; [done|]. rewrite <- H2. set_solver. Qed.

Section calm.
Context (tmp : bytes) (s0 : snapshot) (w0 : world).
Abbreviation calm := (always (agree tmp s0) w0).

Lemma keeps_sys_create : keeps calm (sys_create tmp).
Proof.
  apply keeps_bind; [apply keeps_next_answer|]. intros a w Hw. destruct (succeeds a); [|done].
  apply set_disk_always; [done|]. apply (agree_insert _ _ (now w)), Hw.
Qed.

Lemma keeps_sys_fsync : keeps calm (sys_fsync tmp).
Proof.
  apply keeps_bind; [apply keeps_next_answer|]. intros a w Hw. pstep. destruct (succeeds a); [|done].
  apply set_disk_always; [done|]. apply (agree_sync _ _ (now w)), Hw.
Qed.

Lemma keeps_sys_ok : keeps calm sys_ok.
Proof. apply keeps_bind; [apply keeps_next_answer|]. intros a. apply keeps_ret. Qed.

Lemma keeps_sys_unlink : keeps calm (sys_unlink tmp).
Proof.
  apply keeps_bind; [apply keeps_next_answer|]. intros a w Hw. pstep. destruct (succeeds a); [|done].
  apply set_disk_always; [done|]. apply (agree_delete _ _ (now w)), Hw.
Qed.

Lemma keeps_sys_write data : keeps calm (sys_write tmp data).
Proof.
  apply keeps_bind; [apply keeps_next_answer|]. intros a w Hw. pstep.
  destruct (transferred a (length data)) as [n|]; [|done]. destruct (files w !! tmp) as [old|]; [|done].
  apply set_disk_always; [done|]. apply (agree_insert _ _ (now w)), Hw.
Qed.

Lemma keeps_write_loop fuel data off : keeps calm (write_loop fuel tmp data off).
Proof.
  revert off. induction fuel as [|fuel IH]; intros off; cbn [write_loop];
    (destruct (length data <=? off); [apply keeps_ret|]); [by intros w Hw|].
  apply keeps_bind; [apply keeps_sys_write|]. intros [a [n|]]; [apply IH|].
  destruct a; apply IH || apply keeps_ret.
Qed.

Lemma keeps_or_unlink ok closing : keeps calm (or_unlink ok closing tmp).
Proof.
  unfold or_unlink. destruct ok; [apply keeps_ret|].
  apply keeps_bind; [destruct closing; [apply keeps_bind; [apply keeps_sys_ok|]; intros _|]; apply keeps_ret|].
  intros _. apply keeps_bind; [apply keeps_sys_unlink|]. intros _. apply keeps_fail.
Qed.
End calm.

(** An answer of the system; [fine] says that all the coming ones are successes. *)
Definition fine (w : world) : Prop := Forall (λ a, succeeds a = true) (answers w).

Lemma next_answer_run w :
  ∃ a w', next_answer w = (Ok a, w') ∧ now w' = now w ∧ history w' = history w ∧
    answers w' = tl (answers w) ∧ (answers w = [] → a = A_full) ∧ (fine w → succeeds a = true ∧ fine w').
Proof.
  unfold next_answer, fine. destruct (answers w) as [|a l] eqn:E.
  - exists A_full, w. by rewrite E.
  - eexists a, _. split; [done|]. cbn. split_and!; [done..|]. by intros [??]%list.Forall_cons.
Qed.

Lemma sys_ok_run w :
  ∃ b w', sys_ok w = (Ok b, w') ∧ now w' = now w ∧ history w' = history w ∧ (fine w → b = true ∧ fine w').
Proof.
  destruct (next_answer_run w) as (a & w' & E & Ef & Eh & _ & _ & Hf). exists (succeeds a), w'.
  unfold sys_ok. by pstep by E.
Qed.

Lemma sys_fsync_run path w :
  ∃ b w', sys_fsync path w = (Ok b, w') ∧ files w' = files w ∧ (b = true → path ∉ unsynced w') ∧ (fine w → b = true ∧ fine w').
Proof.
  destruct (next_answer_run w) as (a & w' & E & En & _ & _ & _ & Hf). injection En as Ef Eu. unfold sys_fsync. pstep by E. pstep.
  unfold fine in *. destruct (succeeds a).
  - rewrite bind_run. cbn [set_disk mret M_ret]. exists true. eexists. split; [done|]. cbn. split_and!; [done|set_solver|done].
  - exists false, w'. split_and!; [done..|]. intros H. by destruct (Hf H).
Qed.

Lemma sys_unlink_run tmp w : ∃ w', sys_unlink tmp w = (Ok tt, w').
Proof.
  destruct (next_answer_run w) as (a & w' & E & _). unfold sys_unlink. pstep by E. pstep.
  destruct (succeeds a); by eexists.
Qed.

(** An error that [or_unlink] raises. *)
Lemma or_unlink_run ok closing tmp w :
  (ok = true ∧ or_unlink ok closing tmp w = (Ok tt, w)) ∨
  (ok = false ∧ ∃ w', or_unlink ok closing tmp w = (Err AUTH_ERR_STORAGE_FAILURE, w')).
Proof.
  destruct ok; [by left|]. right. split; [done|]. unfold or_unlink. destruct closing.
  - destruct (sys_ok_run w) as (b & w1 & E & _). destruct (sys_unlink_run tmp w1) as (w2 & E2).
    exists w2. rewrite !bind_run, E. cbn [mret M_ret]. by rewrite bind_run, E2.
  - destruct (sys_unlink_run tmp w) as (w2 & E2). exists w2. pstep. by rewrite bind_run, E2.
Qed.

(** The loop ends, and when it does not give up the file holds the data. *)
Lemma sys_write_run tmp data w old :
  files w !! tmp = Some old →
  ∃ a r w', sys_write tmp data w = (Ok (a, r), w') ∧ answers w' = tl (answers w) ∧
    (answers w = [] → a = A_full) ∧ r = transferred a (length data) ∧ (fine w → succeeds a = true ∧ fine w') ∧
    files w' !! tmp = Some (match r with Some n => old ++ take n data | None => old end).
Proof.
  intros Ho. destruct (next_answer_run w) as (a & w' & E & En & Eh & Ea & Hfull & Hf). injection En as Ef Eu.
  unfold sys_write. pstep by E. pstep. rewrite Ef, Ho. unfold fine in *.
  destruct (transferred a (length data)) as [n|] eqn:Et; [rewrite bind_run; cbn [set_disk mret M_ret]|];
    eexists a, _, _; (split; [done|]); cbn; rewrite ?lookup_insert_eq, ?Ef, ?Et; done.
Qed.

Lemma transferred_some a n m : transferred a n = Some m → 0 < n → 0 < m ≤ n.
Proof. destruct a; intros [= <-] ?; [lia|]. destruct n; lia. Qed.

Lemma write_loop_run fuel tmp data off w :
  length (answers w) < fuel → off ≤ length data → files w !! tmp = Some (take off data) →
  ∃ b w', write_loop fuel tmp data off w = (Ok b, w') ∧ (b = true → files w' !! tmp = Some data) ∧
    (fine w → b = true ∧ fine w').
Proof.
  revert off w. induction fuel as [|fuel IH]; intros off w Hf Ho Hw; [lia|]. cbn [write_loop].
  destruct (Nat.leb_spec (length data) off) as [Hle|Hlt].
  { exists true, w. by rewrite take_ge in Hw by done. }
  destruct (sys_write_run tmp (drop off data) w _ Hw) as (a & r & w1 & E & Ea & Hfull & Hr & Hok & Hw1).
  rewrite bind_run, E. rewrite length_drop in Hr. destruct r as [n|].
  - pose proof (transferred_some _ _ _ (eq_sym Hr) ltac:(lia)) as Hn.
    rewrite take_take_drop in Hw1. destruct (answers w) as [|a0 l].
    + rewrite Hfull in Hr by done. injection Hr as ->.
      replace (off + (length data - off)) with (length data) in * by lia. rewrite firstn_all in Hw1.
      exists true, w1. destruct fuel; cbn [write_loop]; rewrite Nat.leb_refl; split_and!; try done;
        intros Hs; by destruct (Hok Hs).
    + cbn [tl] in Ea. destruct (IH (off + n) w1) as (b & w' & E' & Hb & Hs);
        [rewrite Ea; cbn in Hf; lia|lia|done|].
      exists b, w'. split_and!; [done..|]. intros Ha. apply Hs. by destruct (Hok Ha).
  - destruct a; try discriminate Hr.
    + destruct (answers w) as [|a0 l]; [by specialize (Hfull eq_refl)|]. cbn [tl] in Ea.
      destruct (IH off w1) as (b & w' & E' & Hb & Hs); [rewrite Ea; cbn in Hf; lia|done|done|].
      exists b, w'. split_and!; [done..|]. intros Ha. by destruct (Hok Ha).
    + exists false, w1. split_and!; [done|done|]. intros Ha. by destruct (Hok Ha).
Qed.

Lemma sys_create_run tmp w :
  ∃ b w', sys_create tmp w = (Ok b, w') ∧ (b = true → files w' !! tmp = Some []) ∧ (fine w → b = true ∧ fine w').
Proof.
  destruct (next_answer_run w) as (a & w' & E & _ & _ & _ & _ & Hf). unfold sys_create. pstep by E.
  unfold fine in *. destruct (succeeds a).
  - rewrite bind_run. cbn [get]. rewrite bind_run. cbn [set_disk mret M_ret]. exists true. eexists.
    split; [done|]. cbn. by rewrite lookup_insert_eq.
  - exists false, w'. split_and!; [done..|]. intros H. by destruct (Hf H).
Qed.

Lemma sys_rename_run from to w data :
  files w !! from = Some data → ∃ b w', sys_rename from to w = (Ok b, w') ∧
    (if b then files w' = <[to := data]> (delete from (files w)) ∧
       unsynced w' = (let u := unsynced w ∖ {[from; to]} in if decide (from ∈ unsynced w) then {[to]} ∪ u else u) ∧
       history w' = now w' :: history w
     else now w' = now w ∧ history w' = history w) ∧ (fine w → b = true ∧ fine w').
Proof.
  intros Hd. destruct (next_answer_run w) as (a & w' & E & En & Eh & _ & _ & Hf). injection En as Ef Eu. unfold sys_rename.
  pstep by E. pstep. rewrite Ef, Hd. unfold fine in *. destruct (succeeds a).
  - cbv zeta. rewrite bind_run. cbn [set_disk mret M_ret]. exists true. eexists. split; [done|]. cbn. by rewrite Eh, Eu.
  - exists false, w'. split_and!; [done|by unfold now; rewrite Ef, Eu|done|]. intros H. by destruct (Hf H).
Qed.

(** ** The atomic write *)
Definition tmp_of (path : bytes) : bytes := path ++ str_bytes ".tmp".

Lemma tmp_of_ne path : path ≠ tmp_of path.
Proof. intros H. apply (f_equal length) in H. unfold tmp_of in H. rewrite length_app in H. cbn in H. lia. Qed.

(** Every file but [path] and its temporary is as in [f0], and [path] is as in [f0]
    or holds all of [data]. *)
Definition old_or_new (path data : bytes) (f0 f : fs) : Prop :=
  (∀ q, q ≠ path → q ≠ tmp_of path → f !! q = f0 !! q) ∧ (f !! path = f0 !! path ∨ f !! path = Some data).

(** The same of the disk: where [path] holds the data, they have been synced. *)
Definition replaces (path data : bytes) (s0 s : snapshot) : Prop :=
  (∀ q, q ≠ path → q ≠ tmp_of path → same_file q s0 s) ∧
  (same_file path s0 s ∨ s.1 !! path = Some data ∧ path ∉ s.2).

Lemma agree_replaces path data s0 s : agree (tmp_of path) s0 s → replaces path data s0 s.
Proof. intros H. split; [intros; by apply H|]. left. apply H, tmp_of_ne. Qed.

Lemma replaces_visible path data s0 s : replaces path data s0 s → old_or_new path data s0.1 s.1.
Proof. intros [H1 H2]. split; [intros q Hq Hq'; by apply H1|]. destruct H2 as [[H2 _]|[H2 _]]; [by left|by right]. Qed.

(** Other contents of one file. *)
Definition with_file (q : bytes) (x : option bytes) (f : fs) : fs := partial_alter (λ _, x) q f.

Lemma with_file_eq q x f : with_file q x f !! q = x.
Proof. apply lookup_partial_alter_eq. Qed.

Lemma with_file_ne q q' x f : q ≠ q' → with_file q x f !! q' = f !! q'.
Proof. apply lookup_partial_alter_ne. Qed.

(** A crash after the write leaves what one before it could have left, or the data. *)
Lemma replaces_flushed path data s0 s f :
  replaces path data s0 s → flushed s f → ∃ f0, flushed s0 f0 ∧ old_or_new path data f0 f.
Proof.
  intros [H1 H2] Hf. set (f0 := with_file (tmp_of path) (s0.1 !! tmp_of path) f).
  assert (∀ q, q ≠ tmp_of path → same_file q s0 s → (q ∉ s0.2 → f !! q = s0.1 !! q) ∧ (is_Some (f !! q) ↔ is_Some (s0.1 !! q))) as Hsame.
  { intros q Hq [E1 E2]. destruct (Hf q) as [F1 F2]. rewrite <- E1. split; [|done]. intros Hn. apply F1. by rewrite E2. }
  pose proof (tmp_of_ne path) as Hne. destruct H2 as [H2|[H2 Hs]].
  - exists f0. split.
    + intros q. destruct (decide (q = tmp_of path)) as [->|Hq]; [unfold f0; by rewrite with_file_eq|].
      unfold f0. rewrite with_file_ne by done. destruct (decide (q = path)) as [->|Hp]; apply Hsame; auto.
    + split; [intros q Hp Hq; unfold f0; by rewrite with_file_ne|]. left. unfold f0. by rewrite with_file_ne.
  - exists (with_file path (s0.1 !! path) f0). split.
    + intros q. destruct (decide (q = path)) as [->|Hp]; [by rewrite with_file_eq|]. rewrite with_file_ne by done.
      destruct (decide (q = tmp_of path)) as [->|Hq]; [unfold f0; by rewrite with_file_eq|].
      unfold f0. rewrite with_file_ne by done. by apply Hsame, H1.
    + split; [intros q Hp Hq; rewrite with_file_ne by done; unfold f0; by rewrite with_file_ne|].
      right. destruct (Hf path) as [F _]. by rewrite F.
Qed.

(** The file before it is renamed: complete, on the disk, and nothing else has changed. *)
Definition prepared (path data : bytes) (w w' : world) : Prop :=
  always (agree (tmp_of path) (now w)) w w' ∧ files w' !! tmp_of path = Some data ∧ tmp_of path ∉ unsynced w' ∧ (fine w → fine w').

(** What holds at the end, [r] being the result and the final state. *)
Definition replaced (path data : bytes) (w : world) (r : outcome auth_err_t unit * world) : Prop :=
  let '(o, w') := r in
  o ≠ Fault ∧ always (replaces path data (now w)) w w' ∧
  match o with
  | Ok _ => files w' !! path = Some data ∧ files w' !! tmp_of path = None ∧ path ∉ unsynced w'
  | _ => files w' !! path = files w !! path
  end ∧
  (fine w → length path + 4 < 512 → o = Ok tt).

(** The same in terms of what is seen, at every moment and after a crash. *)
Definition written_atomically (path data : bytes) (w : world) (r : outcome auth_err_t unit * world) : Prop :=
  let '(o, w') := r in
  o ≠ Fault ∧
  (old_or_new path data (files w) (files w') ∧
   always (λ s, old_or_new path data (files w) s.1) w w' ∧
   ∀ f, after_crash w' f → ∃ f0, after_crash w f0 ∧ old_or_new path data f0 f) ∧
  match o with
  | Ok _ => files w' !! path = Some data ∧ files w' !! tmp_of path = None ∧ path ∉ unsynced w'
  | _ => files w' !! path = files w !! path
  end ∧
  (fine w → length path + 4 < 512 → o = Ok tt).

Lemma replaced_atomically path data w r : replaced path data w r → written_atomically path data w r.
Proof.
  destruct r as [o w']. intros (Hnf & Ha & Ho & Hf). split; [done|]. split; [|done]. split_and!.
  - apply (replaces_visible path data (now w) (now w')), Ha.
  - apply (always_mono _ _ _ _ (replaces_visible path data (now w)) Ha).
  - intros f (s & Hs & Hfl). destruct Ha as [Hn (h & Eh & Hh)]. rewrite Eh in Hs.
    assert (replaces path data (now w) s ∨ s ∈ history w) as [Hr|Hr].
    { rewrite list.Forall_forall in Hh. apply elem_of_cons in Hs as [->|Hs]; [by left|].
      apply elem_of_app in Hs as [Hs|Hs]; [left; by apply Hh|by right]. }
    + destruct (replaces_flushed _ _ _ _ _ Hr Hfl) as (f0 & H0 & Hon). exists f0. split; [|done].
      exists (now w). split; [by left|done].
    + exists f. split; [exists s; split; [by right|done]|]. split; [done|by left].
Qed.

Lemma gave_up path data w e w' :
  always (agree (tmp_of path) (now w)) w w' → ¬ (fine w ∧ length path + 4 < 512) →
  replaced path data w (Err e, w').
Proof.
  intros Hc Hn. split_and!; [done| |by apply Hc, tmp_of_ne|intros; by destruct Hn].
  apply (always_mono _ _ _ _ (agree_replaces path data (now w)) Hc).
Qed.

(** [if (!ok) { ... return AUTH_ERR_STORAGE_FAILURE; }] on the way. *)
Lemma or_unlink_step path data ok closing w w1 (k : unit → M auth_err_t world unit) :
  always (agree (tmp_of path) (now w)) w w1 → (fine w → ok = true) →
  (ok = true → replaced path data w (k tt w1)) →
  replaced path data w ((or_unlink ok closing (tmp_of path) ≫= k) w1).
Proof.
  intros Hc Hf Hk. rewrite bind_run. pose proof (keeps_or_unlink _ _ _ ok closing w1 Hc) as Hc'.
  destruct (or_unlink_run ok closing (tmp_of path) w1) as [[-> E]|(-> & w2 & E)]; rewrite E in *; [by apply Hk|].
  apply gave_up; [done|]. intros [H _]. by specialize (Hf H).
Qed.

(** [fsync]. *)
Lemma sync_step path data w w1 (k : unit → M auth_err_t world unit) :
  always (agree (tmp_of path) (now w)) w w1 → files w1 !! tmp_of path = Some data → (fine w → fine w1) →
  (∀ w2, prepared path data w w2 → replaced path data w (k tt w2)) →
  replaced path data w ((ok ← sys_fsync (tmp_of path); or_unlink ok true (tmp_of path) ≫= k) w1).
Proof.
  intros Hc Ht Hfi Hk. pose proof (keeps_sys_fsync _ _ _ w1 Hc) as Hc'.
  destruct (sys_fsync_run (tmp_of path) w1) as (b & w2 & E & Ef & Hs & Hb). rewrite bind_run, E in *.
  apply or_unlink_step; [done|intros H; by destruct (Hb (Hfi H))|]. intros ->. apply Hk.
  split_and!; [done|by rewrite Ef|by apply Hs|]. intros H. by destruct (Hb (Hfi H)).
Qed.

(** [close]. *)
Lemma close_step path data w w1 (k : unit → M auth_err_t world unit) :
  prepared path data w w1 → (∀ w2, prepared path data w w2 → replaced path data w (k tt w2)) →
  replaced path data w ((ok ← sys_ok; or_unlink ok false (tmp_of path) ≫= k) w1).
Proof.
  intros (Hc & Ht & Hsy & Hfi) Hk. pose proof (keeps_sys_ok _ _ _ w1 Hc) as Hc'.
  destruct (sys_ok_run w1) as (b & w2 & E & En & _ & Hb). injection En as Ef Eu. rewrite bind_run, E in *.
  apply or_unlink_step; [done|intros H; by destruct (Hb (Hfi H))|]. intros _. apply Hk.
  split_and!; [done|by rewrite Ef|by rewrite Eu|]. intros H. by destruct (Hb (Hfi H)).
Qed.

Lemma always_now P w0 w w' : always P w0 w → now w' = now w → history w' = history w → always P w0 w'.
Proof. unfold always. by intros H -> ->. Qed.

(** The state after the rename. *)
Lemma renamed_replaces path data s0 s :
  agree (tmp_of path) s0 s → tmp_of path ∉ s.2 →
  replaces path data s0 (<[path := data]> (delete (tmp_of path) s.1), s.2 ∖ {[tmp_of path; path]}).
Proof.
  intros H Hs. split.
  - intros q Hq Hq'. destruct (H q Hq') as [H1 H2]. split; cbn [fst snd].
    + by rewrite lookup_insert_ne, lookup_delete_ne by done.
    + rewrite <- H2. set_solver.
  - right. cbn [fst snd]. split; [apply lookup_insert_eq|set_solver].
Qed.

Lemma rename_step path data w w1 :
  prepared path data w w1 →
  replaced path data w
    ((renamed ← sys_rename (tmp_of path) path; or_unlink renamed false (tmp_of path)) w1).
Proof.
  intros (Hc & Ht & Hsy & Hfi). destruct (sys_rename_run (tmp_of path) path w1 data Ht) as (b & w2 & E & Hb & Hf).
  rewrite bind_run, E. destruct b.
  - destruct Hb as (Ef & Eu & Eh). cbv zeta in Eu. rewrite decide_False in Eu by done.
    cbn [or_unlink mret M_ret]. split_and!; [done| | | | |done].
    + assert (Hn : replaces path data (now w) (now w2)).
      { unfold now at 2. rewrite Ef, Eu. apply (renamed_replaces path data (now w) (now w1)); [apply Hc|done]. }
      apply (always_mono _ _ _ _ (agree_replaces path data (now w))) in Hc as [_ (h & Eh1 & Hh)].
      split; [done|]. exists (now w2 :: h). rewrite Eh, Eh1. split; [done|]. by apply list.Forall_cons.
    + rewrite Ef. apply lookup_insert_eq.
    + rewrite Ef, lookup_insert_ne by apply tmp_of_ne. apply lookup_delete_eq.
    + rewrite Eu. set_solver.
  - destruct Hb as [En Eh]. pose proof (always_now _ _ _ _ Hc En Eh) as Hc2.
    pose proof (keeps_or_unlink _ _ _ false false w2 Hc2) as Hc'.
    destruct (or_unlink_run false false (tmp_of path) w2) as [[Hx _]|(_ & w3 & E3)]; [done|].
    rewrite E3 in *. apply gave_up; [done|]. intros [H _]. by destruct (Hf (Hfi H)).
Qed.

Lemma write_replaced path data w : replaced path data w (atomic_write path data w).
Proof.
  unfold atomic_write. fold (tmp_of path). cbv zeta.
  assert (Hl : length (tmp_of path) = length path + 4) by (unfold tmp_of; by rewrite length_app).
  rewrite bind_run. destruct (Nat.ltb_spec (length (tmp_of path)) 512) as [H512|H512]; cbn [require].
  2:{ apply gave_up; [apply always_refl, agree_refl|lia]. }
  pose proof (keeps_sys_create (tmp_of path) (now w) w w) as Hc. cbn [mret M_ret].
  destruct (sys_create_run (tmp_of path) w) as (b & w1 & E & Hb & Hf). rewrite bind_run, E in *.
  specialize (Hc (always_refl _ _ (agree_refl _ _))). cbn [snd] in Hc. rewrite bind_run. destruct b; cbn [require].
  2:{ apply gave_up; [done|]. intros [H _]. by destruct (Hf H). }
  cbn [mret M_ret]. rewrite bind_run. cbn [get]. rewrite bind_run.
  pose proof (keeps_write_loop (tmp_of path) (now w) w (S (length (answers w1))) data 0 w1 Hc) as Hc2.
  destruct (write_loop_run (S (length (answers w1))) (tmp_of path) data 0 w1) as (b & w2 & E2 & Hb2 & Hf2);
    [lia|lia|by rewrite take_0, Hb|].
  rewrite E2 in *. apply or_unlink_step; [done|intros H; by destruct (Hf2 (proj2 (Hf H)))|]. intros ->.
  apply sync_step; [done|by apply Hb2|intros H; by destruct (Hf2 (proj2 (Hf H)))|].
  intros w3 H3. apply close_step; [done|]. intros w4 H4. by apply rename_step.
Qed.

Lemma write_atomic path data w : written_atomically path data w (atomic_write path data w).
Proof. apply replaced_atomically, write_replaced. Qed.

Lemma write_result path data w :
  let '(o, w') := atomic_write path data w in
  match o with
  | Ok _ => (files w' !! path = Some data ∧ files w' !! tmp_of path = None) ∧ o ≠ Fault
  | _ => files w' !! path = files w !! path
  end.
Proof.
  pose proof (write_atomic path data w) as H. destruct (atomic_write path data w) as [o w'].
  destruct H as (Hf & _ & H & _). destruct o; [by destruct H as (? & ? & _)|done..].
Qed.

(** C5: the atomic write is atomic, whatever the system answers: at every moment of it
    every file other than the temporary one is as it was, except [path], which is as it
    was or holds all of the new data; and whatever a crash during or after it leaves,
    when only what was synced is sure to be on the disk and the directory can go back to
    any earlier state, is what a crash before it could have left, except for the
    temporary file and for [path], which may hold all of the new data.  On success [path]
    holds the data, which are synced, and the temporary file is gone, on an error [path]
    is unchanged; the loop ends, and when every call succeeds so does the write. *)
Theorem atomic_write_atomic path data w :
  written_atomically path data w (atomic_write path data w).
Proof. apply write_atomic. Qed.

(** ** Reading a file *)
Lemma sys_read_run data off cap w :
  let rest := take cap (drop off data) in
  ∃ a r w', sys_read data off cap w = (Ok (a, r), w') ∧ now w' = now w ∧ history w' = history w ∧
    answers w' = tl (answers w) ∧ (answers w = [] → a = A_full) ∧ (fine w → succeeds a = true ∧ fine w') ∧
    (r = None ∧ succeeds a = false ∨
     ∃ n, r = Some (take n rest) ∧ n ≤ length rest ∧ (n = 0 → rest = []) ∧ (a = A_full → n = length rest)).
Proof.
  intros rest. destruct (next_answer_run w) as (a & w' & E & Ef & Eh & Ea & Hfull & Hf).
  unfold sys_read. pstep by E. fold rest. cbv zeta. eexists a, _, w'. split; [done|].
  do 5 (split; [done|]). assert (Hz : length rest = 0 → rest = []) by apply nil_length_inv.
  destruct a as [|k| |]; [right..|by left|by left]; cbn [transferred mbind option_bind].
  - exists (length rest). by split_and!.
  - exists (min (S k) (length rest)). split_and!; [done|lia| |done]. intros H. apply Hz. lia.
Qed.

(** What a reading call leaves alone. *)
Definition untouched (w w' : world) : Prop :=
  files w' = files w ∧ unsynced w' = unsynced w ∧ history w' = history w ∧ (fine w → fine w').

Lemma untouched_trans w1 w2 w3 : untouched w1 w2 → untouched w2 w3 → untouched w1 w3.
Proof. intros (E1 & E2 & E3 & H1) (F1 & F2 & F3 & H2). split_and!; [congruence..|auto]. Qed.

Lemma untouched_intro w w' : now w' = now w → history w' = history w → (fine w → fine w') → untouched w w'.
Proof. by intros [= E1 E2] E3 H. Qed.

Lemma read_loop_run fuel data cap acc w :
  let rest := take (cap - length acc) (drop (length acc) data) in
  acc = take (length acc) data → length acc ≤ cap →
  length (answers w) + min 1 (length rest) < fuel →
  ∃ o w', read_loop fuel data cap acc w = (o, w') ∧ untouched w w' ∧
    (o = Ok (take cap data) ∨ o = Err AUTH_ERR_STORAGE_FAILURE ∧ ¬ fine w).
Proof.
  revert acc w. induction fuel as [|fuel IH]; intros acc w rest Hacc Hcap Hfuel; [lia|]. cbn [read_loop].
  destruct (Nat.leb_spec cap (length acc)) as [Hle|Hlt].
  { exists (Ok acc), w. split_and!; try done. left. f_equal. replace cap with (length acc) by lia. done. }
  destruct (sys_read_run data (length acc) (cap - length acc) w)
    as (a & r & w1 & E & Ef & Eh & Ea & Hfull & Hf & Hr).
  rewrite bind_run, E. fold rest in Hr.
  assert (Hu : untouched w w1) by (apply untouched_intro; [done|done|]; intros H; by destruct (Hf H)).
  destruct Hr as [[-> Hs]|(n & -> & Hn & H0 & Hfl)].
  - assert (Hnf : ¬ fine w) by (intros H; by destruct (Hf H) as [H' _]; rewrite Hs in H').
    destruct a; try discriminate Hs.
    + destruct (answers w) as [|a0 l] eqn:El; [by specialize (Hfull eq_refl)|]. cbn [tl] in Ea.
      destruct (IH acc w1 Hacc Hcap) as (o & w' & E' & Hu' & Ho); [rewrite Ea; cbn [length] in Hfuel; fold rest; lia|].
      exists o, w'. split_and!; [done|by eapply untouched_trans|]. destruct Ho as [->|[-> _]]; auto.
    + destruct (sys_ok_run w1) as (b & w2 & E2 & Ef2 & Eh2 & Hf2). exists (Err AUTH_ERR_STORAGE_FAILURE), w2.
      rewrite bind_run, E2. split_and!; [done| |auto].
      apply (untouched_trans _ w1); [done|]. apply untouched_intro; [done|done|]. intros H. by destruct (Hf2 H).
  - assert (Hrest : length rest = min (cap - length acc) (length data - length acc))
      by (unfold rest; by rewrite length_take, length_drop).
    assert (Hlacc : length acc ≤ length data)
      by (apply (f_equal length) in Hacc; rewrite length_take in Hacc; lia).
    destruct (take n rest) as [|b x] eqn:Et.
    + assert (n = 0 ∨ length rest = 0) as Hz by (apply (f_equal length) in Et; rewrite length_take in Et; cbn in Et; lia).
      assert (rest = []) as Hr0 by (destruct Hz; [by apply H0|by apply nil_length_inv]).
      rewrite Hr0 in Hrest. cbn in Hrest. exists (Ok acc), w1. split; [done|]. split; [done|].
      left. f_equal. etrans; [exact Hacc|]. by rewrite !take_ge by lia.
    + rewrite <- Et. assert (Hln : length (take n rest) = n) by (apply length_take_le; lia).
      assert (Hn0 : 0 < n) by (rewrite Et in Hln; cbn in Hln; lia).
      assert (Hacc' : acc ++ take n rest = take (length (acc ++ take n rest)) data).
      { rewrite length_app, Hln. rewrite Hacc at 1. unfold rest. rewrite take_take, Nat.min_l by lia.
        apply take_take_drop. }
      destruct (IH (acc ++ take n rest) w1 Hacc') as (o & w' & E' & Hu' & Ho).
      * rewrite length_app. lia.
      * rewrite length_take, length_drop, length_app, Hln. destruct (answers w) as [|a0 l].
        -- specialize (Hfl (Hfull eq_refl)). rewrite Ea. cbn [length tl] in Hfuel |- *. lia.
        -- rewrite Ea. cbn [tl length] in *. lia.
      * exists o, w'. split_and!; [done|by eapply untouched_trans|]. destruct Ho as [->|[-> Hnf]]; [auto|].
        right. split; [done|]. intros H. apply Hnf. by destruct (Hf H).
Qed.

(** What [read_whole_file] finds. *)
Definition file_result (f : option bytes) (cap : nat) : outcome auth_err_t bytes :=
  match f with Some data => Ok (take cap data) | None => Err AUTH_ERR_CREDENTIAL_MISSING end.

Lemma read_whole_file_run path cap w :
  ∃ o w', read_whole_file path cap w = (o, w') ∧ untouched w w' ∧
    (o = file_result (files w !! path) cap ∨ o = Err AUTH_ERR_STORAGE_FAILURE ∧ ¬ fine w).
Proof.
  unfold read_whole_file, sys_open. rewrite !bind_run.
  destruct (next_answer_run w) as (a & w1 & E & En & Eh & Ea & Hfull & Hf). pose proof En as [= Ef _]. rewrite E. cbn [get]. rewrite bind_run.
  cbn [get]. assert (Hu : untouched w w1) by (apply untouched_intro; [done|done|]; intros H; by destruct (Hf H)).
  destruct (succeeds a) eqn:Es.
  - rewrite Ef. destruct (files w !! path) as [data|]; cbn [mret M_ret].
    + rewrite bind_run. cbn [get]. rewrite bind_run.
      destruct (read_loop_run (S (S (length (answers w1)))) data cap [] w1) as (o & w2 & E2 & Hu2 & Ho);
        [done|cbn; lia|lia|]. rewrite E2. pose proof (untouched_trans _ _ _ Hu Hu2) as Hu'.
      destruct Ho as [->|[-> Hnf]].
      * destruct (sys_ok_run w2) as (b & w3 & E3 & Ef3 & Eh3 & Hf3). rewrite bind_run, E3. cbn [mret M_ret].
        eexists _, w3. split; [done|]. split; [|by left]. apply (untouched_trans _ w2); [done|].
        apply untouched_intro; [done|done|]. intros H. by destruct (Hf3 H).
      * eexists _, w2. split_and!; [done|done|]. right. split; [done|]. intros H. apply Hnf, Hu, H.
    + eexists _, w1. split_and!; [done|apply Hu..|by left].
  - eexists _, w1. split_and!; [done|apply Hu..|]. right. split; [done|]. intros H. by destruct (Hf H).
Qed.

(** ** Pieces of a buffer *)
Lemma loadn_piece {E} buf pre x post off n :
  buf = pre ++ x ++ post → off = length pre → n = length x → loadn (E:=E) buf off n = Ok x.
Proof. intros ->. apply loadn_app. Qed.

Lemma load8_piece {E} buf pre b post off :
  buf = pre ++ [b] ++ post → off = length pre → load8 (E:=E) buf off = Ok b.
Proof. intros -> ->. apply load8_ok. rewrite lookup_app_r by lia. by rewrite Nat.sub_diag. Qed.

(** A store into the untouched zeros of a buffer, [k] bytes further. *)
Lemma store_at_zeros {E} off x w k n :
  off = length w + k → k + length x ≤ n →
  store_at (E:=E) off x (w ++ zeros n) = (Ok tt, (w ++ zeros k ++ x) ++ zeros (n - (k + length x))).
Proof.
  intros -> Hn. assert (Hz : zeros n = zeros k ++ zeros (n - k)).
  { unfold zeros. rewrite <- replicate_add. f_equal. lia. }
  rewrite Hz, (app_assoc w), (store_at_wstate (length w + k)).
  - do 2 f_equal. rewrite <- !app_assoc. do 3 f_equal. unfold zeros. rewrite drop_replicate. f_equal. lia.
  - rewrite length_app. unfold zeros. by rewrite length_replicate.
  - unfold zeros. rewrite length_replicate. lia.
Qed.

Ltac pieces := rewrite <- ?app_assoc; reflexivity.
Ltac piece_len := unfold is_n in *; repeat (rewrite ?length_app; cbn [length]); lia.

(** The numbers of the formats: [loadn] at [pre], then the next piece. *)
Tactic Notation "ld" constr(off) constr(n) uconstr(pre) uconstr(x) uconstr(post) :=
  rewrite (loadn_piece _ pre x post off n) by (pieces || piece_len); cbn [mbind outcome_bind].
Tactic Notation "ld8" constr(off) uconstr(pre) uconstr(b) uconstr(post) :=
  rewrite (load8_piece _ pre b post off) by (pieces || piece_len); cbn [mbind outcome_bind].

(** ** The credential file *)
Record creds_wf (c : auth_credentials_t) : Prop := {
  cw_root : is_n 32 (cr_device_root c);
  cw_pub : is_n 32 (cr_server_pub_pinned c);
  cw_commitment : is_n 32 (cr_role_commitment c);
  cw_blind : is_n 32 (cr_role_blind c);
  cw_code : is_u64 (cr_role_code c)
}.

(** The bytes of a file. *)
Definition cred_file (magic : bytes) (version flags : byte) (root pub commitment blind code tail : bytes) : bytes :=
  magic ++ [version] ++ [flags] ++ root ++ pub ++ commitment ++ blind ++ code ++ tail.

Definition cred_flags (c : auth_credentials_t) : byte :=
  u8 (Z.lor (if cr_has_pinned_server c then 1 else 0) (if cr_has_role c then 2 else 0)).

Definition when (b : bool) (x : bytes) : bytes := if b then x else zeros (length x).

Definition cred_image (c : auth_credentials_t) : bytes :=
  cred_file CRED_MAGIC Byte.x01 (cred_flags c) (cr_device_root c)
    (when (cr_has_pinned_server c) (cr_server_pub_pinned c)) (when (cr_has_role c) (cr_role_commitment c))
    (when (cr_has_role c) (cr_role_blind c)) (when (cr_has_role c) (w64le (cr_role_code c))) (zeros 8).

(** What survives a save: the fields that are not set are zero. *)
Definition canonical_creds (c : auth_credentials_t) : auth_credentials_t :=
  {| cr_device_root := cr_device_root c; cr_has_pinned_server := cr_has_pinned_server c;
     cr_server_pub_pinned := when (cr_has_pinned_server c) (cr_server_pub_pinned c);
     cr_has_role := cr_has_role c; cr_role_commitment := when (cr_has_role c) (cr_role_commitment c);
     cr_role_blind := when (cr_has_role c) (cr_role_blind c);
     cr_role_code := if cr_has_role c then cr_role_code c else 0 |}.

Lemma parse_credentials_run magic v fl root pub rc blind code tail :
  is_n 8 magic → is_n 32 root → is_n 32 pub → is_n 32 rc → is_n 32 blind → is_n 8 code →
  parse_credentials (cred_file magic v fl root pub rc blind code tail) =
    if bool_decide (magic = CRED_MAGIC) && bool_decide (v = Byte.x01) then
      Ok {| cr_device_root := root; cr_has_pinned_server := negb (Z.land (b2z fl) 1 =? 0)%Z;
            cr_server_pub_pinned := pub; cr_has_role := negb (Z.land (b2z fl) 2 =? 0)%Z;
            cr_role_commitment := rc; cr_role_blind := blind; cr_role_code := load_le code |}
    else Err AUTH_ERR_REGISTRY_CORRUPT.
Proof.
  intros. unfold parse_credentials, cred_file.
  ld 0 8 [] magic ([v] ++ [fl] ++ root ++ pub ++ rc ++ blind ++ code ++ tail). unfold memeq.
  case_bool_decide; [|done]. cbn [check mbind outcome_bind andb].
  ld8 8 magic v ([fl] ++ root ++ pub ++ rc ++ blind ++ code ++ tail).
  case_bool_decide; [|done]. cbn [check mbind outcome_bind].
  ld8 9 (magic ++ [v]) fl (root ++ pub ++ rc ++ blind ++ code ++ tail).
  ld 10 32 (magic ++ [v] ++ [fl]) root (pub ++ rc ++ blind ++ code ++ tail).
  ld 42 32 (magic ++ [v] ++ [fl] ++ root) pub (rc ++ blind ++ code ++ tail).
  ld 74 32 (magic ++ [v] ++ [fl] ++ root ++ pub) rc (blind ++ code ++ tail).
  ld 106 32 (magic ++ [v] ++ [fl] ++ root ++ pub ++ rc) blind (code ++ tail).
  ld 138 8 (magic ++ [v] ++ [fl] ++ root ++ pub ++ rc ++ blind) code tail.
  unfold r64le. rewrite (loadn_piece _ [] code []) by (rewrite ?app_nil_r; done). done.
Qed.

Lemma cred_file_split buf :
  length buf = CRED_FILE_LEN → ∃ magic v fl root pub rc blind code tail,
    buf = cred_file magic v fl root pub rc blind code tail ∧
    is_n 8 magic ∧ is_n 32 root ∧ is_n 32 pub ∧ is_n 32 rc ∧ is_n 32 blind ∧ is_n 8 code ∧ is_n 8 tail.
Proof.
  unfold CRED_FILE_LEN. intros H. destruct (split_at 8 buf) as (magic & b1 & -> & H1); [lia|]. rewrite length_app in H.
  destruct (split_cons 1 b1) as (v & b2 & -> & _); [lia|]. destruct (split_cons 0 b2) as (fl & b3 & -> & _); [cbn in H; lia|].
  cbn [length] in H. destruct (split_at 32 b3) as (root & b4 & -> & H4); [lia|]. rewrite length_app in H.
  destruct (split_at 32 b4) as (pub & b5 & -> & H5); [lia|]. rewrite length_app in H.
  destruct (split_at 32 b5) as (rc & b6 & -> & H6); [lia|]. rewrite length_app in H.
  destruct (split_at 32 b6) as (blind & b7 & -> & H7); [lia|]. rewrite length_app in H.
  destruct (split_at 8 b7) as (code & tail & -> & H8); [lia|]. rewrite length_app in H.
  exists magic, v, fl, root, pub, rc, blind, code, tail. split_and!; try done. unfold is_n. lia.
Qed.

Lemma store_next {E A} off x w k n' n (m : unit → M E bytes A) :
  off = length w + k → n = k + length x + n' →
  (store_at off x ≫= m) (w ++ zeros n) = m tt ((w ++ zeros k ++ x) ++ zeros n').
Proof.
  intros H1 H2. rewrite bind_run, (store_at_zeros off x w k n) by lia.
  by replace (n - (k + length x)) with n' by lia.
Qed.

Lemma store_last {E} off x w k n' n :
  off = length w + k → n = k + length x + n' →
  store_at (E:=E) off x (w ++ zeros n) = (Ok tt, (w ++ zeros k ++ x) ++ zeros n').
Proof.
  intros H1 H2. rewrite (store_at_zeros off x w k n) by lia. by replace (n - (k + length x)) with n' by lia.
Qed.

Lemma local_buffer_ok n (m : M auth_err_t bytes unit) buf : m (zeros n) = (Ok tt, buf) → local_buffer n m = Ok buf.
Proof. unfold local_buffer. by intros ->. Qed.

Lemma length_w64le v : length (w64le v) = 8.
Proof. apply length_store_le. Qed.

Lemma zeros_add n m : zeros (n + m) = zeros n ++ zeros m.
Proof. apply replicate_add. Qed.

Lemma write_credentials_run c :
  creds_wf c → local_buffer CRED_FILE_LEN (write_credentials c) = Ok (cred_image c).
Proof.
  intros [H1 H2 H3 H4 H5]. apply local_buffer_ok. unfold write_credentials, CRED_FILE_LEN.
  pose proof (length_w64le (cr_role_code c)) as H6. unfold is_n in *.
  rewrite <- (app_nil_l (zeros 154)).
  rewrite (store_next 0 CRED_MAGIC [] 0 146) by done. rewrite (store_next 8 _ _ 0 145) by done.
  rewrite (store_next 9 _ _ 0 144) by done. rewrite (store_next 10 _ _ 0 112) by (rewrite ?H1; done).
  rewrite bind_run. unfold cred_image, cred_file, cred_flags.
  destruct (cr_has_pinned_server c), (cr_has_role c); cbn [when mret M_ret];
  repeat first
   [ rewrite (store_last 42 _ _ 0 80) by (rewrite ?length_app, ?H1, ?H2; done)
   | rewrite (store_next 74 _ _ 0 48) by (rewrite ?length_app, ?H1, ?H2, ?H3; done)
   | rewrite (store_next 74 _ _ 32 48) by (rewrite ?length_app, ?H1, ?H2, ?H3; done)
   | rewrite (store_next 106 _ _ 0 16) by (rewrite ?length_app, ?H1, ?H2, ?H3, ?H4; done)
   | rewrite (store_last 138 _ _ 0 8) by (rewrite ?length_app, ?H1, ?H2, ?H3, ?H4, ?H6; done) ];
  rewrite ?H2, ?H3, ?H4, ?H6; f_equal; change (zeros 0) with (@nil byte); rewrite <- ?app_assoc; reflexivity.
Qed.

Lemma flags_bits (p r : bool) :
  let fl := u8 (Z.lor (if p then 1 else 0) (if r then 2 else 0)) in
  negb (Z.land (b2z fl) 1 =? 0)%Z = p ∧ negb (Z.land (b2z fl) 2 =? 0)%Z = r.
Proof. by destruct p, r. Qed.

Lemma length_when b x : length (when b x) = length x.
Proof. destruct b; [done|]. apply length_replicate. Qed.

Lemma parse_image c : creds_wf c → parse_credentials (cred_image c) = Ok (canonical_creds c).
Proof.
  intros [H1 H2 H3 H4 H5]. unfold cred_image. rewrite parse_credentials_run; unfold is_n;
    rewrite ?length_when, ?length_w64le; try done.
  rewrite !bool_decide_true by done. cbn [andb]. unfold canonical_creds, cred_flags.
  destruct (flags_bits (cr_has_pinned_server c) (cr_has_role c)) as [-> ->]. do 2 f_equal.
  destruct (cr_has_role c); [by apply load_store_le_8|]. apply load_le_zeros.
Qed.

Lemma length_cred_image c : creds_wf c → length (cred_image c) = CRED_FILE_LEN.
Proof.
  intros [H1 H2 H3 H4 H5]. unfold cred_image, cred_file, is_n in *.
  rewrite !length_app, !length_when, H1, H2, H3, H4, length_w64le. done.
Qed.

(** ** Loading and saving credentials *)
(** The result of a load, from the contents of the file. *)
Definition creds_result (f : option bytes) : outcome auth_err_t auth_credentials_t :=
  match f with
  | None => Err AUTH_ERR_CREDENTIAL_MISSING
  | Some d => if length (take CRED_FILE_LEN d) =? CRED_FILE_LEN then parse_credentials (take CRED_FILE_LEN d)
              else Err AUTH_ERR_REGISTRY_CORRUPT
  end.

Lemma creds_load_run path c0 w :
  ∃ o c w', auth_creds_load (Some path) (c0, w) = (o, (c, w')) ∧ untouched w w' ∧
    match o with Ok _ => creds_result (files w !! path) = Ok c | _ => c = zero_credentials end ∧
    (match creds_result (files w !! path) with Ok _ => o = Ok tt | Err e => o = Err e | Fault => o = Fault end ∨
     o = Err AUTH_ERR_STORAGE_FAILURE ∧ ¬ fine w).
Proof.
  unfold auth_creds_load. rewrite !bind_run. cbn [deref mret M_ret]. rewrite !bind_run. cbn [on_obj put mret M_ret].
  rewrite bind_run. unfold on_fs.
  destruct (read_whole_file_run path CRED_FILE_LEN w) as (o & w1 & E & Hu & Ho). rewrite E.
  destruct Ho as [->|[-> Hnf]].
  2:{ eexists _, _, w1. split_and!; [done|apply Hu..|done|by right]. }
  destruct (files w !! path) as [d|]; cbn [file_result creds_result].
  2:{ eexists _, _, w1. split_and!; [done|apply Hu..|done|by left]. }
  rewrite bind_run. destruct (length (take CRED_FILE_LEN d) =? CRED_FILE_LEN); cbn [require].
  2:{ eexists _, _, w1. split_and!; [done|apply Hu..|done|by left]. }
  cbn [mret M_ret]. rewrite bind_run. cbn [lift]. destruct (parse_credentials (take CRED_FILE_LEN d)) as [c|e|];
    eexists _, _, w1; split_and!; try done; try apply Hu; by left.
Qed.

(** [d] starts with an encoding of the credentials [c]. *)
Definition encodes_creds (d : bytes) (c : auth_credentials_t) : Prop :=
  ∃ fl root pub rc blind code tail more,
    d = cred_file CRED_MAGIC Byte.x01 fl root pub rc blind code tail ++ more ∧
    (is_n 32 root ∧ is_n 32 pub ∧ is_n 32 rc ∧ is_n 32 blind ∧ is_n 8 code ∧ is_n 8 tail) ∧
    c = {| cr_device_root := root; cr_has_pinned_server := negb (Z.land (b2z fl) 1 =? 0)%Z;
           cr_server_pub_pinned := pub; cr_has_role := negb (Z.land (b2z fl) 2 =? 0)%Z;
           cr_role_commitment := rc; cr_role_blind := blind; cr_role_code := load_le code |}.

Lemma encodes_creds_result d c : encodes_creds d c ↔ creds_result (Some d) = Ok c.
Proof.
  cbn [creds_result]. split.
  - intros (fl & root & pub & rc & blind & code & tail & more & -> & (H1 & H2 & H3 & H4 & H5 & H6) & ->).
    assert (Hl : length (cred_file CRED_MAGIC Byte.x01 fl root pub rc blind code tail) = CRED_FILE_LEN).
    { unfold cred_file, is_n in *. rewrite !length_app, H1, H2, H3, H4, H5, H6. done. }
    rewrite <- Hl, take_app_length, Nat.eqb_refl, parse_credentials_run by done. by rewrite !bool_decide_true.
  - destruct (Nat.eqb_spec (length (take CRED_FILE_LEN d)) CRED_FILE_LEN) as [Hl|]; [|done].
    apply cred_file_split in Hl as (magic & v & fl & root & pub & rc & blind & code & tail & Ed & Hl).
    rewrite Ed, parse_credentials_run by apply Hl.
    case_bool_decide as Em; cbn [andb]; [|done]. case_bool_decide as Ev; [|done]. intros [= <-]. subst magic v.
    exists fl, root, pub, rc, blind, code, tail, (drop CRED_FILE_LEN d).
    rewrite <- Ed, take_drop. split_and!; try done; apply Hl.
Qed.

(** A file that is there either encodes credentials or is corrupt. *)
Lemma creds_result_cases d : (∃ c, creds_result (Some d) = Ok c) ∨ creds_result (Some d) = Err AUTH_ERR_REGISTRY_CORRUPT.
Proof.
  cbn [creds_result].
  destruct (Nat.eqb_spec (length (take CRED_FILE_LEN d)) CRED_FILE_LEN) as [Hl|]; [|by right].
  apply cred_file_split in Hl as (magic & v & fl & root & pub & rc & blind & code & tail & -> & Hl).
  rewrite parse_credentials_run by apply Hl. destruct (_ && _); eauto.
Qed.

(** A credential file is accepted exactly when its first 154 bytes are the
    magic, version 1 and the fields, which are what is loaded; a missing file is
    [AUTH_ERR_CREDENTIAL_MISSING], any other contents [AUTH_ERR_REGISTRY_CORRUPT],
    and after every failure the credentials are zero; a read that the system
    fails gives [AUTH_ERR_STORAGE_FAILURE]. *)
Theorem creds_load_exact path c0 w :
  let '(o, (c, w')) := auth_creds_load (Some path) (c0, w) in
  files w' = files w ∧
  match o with
  | Ok _ => ∃ d, files w !! path = Some d ∧ encodes_creds d c
  | Err e => c = zero_credentials ∧
      (e = AUTH_ERR_CREDENTIAL_MISSING ∧ files w !! path = None ∨
       e = AUTH_ERR_REGISTRY_CORRUPT ∧ (∃ d, files w !! path = Some d ∧ ∀ c, ¬ encodes_creds d c) ∨
       e = AUTH_ERR_STORAGE_FAILURE ∧ ¬ fine w)
  | Fault => False
  end.
Proof.
  destruct (creds_load_run path c0 w) as (o & c & w' & -> & Hu & Hc & Ho). split; [apply Hu|].
  destruct Ho as [Ho|[-> Hnf]]; [|by auto].
  destruct (files w !! path) as [d|]; [|cbn [creds_result] in Ho; subst o; by auto].
  destruct (creds_result_cases d) as [[c' E]|E]; rewrite E in *; subst o.
  - injection Hc as <-. exists d. split; [done|]. by apply encodes_creds_result.
  - split; [done|]. right. left. split; [done|]. exists d. split; [done|].
    intros c'. by rewrite encodes_creds_result, E.
Qed.

Lemma creds_save_run c path w :
  creds_wf c → auth_creds_save (Some c) (Some path) w = atomic_write path (cred_image c) w.
Proof.
  intros Hc. unfold auth_creds_save. rewrite !bind_run. cbn [deref mret M_ret]. rewrite !bind_run.
  cbn [deref mret M_ret]. rewrite bind_run. cbn [lift]. by rewrite write_credentials_run.
Qed.

(** Credentials survive a save and a load: after a successful save, a load of
    the same file that the system does not fail succeeds and gives the saved
    credentials, with the pinned key and the role zeroed when their flags are
    off; and a save that fails leaves the previous file in place. *)
Theorem creds_save_load c path w o w1 c0 :
  creds_wf c →
  auth_creds_save (Some c) (Some path) w = (o, w1) →
  match o with
  | Ok _ => fine w1 → ∃ w2, auth_creds_load (Some path) (c0, w1) = (Ok tt, (canonical_creds c, w2))
  | _ => files w1 !! path = files w !! path
  end.
Proof.
  intros Hc H. rewrite creds_save_run in H by done. pose proof (write_result path (cred_image c) w) as Hw.
  rewrite H in Hw. destruct o as [[]|e|]; [|apply Hw..]. intros Hf.
  destruct (creds_load_run path c0 w1) as (o & c' & w2 & E & _ & Hc' & Ho).
  unfold creds_result in *. rewrite (proj1 (proj1 Hw)), take_ge, length_cred_image, Nat.eqb_refl, parse_image in *
    by (try done; rewrite length_cred_image; done).
  destruct Ho as [->|[_ Hn]]; [|done]. injection Hc' as <-. by exists w2.
Qed.

Definition sample_creds : auth_credentials_t :=
  {| cr_device_root := replicate 32 Byte.x07; cr_has_pinned_server := true;
     cr_server_pub_pinned := replicate 32 Byte.x09; cr_has_role := false;
     cr_role_commitment := zeros 32; cr_role_blind := zeros 32; cr_role_code := 5 |}.

Definition sample_world : world :=
  {| files := ∅; unsynced := ∅; answers := [A_full; A_interrupted; A_short 4]; history := [] |}.

Lemma creds_save_load_witness :
  let w1 := (auth_creds_save (Some sample_creds) (Some (str_bytes "c")) sample_world).2 in
  ∃ w2, auth_creds_load (Some (str_bytes "c")) (zero_credentials, w1) =
    (Ok tt, (canonical_creds sample_creds, w2)).
Proof.
  intros w1. destruct (auth_creds_save (Some sample_creds) (Some (str_bytes "c")) sample_world) as [o w] eqn:E.
  assert (Ho : o = Ok tt) by (apply (f_equal fst) in E; cbn [fst] in E; rewrite <- E; vm_compute; reflexivity).
  assert (Hf : answers w = []) by (apply (f_equal (λ r, answers r.2)) in E; cbn [snd] in E; rewrite <- E; vm_compute; reflexivity).
  subst o. apply (creds_save_load _ _ _ _ _ zero_credentials) in E.
  - apply E. unfold fine. rewrite Hf. constructor.
  - constructor; vm_compute; try reflexivity. split; [discriminate|reflexivity].
Defined.

(** ** The server key *)
Section server_key.
Context {NaCl : Sodium} {HS : SodiumSpec NaCl}.

Definition skey_image (sk : bytes) : bytes := SKEY_MAGIC ++ [Byte.x01] ++ sk.

Lemma write_server_key_run sk : is_n 32 sk → local_buffer SKEY_FILE_LEN (write_server_key sk) = Ok (skey_image sk).
Proof.
  intros H. apply local_buffer_ok. unfold write_server_key, SKEY_FILE_LEN, is_n in *.
  rewrite <- (app_nil_l (zeros 41)).
  rewrite (store_next 0 SKEY_MAGIC [] 0 33) by done. rewrite (store_next 8 _ _ 0 32) by done.
  rewrite (store_last 9 _ _ 0 0) by (rewrite ?H; done). change (zeros 0) with (@nil byte).
  by rewrite app_nil_r, <- !app_assoc.
Qed.

Lemma parse_server_key_image sk : is_n 32 sk → parse_server_key (skey_image sk) = Ok sk.
Proof.
  intros H. unfold parse_server_key, skey_image, is_n in *.
  assert (Hl : length (SKEY_MAGIC ++ [Byte.x01] ++ sk) = SKEY_FILE_LEN) by (rewrite !length_app, H; done).
  rewrite Hl. cbn [check Nat.eqb SKEY_FILE_LEN mbind outcome_bind].
  ld 0 8 [] SKEY_MAGIC ([Byte.x01] ++ sk). rewrite memeq_refl. cbn [check mbind outcome_bind].
  ld8 8 SKEY_MAGIC Byte.x01 sk. rewrite bool_decide_true by done. cbn [check mbind outcome_bind].
  apply (loadn_piece _ (SKEY_MAGIC ++ [Byte.x01]) sk []); [by rewrite app_nil_r, <- app_assoc|done|done].
Qed.

(** The result of a call from the contents of the file, when the file is there. *)
Definition skey_result (d : bytes) : outcome auth_err_t bytes := parse_server_key (take SKEY_FILE_LEN d).

Lemma length_random_scalar wide : is_n 32 (auth_random_scalar wide).
Proof. unfold is_n, auth_random_scalar. rewrite scalar_reduce_spec. apply length_store_le. Qed.

Lemma parse_server_key_cases buf :
  (∃ sk, parse_server_key buf = Ok sk) ∨ parse_server_key buf = Err AUTH_ERR_REGISTRY_CORRUPT.
Proof.
  unfold parse_server_key. destruct (Nat.eqb_spec (length buf) SKEY_FILE_LEN) as [Hl|]; [|by right].
  cbn [check mbind outcome_bind]. unfold SKEY_FILE_LEN in Hl.
  rewrite (loadn_ok buf 0 8) by lia. cbn [mbind outcome_bind]. destruct (memeq _ _); [|by right].
  cbn [check mbind outcome_bind]. destruct (lookup_lt_is_Some_2 buf 8) as [v Hv]; [lia|].
  rewrite (load8_ok _ _ _ Hv). cbn [mbind outcome_bind]. case_bool_decide; [|by right].
  cbn [check mbind outcome_bind]. rewrite loadn_ok by (unfold AUTH_SCALAR_LEN; lia). eauto.
Qed.

Lemma server_key_run wide path sk0 w :
  let '(o, (sk, w')) := auth_server_key_load_or_create wide (Some path) (sk0, w) in
  match files w !! path with
  | Some d => untouched w w' ∧
      (skey_result d = Ok sk ∧ o = Ok tt ∨
       skey_result d = Err AUTH_ERR_REGISTRY_CORRUPT ∧ o = Err AUTH_ERR_REGISTRY_CORRUPT ∧ sk = sk0 ∨
       o = Err AUTH_ERR_STORAGE_FAILURE ∧ sk = sk0 ∧ ¬ fine w)
  | None =>
      (∃ w1, untouched w w1 ∧ sk = auth_random_scalar wide ∧ atomic_write path (skey_image sk) w1 = (o, w')) ∨
      o = Err AUTH_ERR_STORAGE_FAILURE ∧ untouched w w' ∧ ¬ fine w
  end.
Proof.
  pose proof (length_random_scalar wide) as Hn. unfold auth_server_key_load_or_create. rewrite bind_run. cbn [deref mret M_ret].
  rewrite bind_run. cbn [get].
  destruct (read_whole_file_run path SKEY_FILE_LEN w) as (o & w1 & E & Hu & Ho). rewrite E.
  destruct Ho as [->|[-> Hnf]].
  2:{ rewrite bind_run. cbn [put]. rewrite bind_run. cbn [lift]. destruct (files w !! path); auto 10. }
  destruct (files w !! path) as [d|]; cbn [file_result].
  - rewrite bind_run. cbn [put]. rewrite bind_run. cbn [lift]. fold (skey_result d).
    destruct (parse_server_key_cases (take SKEY_FILE_LEN d)) as [[sk Es]|Es];
      change (parse_server_key (take SKEY_FILE_LEN d)) with (skey_result d) in Es; rewrite Es; cbn; auto 10.
  - rewrite bind_run. cbn [put]. rewrite bind_run. cbn [lift]. rewrite write_server_key_run by done.
    unfold on_fs. destruct (atomic_write path (skey_image (auth_random_scalar wide)) w1) as [o w'] eqn:Ea.
    left. by exists w1.
Qed.

Lemma server_key_again wide path sk0 sk d w :
  files w !! path = Some d → skey_result d = Ok sk → fine w →
  ∃ w2, auth_server_key_load_or_create wide (Some path) (sk0, w) = (Ok tt, (sk, w2)) ∧ files w2 = files w.
Proof.
  intros Hd Hs Hf. pose proof (server_key_run wide path sk0 w) as H.
  destruct (auth_server_key_load_or_create wide (Some path) (sk0, w)) as [o [sk' w2]]. rewrite Hd, Hs in H.
  destruct H as [Hu [[[= <-] ->]|[[? _]|(_ & _ & Hn)]]]; [|done|done]. exists w2. split; [done|apply Hu].
Qed.

Lemma skey_result_image sk : is_n 32 sk → skey_result (skey_image sk) = Ok sk.
Proof.
  intros H. unfold skey_result. rewrite take_ge; [by apply parse_server_key_image|].
  unfold skey_image, is_n in *. rewrite !length_app, H. apply Nat.leb_le. reflexivity.
Qed.
End server_key.

(** The server key is created once: after a call that succeeds, every later
    call on the same file that the system does not fail succeeds with the same
    key, whatever randomness it is given, and leaves the file alone; a call that
    fails on a file that is there changes neither the key nor the file, and says
    that it is corrupt or that the system failed. *)
Theorem server_key_stable {NaCl : Sodium} {HS : SodiumSpec NaCl} wide wide2 path sk0 sk1 w o sk w1 :
  auth_server_key_load_or_create wide (Some path) (sk0, w) = (o, (sk, w1)) →
  match o with
  | Ok _ => fine w1 → ∃ w2, auth_server_key_load_or_create wide2 (Some path) (sk1, w1) = (Ok tt, (sk, w2)) ∧
      files w2 = files w1
  | Err e => files w !! path ≠ None → sk = sk0 ∧ files w1 = files w ∧
      (e = AUTH_ERR_REGISTRY_CORRUPT ∨ e = AUTH_ERR_STORAGE_FAILURE)
  | Fault => False
  end.
Proof.
  intros H. pose proof (server_key_run wide path sk0 w) as Hr. rewrite H in Hr.
  destruct (files w !! path) as [d|] eqn:Ed.
  - destruct Hr as [Hu [[Es ->]|[(_ & -> & ->)|(-> & -> & _)]]];
      [|intros _; split_and!; [done|apply Hu|auto]..].
    intros Hf. apply (server_key_again wide2 path sk1 sk d); [|done|done]. destruct Hu as [-> _]. done.
  - destruct Hr as [(w0 & Hu & -> & Hw)|(-> & _ & _)]; [|done].
    pose proof (write_result path (skey_image (auth_random_scalar wide)) w0) as Hres. rewrite Hw in Hres.
    pose proof (write_atomic path (skey_image (auth_random_scalar wide)) w0) as Hat. rewrite Hw in Hat.
    destruct o as [[]|e|]; [|done|by destruct Hat].
    intros Hf. apply (server_key_again wide2 path sk1 _ (skey_image (auth_random_scalar wide))); [apply Hres| |done].
    apply skey_result_image, length_random_scalar.
Qed.

Definition sample_world_2 : world :=
  {| files := ∅; unsynced := ∅; answers := [A_full; A_full; A_short 7; A_interrupted]; history := [] |}.

Lemma server_key_stable_witness :
  let r1 := auth_server_key_load_or_create (NaCl := Toy.sodium) (replicate 64 Byte.x06) (Some (str_bytes "k")) (zeros 32, sample_world_2) in
  ∃ w2, auth_server_key_load_or_create (NaCl := Toy.sodium) (zeros 64) (Some (str_bytes "k")) (zeros 32, r1.2.2) =
    (Ok tt, (r1.2.1, w2)).
Proof.
  intros r1. destruct r1 as [o [sk w1]] eqn:E.
  assert (Ho : o = Ok tt) by (apply (f_equal fst) in E; cbn [fst] in E; rewrite <- E; vm_compute; reflexivity).
  assert (Hf : answers w1 = []) by (apply (f_equal (λ r, answers r.2.2)) in E; cbn [snd] in E; rewrite <- E; vm_compute; reflexivity).
  subst o. apply (server_key_stable (NaCl := Toy.sodium) _ (zeros 64) _ _ (zeros 32)) in E.
  destruct E as (w2 & E & _); [unfold fine; rewrite Hf; constructor|]. exists w2. exact E.
Defined.
