(* ===== verification/Registry.v ===== *)
(** The registry of enrolled devices: [src/c/include/auth/store.h] and the
    RegistryStore part of [src/c/src/store/store_fs.c].

    The registry is an array of entries with a count and the path of its file; it
    implements a finite map from device ids, which is the specification. *)
From stdpp Require Import gmap.
From S2P Require Export Store.

(** ** The registry *)
Definition REG_ENTRY_LEN : nat := 96.
Definition REG_HEADER_LEN : nat := 13.
Definition REG_MAGIC : bytes := str_bytes "IAREG" ++ [Byte.x00; Byte.x00; Byte.x01].
Definition AUTH_REGISTRY_MAX_ENTRIES : nat := 256.

Record auth_registry_entry_t := {
  re_device_id : bytes;
  re_device_pub : bytes;
  re_role_commitment : bytes
}.

(** [rg_path] is the C string in the array [path]. *)
Record auth_registry_t := {
  rg_entries : list auth_registry_entry_t;
  rg_n : nat;
  rg_path : bytes
}.

Definition zero_entry : auth_registry_entry_t :=
  {| re_device_id := zeros 32; re_device_pub := zeros 32; re_role_commitment := zeros 32 |}.

Definition zero_registry : auth_registry_t :=
  {| rg_entries := replicate AUTH_REGISTRY_MAX_ENTRIES zero_entry; rg_n := 0; rg_path := [] |}.

(** [reg->entries[i]] *)
Definition get_entry (reg : auth_registry_t) (i : nat) : outcome auth_err_t auth_registry_entry_t :=
  match rg_entries reg !! i with Some e => Ok e | None => Fault end.

Definition set_entry (i : nat) (e : auth_registry_entry_t) : M auth_err_t auth_registry_t unit := λ reg,
  if i <? length (rg_entries reg)
  then (Ok tt, {| rg_entries := <[i := e]> (rg_entries reg); rg_n := rg_n reg; rg_path := rg_path reg |})
  else (Fault, reg).

Definition set_n (n : nat) : M auth_err_t auth_registry_t unit := λ reg,
  (Ok tt, {| rg_entries := rg_entries reg; rg_n := n; rg_path := rg_path reg |}).

(** The loop that copies [count] entries out of the file. *)
Fixpoint load_entries (buf : bytes) (i count : nat) : M auth_err_t auth_registry_t unit :=
  match count with
  | O => mret tt
  | S count =>
      let p := REG_HEADER_LEN + i * REG_ENTRY_LEN in
      id ← lift (loadn buf p 32);
      pub ← lift (loadn buf (p + 32) 32);
      rc ← lift (loadn buf (p + 64) 32);
      set_entry i {| re_device_id := id; re_device_pub := pub; re_role_commitment := rc |};;
      load_entries buf (S i) count
  end.

(** The file that was read. *)
Definition parse_registry (buf : bytes) : M auth_err_t auth_registry_t unit :=
  require (REG_HEADER_LEN <=? length buf) AUTH_ERR_REGISTRY_CORRUPT;;
  magic ← lift (loadn buf 0 8);
  require (memeq magic REG_MAGIC) AUTH_ERR_REGISTRY_CORRUPT;;
  version ← lift (load8 buf 8);
  require (bool_decide (version = Byte.x01)) AUTH_ERR_REGISTRY_CORRUPT;;
  count ← lift (x ← loadn buf 9 4; r32le x);
  require (count <=? Z.of_nat AUTH_REGISTRY_MAX_ENTRIES)%Z AUTH_ERR_REGISTRY_CORRUPT;;
  require (REG_HEADER_LEN + Z.to_nat count * REG_ENTRY_LEN <=? length buf) AUTH_ERR_REGISTRY_CORRUPT;;
  load_entries buf 0 (Z.to_nat count);;
  set_n (Z.to_nat count).

Definition auth_registry_load (path : ptr bytes) : M auth_err_t (auth_registry_t * world) unit :=
  path ← deref path AUTH_ERR_INVALID_ARGUMENT;
  on_obj (put zero_registry);;
  require (length path + 1 <=? 256) AUTH_ERR_INVALID_ARGUMENT;;
  on_obj (modify (λ reg, {| rg_entries := rg_entries reg; rg_n := rg_n reg; rg_path := path |}));;
  '(reg, w) ← get;
  match read_whole_file path (REG_HEADER_LEN + AUTH_REGISTRY_MAX_ENTRIES * REG_ENTRY_LEN) w with
  | (Err AUTH_ERR_CREDENTIAL_MISSING, w') => put (reg, w')
  | (Ok buf, w') => put (reg, w');; on_obj (parse_registry buf)
  | (o, w') => put (reg, w');; lift o;; mret tt
  end.

Fixpoint save_entries (reg : auth_registry_t) (i count : nat) : M auth_err_t bytes unit :=
  match count with
  | O => mret tt
  | S count =>
      let p := REG_HEADER_LEN + i * REG_ENTRY_LEN in
      e ← lift (get_entry reg i);
      store_at p (re_device_id e);;
      store_at (p + 32) (re_device_pub e);;
      store_at (p + 64) (re_role_commitment e);;
      save_entries reg (S i) count
  end.

(** The assignments to the local [buf], whose first [total] bytes are written. *)
Definition write_registry (reg : auth_registry_t) : M auth_err_t bytes unit :=
  store_at 0 REG_MAGIC;;
  store_at 8 [Byte.x01];;
  store_at 9 (w32le (u32 (Z.of_nat (rg_n reg))));;
  save_entries reg 0 (rg_n reg).

Definition auth_registry_save (reg : auth_registry_t) : M auth_err_t world unit :=
  require (negb (bool_decide (rg_path reg = []))) AUTH_ERR_INVALID_ARGUMENT;;
  let total := REG_HEADER_LEN + rg_n reg * REG_ENTRY_LEN in
  buf ← lift (local_buffer (REG_HEADER_LEN + AUTH_REGISTRY_MAX_ENTRIES * REG_ENTRY_LEN) (write_registry reg));
  data ← lift (loadn buf 0 total);
  atomic_write (rg_path reg) data.

(** The search that [put] and [get] share: the index of [device_id] among the
    entries [i .. i + n - 1]. *)
Fixpoint find_entry (reg : auth_registry_t) (device_id : bytes) (i n : nat) : outcome auth_err_t (option nat) :=
  match n with
  | O => mret None
  | S n =>
      e ← get_entry reg i;
      if memeq (re_device_id e) device_id then mret (Some i) else find_entry reg device_id (S i) n
  end.

Definition auth_registry_put (device_id device_pub role_commitment : ptr bytes) : M auth_err_t auth_registry_t unit :=
  id ← deref device_id AUTH_ERR_INVALID_ARGUMENT;
  pub ← deref device_pub AUTH_ERR_INVALID_ARGUMENT;
  rc ← deref role_commitment AUTH_ERR_INVALID_ARGUMENT;
  reg ← get;
  found ← lift (find_entry reg id 0 (rg_n reg));
  match found with
  | Some i =>
      e ← lift (get_entry reg i);
      set_entry i {| re_device_id := re_device_id e; re_device_pub := pub; re_role_commitment := rc |}
  | None =>
      require (negb (AUTH_REGISTRY_MAX_ENTRIES <=? rg_n reg)) AUTH_ERR_TOO_MANY_ACTIVE;;
      set_entry (rg_n reg) {| re_device_id := id; re_device_pub := pub; re_role_commitment := rc |};;
      set_n (rg_n reg + 1)
  end.

Definition auth_registry_get (reg : auth_registry_t) (device_id : ptr bytes) : outcome auth_err_t (bytes * bytes) :=
  id ← nonnull device_id AUTH_ERR_INVALID_ARGUMENT;
  found ← find_entry reg id 0 (rg_n reg);
  match found with
  | Some i => e ← get_entry reg i; mret (re_device_pub e, re_role_commitment e)
  | None => Err AUTH_ERR_UNKNOWN_DEVICE
  end.

(** The callback, on its context: [true] stops the scan. *)
Definition auth_registry_scan_fn (S : Type) : Type := bytes → bytes → bytes → M auth_err_t S bool.

Fixpoint scan_loop {S} (reg : auth_registry_t) (fn : auth_registry_scan_fn S) (i n : nat) : M auth_err_t S bool :=
  match n with
  | O => mret false
  | Datatypes.S n =>
      e ← lift (get_entry reg i);
      r ← fn (re_device_id e) (re_device_pub e) (re_role_commitment e);
      if (r : bool) then mret true else scan_loop reg fn (Datatypes.S i) n
  end.

Definition auth_registry_scan {S} (reg : auth_registry_t) (fn : ptr (auth_registry_scan_fn S)) : M auth_err_t S bool :=
  match fn with
  | None => mret false
  | Some fn => scan_loop reg fn 0 (rg_n reg)
  end.

(** ** The map a registry implements *)
Record device_wf (e : auth_registry_entry_t) : Prop := {
  dw_id : is_n 32 (re_device_id e);
  dw_pub : is_n 32 (re_device_pub e);
  dw_commitment : is_n 32 (re_role_commitment e)
}.

Record registry_wf (reg : auth_registry_t) : Prop := {
  rw_size : length (rg_entries reg) = AUTH_REGISTRY_MAX_ENTRIES;
  rw_count : rg_n reg ≤ AUTH_REGISTRY_MAX_ENTRIES;
  rw_devices : Forall device_wf (rg_entries reg);
  rw_path : length (rg_path reg) ≤ 255
}.

(** The entries in use. *)
Definition devices (reg : auth_registry_t) : list auth_registry_entry_t := take (rg_n reg) (rg_entries reg).

Definition record_of (e : auth_registry_entry_t) : bytes * bytes := (re_device_pub e, re_role_commitment e).

(** The map of a list of entries; the first entry of a device counts. *)
Definition map_of (l : list auth_registry_entry_t) : gmap bytes (bytes * bytes) :=
  list_to_map (map (λ e, (re_device_id e, record_of e)) l).

Definition registry_map (reg : auth_registry_t) : gmap bytes (bytes * bytes) := map_of (devices reg).

(** The first entry of a device. *)
Definition find_device (id : bytes) (l : list auth_registry_entry_t) : option (nat * auth_registry_entry_t) :=
  list_find (λ e, re_device_id e = id) l.

Lemma map_of_cons e l : map_of (e :: l) = <[re_device_id e := record_of e]> (map_of l).
Proof. done. Qed.

Lemma map_of_lookup l id : map_of l !! id = match find_device id l with Some (_, e) => Some (record_of e) | None => None end.
Proof.
  unfold map_of, find_device. induction l as [|e l IH]; cbn; [by rewrite lookup_empty|].
  destruct (decide (re_device_id e = id)) as [<-|Hn]; [by rewrite lookup_insert_eq|].
  rewrite lookup_insert_ne, IH by done. by destruct (list_find _ l) as [[]|].
Qed.

Lemma map_of_update l id i e e' :
  find_device id l = Some (i, e) → re_device_id e' = id → map_of (<[i := e']> l) = <[id := record_of e']> (map_of l).
Proof.
  unfold find_device. intros H <-. revert i H. induction l as [|e0 l IH]; intros i H; [done|]. cbn in H.
  rewrite map_of_cons. destruct (decide (re_device_id e0 = re_device_id e')) as [E|Hn].
  - injection H as <- <-. change (<[0 := e']> (e0 :: l)) with (e' :: l). by rewrite map_of_cons, E, insert_insert_eq.
  - destruct (list_find _ l) as [[j ej]|]; [|done]. cbn in H. injection H as <- <-.
    change (<[S j := e']> (e0 :: l)) with (e0 :: <[j := e']> l).
    by rewrite map_of_cons, (IH j), insert_insert_ne by done.
Qed.

Lemma map_of_append l id e :
  find_device id l = None → re_device_id e = id → map_of (l ++ [e]) = <[id := record_of e]> (map_of l).
Proof.
  unfold find_device. intros H <-. induction l as [|e0 l IH]; [done|]. cbn in H. cbn [app]. rewrite !map_of_cons.
  destruct (decide (re_device_id e0 = re_device_id e)) as [E|Hn]; [done|].
  destruct (list_find _ l); [done|]. by rewrite IH, insert_insert_ne by done.
Qed.

(** ** Searching *)
Lemma get_entry_run reg i e : rg_entries reg !! i = Some e → get_entry reg i = Ok e.
Proof. intros H. unfold get_entry. by rewrite H. Qed.

Lemma find_entry_run reg id i n :
  i + n ≤ length (rg_entries reg) →
  find_entry reg id i n =
    Ok (match find_device id (take n (drop i (rg_entries reg))) with Some (j, _) => Some (i + j) | None => None end).
Proof.
  unfold find_device. revert i. induction n as [|n IH]; intros i Hi; cbn [find_entry]; [done|].
  destruct (lookup_lt_is_Some_2 (rg_entries reg) i) as [e He]; [lia|]. rewrite (get_entry_run _ _ _ He).
  cbn [mbind outcome_bind]. rewrite (drop_S _ _ _ He). cbn [take list_find]. unfold memeq.
  destruct (decide (re_device_id e = id)) as [E|Hn].
  - rewrite bool_decide_true, Nat.add_0_r by done. done.
  - rewrite bool_decide_false, IH by (done || lia). destruct (list_find _ _) as [[j ej]|]; cbn; [|done].
    do 2 f_equal. lia.
Qed.

Lemma find_devices_run reg id :
  registry_wf reg →
  find_entry reg id 0 (rg_n reg) = Ok (match find_device id (devices reg) with Some (j, _) => Some j | None => None end).
Proof. intros [Hs Hn _ _]. rewrite find_entry_run by lia. by rewrite drop_0. Qed.

Lemma find_device_lookup reg id i e :
  find_device id (devices reg) = Some (i, e) → rg_entries reg !! i = Some e ∧ i < rg_n reg ∧ re_device_id e = id.
Proof.
  intros H. apply list_find_Some in H as (H & E & _). unfold devices in H. apply lookup_take_Some in H as [H Hi]. done.
Qed.

Lemma set_entry_run i e reg :
  i < length (rg_entries reg) →
  set_entry i e reg = (Ok tt, {| rg_entries := <[i := e]> (rg_entries reg); rg_n := rg_n reg; rg_path := rg_path reg |}).
Proof. intros H. unfold set_entry. by rewrite (proj2 (Nat.ltb_lt _ _)). Qed.

Lemma registry_get_run reg id :
  registry_wf reg →
  auth_registry_get reg (Some id) = match registry_map reg !! id with Some v => Ok v | None => Err AUTH_ERR_UNKNOWN_DEVICE end.
Proof.
  intros Hw. unfold auth_registry_get, registry_map. rewrite map_of_lookup. cbn [nonnull mbind outcome_bind].
  rewrite find_devices_run by done. cbn [mbind outcome_bind].
  destruct (find_device id (devices reg)) as [[i e]|] eqn:E; [|done].
  apply find_device_lookup in E as (He & _ & _). by rewrite (get_entry_run _ _ _ He).
Qed.

(** What a [put] does, in the three cases. *)
Lemma registry_put_run reg id pub rc :
  registry_wf reg →
  let new := {| re_device_id := id; re_device_pub := pub; re_role_commitment := rc |} in
  let put := auth_registry_put (Some id) (Some pub) (Some rc) reg in
  match find_device id (devices reg) with
  | Some (i, _) =>
      put = (Ok tt, {| rg_entries := <[i := new]> (rg_entries reg); rg_n := rg_n reg; rg_path := rg_path reg |})
  | None =>
      if rg_n reg <? AUTH_REGISTRY_MAX_ENTRIES then
        put = (Ok tt, {| rg_entries := <[rg_n reg := new]> (rg_entries reg); rg_n := rg_n reg + 1; rg_path := rg_path reg |})
      else put = (Err AUTH_ERR_TOO_MANY_ACTIVE, reg)
  end.
Proof.
  intros Hw new put. unfold put, auth_registry_put. do 4 pstep. pstep by (find_devices_run reg id Hw).
  pose proof Hw as [Hs Hn _ _]. destruct (find_device id (devices reg)) as [[i e]|] eqn:E.
  - apply find_device_lookup in E as (He & Hi & Hid). pstep by (get_entry_run _ _ _ He).
    rewrite set_entry_run by lia. unfold new. by rewrite Hid.
  - destruct (Nat.ltb_spec (rg_n reg) AUTH_REGISTRY_MAX_ENTRIES) as [Hlt|Hge].
    + rewrite (proj2 (Nat.leb_gt _ _)) by done. cbn [negb]. pstep. pstep by set_entry_run; [|lia]. done.
    + rewrite (proj2 (Nat.leb_le _ _)) by done. by pstep.
Qed.

(** The same on the list of devices, with the invariant. *)
Lemma registry_put_cases reg id pub rc :
  registry_wf reg → is_n 32 id → is_n 32 pub → is_n 32 rc →
  let new := {| re_device_id := id; re_device_pub := pub; re_role_commitment := rc |} in
  let '(o, reg') := auth_registry_put (Some id) (Some pub) (Some rc) reg in
  registry_wf reg' ∧ rg_path reg' = rg_path reg ∧
  ((o = Ok tt ∧ ∃ i e, find_device id (devices reg) = Some (i, e) ∧ devices reg' = <[i := new]> (devices reg)) ∨
   (o = Ok tt ∧ find_device id (devices reg) = None ∧ devices reg' = devices reg ++ [new]) ∨
   (o = Err AUTH_ERR_TOO_MANY_ACTIVE ∧ reg' = reg ∧ rg_n reg = AUTH_REGISTRY_MAX_ENTRIES ∧
    find_device id (devices reg) = None)).
Proof.
  intros Hw H1 H2 H3 new. pose proof (registry_put_run reg id pub rc Hw) as H. fold new in H. cbv zeta in H.
  assert (Hnew : device_wf new) by by constructor. pose proof Hw as [Hs Hn Hd Hp].
  destruct (find_device id (devices reg)) as [[i e]|] eqn:E; [|destruct (Nat.ltb_spec (rg_n reg) AUTH_REGISTRY_MAX_ENTRIES)];
    rewrite H; unfold devices; cbn [rg_entries rg_n rg_path].
  - pose proof E as E'. apply find_device_lookup in E' as (He & Hi & Hid).
    split; [constructor; cbn; [by rewrite length_insert|done|by apply Forall_insert|done]|]. split; [done|].
    left. split; [done|]. exists i, e. by rewrite take_insert_lt.
  - split; [constructor; cbn; [by rewrite length_insert|lia|by apply Forall_insert|done]|]. split; [done|].
    right. left. split_and!; [done..|].
    by rewrite Nat.add_1_r, (take_S_r _ _ new), take_insert_ge by (try apply list_lookup_insert_eq; lia).
  - split_and!; [done..|]. right. right. split_and!; [done|done|lia|done].
Qed.

(** C6: the registry implements a finite map from device ids: a [put] on a map
    that knows the device, or has room, is the map's insertion, otherwise it is
    refused with [AUTH_ERR_TOO_MANY_ACTIVE], the registry being full and
    unchanged; the representation invariant is kept, and a [get] afterwards is
    the map's lookup for every device. *)
Theorem registry_refines_map reg id pub rc :
  registry_wf reg → is_n 32 id → is_n 32 pub → is_n 32 rc →
  let '(o, reg') := auth_registry_put (Some id) (Some pub) (Some rc) reg in
  registry_wf reg' ∧
  (∀ q, auth_registry_get reg' (Some q) =
        match registry_map reg' !! q with Some v => Ok v | None => Err AUTH_ERR_UNKNOWN_DEVICE end) ∧
  match o with
  | Ok _ => registry_map reg' = <[id := (pub, rc)]> (registry_map reg)
  | Err e => e = AUTH_ERR_TOO_MANY_ACTIVE ∧ reg' = reg ∧ rg_n reg = AUTH_REGISTRY_MAX_ENTRIES ∧
             registry_map reg !! id = None
  | Fault => False
  end.
Proof.
  intros Hw H1 H2 H3. pose proof (registry_put_cases reg id pub rc Hw H1 H2 H3) as H. cbv zeta in H.
  destruct (auth_registry_put (Some id) (Some pub) (Some rc) reg) as [o reg']. destruct H as (Hw' & _ & H).
  split; [done|]. split; [intros q; by apply registry_get_run|]. unfold registry_map.
  destruct H as [(-> & i & e & E & ->)|[(-> & E & ->)|(-> & -> & Hn & E)]].
  - by eapply map_of_update.
  - by apply map_of_append.
  - by rewrite map_of_lookup, E.
Qed.

Definition sample_entry : auth_registry_entry_t :=
  {| re_device_id := replicate 32 Byte.x01; re_device_pub := replicate 32 Byte.x02;
     re_role_commitment := replicate 32 Byte.x03 |}.

Lemma zero_registry_wf : registry_wf zero_registry.
Proof.
  constructor; cbn [rg_entries rg_n rg_path zero_registry]; [apply length_replicate|apply Nat.le_0_l| |apply Nat.le_0_l].
  apply Forall_replicate. constructor; reflexivity.
Qed.

Lemma registry_refines_map_witness :
  let '(o, reg') := auth_registry_put (Some (replicate 32 Byte.x01)) (Some (replicate 32 Byte.x02))
    (Some (replicate 32 Byte.x03)) zero_registry in
  o = Ok tt ∧ registry_map reg' = {[ replicate 32 Byte.x01 := (replicate 32 Byte.x02, replicate 32 Byte.x03) ]}.
Proof.
  pose proof (registry_refines_map zero_registry (replicate 32 Byte.x01) (replicate 32 Byte.x02)
    (replicate 32 Byte.x03) zero_registry_wf eq_refl eq_refl eq_refl) as H.
  destruct (auth_registry_put (Some (replicate 32 Byte.x01)) (Some (replicate 32 Byte.x02))
    (Some (replicate 32 Byte.x03)) zero_registry) as [o reg'] eqn:E.
  assert (Ho : o = Ok tt) by (apply (f_equal fst) in E; cbn [fst] in E; rewrite <- E; vm_compute; reflexivity).
  subst o. destruct H as (_ & _ & H). split; [reflexivity|]. rewrite H. reflexivity.
Defined.

(** ** The file *)
Definition wire_device (e : auth_registry_entry_t) : bytes :=
  re_device_id e ++ re_device_pub e ++ re_role_commitment e.

Definition wire_devices (l : list auth_registry_entry_t) : bytes := concat (map wire_device l).

Definition registry_file (magic : bytes) (version : byte) (count : bytes) (tail : bytes) : bytes :=
  magic ++ [version] ++ count ++ tail.

Definition registry_image (l : list auth_registry_entry_t) : bytes :=
  registry_file REG_MAGIC Byte.x01 (store_le 4 (Z.of_nat (length l))) (wire_devices l).

Lemma length_wire_device e : device_wf e → length (wire_device e) = REG_ENTRY_LEN.
Proof. intros [H1 H2 H3]. unfold wire_device, is_n in *. by rewrite !length_app, H1, H2, H3. Qed.

Lemma length_wire_devices l : Forall device_wf l → length (wire_devices l) = length l * REG_ENTRY_LEN.
Proof.
  unfold wire_devices. induction 1 as [|e l He _ IH]; [done|]. cbn [map concat length].
  by rewrite length_app, IH, length_wire_device.
Qed.

(** Any bytes of the right length are the encoding of a list of devices. *)
Lemma wire_devices_split n x :
  length x = n * REG_ENTRY_LEN → ∃ l, x = wire_devices l ∧ length l = n ∧ Forall device_wf l.
Proof.
  revert x. induction n as [|n IH]; intros x Hx.
  { apply nil_length_inv in Hx as ->. by exists []. }
  cbn [Nat.mul] in Hx. unfold REG_ENTRY_LEN in Hx at 1.
  destruct (split_at 32 x) as (id & y & -> & H1); [lia|]. rewrite length_app in Hx.
  destruct (split_at 32 y) as (pub & z & -> & H2); [lia|]. rewrite length_app in Hx.
  destruct (split_at 32 z) as (rc & t & -> & H3); [lia|]. rewrite length_app in Hx.
  destruct (IH t) as (l & -> & Hl & Hw); [lia|].
  exists ({| re_device_id := id; re_device_pub := pub; re_role_commitment := rc |} :: l). split_and!.
  - unfold wire_devices, wire_device. cbn [map concat re_device_id re_device_pub re_role_commitment].
    by rewrite <- !app_assoc.
  - cbn. by rewrite Hl.
  - apply list.Forall_cons. split; [by constructor|done].
Qed.

Lemma w32le_store v : w32le v = store_le 4 v.
Proof. by rewrite store_le_4. Qed.

Lemma r32le_run x : length x = 4 → r32le x = Ok (load_le x).
Proof.
  intros H. destruct x as [|b0 [|b1 [|b2 [|b3 [|]]]]]; try discriminate H. etrans; [|by rewrite <- load_le_4]. done.
Qed.

(** The loops over the entries. *)
Lemma load_entries_run buf pre l more i reg :
  buf = pre ++ wire_devices l ++ more → length pre = REG_HEADER_LEN + i * REG_ENTRY_LEN →
  Forall device_wf l → i + length l ≤ length (rg_entries reg) →
  load_entries buf i (length l) reg =
    (Ok tt, {| rg_entries := take i (rg_entries reg) ++ l ++ drop (i + length l) (rg_entries reg);
               rg_n := rg_n reg; rg_path := rg_path reg |}).
Proof.
  revert pre i reg. induction l as [|e l IH]; intros pre i reg Hb Hp Hw Hi; cbn [load_entries length].
  - cbn [mret M_ret]. rewrite Nat.add_0_r. cbn [app]. rewrite take_drop. by destruct reg.
  - destruct e as [id pub rc]. apply list.Forall_cons in Hw as [[H1 H2 H3] Hw]. cbn [length] in Hi.
    change (wire_devices ({| re_device_id := id; re_device_pub := pub; re_role_commitment := rc |} :: l)) with ((id ++ pub ++ rc) ++ wire_devices l) in Hb.
    assert (Hbuf : buf = pre ++ id ++ pub ++ rc ++ wire_devices l ++ more)
      by (rewrite Hb; by rewrite <- !app_assoc).
    cbn in H1, H2, H3. unfold is_n in *. cbv zeta.
    pstep by (loadn_piece buf pre (id) _ _ 32 Hbuf (eq_sym Hp) (eq_sym H1)).
    pstep by (loadn_piece buf (pre ++ id) (pub) (rc ++ wire_devices l ++ more));
      [|by rewrite Hbuf, <- !app_assoc|rewrite length_app; lia|done].
    pstep by (loadn_piece buf (pre ++ id ++ pub) (rc) (wire_devices l ++ more));
      [|by rewrite Hbuf, <- !app_assoc|rewrite !length_app; lia|done].
    pstep by set_entry_run; [|lia].
    rewrite (IH (pre ++ id ++ pub ++ rc));
      [|by rewrite Hbuf, <- !app_assoc| |done|cbn; rewrite length_insert; lia].
    2:{ rewrite !length_app, Hp, H1, H2, H3. unfold REG_ENTRY_LEN. lia. }
    cbn [rg_entries rg_n rg_path]. do 2 f_equal.
    rewrite (take_S_r _ _ {| re_device_id := id; re_device_pub := pub; re_role_commitment := rc |}) by (apply list_lookup_insert_eq; lia).
    rewrite take_insert_ge, drop_insert_lt, <- app_assoc by lia. cbn [app].
    replace (S i + length l) with (i + S (length l)) by lia. done.
Qed.

Lemma save_entries_run reg i l w k :
  take (length l) (drop i (rg_entries reg)) = l → i + length l ≤ length (rg_entries reg) → Forall device_wf l →
  length w = REG_HEADER_LEN + i * REG_ENTRY_LEN → length l * REG_ENTRY_LEN ≤ k →
  save_entries reg i (length l) (w ++ zeros k) =
    (Ok tt, (w ++ wire_devices l) ++ zeros (k - length l * REG_ENTRY_LEN)).
Proof.
  revert i w k. induction l as [|e l IH]; intros i w k Ht Hi Hw Hl Hk; cbn [save_entries length].
  - cbn [Nat.mul]. rewrite Nat.sub_0_r. unfold wire_devices. cbn. by rewrite app_nil_r.
  - apply list.Forall_cons in Hw as [[H1 H2 H3] Hw]. cbn [length] in *. unfold is_n in *. unfold REG_ENTRY_LEN in Hk.
    destruct (lookup_lt_is_Some_2 (rg_entries reg) i) as [e0 He]; [lia|].
    rewrite (drop_S _ _ _ He) in Ht. cbn [take] in Ht. injection Ht as -> Ht.
    cbv zeta. pstep by (get_entry_run _ _ _ He).
    rewrite (store_next _ (re_device_id e) w 0 (k - 32) k) by lia.
    rewrite (store_next _ (re_device_pub e) _ 0 (k - 64) (k - 32)) by (cbn [zeros replicate app]; rewrite ?length_app; lia).
    rewrite (store_next _ (re_role_commitment e) _ 0 (k - 96) (k - 64)) by (cbn [zeros replicate app]; rewrite ?length_app; lia).
    cbn [zeros replicate app].
    rewrite (IH (S i)); [|done|lia|done|rewrite !length_app, Hl, H1, H2, H3; unfold REG_ENTRY_LEN; lia|unfold REG_ENTRY_LEN; lia].
    do 2 f_equal; [unfold wire_devices, wire_device; cbn [map concat]; by rewrite <- !app_assoc|].
    unfold REG_ENTRY_LEN. f_equal. lia.
Qed.

(** *** What is accepted *)
(** [d] starts with the encoding of the devices [l]. *)
Definition encodes_registry (d : bytes) (l : list auth_registry_entry_t) : Prop :=
  Forall device_wf l ∧ length l ≤ AUTH_REGISTRY_MAX_ENTRIES ∧ ∃ more, d = registry_image l ++ more.

Definition loaded (l : list auth_registry_entry_t) (reg : auth_registry_t) : auth_registry_t :=
  {| rg_entries := l ++ drop (length l) (rg_entries reg); rg_n := length l; rg_path := rg_path reg |}.

Lemma length_registry_image l : Forall device_wf l → length (registry_image l) = REG_HEADER_LEN + length l * REG_ENTRY_LEN.
Proof.
  intros H. unfold registry_image, registry_file. rewrite !length_app, length_store_le, length_wire_devices by done.
  reflexivity.
Qed.

Lemma registry_file_check magic v cnt tail reg :
  is_n 8 magic → is_n 4 cnt →
  ¬ (magic = REG_MAGIC ∧ v = Byte.x01 ∧ (load_le cnt <= Z.of_nat AUTH_REGISTRY_MAX_ENTRIES)%Z ∧
     Z.to_nat (load_le cnt) * REG_ENTRY_LEN ≤ length tail) →
  parse_registry (registry_file magic v cnt tail) reg = (Err AUTH_ERR_REGISTRY_CORRUPT, reg).
Proof.
  intros H1 H2 Hn. unfold parse_registry, registry_file.
  assert (Hl : length (magic ++ [v] ++ cnt ++ tail) = REG_HEADER_LEN + length tail)
    by (unfold is_n in *; rewrite !length_app, H1, H2; reflexivity).
  rewrite Hl, (proj2 (Nat.leb_le REG_HEADER_LEN _)) by lia. pstep.
  pstep by (loadn_piece _ [] magic ([v] ++ cnt ++ tail) 0 8 eq_refl eq_refl (eq_sym H1)). unfold memeq.
  case_bool_decide as E1; pstep; [|done].
  pstep by (load8_piece _ magic v (cnt ++ tail) 8 eq_refl (eq_sym H1)). case_bool_decide as E2; pstep; [|done].
  pstep. rewrite (loadn_piece _ (magic ++ [v]) cnt tail) by
    (unfold is_n in *; rewrite ?length_app, ?H1, ?H2, <- ?app_assoc; done).
  cbn [mbind outcome_bind]. rewrite r32le_run by done.
  destruct (Z.leb_spec (load_le cnt) (Z.of_nat AUTH_REGISTRY_MAX_ENTRIES)) as [E3|]; pstep; [|done].
  destruct (Nat.leb_spec (REG_HEADER_LEN + Z.to_nat (load_le cnt) * REG_ENTRY_LEN) (REG_HEADER_LEN + length tail));
    [|by pstep]. destruct Hn. split_and!; try done. lia.
Qed.

Lemma encodes_registry_run d l reg :
  encodes_registry d l → length (rg_entries reg) = AUTH_REGISTRY_MAX_ENTRIES →
  parse_registry d reg = (Ok tt, loaded l reg).
Proof.
  intros (Hw & Hl & more & ->) Hs. unfold parse_registry.
  assert (Hc : load_le (store_le 4 (Z.of_nat (length l))) = Z.of_nat (length l)).
  { apply load_store_le_4. unfold AUTH_REGISTRY_MAX_ENTRIES in Hl. split; lia. }
  rewrite length_app, length_registry_image by done. rewrite (proj2 (Nat.leb_le REG_HEADER_LEN _)) by lia. pstep.
  unfold registry_image, registry_file.
  pstep by (loadn_piece (E:=auth_err_t) ((REG_MAGIC ++ [Byte.x01] ++ store_le 4 (Z.of_nat (length l)) ++ wire_devices l) ++ more) [] REG_MAGIC
    ([Byte.x01] ++ store_le 4 (Z.of_nat (length l)) ++ wire_devices l ++ more) 0 8); [|by rewrite <- !app_assoc|done|done].
  rewrite memeq_refl. pstep.
  pstep by (load8_piece (E:=auth_err_t) ((REG_MAGIC ++ [Byte.x01] ++ store_le 4 (Z.of_nat (length l)) ++ wire_devices l) ++ more) REG_MAGIC
    Byte.x01 (store_le 4 (Z.of_nat (length l)) ++ wire_devices l ++ more) 8); [|by rewrite <- !app_assoc|done].
  rewrite bool_decide_true by done. do 2 pstep.
  rewrite (loadn_piece _ (REG_MAGIC ++ [Byte.x01]) (store_le 4 (Z.of_nat (length l))) (wire_devices l ++ more))
    by (rewrite ?length_store_le, <- ?app_assoc; done).
  cbn [mbind outcome_bind]. rewrite r32le_run, Hc, Nat2Z.id by apply length_store_le.
  rewrite (proj2 (Z.leb_le _ _)) by lia. pstep. rewrite (proj2 (Nat.leb_le _ _)) by lia. pstep.
  pstep by (load_entries_run ((REG_MAGIC ++ [Byte.x01] ++ store_le 4 (Z.of_nat (length l)) ++ wire_devices l) ++ more)
    (REG_MAGIC ++ [Byte.x01] ++ store_le 4 (Z.of_nat (length l))) l more 0 reg);
    [|by rewrite <- !app_assoc|rewrite !length_app, length_store_le; done|done|lia].
  done.
Qed.

Lemma parse_registry_cases d reg :
  length (rg_entries reg) = AUTH_REGISTRY_MAX_ENTRIES →
  (∃ l, encodes_registry d l ∧ parse_registry d reg = (Ok tt, loaded l reg)) ∨
  (∀ l, ¬ encodes_registry d l) ∧ parse_registry d reg = (Err AUTH_ERR_REGISTRY_CORRUPT, reg).
Proof.
  intros Hs.
  assert (Hc : (∃ l, encodes_registry d l) ∨ parse_registry d reg = (Err AUTH_ERR_REGISTRY_CORRUPT, reg)).
  { destruct (decide (REG_HEADER_LEN ≤ length d)) as [Hl|Hl].
    2:{ right. unfold parse_registry. by rewrite (proj2 (Nat.leb_gt _ _)) by lia. }
    unfold REG_HEADER_LEN in Hl. destruct (split_at 8 d) as (magic & x & -> & H1); [lia|]. rewrite length_app in Hl.
    destruct (split_cons 0 x) as (v & y & -> & _); [lia|]. cbn [length] in Hl.
    destruct (split_at 4 y) as (cnt & tail & -> & H2); [lia|].
    change (magic ++ v :: cnt ++ tail) with (registry_file magic v cnt tail).
    destruct (decide (magic = REG_MAGIC ∧ v = Byte.x01 ∧ (load_le cnt <= Z.of_nat AUTH_REGISTRY_MAX_ENTRIES)%Z ∧
      Z.to_nat (load_le cnt) * REG_ENTRY_LEN ≤ length tail)) as [(-> & -> & H3 & H4)|Hn];
      [left|right; by apply registry_file_check].
    destruct (split_at _ _ H4) as (z & more & -> & H5). destruct (wire_devices_split _ _ H5) as (l & -> & H6 & H7).
    exists l. split_and!; [done|lia|]. exists more. unfold registry_image, registry_file.
    pose proof (load_le_nonneg cnt). rewrite H6, Z2Nat.id, (store_load_le_n 4), <- !app_assoc by done. done. }
  destruct Hc as [[l Hl]|E]; [left; exists l; split; [done|by apply encodes_registry_run]|].
  right. split; [|done]. intros l Hl. apply (encodes_registry_run d l reg) in Hl; [|done]. by rewrite Hl in E.
Qed.

Lemma encodes_registry_take d l :
  encodes_registry d l ↔ encodes_registry (take (REG_HEADER_LEN + AUTH_REGISTRY_MAX_ENTRIES * REG_ENTRY_LEN) d) l.
Proof.
  unfold encodes_registry. split; intros (Hw & Hl & more & E); split_and!; try done.
  - subst d. pose proof (length_registry_image l Hw) as Hi.
    exists (take (REG_HEADER_LEN + AUTH_REGISTRY_MAX_ENTRIES * REG_ENTRY_LEN - length (registry_image l)) more).
    rewrite take_app_ge; [done|]. rewrite Hi. apply Nat.add_le_mono_l, Nat.mul_le_mono_r. done.
  - rewrite <- (take_drop (REG_HEADER_LEN + AUTH_REGISTRY_MAX_ENTRIES * REG_ENTRY_LEN) d), E, <- app_assoc. eauto.
Qed.

(** The registry before the file is read. *)
Definition fresh_registry (path : bytes) : auth_registry_t :=
  {| rg_entries := replicate AUTH_REGISTRY_MAX_ENTRIES zero_entry; rg_n := 0; rg_path := path |}.

Lemma fresh_registry_wf path : length path ≤ 255 → registry_wf (fresh_registry path).
Proof. intros H. destruct zero_registry_wf. by constructor. Qed.

Lemma loaded_wf l reg :
  registry_wf reg → Forall device_wf l → length l ≤ AUTH_REGISTRY_MAX_ENTRIES → registry_wf (loaded l reg).
Proof.
  intros [Hs _ Hd Hp] Hw Hl. constructor; cbn [loaded rg_entries rg_n rg_path]; [|done| |done].
  - rewrite length_app, length_drop. lia.
  - apply Forall_app. split; [done|]. by apply Forall_drop.
Qed.

Lemma devices_loaded l reg : devices (loaded l reg) = l.
Proof. unfold devices, loaded. cbn. apply take_app_length. Qed.

(** A file encodes one registry at most. *)
Lemma encodes_registry_inj d l l' : encodes_registry d l → encodes_registry d l' → l = l'.
Proof.
  intros H H'. pose proof (encodes_registry_run d l (fresh_registry []) H (length_replicate _ _)) as E.
  rewrite (encodes_registry_run d l' (fresh_registry []) H' (length_replicate _ _)) in E.
  apply (f_equal (λ r, devices (snd r))) in E. cbn [snd] in E. by rewrite !devices_loaded in E.
Qed.

Lemma image_encodes l : Forall device_wf l → length l ≤ AUTH_REGISTRY_MAX_ENTRIES → encodes_registry (registry_image l) l.
Proof. intros Hw Hl. split_and!; [done|done|]. exists []. by rewrite app_nil_r. Qed.

Lemma registry_load_run path reg0 w :
  length path ≤ 255 →
  ∃ o reg w', auth_registry_load (Some path) (reg0, w) = (o, (reg, w')) ∧ untouched w w' ∧
    (o = Err AUTH_ERR_STORAGE_FAILURE ∧ reg = fresh_registry path ∧ ¬ fine w ∨
     match files w !! path with
     | None => o = Ok tt ∧ reg = fresh_registry path
     | Some d => (∃ l, encodes_registry d l ∧ o = Ok tt ∧ reg = loaded l (fresh_registry path)) ∨
                 (∀ l, ¬ encodes_registry d l) ∧ o = Err AUTH_ERR_REGISTRY_CORRUPT ∧ reg = fresh_registry path
     end).
Proof.
  intros Hp. unfold auth_registry_load. rewrite bind_run. cbn [deref mret M_ret]. rewrite bind_run.
  cbn [on_obj put]. rewrite bind_run. rewrite (proj2 (Nat.leb_le _ _)) by lia. cbn [require mret M_ret].
  rewrite bind_run. cbn [on_obj modify zero_registry rg_entries rg_n]. fold (fresh_registry path). rewrite bind_run. cbn [get].
  set (cap := REG_HEADER_LEN + AUTH_REGISTRY_MAX_ENTRIES * REG_ENTRY_LEN).
  destruct (read_whole_file_run path cap w) as (o & w1 & E & Hu & Ho). rewrite E.
  destruct Ho as [->|[-> Hnf]].
  2:{ rewrite bind_run. cbn [put]. rewrite bind_run. cbn [lift]. eexists _, _, w1. split_and!; [done|apply Hu..|by left]. }
  destruct (files w !! path) as [d|]; cbn [file_result].
  2:{ cbn [put]. eexists _, _, w1. split_and!; [done|apply Hu..|by right]. }
  rewrite bind_run. cbn [put on_obj].
  destruct (parse_registry_cases (take cap d) (fresh_registry path)) as [(l & Hl & ->)|[Hn ->]];
    [apply length_replicate| |]; eexists _, _, w1; (split; [done|]); (split; [done|]); right.
  - left. exists l. split; [|done]. by apply encodes_registry_take.
  - right. split; [|done]. intros l Hl. apply (Hn l). by apply encodes_registry_take in Hl.
Qed.

Lemma registry_load_exact_spec path reg0 w :
  let '(o, (reg, w')) := auth_registry_load (Some path) (reg0, w) in
  files w' = files w ∧ registry_wf reg ∧
  match o with
  | Ok _ => rg_path reg = path ∧
      match files w !! path with Some d => encodes_registry d (devices reg) | None => devices reg = [] end
  | Err e => devices reg = [] ∧
      (e = AUTH_ERR_REGISTRY_CORRUPT ∧ (∃ d, files w !! path = Some d ∧ ∀ l, ¬ encodes_registry d l) ∨
       e = AUTH_ERR_STORAGE_FAILURE ∧ ¬ fine w ∨ e = AUTH_ERR_INVALID_ARGUMENT ∧ 255 < length path)
  | Fault => False
  end.
Proof.
  destruct (decide (length path ≤ 255)) as [Hp|Hp].
  - destruct (registry_load_run path reg0 w Hp) as (o & reg & w' & -> & Hu & Ho). split; [apply Hu|].
    pose proof (fresh_registry_wf path Hp) as Hw. destruct Ho as [(-> & -> & Hn)|Ho].
    { split; [done|]. split; [done|]. right. by left. }
    destruct (files w !! path) as [d|]; [|by destruct Ho as [-> ->]].
    destruct Ho as [(l & Hl & -> & ->)|(Hn & -> & ->)].
    + rewrite devices_loaded. split_and!; [apply loaded_wf; try done; apply Hl|done|done].
    + split; [done|]. split; [done|]. left. eauto.
  - unfold auth_registry_load. rewrite bind_run. cbn [deref mret M_ret]. rewrite bind_run. cbn [on_obj put].
    rewrite bind_run, (proj2 (Nat.leb_gt _ _)) by lia. cbn. split; [done|]. split; [apply zero_registry_wf|].
    split; [done|]. right. right. split; [done|lia].
Qed.

(** C30: loading a registry is total and exact: whatever the file holds, the load
    returns and leaves a well-formed registry for that path; it succeeds with the
    devices of the file when the file starts with their encoding, with none when
    there is no file, and is otherwise [AUTH_ERR_REGISTRY_CORRUPT] (or a storage
    failure) with an empty registry; a path of more than 255 bytes is refused. *)
Theorem registry_load_exact path reg0 w :
  let '(o, (reg, w')) := auth_registry_load (Some path) (reg0, w) in
  files w' = files w ∧ registry_wf reg ∧
  match o with
  | Ok _ => rg_path reg = path ∧
      match files w !! path with Some d => encodes_registry d (devices reg) | None => devices reg = [] end
  | Err e => devices reg = [] ∧
      (e = AUTH_ERR_REGISTRY_CORRUPT ∧ (∃ d, files w !! path = Some d ∧ ∀ l, ¬ encodes_registry d l) ∨
       e = AUTH_ERR_STORAGE_FAILURE ∧ ¬ fine w ∨ e = AUTH_ERR_INVALID_ARGUMENT ∧ 255 < length path)
  | Fault => False
  end.
Proof. apply registry_load_exact_spec. Qed.

(** *** Saving *)
Lemma registry_save_run reg w :
  registry_wf reg → rg_path reg ≠ [] →
  auth_registry_save reg w = atomic_write (rg_path reg) (registry_image (devices reg)) w.
Proof.
  intros [Hs Hn Hd Hp] Hne. unfold auth_registry_save. rewrite bool_decide_false by done. cbn [negb]. pstep. cbv zeta.
  assert (Hl : length (devices reg) = rg_n reg) by (unfold devices; rewrite length_take; lia).
  assert (Hdw : Forall device_wf (devices reg)) by by apply Forall_take.
  set (rest := (AUTH_REGISTRY_MAX_ENTRIES - rg_n reg) * REG_ENTRY_LEN).
  assert (E : local_buffer (REG_HEADER_LEN + AUTH_REGISTRY_MAX_ENTRIES * REG_ENTRY_LEN) (write_registry reg) =
    Ok (registry_image (devices reg) ++ zeros rest)).
  { apply local_buffer_ok. unfold write_registry.
    set (total := AUTH_REGISTRY_MAX_ENTRIES * REG_ENTRY_LEN). rewrite <- (app_nil_l (zeros _)).
    rewrite (store_next 0 REG_MAGIC [] 0 (5 + total) (REG_HEADER_LEN + total)) by done.
    rewrite (store_next 8 [Byte.x01] _ 0 (4 + total) (5 + total)) by done.
    rewrite w32le_store, (store_next 9 _ _ 0 total (4 + total)) by (rewrite ?length_store_le; done).
    change (zeros 0) with (@nil byte). rewrite !app_nil_l.
    replace (save_entries reg 0 (rg_n reg)) with (save_entries reg 0 (length (devices reg))) by by rewrite Hl.
    rewrite save_entries_run; [|by rewrite drop_0, Hl|rewrite Hl; lia|done| |rewrite Hl; apply Nat.mul_le_mono_r; done].
    2:{ rewrite !length_app, length_store_le. done. }
    do 2 f_equal.
    - unfold registry_image, registry_file. rewrite <- !app_assoc. cbn [app]. rewrite Hl.
      assert (Hz : u32 (Z.of_nat (rg_n reg)) = Z.of_nat (rg_n reg)); [|by rewrite Hz].
      apply Z.mod_small. unfold AUTH_REGISTRY_MAX_ENTRIES in Hn. lia.
    - unfold rest, total. by rewrite Hl, Nat.mul_sub_distr_r. }
  pstep. rewrite E. pstep.
  by rewrite (loadn_piece _ [] (registry_image (devices reg)) (zeros rest))
    by (rewrite ?length_registry_image, ?Hl; done).
Qed.

(** A registry survives a save and a load: after a successful save a load of
    its path that the system does not fail gives a registry with the same devices
    in the same order, so the same map; a save that fails leaves the previous
    file in place. *)
Theorem registry_save_load reg reg0 w o w1 :
  registry_wf reg → rg_path reg ≠ [] →
  auth_registry_save reg w = (o, w1) →
  match o with
  | Ok _ => fine w1 → ∃ reg' w2, auth_registry_load (Some (rg_path reg)) (reg0, w1) = (Ok tt, (reg', w2)) ∧
      devices reg' = devices reg ∧ rg_path reg' = rg_path reg ∧ registry_map reg' = registry_map reg
  | _ => files w1 !! rg_path reg = files w !! rg_path reg
  end.
Proof.
  intros Hw Hne H. rewrite registry_save_run in H by done.
  pose proof (write_result (rg_path reg) (registry_image (devices reg)) w) as Hr. rewrite H in Hr.
  destruct o as [[]|e|]; [|apply Hr..]. intros Hf. pose proof Hw as [Hs Hn Hd Hp].
  assert (Hl : length (devices reg) = rg_n reg) by (unfold devices; rewrite length_take; lia).
  assert (He : encodes_registry (registry_image (devices reg)) (devices reg)).
  { split_and!; [by apply Forall_take|lia|]. exists []. by rewrite app_nil_r. }
  destruct (registry_load_run (rg_path reg) reg0 w1 Hp) as (o & reg' & w2 & E & _ & Ho).
  rewrite (proj1 (proj1 Hr)) in Ho. destruct Ho as [(_ & _ & Hx)|[(l & Hl' & -> & ->)|(Hx & _)]]; [done| |by destruct (Hx _ He)].
  pose proof (encodes_registry_inj _ _ _ Hl' He) as ->.
  eexists _, w2. split; [done|]. unfold registry_map. by rewrite devices_loaded.
Qed.

Definition sample_registry : auth_registry_t := loaded [sample_entry] (fresh_registry (str_bytes "r")).

Lemma sample_registry_wf : registry_wf sample_registry.
Proof.
  apply loaded_wf; [apply fresh_registry_wf; cbn; lia| |apply Nat.leb_le; reflexivity].
  apply list.Forall_cons. split; [by constructor|constructor].
Qed.

Lemma registry_save_load_witness :
  let w1 := (auth_registry_save sample_registry sample_world).2 in
  ∃ reg' w2, auth_registry_load (Some (str_bytes "r")) (zero_registry, w1) = (Ok tt, (reg', w2)) ∧
    devices reg' = [sample_entry].
Proof.
  intros w1. destruct (auth_registry_save sample_registry sample_world) as [o w] eqn:E.
  assert (Ho : o = Ok tt) by (apply (f_equal fst) in E; cbn [fst] in E; rewrite <- E; vm_compute; reflexivity).
  assert (Hf : answers w = []) by (apply (f_equal (λ r, answers r.2)) in E; cbn [snd] in E; rewrite <- E; vm_compute; reflexivity).
  subst o. apply (registry_save_load _ zero_registry) in E; [|exact sample_registry_wf|discriminate].
  destruct E as (reg' & w2 & E & Ed & _); [unfold fine; rewrite Hf; constructor|].
  exists reg', w2. split; [exact E|]. rewrite Ed. vm_compute. reflexivity.
Defined.
