(* ===== verification/Server.v ===== *)
(** The server: the state shared by its threads and the dispatch of one packet,
    of [src/c/bin/server.c].

    A thread that handles a packet is a [proc]: it computes on its own buffers
    and takes a mutex for a section on the shared state.  A section is one atomic
    step; the sections under [replay_mu] touch the replay cache only and those
    under [mu] everything else, so sections of different mutexes commute and
    treating all of them as atomic loses no behaviour.  [run_proc] runs a packet
    alone; [sched] interleaves any number of packets, as the UDP thread and the
    TCP connection threads do.

    The fields of [server_state_t] that [main] writes before it starts the threads
    are the [server_config]. *)
From stdpp Require Import gmap.
From S2P Require Export Registry.

Record server_config := {
  sc_server_sk : bytes;
  sc_server_pub : bytes;
  sc_require_pairing_token : ptr bytes;
  sc_allowed_roles : list Z
}.

Record server_state_t := {
  sv_registry : auth_registry_t;
  sv_sessions : auth_session_table_t;
  sv_replay_cache : auth_replay_cache_t;
  sv_world : world
}.

Inductive mutex := Mu | Replay_mu.

(** A packet that is being handled: done with [out_len] bytes of reply in [out]
    (0 for none), outside an object, or about to enter a section. *)
#[warnings="-register-all"]
Inductive proc :=
  | Halt (out : bytes) (out_len : nat)
  | Crash
  | Locked (m : mutex) (section : server_state_t → proc * server_state_t).

(** [pthread_mutex_lock(m); section; pthread_mutex_unlock(m);] and what follows. *)
Definition locked {A} (m : mutex) (section : M auth_err_t server_state_t A)
    (k : outcome auth_err_t A → proc) : proc :=
  Locked m (λ s, let '(o, s') := section s in (k o, s')).

(** ** Sections on a part of the state *)
Definition on_registry {A} (m : M auth_err_t auth_registry_t A) : M auth_err_t server_state_t A := λ s,
  let '(o, r) := m (sv_registry s) in
  (o, {| sv_registry := r; sv_sessions := sv_sessions s; sv_replay_cache := sv_replay_cache s; sv_world := sv_world s |}).

Definition on_sessions {A} (m : M auth_err_t auth_session_table_t A) : M auth_err_t server_state_t A := λ s,
  let '(o, t) := m (sv_sessions s) in
  (o, {| sv_registry := sv_registry s; sv_sessions := t; sv_replay_cache := sv_replay_cache s; sv_world := sv_world s |}).

Definition on_world {A} (m : M auth_err_t world A) : M auth_err_t server_state_t A := λ s,
  let '(o, w) := m (sv_world s) in
  (o, {| sv_registry := sv_registry s; sv_sessions := sv_sessions s; sv_replay_cache := sv_replay_cache s; sv_world := w |}).

(** A section on the replay cache and a local object of the thread, whose new
    value is part of the result. *)
Definition on_replay {S A} (l : S) (m : M auth_err_t (auth_replay_cache_t * S) A) :
    M auth_err_t server_state_t (outcome auth_err_t A * S) := λ s,
  let '(o, (c, l')) := m (sv_replay_cache s, l) in
  (Ok (o, l'),
   {| sv_registry := sv_registry s; sv_sessions := sv_sessions s; sv_replay_cache := c; sv_world := sv_world s |}).

(** [(void)m;] and [err = m; if (err) h;] *)
Definition ignore {S A} (m : M auth_err_t S A) : M auth_err_t S unit := λ s,
  match m s with
  | (Fault, s') => (Fault, s')
  | (_, s') => (Ok tt, s')
  end.

Definition on_error {S A} (m : M auth_err_t S A) (h : M auth_err_t S unit) : M auth_err_t S A := λ s,
  match m s with
  | (Err e, s') => (h;; fail e) s'
  | r => r
  end.

(** [err = m; f;] whatever [m] returns. *)
Definition and_then {S A} (m : M auth_err_t S A) (f : M auth_err_t S unit) : M auth_err_t S A := λ s,
  match m s with
  | (Fault, s') => (Fault, s')
  | (o, s') => (f;; lift o) s'
  end.

(** ** Dispatch *)
Definition zero_pending_setup : auth_pending_setup_t :=
  {| ps_session_id := zeros 16; ps_device_id := zeros 32; ps_device_pub := zeros 32;
     ps_role_commitment := zeros 32; ps_client_nonce := zeros 32; ps_server_nonce := zeros 32;
     ps_setup_challenge := zeros 16; ps_server_pub := zeros 32;
     ps_response_packet := zeros AUTH_MAX_DATAGRAM; ps_response_packet_len := 0 |}.

(** The random bytes a packet may draw: for SETUP_1, and for the [i]-th candidate
    of AUTH_1. *)
Record draws := {
  dr_server_nonce : bytes;
  dr_setup_challenge : bytes;
  dr_setup_proof : bytes;
  dr_eph : nat → bytes;
  dr_nonce : nat → bytes;
  dr_proof : nat → bytes
}.

(** The label [error_reply]; [out_len] is its value there. *)
Definition error_reply (hdr : auth_header_t) (err : auth_err_t) (out : bytes) (out_len : nat) : proc :=
  match auth_packet_build_error (Some (hdr_session_id hdr)) (hdr_seq hdr) err
          (Some (str_bytes (auth_strerror err))) out with
  | (Ok n, out') => Halt out' n
  | (Err _, out') => Halt out' out_len
  | (Fault, _) => Crash
  end.

(** [if (err) goto error_reply; return;] *)
Definition finish {A} (hdr : auth_header_t) (out : bytes) (out_len : nat) (o : outcome auth_err_t A) : proc :=
  match o with
  | Ok _ => Halt out out_len
  | Err e => error_reply hdr e out out_len
  | Fault => Crash
  end.

(** [(void)section; rest] *)
Definition then_proc (rest : proc) (o : outcome auth_err_t unit) : proc :=
  match o with Fault => Crash | _ => rest end.

Definition activate_or_release (activate : M auth_err_t auth_session_table_t unit) (slot : Z) :
    M auth_err_t server_state_t unit :=
  on_sessions (on_error activate (ignore (auth_session_table_release slot))).

Definition release (slot : Z) : M auth_err_t server_state_t unit :=
  on_sessions (ignore (auth_session_table_release slot)).

(** [slot = find(...); if (slot < 0) err = AUTH_ERR_UNKNOWN_SESSION; else pending = ...;] *)
Definition copy_setup (session_id : bytes) : M auth_err_t server_state_t (Z * auth_pending_setup_t) :=
  on_sessions (
    table ← get;
    slot ← lift (auth_session_table_find_setup table (Some session_id));
    require (negb (slot <? 0)%Z) AUTH_ERR_UNKNOWN_SESSION;;
    entry ← lift (read_slot table (Z.to_nat slot));
    match entry with Slot_setup p => mret (slot, p) | _ => fault end).

Definition copy_auth (session_id : bytes) : M auth_err_t server_state_t (Z * auth_pending_auth_t) :=
  on_sessions (
    table ← get;
    slot ← lift (auth_session_table_find_auth table (Some session_id));
    require (negb (slot <? 0)%Z) AUTH_ERR_UNKNOWN_SESSION;;
    entry ← lift (read_slot table (Z.to_nat slot));
    match entry with Slot_auth p => mret (slot, p) | _ => fault end).

(** [err = auth_registry_put(...); if (!err) err = auth_registry_save(...);] *)
Definition persist (p : auth_pending_setup_t) : M auth_err_t server_state_t unit :=
  on_registry (auth_registry_put (Some (ps_device_id p)) (Some (ps_device_pub p)) (Some (ps_role_commitment p)));;
  s ← get;
  on_world (auth_registry_save (sv_registry s)).

(** The registry callback: the candidate, whatever the device id. *)
Definition scan_lookup (candidate_pub candidate_rc : bytes) (have_candidate : bool) : auth_registry_lookup_fn :=
  λ _, if negb have_candidate then Err AUTH_ERR_UNKNOWN_DEVICE else Ok (candidate_pub, candidate_rc).

Definition read_candidate (i : nat) : M auth_err_t server_state_t (bytes * bytes) :=
  on_registry (reg ← get; e ← lift (get_entry reg i); mret (re_device_pub e, re_role_commitment e)).

Section dispatch.
Context {NaCl : Sodium} (cfg : server_config) (d : draws).

Definition dispatch_setup1 (hdr : auth_header_t) (payload out : bytes) : proc :=
  locked Mu (on_sessions auth_session_table_reserve) (λ r,
  match r with
  | Ok slot =>
      if (slot <? 0)%Z then error_reply hdr AUTH_ERR_TOO_MANY_ACTIVE out 0
      else match auth_server_handle_setup1 (hdr_session_id hdr) (hdr_seq hdr) (Some payload) (sc_server_sk cfg)
             (sc_server_pub cfg) (sc_require_pairing_token cfg) (dr_server_nonce d) (dr_setup_challenge d)
             (dr_setup_proof d) (zero_pending_setup, out) with
      | (Ok n, (pending, out')) =>
          locked Mu (activate_or_release (auth_session_table_activate_setup slot (Some pending)) slot)
            (finish hdr out' n)
      | (Err e, (_, out')) => locked Mu (release slot) (then_proc (error_reply hdr e out' 0))
      | (Fault, _) => Crash
      end
  | Err e => error_reply hdr e out 0
  | Fault => Crash
  end).

Definition dispatch_setup3 (hdr : auth_header_t) (payload out : bytes) : proc :=
  locked Mu (copy_setup (hdr_session_id hdr)) (λ r,
  match r with
  | Ok (slot, pending) =>
      match auth_server_handle_setup3 pending (hdr_session_id hdr) (hdr_seq hdr) (Some payload) out with
      | (Ok n, out') =>
          locked Mu (and_then (persist pending) (release slot)) (finish hdr out' n)
      | (Err e, out') => error_reply hdr e out' 0
      | (Fault, _) => Crash
      end
  | Err e => error_reply hdr e out 0
  | Fault => Crash
  end).

(** [try_handle_auth1] after its reservation: the candidates [i .. i + n - 1], then
    the release and the error [last]. *)
Fixpoint auth1_scan (hdr : auth_header_t) (payload : bytes) (slot : Z) (i n : nat) (last : auth_err_t)
    (out : bytes) : proc :=
  match n with
  | O => locked Mu (release slot) (then_proc (error_reply hdr last out 0))
  | S n =>
      locked Mu (read_candidate i) (λ r,
      match r with
      | Ok (pub, rc) =>
          locked Replay_mu (on_replay (zero_pending_auth, out)
            (auth_server_handle_auth1_guarded (hdr_session_id hdr) (hdr_seq hdr) (Some payload)
               (sc_server_sk cfg) (sc_server_pub cfg) (Some (scan_lookup pub rc true))
               (Some (sc_allowed_roles cfg)) (dr_eph d i) (dr_nonce d i) (dr_proof d i))) (λ r,
          match r with
          | Ok (Ok len, (pending, out')) =>
              locked Mu (activate_or_release (auth_session_table_activate_auth slot (Some pending)) slot)
                (finish hdr out' len)
          | Ok (Err e, (_, out')) =>
              if bool_decide (e = AUTH_ERR_PROOF_VERIFY) || bool_decide (e = AUTH_ERR_ROLE_NOT_PERMITTED)
              then auth1_scan hdr payload slot (S i) n e out'
              else locked Mu (release slot) (then_proc (error_reply hdr e out' 0))
          | _ => Crash
          end)
      | _ => Crash
      end)
  end.

(** [try_handle_auth1] and the case AUTH_1 *)
Definition dispatch_auth1 (hdr : auth_header_t) (payload out : bytes) : proc :=
  locked Mu (on_sessions auth_session_table_reserve) (λ r,
  match r with
  | Ok slot =>
      if (slot <? 0)%Z then error_reply hdr AUTH_ERR_TOO_MANY_ACTIVE out 0
      else locked Mu (on_registry (reg ← get; mret (rg_n reg))) (λ r,
           match r with
           | Ok reg_n => auth1_scan hdr payload slot 0 reg_n AUTH_ERR_UNKNOWN_DEVICE out
           | _ => Crash
           end)
  | Err e => error_reply hdr e out 0
  | Fault => Crash
  end).

Definition dispatch_auth3 (hdr : auth_header_t) (payload out : bytes) : proc :=
  locked Mu (copy_auth (hdr_session_id hdr)) (λ r,
  match r with
  | Ok (slot, pending) =>
      match auth_server_handle_auth3 pending (hdr_session_id hdr) (hdr_seq hdr) (Some payload) out with
      | (Fault, _) => Crash
      | (Ok n, out') => locked Mu (release slot) (then_proc (Halt out' n))
      | (Err e, out') => locked Mu (release slot) (then_proc (error_reply hdr e out' 0))
      end
  | Err e => error_reply hdr e out 0
  | Fault => Crash
  end).

Definition dispatch (inp out : bytes) : proc :=
  match auth_header_decode (Some inp) with
  | Ok (hdr, payload) =>
      if bool_decide (hdr_pkt_type hdr = AUTH_PKT_SETUP_1) then dispatch_setup1 hdr payload out
      else if bool_decide (hdr_pkt_type hdr = AUTH_PKT_SETUP_3) then dispatch_setup3 hdr payload out
      else if bool_decide (hdr_pkt_type hdr = AUTH_PKT_AUTH_1) then dispatch_auth1 hdr payload out
      else if bool_decide (hdr_pkt_type hdr = AUTH_PKT_AUTH_3) then dispatch_auth3 hdr payload out
      else error_reply hdr AUTH_ERR_UNKNOWN_PKT_TYPE out 0
  | Err _ => Halt out 0
  | Fault => Crash
  end.
End dispatch.

(** A packet alone. *)
Fixpoint run_proc (p : proc) (s : server_state_t) : option (bytes * nat) * server_state_t :=
  match p with
  | Halt out n => (Some (out, n), s)
  | Crash => (None, s)
  | Locked _ section => let '(p', s') := section s in run_proc p' s'
  end.

(** ** Threads *)
(** A packet of any contents arrives, with any randomness of the right sizes, or
    a thread takes its next mutex. *)
Record draws_ok (d : draws) : Prop := {
  do_server_nonce : is_n 32 (dr_server_nonce d);
  do_challenge : is_n 16 (dr_setup_challenge d);
  do_nonce : ∀ i, is_n 32 (dr_nonce d i)
}.

Inductive sched {NaCl : Sodium} (cfg : server_config) :
    server_state_t * list proc → server_state_t * list proc → Prop :=
  | sched_arrive s pool inp out d :
      draws_ok d → is_n AUTH_MAX_DATAGRAM out →
      sched cfg (s, pool) (s, pool ++ [dispatch cfg d inp out])
  | sched_section s pool i m section :
      pool !! i = Some (Locked m section) →
      sched cfg (s, pool) ((section s).2, <[i := (section s).1]> pool).

(** ** Start *)
(** [main], from [server_state_t S] on: the two files of the state directory, the
    empty tables, the default roles. *)
Definition server_start {NaCl : Sodium} (wide state_dir : bytes) (require_pairing_token : ptr bytes) :
    M auth_err_t world (server_config * server_state_t) := λ w,
  let reg_path := take 511 (state_dir ++ str_bytes "/registry.bin") in
  let sk_path := take 511 (state_dir ++ str_bytes "/server_sk.bin") in
  let sessions := (auth_session_table_init []).2 in
  let cache := (auth_replay_cache_init {| rc_keys := []; rc_n := 0; rc_next_evict := 0 |}).2 in
  match auth_registry_load (Some reg_path) (zero_registry, w) with
  | (Ok _, (reg, w)) =>
      match auth_server_key_load_or_create wide (Some sk_path) (zeros 32, w) with
      | (Ok _, (sk, w)) =>
          (pub ← auth_scalarmult_base sk;
           mret ({| sc_server_sk := sk; sc_server_pub := pub; sc_require_pairing_token := require_pairing_token;
                    sc_allowed_roles := [1%Z; 2%Z] |},
                 {| sv_registry := reg; sv_sessions := sessions; sv_replay_cache := cache; sv_world := w |}), w)
      | (Err e, (_, w)) => (Err e, w)
      | (Fault, (_, w)) => (Fault, w)
      end
  | (Err e, (_, w)) => (Err e, w)
  | (Fault, (_, w)) => (Fault, w)
  end.

(** The configuration and the state that it starts with. *)
Definition server_init {NaCl : Sodium} (wide state_dir : bytes) (require_pairing_token : ptr bytes) (w : world) :
    outcome auth_err_t (server_config * server_state_t) := (server_start wide state_dir require_pairing_token w).1.

(** ** What the handlers establish *)
Definition token_accepted_by (require_pairing_token : ptr bytes) (s1 : auth_setup1_t) : Prop :=
  match require_pairing_token with
  | Some expect => s1_pairing_token_len s1 = length expect ∧ take (length expect) (s1_pairing_token s1) = expect
  | None => True
  end.

Section inversion.
Context {NaCl : Sodium} {HS : SodiumSpec NaCl}.

(** A setup session the server has opened. *)
Definition issued (spub : bytes) (token : ptr bytes) (p : auth_pending_setup_t) : Prop :=
  setup_sizes p ∧ ps_server_pub p = spub ∧ ∃ s1, setup1_wf s1 ∧ token_accepted_by token s1 ∧
    auth_check_point (s1_device_pub s1) = Ok tt ∧ ps_device_id p = s1_device_id s1 ∧
    ps_device_pub p = s1_device_pub s1 ∧ ps_role_commitment p = s1_role_commitment s1.

Lemma handle_setup1_inv sid seq inp ssk spub token sn sc wide pend out n pend' out' :
  setup_sizes pend' →
  auth_server_handle_setup1 sid seq inp ssk spub token sn sc wide (pend, out) = (Ok n, (pend', out')) →
  issued spub token pend'.
Proof.
  unfold auth_server_handle_setup1. intros Hsz H.
  apply bind_ok_inv in H as (buf & s1 & H1 & H). apply deref_ok_inv in H1 as [-> ->].
  apply bind_ok_inv in H as (m & s1 & H1 & H). apply lift_ok_inv in H1 as [H1 ->].
  apply (decode_inv (decode := auth_setup1_decode)) in H1 as [Hw ->].
  apply bind_ok_inv in H as ([] & s1 & H1 & H).
  assert (Ht : token_accepted_by token m ∧ s1 = (pend, out)).
  { destruct token as [t|]; [|by injection H1 as <-]. apply require_ok_inv in H1 as [Hb ->]. bool_to_prop. done. }
  clear H1. destruct Ht as [Ht ->].
  apply bind_ok_inv in H as ([] & s1 & H1 & H). apply lift_ok_inv in H1 as [Hp ->].
  apply bind_ok_inv in H as (u & s1 & H1 & H). apply lift_ok_inv in H1 as [_ ->].
  apply bind_ok_inv in H as (u2 & s1 & H1 & H). injection H1 as <- <-.
  apply bind_ok_inv in H as (p & s1 & H1 & H). apply lift_ok_inv in H1 as [_ ->]. cbv zeta in H.
  apply bind_ok_inv in H as (pl & s1 & H1 & H). apply lift_ok_inv in H1 as [_ ->].
  apply bind_ok_inv in H as (n' & [p1 o1] & H1 & H). cbn [on_out] in H1.
  destruct (auth_packet_build _ _ _ _ _ out) as [o o2]. injection H1 as -> <- <-.
  apply bind_ok_inv in H as ([p2 o3] & s1 & H1 & H). injection H1 as <- <- <-.
  apply bind_ok_inv in H as (packet & s1 & H1 & H). apply lift_ok_inv in H1 as [_ ->].
  cbn in H. injection H as _ <- _. split; [done|].
  unfold cache_setup_response, pending_setup_init. destruct (length packet <=? _); cbn; by eauto 10.
Qed.

Lemma handle_setup3_inv pend sid seq inp out n out' :
  auth_server_handle_setup3 pend sid seq inp out = (Ok n, out') →
  ∃ proof, auth_verify_setup_client proof (ps_device_id pend) (ps_device_pub pend) (ps_server_pub pend)
    (ps_client_nonce pend) (ps_server_nonce pend) (ps_setup_challenge pend) = Ok true.
Proof.
  unfold auth_server_handle_setup3. intros H.
  apply bind_ok_inv in H as (buf & s1 & H1 & H). apply deref_ok_inv in H1 as [-> ->].
  apply bind_ok_inv in H as ([] & s1 & H1 & H). apply require_ok_inv in H1 as [_ ->].
  apply bind_ok_inv in H as (s3 & s1 & H1 & H). apply lift_ok_inv in H1 as [_ ->].
  apply bind_ok_inv in H as ([] & s1 & H1 & H). apply lift_ok_inv in H1 as [H1 ->].
  apply check_call_inv in H1. by eexists.
Qed.
End inversion.

(** ** The invariant of the shared state *)
Section invariant.
Context {NaCl : Sodium} {HS : SodiumSpec NaCl} (cfg : server_config) (reg0 : auth_registry_t).

(** The device was in the registry at the start, or has proved its key in a setup
    session of this server. *)
Definition enrolled_device (pub rc : bytes) : Prop :=
  (∃ e, e ∈ devices reg0 ∧ re_device_pub e = pub ∧ re_role_commitment e = rc) ∨
  (∃ p proof, issued (sc_server_pub cfg) (sc_require_pairing_token cfg) p ∧
     auth_verify_setup_client proof (ps_device_id p) (ps_device_pub p) (ps_server_pub p) (ps_client_nonce p)
       (ps_server_nonce p) (ps_setup_challenge p) = Ok true ∧
     ps_device_pub p = pub ∧ ps_role_commitment p = rc).

(** The session belongs to an enrolled device that proved everything in AUTH_1. *)
Definition authenticated (p : auth_pending_auth_t) : Prop :=
  ∃ a1 C, auth1_wf a1 ∧ enrolled_device (pa_device_pub p) C ∧ pa_pid p = a1_pid a1 ∧
    auth1_proved a1 (sc_server_pub cfg) (pa_device_pub p) C (sc_allowed_roles cfg).

Definition slot_ok (s : auth_session_slot_t) : Prop :=
  match s with
  | Slot_setup p => issued (sc_server_pub cfg) (sc_require_pairing_token cfg) p
  | Slot_auth p => authenticated p
  | _ => True
  end.

Definition device_ok (e : auth_registry_entry_t) : Prop := enrolled_device (re_device_pub e) (re_role_commitment e).

Record server_inv (s : server_state_t) : Prop := {
  si_registry : registry_wf (sv_registry s);
  si_devices : Forall device_ok (devices (sv_registry s));
  si_sessions : table_wf (sv_sessions s);
  si_slots : Forall slot_ok (sv_sessions s);
  si_cache : cache_wf (sv_replay_cache s)
}.

Definition reserved (s : server_state_t) (i : nat) : Prop := sv_sessions s !! i = Some Slot_reserved.

(** What a thread that holds the reservation [h] may leave reserved. *)
Definition accounts (h h' : option nat) (s s' : server_state_t) : Prop :=
  ∀ i, reserved s' i → h' = Some i ∨ (reserved s i ∧ h ≠ Some i).

(** A thread that keeps the invariant, never leaves an object, gives up or uses the
    reservation [h] it holds, and knows that there are at least [lb] devices. *)
#[warnings="-register-all"]
Inductive safe_proc : option nat → nat → proc → Prop :=
  | safe_halt lb out n : length out = AUTH_MAX_DATAGRAM → n ≤ length out → safe_proc None lb (Halt out n)
  | safe_locked h lb m section :
      (∀ s, server_inv s → lb ≤ rg_n (sv_registry s) →
         server_inv (section s).2 ∧ rg_n (sv_registry s) ≤ rg_n (sv_registry (section s).2) ∧
         ∃ h' lb', lb' ≤ rg_n (sv_registry (section s).2) ∧ safe_proc h' lb' (section s).1 ∧
           accounts h h' s (section s).2) →
      safe_proc h lb (Locked m section).

Lemma locked_safe {A} h lb m (section : M auth_err_t server_state_t A) k :
  (∀ s, server_inv s → lb ≤ rg_n (sv_registry s) → let '(o, s') := section s in
     server_inv s' ∧ rg_n (sv_registry s) ≤ rg_n (sv_registry s') ∧
     ∃ h' lb', lb' ≤ rg_n (sv_registry s') ∧ safe_proc h' lb' (k o) ∧ accounts h h' s s') →
  safe_proc h lb (locked m section k).
Proof.
  intros H. apply safe_locked. intros s Hs Hlb. specialize (H s Hs Hlb). by destruct (section s) as [o s'].
Qed.

Lemma accounts_same h s s' : sv_sessions s' = sv_sessions s → accounts h h s s'.
Proof.
  intros E i Hi. unfold reserved in *. rewrite E in Hi.
  destruct (decide (h = Some i)); [by left|by right].
Qed.

Lemma inv_sessions s t :
  server_inv s → table_wf t → Forall slot_ok t →
  server_inv {| sv_registry := sv_registry s; sv_sessions := t; sv_replay_cache := sv_replay_cache s; sv_world := sv_world s |}.
Proof. intros [] ? ?. by constructor. Qed.

Lemma inv_insert s i e :
  server_inv s → slot_ok e →
  server_inv {| sv_registry := sv_registry s; sv_sessions := <[i := e]> (sv_sessions s);
                sv_replay_cache := sv_replay_cache s; sv_world := sv_world s |}.
Proof. intros Hs He. pose proof Hs as []. apply inv_sessions; [done|by apply insert_wf|by apply Forall_insert]. Qed.

Lemma accounts_insert h s i e :
  (h = None ∨ h = Some i) → e ≠ Slot_reserved →
  accounts h None s {| sv_registry := sv_registry s; sv_sessions := <[i := e]> (sv_sessions s);
                       sv_replay_cache := sv_replay_cache s; sv_world := sv_world s |}.
Proof.
  intros Hh He j Hj. unfold reserved in Hj. cbn [sv_sessions] in Hj. right.
  destruct (decide (i = j)) as [->|Hn].
  - apply list_lookup_insert_Some in Hj as [(_ & -> & _)|[? _]]; done.
  - rewrite list_lookup_insert_ne in Hj by done. split; [done|]. destruct Hh as [-> | ->]; congruence.
Qed.

(** ** The sections *)
Lemma strerror_short e : length (str_bytes (auth_strerror e)) ≤ 100.
Proof. destruct e; apply Nat.leb_le; reflexivity. Qed.

Lemma error_reply_safe hdr e out n :
  header_wf hdr → length out = AUTH_MAX_DATAGRAM → safe_proc None 0 (error_reply hdr e out n).
Proof.
  intros Hh Hl. unfold error_reply. pose proof (strerror_short e) as Hm.
  destruct Hh as (_ & Hsid & Hseq).
  assert (Hb : AUTH_HEADER_LEN + (2 + length (str_bytes (auth_strerror e))) ≤ length out).
  { rewrite Hl. assert (AUTH_HEADER_LEN + (2 + 100) ≤ AUTH_MAX_DATAGRAM) by (apply Nat.leb_le; reflexivity). lia. }
  rewrite packet_build_error_run; [|done|done| |done].
  - constructor; rewrite length_written; try done; rewrite length_wire_packet; try done;
      rewrite length_app, length_store_le; done.
  - assert (100 ≤ AUTH_MAX_PAYLOAD - 2) by (apply Nat.leb_le; reflexivity). lia.
Qed.

Lemma finish_safe_proc {A} hdr out n (o : outcome auth_err_t A) :
  header_wf hdr → length out = AUTH_MAX_DATAGRAM → n ≤ length out → o ≠ Fault → safe_proc None 0 (finish hdr out n o).
Proof. intros Hh Hl Hn Ho. destruct o; cbn [finish]; [by constructor|by apply error_reply_safe|done]. Qed.

Lemma reserve_safe k :
  safe_proc None 0 (k (Ok (-1)%Z)) →
  (∀ i, i < AUTH_SESSION_TABLE_CAPACITY → safe_proc (Some i) 0 (k (Ok (Z.of_nat i)))) →
  safe_proc None 0 (locked Mu (on_sessions auth_session_table_reserve) k).
Proof.
  intros Hfull Hi. apply locked_safe. intros s Hs _. unfold on_sessions. pose proof Hs as [_ _ Ht _ _].
  destruct (reserve_run _ Ht) as [[-> _]|(i & Hfree & _ & ->)].
  - split; [by apply inv_sessions; destruct Hs|]. split; [done|].
    exists None, 0. split; [lia|]. split; [done|]. by apply accounts_same.
  - split; [by apply inv_insert|]. split; [done|]. exists (Some i), 0. split; [lia|].
    split; [apply Hi; by apply lookup_in_table in Hfree|].
    intros j Hj. unfold reserved in *. cbn [sv_sessions] in Hj. destruct (decide (i = j)) as [->|Hn]; [by left|].
    rewrite list_lookup_insert_ne in Hj by done. by right.
Qed.

Lemma release_safe h i lb rest :
  (h = None ∨ h = Some i) → i < AUTH_SESSION_TABLE_CAPACITY → safe_proc None 0 rest →
  safe_proc h lb (locked Mu (release (Z.of_nat i)) (then_proc rest)).
Proof.
  intros Hh Hi Hr. apply locked_safe. intros s Hs _. unfold release, on_sessions, ignore. pose proof Hs as [_ _ Ht _ _].
  rewrite release_run by done. split; [by apply inv_insert|]. split; [done|]. exists None, 0. split; [lia|].
  split; [done|]. by apply accounts_insert.
Qed.

Lemma activate_safe i e act lb k :
  (∀ t, act t = activate (Z.of_nat i) e t) → slot_ok e → e ≠ Slot_reserved → i < AUTH_SESSION_TABLE_CAPACITY →
  (∀ o, o ≠ Fault → safe_proc None 0 (k o)) →
  safe_proc (Some i) lb (locked Mu (activate_or_release act (Z.of_nat i)) k).
Proof.
  intros Ha He Hne Hi Hk. apply locked_safe. intros s Hs _. unfold activate_or_release, on_sessions, on_error.
  pose proof Hs as [_ _ Ht _ _]. rewrite Ha.
  destruct (activate_cases (sv_sessions s) (Z.of_nat i) e Ht) as [(j & Ej & Hj & ->)|[_ ->]].
  - apply Nat2Z.inj in Ej as <-. split; [by apply inv_insert|]. split; [done|]. exists None, 0. split; [lia|].
    split; [by apply Hk|]. apply accounts_insert; auto.
  - rewrite bind_run. unfold ignore. rewrite release_run by done. cbn [fail].
    split; [by apply inv_insert|]. split; [done|]. exists None, 0. split; [lia|].
    split; [by apply Hk|]. apply accounts_insert; auto.
Qed.

(** The copy of a pending record. *)
Lemma copy_setup_run sid s :
  server_inv s →
  (∃ i p, copy_setup sid s = (Ok (Z.of_nat i, p), s) ∧ i < AUTH_SESSION_TABLE_CAPACITY ∧
     sv_sessions s !! i = Some (Slot_setup p) ∧ ps_session_id p = sid) ∨
  copy_setup sid s = (Err AUTH_ERR_UNKNOWN_SESSION, s).
Proof.
  intros [_ _ Ht _ _]. unfold copy_setup, on_sessions. pstep.
  destruct (find_setup_run (sv_sessions s) sid Ht) as (r & Er & Hr). pstep by Er.
  apply first_index_cases in Hr as [[-> Hf]|(i & e & -> & He & Hp & _)].
  - right. cbn. by destruct s.
  - left. rewrite (proj2 (Z.ltb_ge _ _)), Nat2Z.id by lia. cbn [negb]. pstep. pstep by (read_slot_run _ _ _ He).
    destruct e as [| |p|]; try discriminate Hp. exists i, p. cbn. unfold is_setup in Hp. bool_to_prop.
    split_and!; [by destruct s|by apply lookup_in_table in He|done|done].
Qed.

Lemma copy_auth_run sid s :
  server_inv s →
  (∃ i p, copy_auth sid s = (Ok (Z.of_nat i, p), s) ∧ i < AUTH_SESSION_TABLE_CAPACITY ∧
     sv_sessions s !! i = Some (Slot_auth p) ∧ pa_session_id p = sid) ∨
  copy_auth sid s = (Err AUTH_ERR_UNKNOWN_SESSION, s).
Proof.
  intros [_ _ Ht _ _]. unfold copy_auth, on_sessions. pstep.
  destruct (find_auth_run (sv_sessions s) sid Ht) as (r & Er & Hr). pstep by Er.
  apply first_index_cases in Hr as [[-> Hf]|(i & e & -> & He & Hp & _)].
  - right. cbn. by destruct s.
  - left. rewrite (proj2 (Z.ltb_ge _ _)), Nat2Z.id by lia. cbn [negb]. pstep. pstep by (read_slot_run _ _ _ He).
    destruct e as [| | |p]; try discriminate Hp. exists i, p. cbn. unfold is_auth in Hp. bool_to_prop.
    split_and!; [by destruct s|by apply lookup_in_table in He|done|done].
Qed.

(** ** The registry *)
Lemma length_devices reg : registry_wf reg → length (devices reg) = rg_n reg.
Proof. intros [Hs Hn _ _]. unfold devices. rewrite length_take. lia. Qed.

Lemma registry_save_no_fault reg w : registry_wf reg → (auth_registry_save reg w).1 ≠ Fault.
Proof.
  intros Hw. destruct (decide (rg_path reg = [])) as [E|E].
  - unfold auth_registry_save. by rewrite bool_decide_true by done.
  - rewrite registry_save_run by done. pose proof (write_atomic (rg_path reg) (registry_image (devices reg)) w) as H.
    destruct (atomic_write _ _ w) as [o w']. apply H.
Qed.

Lemma persist_run p s :
  server_inv s → setup_sizes p → enrolled_device (ps_device_pub p) (ps_role_commitment p) →
  let '(o, s') := persist p s in
  o ≠ Fault ∧ server_inv s' ∧ rg_n (sv_registry s) ≤ rg_n (sv_registry s') ∧ sv_sessions s' = sv_sessions s.
Proof.
  intros [Hr Hd Ht Hsl Hc] [] He. unfold persist. rewrite bind_run. unfold on_registry at 1.
  pose proof (registry_put_cases (sv_registry s) (ps_device_id p) (ps_device_pub p) (ps_role_commitment p) Hr
    ltac:(done) ltac:(done) ltac:(done)) as H. cbv zeta in H.
  destruct (auth_registry_put _ _ _ (sv_registry s)) as [o reg']. destruct H as (Hw' & _ & H).
  assert (Hdev : Forall device_ok (devices reg') ∧ rg_n (sv_registry s) ≤ rg_n reg').
  { pose proof (length_devices _ Hr) as L1. pose proof (length_devices _ Hw') as L2.
    destruct H as [(_ & i & e & _ & E)|[(_ & _ & E)|(_ & -> & _)]]; [| |done]; rewrite E in *.
    - split; [by apply Forall_insert|]. rewrite length_insert in L2. lia.
    - split; [apply Forall_app; split; [done|]; by apply list.Forall_cons|]. rewrite length_app in L2. lia. }
  destruct Hdev as [Hd' Hn']. destruct o as [u|e|].
  - rewrite bind_run. cbn [get]. unfold on_world. cbn [sv_registry sv_world].
    pose proof (registry_save_no_fault reg' (sv_world s) Hw') as Hf.
    destruct (auth_registry_save reg' (sv_world s)) as [o w']. by split_and!; try constructor.
  - by split_and!; try constructor.
  - destruct H as [[? _]|[[? _]|[? _]]]; done.
Qed.

Lemma persist_safe p i k :
  setup_sizes p → enrolled_device (ps_device_pub p) (ps_role_commitment p) → i < AUTH_SESSION_TABLE_CAPACITY →
  (∀ o, o ≠ Fault → safe_proc None 0 (k o)) →
  safe_proc None 0 (locked Mu (and_then (persist p) (release (Z.of_nat i))) k).
Proof.
  intros Hp He Hi Hk. apply locked_safe. intros s Hs _. unfold and_then.
  pose proof (persist_run p s Hs Hp He) as H. destruct (persist p s) as [o s1]. destruct H as (Ho & Hs1 & Hn & Et).
  assert (E : (release (Z.of_nat i);; lift o) s1 =
    (o, {| sv_registry := sv_registry s1; sv_sessions := <[i := Slot_free]> (sv_sessions s1);
           sv_replay_cache := sv_replay_cache s1; sv_world := sv_world s1 |})).
  { rewrite bind_run. unfold release, on_sessions, ignore. by rewrite release_run by (apply Hs1 || done). }
  destruct o as [u|e|]; [| |done]; rewrite E; (split; [by apply inv_insert|]); (split; [done|]);
    exists None, 0; (split; [lia|]); (split; [by apply Hk|]); intros j Hj;
    apply (accounts_insert None _ _ _ (or_introl eq_refl)) in Hj as [?|Hj]; try done; right;
    unfold reserved in *; by rewrite Et in Hj.
Qed.

(** ** Dispatch *)
Context (Hpub : is_n 32 (sc_server_pub cfg)) (Hroles : Forall is_u64 (sc_allowed_roles cfg)) (d : draws) (Hd : draws_ok d).

Lemma header_ids hdr : header_wf hdr → is_n 16 (hdr_session_id hdr) ∧ is_u32 (hdr_seq hdr).
Proof. by intros (_ & H1 & H2). Qed.

Lemma zero_setup_sizes : setup_sizes zero_pending_setup.
Proof. constructor; try apply length_zeros. apply Nat.le_0_l. Qed.

Lemma zero_auth_sizes : auth_sizes zero_pending_auth.
Proof. constructor; try apply length_zeros. apply Nat.le_0_l. Qed.

Lemma dispatch_setup1_safe hdr payload out :
  header_wf hdr → is_n AUTH_MAX_DATAGRAM out → safe_proc None 0 (dispatch_setup1 cfg d hdr payload out).
Proof.
  intros Hh Hl. destruct (header_ids hdr Hh) as [Hsid Hseq]. destruct Hd as [Hd1 Hd2 _].
  unfold dispatch_setup1. apply reserve_safe; [by apply error_reply_safe|]. intros i Hi.
  rewrite (proj2 (Z.ltb_ge _ _)) by lia.
  destruct (handle_setup1_safe AUTH_MAX_DATAGRAM (hdr_session_id hdr) (hdr_seq hdr) (Some payload)
    (sc_server_sk cfg) (sc_server_pub cfg) (sc_require_pairing_token cfg) _ _ (dr_setup_proof d)
    Hsid Hseq Hpub Hd1 Hd2 (zero_pending_setup, out)) as [Hg [Hsz Hl']]; [by split; [apply zero_setup_sizes|]|].
  destruct (auth_server_handle_setup1 _ _ _ _ _ _ _ _ _ _) as [[n|e|] [p out']] eqn:E; cbn [fst snd good] in *; [| |done].
  - apply (activate_safe i (Slot_setup p)); [done|by eapply handle_setup1_inv|done|done|].
    intros o Ho. apply finish_safe_proc; [done|done|lia|done].
  - apply release_safe; [by right|done|]. by apply error_reply_safe.
Qed.

Lemma dispatch_setup3_safe hdr payload out :
  header_wf hdr → is_n AUTH_MAX_DATAGRAM out → safe_proc None 0 (dispatch_setup3 hdr payload out).
Proof.
  intros Hh Hl. destruct (header_ids hdr Hh) as [Hsid Hseq].
  unfold dispatch_setup3. apply locked_safe. intros s Hs _.
  destruct (copy_setup_run (hdr_session_id hdr) s Hs) as [(i & p & -> & Hi & Hp & _)| ->];
    (split; [done|]); (split; [done|]); exists None, 0; (split; [lia|]); (split; [|by apply accounts_same]);
    [|by apply error_reply_safe].
  assert (Hiss : issued (sc_server_pub cfg) (sc_require_pairing_token cfg) p).
  { destruct Hs as [_ _ _ Hsl _]. rewrite list.Forall_lookup in Hsl. exact (Hsl _ _ Hp). }
  pose proof Hiss as (Hsz & _).
  destruct (handle_setup3_safe AUTH_MAX_DATAGRAM p (hdr_session_id hdr) (hdr_seq hdr) (Some payload)
    Hsz Hsid Hseq out Hl) as [Hg Hl'].
  destruct (auth_server_handle_setup3 _ _ _ _ _) as [[n|e|] out'] eqn:E; cbn [fst snd good] in *; [| |done].
  - apply handle_setup3_inv in E as [proof Hv]. apply persist_safe; [done| |done|].
    + right. by exists p, proof.
    + intros o Ho. apply finish_safe_proc; [done|done|lia|done].
  - by apply error_reply_safe.
Qed.

Lemma dispatch_auth3_safe hdr payload out :
  header_wf hdr → is_n AUTH_MAX_DATAGRAM out → safe_proc None 0 (dispatch_auth3 hdr payload out).
Proof.
  intros Hh Hl. destruct (header_ids hdr Hh) as [Hsid Hseq].
  unfold dispatch_auth3. apply locked_safe. intros s Hs _.
  destruct (copy_auth_run (hdr_session_id hdr) s Hs) as [(i & p & -> & Hi & Hp & _)| ->];
    (split; [done|]); (split; [done|]); exists None, 0; (split; [lia|]); (split; [|by apply accounts_same]);
    [|by apply error_reply_safe].
  destruct (handle_auth3_safe AUTH_MAX_DATAGRAM p (hdr_session_id hdr) (hdr_seq hdr) (Some payload)
    Hsid Hseq out Hl) as [Hg Hl'].
  destruct (auth_server_handle_auth3 _ _ _ _ _) as [[n|e|] out'] eqn:E; cbn [fst snd good] in *; [| |done].
  - apply release_safe; [by left|done|]. constructor; [done|lia].
  - apply release_safe; [by left|done|]. by apply error_reply_safe.
Qed.

(** A candidate. *)
Lemma read_candidate_run i s :
  server_inv s → i < rg_n (sv_registry s) →
  ∃ pub rc, read_candidate i s = (Ok (pub, rc), s) ∧ is_n 32 pub ∧ is_n 32 rc ∧ enrolled_device pub rc.
Proof.
  intros [[Hs Hn Hdw _] Hdev _ _ _] Hi. unfold read_candidate, on_registry. pstep.
  destruct (lookup_lt_is_Some_2 (rg_entries (sv_registry s)) i) as [e He]; [lia|].
  pstep by (get_entry_run _ _ _ He). exists (re_device_pub e), (re_role_commitment e).
  rewrite list.Forall_lookup in Hdw, Hdev. destruct (Hdw _ _ He). split; [by destruct s|]. split_and!; [done|done|].
  apply (Hdev i). unfold devices. by rewrite lookup_take_lt.
Qed.

Lemma auth1_scan_safe hdr payload slot i n last out :
  header_wf hdr → is_n AUTH_MAX_DATAGRAM out → slot < AUTH_SESSION_TABLE_CAPACITY →
  safe_proc (Some slot) (i + n) (auth1_scan cfg d hdr payload (Z.of_nat slot) i n last out).
Proof.
  intros Hh. destruct (header_ids hdr Hh) as [Hsid Hseq]. revert i last out.
  induction n as [|n IH]; intros i last out Hl Hslot; cbn [auth1_scan].
  { apply release_safe; [by right|done|by apply error_reply_safe]. }
  apply locked_safe. intros s Hs Hlb.
  destruct (read_candidate_run i s Hs) as (pub & rc & -> & H1 & H2 & He); [lia|].
  split; [done|]. split; [done|]. exists (Some slot), (i + S n). split; [done|].
  split; [|by apply accounts_same]. clear s Hs Hlb. apply locked_safe. intros s Hs Hlb.
  unfold on_replay. destruct Hd as [_ _ Hd3]. pose proof Hs as [_ _ _ _ Hc].
  assert (Hf : lookup_sizes (scan_lookup pub rc true)) by done.
  destruct (guarded_safe AUTH_MAX_DATAGRAM (hdr_session_id hdr) (hdr_seq hdr) (Some payload) (sc_server_sk cfg)
    (sc_server_pub cfg) (scan_lookup pub rc true) (sc_allowed_roles cfg) (dr_eph d i) (dr_nonce d i) (dr_proof d i)
    Hsid Hseq Hpub (Hd3 i) Hf Hroles (sv_replay_cache s, (zero_pending_auth, out)))
    as [Hg [Hc' [_ Hl']]]; [by split; [|split; [apply zero_auth_sizes|]]|].
  destruct (auth_server_handle_auth1_guarded _ _ _ _ _ _ _ _ _ _ _) as [o [c' [p out']]] eqn:E.
  cbn [fst snd] in *.
  assert (Hs' : server_inv {| sv_registry := sv_registry s; sv_sessions := sv_sessions s;
    sv_replay_cache := c'; sv_world := sv_world s |}) by (destruct Hs; by constructor).
  split; [done|]. split; [done|]. exists (Some slot), (i + S n). split; [done|].
  split; [|by apply accounts_same].
  destruct o as [len|e|]; cbn [good] in Hg; [| |done].
  - apply (activate_safe slot (Slot_auth p)); [done| |done|done|].
    + apply guarded_cases in E as (_ & a1 & _ & Hw & _ & _ & E); [|done].
      apply handle_auth1_inv in E as (a1' & dp & es & sp & k & packet & Hw' & Ei & Hck & _ & ->).
      apply auth1_checks_inv in Hck as (C & Hlk & Hp); [|done..]. injection Hlk as <- <-.
      exists a1', rc. done.
    + intros o Ho. apply finish_safe_proc; [done|done|lia|done].
  - destruct (_ || _).
    + replace (i + S n) with (S i + n) by lia. by apply IH.
    + apply release_safe; [by right|done|by apply error_reply_safe].
Qed.

Lemma dispatch_auth1_safe hdr payload out :
  header_wf hdr → is_n AUTH_MAX_DATAGRAM out → safe_proc None 0 (dispatch_auth1 cfg d hdr payload out).
Proof.
  intros Hh Hl. unfold dispatch_auth1. apply reserve_safe; [by apply error_reply_safe|]. intros i Hi.
  rewrite (proj2 (Z.ltb_ge _ _)) by lia. apply locked_safe. intros s Hs _. unfold on_registry. pstep. cbn [mret M_ret].
  split; [by destruct s|]. split; [done|]. exists (Some i), (rg_n (sv_registry s)). split; [done|].
  split; [by apply (auth1_scan_safe hdr payload i 0)|by apply accounts_same].
Qed.

Lemma dispatch_safe inp out : is_n AUTH_MAX_DATAGRAM out → safe_proc None 0 (dispatch cfg d inp out).
Proof.
  intros Hl. unfold dispatch. pose proof (header_decode_good inp) as Hg.
  destruct (auth_header_decode (Some inp)) as [[hdr payload]|e|]; [|constructor; [done|lia]|done]. cbn in Hg.
  repeat case_bool_decide; [by apply dispatch_setup1_safe|by apply dispatch_setup3_safe|by apply dispatch_auth1_safe
    |by apply dispatch_auth3_safe|by apply error_reply_safe].
Qed.
End invariant.

(** ** Any interleaving *)
Section pool.
Context {NaCl : Sodium} {HS : SodiumSpec NaCl} (cfg : server_config) (reg0 : auth_registry_t).
Context (Hpub : is_n 32 (sc_server_pub cfg)) (Hroles : Forall is_u64 (sc_allowed_roles cfg)).

(** Every thread is safe with a claim, and every reserved slot is claimed. *)
Record pool_ok (c : server_state_t * list proc) : Prop := {
  po_inv : server_inv cfg reg0 c.1;
  po_claims : ∃ claims : list (option nat * nat),
    Forall2 (λ hl p, safe_proc cfg reg0 hl.1 hl.2 p ∧ hl.2 ≤ rg_n (sv_registry c.1)) claims c.2 ∧
    ∀ i, reserved c.1 i → ∃ hl, hl ∈ claims ∧ hl.1 = Some i
}.

Lemma sched_ok c c' : pool_ok c → sched cfg c c' → pool_ok c'.
Proof.
  intros [Hinv (claims & Hcl & Hres)] H. destruct H as [s pool inp out d Hd Hout|s pool i m section Hi]; cbn [fst snd] in *.
  - split; [done|]. exists (claims ++ [(None, 0)]). split.
    + apply Forall2_app; [done|]. constructor; [|constructor]. split; [by apply dispatch_safe|cbn; lia].
    + intros j Hj. destruct (Hres j Hj) as (hl & Hin & E). exists hl. split; [|done]. apply elem_of_app. by left.
  - destruct (Forall2_lookup_r _ _ _ _ _ Hcl Hi) as ([h lb] & Hc & [Hs Hlb]). cbn [fst snd] in *.
    inversion Hs as [|h' lb' m' sec' Hsec]; subst.
    destruct (Hsec s Hinv Hlb) as (Hinv' & Hn & h' & lb' & Hlb' & Hs' & Hacc).
    split; [done|]. cbn [fst snd]. exists (<[i := (h', lb')]> claims). split.
    + apply Forall2_insert; [|by split]. apply (list.Forall2_impl _ _ _ _ Hcl). intros hl p [? ?]. split; [done|]. cbn. lia.
    + pose proof (lookup_lt_Some _ _ _ Hc) as Hlt. intros j Hj. destruct (Hacc j Hj) as [->|[Hr Hne]].
      * exists (Some j, lb'). split; [|done]. apply (list_elem_of_lookup_2 _ i). by apply list_lookup_insert_eq.
      * destruct (Hres j Hr) as (hl & Hin & E). exists hl. split; [|done].
        apply list_elem_of_lookup in Hin as [k Hk]. destruct (decide (i = k)) as [->|Hik].
        -- rewrite Hc in Hk. injection Hk as <-. by destruct Hne.
        -- apply (list_elem_of_lookup_2 _ k). by rewrite list_lookup_insert_ne.
Qed.

Lemma star_sched_ok c c' : star (sched cfg) c c' → pool_ok c → pool_ok c'.
Proof. apply star_invariant. intros c1 c2. apply sched_ok. Qed.
End pool.

(** The state after [main] has started. *)
Lemma server_init_ok {NaCl : Sodium} {HS : SodiumSpec NaCl} wide dir token w cfg s0 :
  server_init wide dir token w = Ok (cfg, s0) →
  is_n 32 (sc_server_pub cfg) ∧ Forall is_u64 (sc_allowed_roles cfg) ∧ pool_ok cfg (sv_registry s0) (s0, []).
Proof.
  unfold server_init, server_start. cbv zeta. pose proof (registry_load_exact_spec (take 511 (dir ++ str_bytes "/registry.bin")) zero_registry w) as Hl.
  destruct (auth_registry_load _ _) as [[u|e|] [reg w1]]; [|done..]. destruct Hl as (_ & Hw & _).
  destruct (auth_server_key_load_or_create _ _ _) as [[u2|e|] [sk w2]]; [|done..]. cbn [fst]. intros H.
  pose proof (scalarmult_base_good sk) as Hg. apply outcome_bind_ok_inv in H as (pub & E & H). rewrite E in Hg.
  injection H as <- <-. split; [done|]. split.
  { repeat (apply list.Forall_cons; split; [concrete_range|]). constructor. }
  assert (Hfree : Forall (λ s, s = Slot_free) (auth_session_table_init []).2) by by apply Forall_replicate.
  split.
  - constructor; cbn [fst sv_registry sv_sessions sv_replay_cache]; [done| |done| |].
    + apply list.Forall_forall. intros e He. left. by exists e.
    + apply (list.Forall_impl _ _ _ Hfree). by intros s ->.
    + exact (proj1 (proj2 (init_refines {| rc_keys := []; rc_n := 0; rc_next_evict := 0 |}))).
  - exists []. split; [constructor|]. cbn [fst]. intros i Hi. unfold reserved in Hi. cbn [sv_sessions] in Hi.
    rewrite list.Forall_lookup in Hfree. by specialize (Hfree _ _ Hi).
Qed.

(** C4: the server's threads are safe under any interleaving of any packets: from
    a start on any files, no thread ever leaves an object, the registry, the
    session table and the replay cache stay well-formed, every finished thread
    leaves a reply inside its buffer, and no reservation leaks: a slot is RESERVED
    only while some thread is still at work, so none is when all are done. *)
Theorem server_threads_safe {NaCl : Sodium} {HS : SodiumSpec NaCl} wide dir token w cfg s0 s pool :
  server_init wide dir token w = Ok (cfg, s0) →
  star (sched cfg) (s0, []) (s, pool) →
  registry_wf (sv_registry s) ∧ table_wf (sv_sessions s) ∧ cache_wf (sv_replay_cache s) ∧
  Forall (λ p, match p with Crash => False | Halt out n => n ≤ length out | Locked _ _ => True end) pool ∧
  ((∃ i, sv_sessions s !! i = Some Slot_reserved) → ∃ i m section, pool !! i = Some (Locked m section)).
Proof.
  intros H0 H. destruct (server_init_ok _ _ _ _ _ _ H0) as (Hp & Hr & Hok).
  destruct (star_sched_ok _ _ Hp Hr _ _ H Hok) as [[H1 H2 H3 H4 H5] (claims & Hcl & Hres)]. cbn [fst snd] in *.
  split_and!; [done..| |].
  - apply list.Forall_lookup. intros i p Hi. destruct (Forall2_lookup_r _ _ _ _ _ Hcl Hi) as (hl & _ & [Hs _]).
    by inversion Hs.
  - intros [i Hi]. destruct (Hres i Hi) as ([h lb] & Hin & E). apply list_elem_of_lookup in Hin as [k Hk].
    destruct (Forall2_lookup_l _ _ _ _ _ Hcl Hk) as (p & Hkp & [Hs _]). cbn [fst] in *. subst h.
    inversion Hs; subst. by exists k, m, section.
Qed.

(** C3: the server authenticates under any interleaving of any packets: every
    authenticated session in the table belongs to a device key that proved itself
    in AUTH_1, with the pseudonym, the rerandomized commitment and an allowed
    role, and whose registration was in the registry at the start or was added by
    a setup session of this server, with the required pairing token, whose
    SETUP_3 proof verified; and the registry holds only such devices. *)
Theorem server_sessions_authenticated {NaCl : Sodium} {HS : SodiumSpec NaCl} wide dir token w cfg s0 s pool :
  server_init wide dir token w = Ok (cfg, s0) →
  star (sched cfg) (s0, []) (s, pool) →
  (∀ i p, sv_sessions s !! i = Some (Slot_auth p) → authenticated cfg (sv_registry s0) p) ∧
  (∀ i p, sv_sessions s !! i = Some (Slot_setup p) → issued (sc_server_pub cfg) (sc_require_pairing_token cfg) p) ∧
  (∀ e, e ∈ devices (sv_registry s) →
     enrolled_device cfg (sv_registry s0) (re_device_pub e) (re_role_commitment e)).
Proof.
  intros H0 H. destruct (server_init_ok _ _ _ _ _ _ H0) as (Hp & Hr & Hok).
  destruct (star_sched_ok _ _ Hp Hr _ _ H Hok) as [[H1 H2 H3 H4 H5] _]. cbn [fst snd] in *.
  rewrite list.Forall_lookup in H4. rewrite list.Forall_forall in H2.
  split; [|split]; [intros i p Hi; exact (H4 _ _ Hi)..|]. intros e He. by apply H2.
Qed.

(** *** A concrete run *)
Definition sample_start : outcome auth_err_t (server_config * server_state_t) :=
  server_init (NaCl := Toy.sodium) (store_le 64 4) (str_bytes "d") None sample_world_2.

Definition sample_draws : draws :=
  {| dr_server_nonce := replicate 32 Byte.x0a; dr_setup_challenge := replicate 16 Byte.x0b;
     dr_setup_proof := store_le 64 9; dr_eph := λ _, store_le 64 11; dr_nonce := λ _, replicate 32 Byte.x0c;
     dr_proof := λ _, store_le 64 13 |}.

Lemma sample_draws_ok : draws_ok sample_draws.
Proof. constructor; intros; reflexivity. Qed.

(** The events of a schedule, as a program. *)
Inductive event := Arrive (inp : bytes) (d : draws) | Run (i : nat).

Definition sched_event {NaCl : Sodium} (cfg : server_config) (e : event) (c : server_state_t * list proc) :
    option (server_state_t * list proc) :=
  match e with
  | Arrive inp d => Some (c.1, c.2 ++ [dispatch cfg d inp (zeros AUTH_MAX_DATAGRAM)])
  | Run i =>
      match c.2 !! i with
      | Some (Locked _ section) => let r := section c.1 in Some (r.2, <[i := r.1]> c.2)
      | _ => None
      end
  end.

Fixpoint sched_run {NaCl : Sodium} (cfg : server_config) (es : list event) (c : server_state_t * list proc) :
    option (server_state_t * list proc) :=
  match es with
  | [] => Some c
  | e :: es => match sched_event cfg e c with Some c' => sched_run cfg es c' | None => None end
  end.

Lemma sched_run_star {NaCl : Sodium} cfg es c c' :
  Forall (λ e, match e with Arrive _ d => draws_ok d | Run _ => True end) es →
  sched_run cfg es c = Some c' → star (sched cfg) c c'.
Proof.
  intros Hes. revert c. induction Hes as [|e es He _ IH]; intros c H; cbn [sched_run] in H.
  { injection H as <-. constructor. }
  destruct (sched_event cfg e c) as [c1|] eqn:E; [|done]. eapply star_step; [|by apply IH].
  destruct c as [s pool], e as [inp d|i]; cbn [sched_event fst snd] in E.
  - injection E as <-. constructor; [done|]. apply length_zeros.
  - destruct (pool !! i) as [[| |m section]|] eqn:Ei; try done. injection E as <-. by eapply sched_section.
Qed.

(** A device enrols with the session 05..05; its SETUP_3 is delivered twice, and
    another device starts the session 06..06 in between. *)
Definition dummy_state : server_state_t :=
  {| sv_registry := zero_registry; sv_sessions := []; sv_replay_cache := {| rc_keys := []; rc_n := 0; rc_next_evict := 0 |};
     sv_world := sample_world |}.

Definition sample_cfg : server_config :=
  match sample_start with
  | Ok (c, _) => c
  | _ => {| sc_server_sk := []; sc_server_pub := []; sc_require_pairing_token := None; sc_allowed_roles := [] |}
  end.

Definition sample_s0 : server_state_t := match sample_start with Ok (_, s) => s | _ => dummy_state end.

Definition sample_setup1 (session_id : bytes) : bytes * auth_client_ctx_t :=
  match send (auth_client_build_setup1 (NaCl := Toy.sodium) (replicate 32 Byte.x01) (sample_random 64) None 0)
          (set_session_id session_id sample_ctx) with
  | Ok r => r
  | _ => ([], sample_ctx)
  end.

Definition setup1_05 : bytes := Eval vm_compute in (sample_setup1 (replicate 16 Byte.x05)).1.
Definition setup1_06 : bytes := Eval vm_compute in (sample_setup1 (replicate 16 Byte.x06)).1.

Definition replied (r : option (bytes * nat)) : bytes := match r with Some (out, n) => take n out | None => [] end.

Definition setup3_05 : bytes := Eval vm_compute in
  let r := run_proc (dispatch (NaCl := Toy.sodium) sample_cfg sample_draws setup1_05 (zeros AUTH_MAX_DATAGRAM)) sample_s0 in
  match auth_client_handle_setup2 (NaCl := Toy.sodium) (Some (replied r.1)) true (sample_setup1 (replicate 16 Byte.x05)).2 with
  | (Ok _, c) => match send (auth_client_build_setup3 (NaCl := Toy.sodium) (sample_random 62)) c with Ok (p, _) => p | _ => [] end
  | _ => []
  end.

(** Thread 0: SETUP_1.  Threads 1 and 2: the SETUP_3 twice, both having copied the
    pending record.  Thread 3: the other SETUP_1, between the two releases. *)
Definition race : list event :=
  [Arrive setup1_05 sample_draws; Run 0; Run 0;
   Arrive setup3_05 sample_draws; Arrive setup3_05 sample_draws; Run 1; Run 2; Run 1;
   Arrive setup1_06 sample_draws; Run 3; Run 2; Run 3].

Definition reply_type (p : proc) : option byte :=
  match p with Halt out n => take n out !! 1 | _ => None end.

Definition race_end : option (server_state_t * list proc) := sched_run (NaCl := Toy.sodium) sample_cfg race (sample_s0, []).

Lemma sample_init : sample_start = Ok (sample_cfg, sample_s0).
Proof. vm_compute. reflexivity. Qed.

Lemma race_draws_ok : Forall (λ e, match e with Arrive _ d => draws_ok d | Run _ => True end) race.
Proof. repeat (apply list.Forall_cons; split; [first [exact sample_draws_ok|exact I]|]). constructor. Qed.

Lemma server_threads_safe_witness :
  ∃ s pool, star (sched (NaCl := Toy.sodium) sample_cfg) (sample_s0, []) (s, pool) ∧ length pool = 4 ∧
    registry_wf (sv_registry s) ∧ ¬ (∃ i, sv_sessions s !! i = Some Slot_reserved).
Proof.
  destruct race_end as [[s pool]|] eqn:E.
  2:{ exfalso. apply (f_equal (λ o, match o with Some _ => true | None => false end)) in E. vm_compute in E. discriminate E. }
  assert (Hp : map reply_type pool = [Some Byte.x12; Some Byte.x14; Some Byte.x14; Some Byte.x7f]).
  { change pool with (snd (s, pool)). apply (f_equal (λ o, match o with Some c => map reply_type (snd c) | None => [] end)) in E.
    cbn [snd] in E. cbn [snd]. rewrite <- E. vm_compute. reflexivity. }
  pose proof (sched_run_star sample_cfg race _ _ race_draws_ok E) as Hstar. exists s, pool. split; [exact Hstar|].
  split; [apply (f_equal length) in Hp; rewrite length_map in Hp; exact Hp|].
  destruct (server_threads_safe (NaCl := Toy.sodium) _ _ _ _ _ _ _ _ sample_init Hstar) as (Hw & _ & _ & _ & Hr).
  split; [exact Hw|]. intros Hx. destruct (Hr Hx) as (i & m & sec & Hi).
  apply (f_equal (λ l, l !! i)) in Hp. rewrite list_lookup_fmap, Hi in Hp. cbn in Hp.
  do 4 (destruct i as [|i]; [discriminate Hp|]). discriminate Hp.
Defined.

Lemma server_sessions_authenticated_witness :
  ∃ s pool, star (sched (NaCl := Toy.sodium) sample_cfg) (sample_s0, []) (s, pool) ∧
    ∃ e, e ∈ devices (sv_registry s) ∧
      enrolled_device (NaCl := Toy.sodium) sample_cfg (sv_registry sample_s0) (re_device_pub e) (re_role_commitment e).
Proof.
  destruct race_end as [[s pool]|] eqn:E.
  2:{ exfalso. apply (f_equal (λ o, match o with Some _ => true | None => false end)) in E. vm_compute in E. discriminate E. }
  pose proof (sched_run_star sample_cfg race _ _ race_draws_ok E) as Hstar. exists s, pool. split; [exact Hstar|].
  destruct (server_sessions_authenticated (NaCl := Toy.sodium) _ _ _ _ _ _ _ _ sample_init Hstar) as (_ & _ & Hd).
  assert (Hl : length (devices (sv_registry s)) = 1).
  { apply (f_equal (λ o, match o with Some c => length (devices (sv_registry (fst c))) | None => 0 end)) in E.
    cbn [fst] in E. rewrite <- E. vm_compute. reflexivity. }
  destruct (devices (sv_registry s)) as [|e l]; [discriminate Hl|]. exists e. split; [left|]. apply Hd. left.
Defined.

(** A slot index outlives its session: a duplicate of a SETUP_3 that is handled
    on two connections releases the slot twice, and the second release hits
    whatever has reserved the slot in between.  In this reachable run a valid
    SETUP_1 that would alone be answered with SETUP_2 is answered with an ERROR
    packet (code 1, which is not a wire code), and its session is lost. *)
Theorem stale_release_breaks_setup :
  ∃ s pool, star (sched (NaCl := Toy.sodium) sample_cfg) (sample_s0, []) (s, pool) ∧
    map reply_type pool = [Some AUTH_PKT_SETUP_2; Some AUTH_PKT_SETUP_ACK; Some AUTH_PKT_SETUP_ACK; Some AUTH_PKT_ERROR] ∧
    map slot_state (sv_sessions s) = replicate 64 AUTH_SESSION_SLOT_FREE ∧
    reply_type (let r := run_proc (dispatch (NaCl := Toy.sodium) sample_cfg sample_draws setup1_06 (zeros AUTH_MAX_DATAGRAM)) sample_s0 in
                match r.1 with Some (out, n) => Halt out n | None => Crash end) = Some AUTH_PKT_SETUP_2.
Proof.
  destruct race_end as [[s pool]|] eqn:E.
  2:{ exfalso. apply (f_equal (λ o, match o with Some _ => true | None => false end)) in E. vm_compute in E. discriminate E. }
  exists s, pool. split; [by apply (sched_run_star sample_cfg race _ _ race_draws_ok)|].
  assert (Hp : Some (map reply_type pool, map slot_state (sv_sessions s)) =
    match race_end with Some c => Some (map reply_type c.2, map slot_state (sv_sessions c.1)) | None => None end) by by rewrite E.
  assert (Hv : match race_end with Some c => Some (map reply_type c.2, map slot_state (sv_sessions c.1)) | None => None end =
    Some ([Some AUTH_PKT_SETUP_2; Some AUTH_PKT_SETUP_ACK; Some AUTH_PKT_SETUP_ACK; Some AUTH_PKT_ERROR],
          replicate 64 AUTH_SESSION_SLOT_FREE)) by (vm_compute; reflexivity).
  rewrite Hv in Hp. apply (f_equal (default ([], []))) in Hp. cbn [default from_option id] in Hp.
  split; [exact (f_equal fst Hp)|]. split; [exact (f_equal snd Hp)|]. vm_compute. reflexivity.
Qed.
