(* ===== verification/V3Context.v ===== *)
(** AUTH v3 context values: [src/c/include/auth/auth_v3_context.h],
    [src/c/src/proto/auth_v3_context.c] and [auth_v3_context_parser.c].

    A context is [ZKCTX | u8 version | u8 kind | u16 count] followed by entries
    [u16 id | u8 flags | u16 len | value] in strictly increasing order of their
    ids.  [wire_context] is that layout.  The encoder emits it, the parser
    accepts nothing else, and the streaming hash is the hash of it.

    The functions return an [int]; the codes of several enumerations are mixed, so
    an error is the integer. *)
From S2P Require Export Transcript.

#[local] Open Scope Z_scope.

Definition AUTH_V3_CONTEXT_MAGIC_LEN : nat := 5.
Definition AUTH_V3_CONTEXT_ENCODING_VERSION : byte := Byte.x01.

(** [auth_v3_context_kind_t] is an [int] that the caller chooses. *)
Definition AUTH_V3_CONTEXT_AUTHORIZATION : Z := 1.
Definition AUTH_V3_CONTEXT_CRITICAL_EXTENSIONS : Z := 2.
Definition AUTH_V3_CONTEXT_CHANNEL_BINDING : Z := 3.

Record auth_v3_context_entry_t := { e_id : Z; e_value : ptr bytes; e_value_len : nat }.

Definition AUTH_V3_CONTEXT_INVALID_ARGUMENT : Z := -1.
Definition AUTH_V3_CONTEXT_INVALID_ID : Z := -2.
Definition AUTH_V3_CONTEXT_NON_CANONICAL_ORDER : Z := -3.
Definition AUTH_V3_CONTEXT_INVALID_CRITICAL_ID : Z := -4.
Definition AUTH_V3_CONTEXT_BUFFER_TOO_SMALL : Z := -5.

Definition AUTH_V3_CONTEXT_PARSE_INVALID_ARGUMENT : Z := -20.
Definition AUTH_V3_CONTEXT_PARSE_TRUNCATED : Z := -21.
Definition AUTH_V3_CONTEXT_PARSE_INVALID_MAGIC : Z := -22.
Definition AUTH_V3_CONTEXT_PARSE_UNSUPPORTED_VERSION : Z := -23.
Definition AUTH_V3_CONTEXT_PARSE_UNKNOWN_KIND : Z := -24.
Definition AUTH_V3_CONTEXT_PARSE_INVALID_ID : Z := -25.
Definition AUTH_V3_CONTEXT_PARSE_NON_CANONICAL_ORDER : Z := -26.
Definition AUTH_V3_CONTEXT_PARSE_INVALID_CRITICAL_ID : Z := -27.
Definition AUTH_V3_CONTEXT_PARSE_NONZERO_FLAGS : Z := -28.
Definition AUTH_V3_CONTEXT_PARSE_TRAILING_BYTES : Z := -29.
Definition AUTH_V3_CONTEXT_PARSE_ENTRY_BUFFER_TOO_SMALL : Z := -30.

Definition CONTEXT_MAGIC : bytes := str_bytes "ZKCTX".

(** ** The encoder *)
Definition SIZE_MAX : Z := 18446744073709551615.

(** [entries[i]] *)
Definition entry_at (entries : list auth_v3_context_entry_t) (i : nat) : outcome Z auth_v3_context_entry_t :=
  match entries !! i with Some e => Ok e | None => Fault end.

(** [((id & 0x8000u) == 0u) || ((id & 0x7fffu) == 0u)] *)
Definition bad_critical_id (id : Z) : bool := (Z.land id 0x8000 =? 0) || (Z.land id 0x7fff =? 0).

(** The loop over the entries [i .. i + n - 1]; the result is [total]. *)
Fixpoint validate_loop (kind : Z) (entries : list auth_v3_context_entry_t) (n i : nat) (previous total : Z) :
    outcome Z Z :=
  match n with
  | O => mret total
  | S n =>
      entry ← entry_at entries i;
      check (negb (e_id entry =? 0)) AUTH_V3_CONTEXT_INVALID_ID;;
      check (negb ((0 <? i)%nat && (e_id entry <=? previous))) AUTH_V3_CONTEXT_NON_CANONICAL_ORDER;;
      check (negb ((kind =? AUTH_V3_CONTEXT_CRITICAL_EXTENSIONS) && bad_critical_id (e_id entry)))
        AUTH_V3_CONTEXT_INVALID_CRITICAL_ID;;
      check (negb ((0 <? e_value_len entry)%nat && bool_decide (e_value entry = NULL)))
        AUTH_V3_CONTEXT_INVALID_ARGUMENT;;
      check (total <=? SIZE_MAX - 5 - Z.of_nat (e_value_len entry)) AUTH_V3_CONTEXT_INVALID_ARGUMENT;;
      validate_loop kind entries n (S i) (e_id entry) (size_t (total + (5 + Z.of_nat (e_value_len entry))))
  end.

Definition validate_entries (kind : Z) (entries : ptr (list auth_v3_context_entry_t)) (entry_count : nat) :
    outcome Z Z :=
  check (Z.of_nat entry_count <=? 65535) AUTH_V3_CONTEXT_INVALID_ARGUMENT;;
  check (negb ((0 <? entry_count)%nat && bool_decide (entries = NULL))) AUTH_V3_CONTEXT_INVALID_ARGUMENT;;
  check (negb (negb (kind =? AUTH_V3_CONTEXT_AUTHORIZATION) && negb (kind =? AUTH_V3_CONTEXT_CRITICAL_EXTENSIONS)
         && negb (kind =? AUTH_V3_CONTEXT_CHANNEL_BINDING))) AUTH_V3_CONTEXT_INVALID_ARGUMENT;;
  validate_loop kind (default [] entries) entry_count 0 0 9.

(** The stores after the magic: version, kind and count. *)
Definition header_fields (kind : Z) (entry_count : nat) : bytes :=
  [AUTH_V3_CONTEXT_ENCODING_VERSION; u8 kind; u8 (Z.land (Z.of_nat entry_count) 0xff);
   u8 (Z.land (Z.shiftr (Z.of_nat entry_count) 8) 0xff)].

Definition entry_header (entry : auth_v3_context_entry_t) : bytes :=
  [u8 (Z.land (e_id entry) 0xff); u8 (Z.land (Z.shiftr (e_id entry) 8) 0xff); Byte.x00;
   u8 (Z.land (Z.of_nat (e_value_len entry)) 0xff);
   u8 (Z.land (Z.shiftr (Z.of_nat (e_value_len entry)) 8) 0xff)].

Fixpoint encode_entries (entries : list auth_v3_context_entry_t) (n i : nat) : M Z cursor unit :=
  match n with
  | O => mret tt
  | S n =>
      entry ← lift (entry_at entries i);
      write_bytes (entry_header entry);;
      (if (0 <? e_value_len entry)%nat
       then v ← lift (loadn (default [] (e_value entry)) 0 (e_value_len entry)); write_bytes v
       else mret tt);;
      encode_entries entries n (S i)
  end.

Definition auth_v3_context_encode (kind : Z) (entries : ptr (list auth_v3_context_entry_t)) (entry_count : nat) :
    M Z bytes nat :=
  needed ← lift (validate_entries kind entries entry_count);
  out ← get;
  require (negb (Z.of_nat (length out) <? needed)) AUTH_V3_CONTEXT_BUFFER_TOO_SMALL;;
  writing (
    write_bytes CONTEXT_MAGIC;;
    write_bytes (header_fields kind entry_count);;
    encode_entries (default [] entries) entry_count 0;;
    get_off).

(** ** The streaming hash *)
(** What the loop of [auth_v3_context_hash] feeds to the hash. *)
Fixpoint hash_entries (entries : list auth_v3_context_entry_t) (n i : nat) : outcome Z bytes :=
  match n with
  | O => mret []
  | S n =>
      entry ← entry_at entries i;
      value ← (if (0 <? e_value_len entry)%nat
               then loadn (default [] (e_value entry)) 0 (e_value_len entry) else mret []);
      rest ← hash_entries entries n (S i);
      mret (entry_header entry ++ value ++ rest)
  end.

Definition auth_v3_context_hash {NaCl : Sodium} (kind : Z) (entries : ptr (list auth_v3_context_entry_t))
    (entry_count : nat) : outcome Z bytes :=
  validate_entries kind entries entry_count;;
  body ← hash_entries (default [] entries) entry_count 0;
  mret (crypto_hash_sha256 (CONTEXT_MAGIC ++ header_fields kind entry_count ++ body)).

(** ** The parser *)
(** The loop over the entries [i .. i + n - 1]; the state is [offset] and the
    result what is stored in [entries_out]. *)
Fixpoint parse_loop (input : bytes) (kind : Z) (capture : bool) (n i : nat) (previous_id : Z) :
    M Z nat (list auth_v3_context_entry_t) :=
  match n with
  | O => mret []
  | S n =>
      offset ← get;
      require (negb ((length input <? offset)%nat || (length input - offset <? 5)%nat))
        AUTH_V3_CONTEXT_PARSE_TRUNCATED;;
      id ← lift (load_u16_le input offset);
      flags ← lift (load8 input (offset + 2));
      value_len ← lift (load_u16_le input (offset + 3));
      put (offset + 5)%nat;;
      require (negb (id =? 0)) AUTH_V3_CONTEXT_PARSE_INVALID_ID;;
      require (negb ((0 <? i)%nat && (id <=? previous_id))) AUTH_V3_CONTEXT_PARSE_NON_CANONICAL_ORDER;;
      require (negb ((kind =? AUTH_V3_CONTEXT_CRITICAL_EXTENSIONS) && bad_critical_id id))
        AUTH_V3_CONTEXT_PARSE_INVALID_CRITICAL_ID;;
      require (bool_decide (flags = Byte.x00)) AUTH_V3_CONTEXT_PARSE_NONZERO_FLAGS;;
      offset ← get;
      require (negb ((length input <? offset)%nat || (length input - offset <? Z.to_nat value_len)%nat))
        AUTH_V3_CONTEXT_PARSE_TRUNCATED;;
      value ← lift (loadn input offset (Z.to_nat value_len));
      put (offset + Z.to_nat value_len)%nat;;
      rest ← parse_loop input kind capture n (S i) id;
      mret (if capture
            then {| e_id := id; e_value := Some value; e_value_len := Z.to_nat value_len |} :: rest
            else rest)
  end.

(** [entries_null] is [entries_out == NULL]; the result is the kind and the
    entries that are stored, [*entry_count_out] being their number. *)
Definition parse_impl (input : ptr bytes) (entries_null : bool) (entries_capacity : nat) (capture : bool) :
    outcome Z (Z * list auth_v3_context_entry_t) :=
  input ← nonnull input AUTH_V3_CONTEXT_PARSE_INVALID_ARGUMENT;
  check (9 <=? length input)%nat AUTH_V3_CONTEXT_PARSE_TRUNCATED;;
  magic ← loadn input 0 AUTH_V3_CONTEXT_MAGIC_LEN;
  check (memeq magic CONTEXT_MAGIC) AUTH_V3_CONTEXT_PARSE_INVALID_MAGIC;;
  version ← load8 input 5;
  check (bool_decide (version = AUTH_V3_CONTEXT_ENCODING_VERSION)) AUTH_V3_CONTEXT_PARSE_UNSUPPORTED_VERSION;;
  k ← load8 input 6;
  check (negb ((b2z k <? AUTH_V3_CONTEXT_AUTHORIZATION) || (AUTH_V3_CONTEXT_CHANNEL_BINDING <? b2z k)))
    AUTH_V3_CONTEXT_PARSE_UNKNOWN_KIND;;
  let kind := b2z k in
  entry_count ← load_u16_le input 7;
  let n := Z.to_nat entry_count in
  check (n <=? (length input - 9) / 5)%nat AUTH_V3_CONTEXT_PARSE_TRUNCATED;;
  check (negb (capture && (entries_capacity <? n)%nat)) AUTH_V3_CONTEXT_PARSE_ENTRY_BUFFER_TOO_SMALL;;
  check (negb (capture && (0 <? n)%nat && entries_null)) AUTH_V3_CONTEXT_PARSE_INVALID_ARGUMENT;;
  match parse_loop input kind capture n 0 0 9%nat with
  | (Ok entries, offset) =>
      check (offset =? length input)%nat AUTH_V3_CONTEXT_PARSE_TRAILING_BYTES;;
      mret (kind, entries)
  | (Err e, _) => Err e
  | (Fault, _) => Fault
  end.

Definition auth_v3_context_parse_bytes (input : ptr bytes) (entries_null : bool) (entries_capacity : nat) :
    outcome Z (Z * list auth_v3_context_entry_t) :=
  parse_impl input entries_null entries_capacity true.

Definition auth_v3_context_hash_bytes {NaCl : Sodium} (input : ptr bytes) : outcome Z bytes :=
  parse_impl input true 0 false;;
  input ← nonnull input AUTH_V3_CONTEXT_PARSE_INVALID_ARGUMENT;
  mret (crypto_hash_sha256 input).

(** ** Canonical contexts *)
(** What an entry denotes: its id and the bytes of its value. *)
Definition item : Type := Z * bytes.

Definition item_of (e : auth_v3_context_entry_t) : item :=
  (e_id e, take (e_value_len e) (default [] (e_value e))).

Definition entry_of (it : item) : auth_v3_context_entry_t :=
  {| e_id := it.1; e_value := Some it.2; e_value_len := length it.2 |}.

(** The fields are in their types and the value points to at least [value_len]
    bytes, if it points anywhere. *)
Definition representable (e : auth_v3_context_entry_t) : Prop :=
  is_u16 (e_id e) ∧ Z.of_nat (e_value_len e) < 65536 ∧ ∀ v, e_value e = Some v → (e_value_len e ≤ length v)%nat.

Definition present (e : auth_v3_context_entry_t) : Prop := (0 < e_value_len e)%nat → e_value e ≠ NULL.

Definition kind_ok (kind : Z) : Prop := 1 ≤ kind ≤ 3.

(** Ids increase from above [prev]; the ids of critical extensions have their top
    bit and another bit set. *)
Fixpoint canonical (kind prev : Z) (items : list item) : Prop :=
  match items with
  | [] => True
  | (id, v) :: items =>
      prev < id < 65536 ∧ (kind = AUTH_V3_CONTEXT_CRITICAL_EXTENSIONS → 0x8000 < id) ∧
      Z.of_nat (length v) < 65536 ∧ canonical kind id items
  end.

Definition wire_item (it : item) : bytes :=
  store_le 2 it.1 ++ [Byte.x00] ++ store_le 2 (Z.of_nat (length it.2)) ++ it.2.

Definition wire_items (items : list item) : bytes := concat (map wire_item items).

Definition wire_context (kind : Z) (items : list item) : bytes :=
  CONTEXT_MAGIC ++ [AUTH_V3_CONTEXT_ENCODING_VERSION; u8 kind] ++ store_le 2 (Z.of_nat (length items)) ++
  wire_items items.

Definition canonical_context (kind : Z) (items : list item) : Prop :=
  kind_ok kind ∧ Z.of_nat (length items) ≤ 65535 ∧ canonical kind 0 items.

Lemma item_of_entry_of it : item_of (entry_of it) = it.
Proof. destruct it. unfold item_of. cbn. by rewrite firstn_all. Qed.

Lemma map_item_of_entry_of items : map item_of (map entry_of items) = items.
Proof. rewrite map_map. erewrite map_ext; [apply map_id|]. apply item_of_entry_of. Qed.

Lemma bad_critical_id_spec id : 0 ≤ id < 65536 → bad_critical_id id = negb (0x8000 <? id).
Proof.
  intros Hid. unfold bad_critical_id.
  change 0x7fff with (Z.ones 15). rewrite Z.land_ones by lia. change (2 ^ 15) with 0x8000.
  replace (Z.land id 0x8000) with (0x8000 * (id / 0x8000)).
  - pose proof (Z.div_mod id 0x8000 ltac:(lia)). pose proof (Z.mod_pos_bound id 0x8000 ltac:(lia)).
    assert (id / 0x8000 < 2) by (apply Z.div_lt_upper_bound; lia).
    assert (0 ≤ id / 0x8000) by (apply Z.div_pos; lia).
    destruct (Z.eqb_spec (0x8000 * (id / 0x8000)) 0), (Z.eqb_spec (id mod 0x8000) 0), (Z.ltb_spec 0x8000 id); cbn; lia.
  - change 0x8000 with (2 ^ 15). rewrite <- Z.shiftr_div_pow2, Z.mul_comm, <- Z.shiftl_mul_pow2 by lia.
    apply Z.bits_inj'. intros n Hn. rewrite Z.land_spec, Z.pow2_bits_eqb by lia.
    destruct (Z.eqb_spec 15 n) as [<-|Hne].
    + rewrite andb_true_r, Z.shiftl_spec, Z.shiftr_spec by lia. done.
    + rewrite andb_false_r. destruct (Z.ltb_spec n 15).
      * by rewrite Z.shiftl_spec_low by lia.
      * rewrite Z.shiftl_spec, Z.shiftr_spec by lia. replace (n - 15 + 15) with n by lia.
        apply Z.bits_above_log2; [lia|]. destruct (Z.eq_dec id 0) as [->|]; [rewrite Z.log2_nonpos; lia|].
        apply Z.log2_lt_pow2; [lia|]. apply Z.lt_le_trans with (2 ^ 16); [lia|]. apply Z.pow_le_mono_r; lia.
Qed.

Lemma length_wire_item it : length (wire_item it) = (5 + length it.2)%nat.
Proof. unfold wire_item. rewrite !length_app, !length_store_le. cbn. lia. Qed.

Lemma entry_header_item e :
  (e_value_len e ≤ length (default [] (e_value e)))%nat →
  entry_header e ++ take (e_value_len e) (default [] (e_value e)) = wire_item (item_of e).
Proof.
  intros H. unfold entry_header, wire_item, item_of. cbn [fst snd]. rewrite length_take_le by done.
  by rewrite !store_le_2.
Qed.

Lemma present_length e :
  representable e → present e → (e_value_len e ≤ length (default [] (e_value e)))%nat.
Proof.
  intros (_ & _ & H) Hp. unfold present in *. destruct (e_value e) as [v|]; cbn; [by apply H|].
  destruct (e_value_len e); [lia|]. exfalso. by apply Hp; [lia|].
Qed.

Lemma value_load {E} e : representable e → present e →
  (if (0 <? e_value_len e)%nat then loadn (E:=E) (default [] (e_value e)) 0 (e_value_len e) else mret [])
    = Ok (take (e_value_len e) (default [] (e_value e))).
Proof.
  intros Hr Hp. apply present_length in Hp as Hl; [|done].
  destruct (Nat.ltb_spec 0 (e_value_len e)) as [H|H].
  - rewrite loadn_ok by lia. by rewrite drop_0.
  - replace (e_value_len e) with 0%nat by lia. done.
Qed.

(** ** The validation loop decides canonicity *)
Definition valid_entries (kind prev : Z) (l : list auth_v3_context_entry_t) : Prop :=
  Forall present l ∧ canonical kind prev (map item_of l).

Lemma entry_at_drop entries i e l : drop i entries = e :: l → entry_at entries i = Ok e ∧ drop (S i) entries = l.
Proof.
  intros H. unfold entry_at. assert (E : entries !! i = Some e).
  { rewrite <- (Nat.add_0_r i), <- lookup_drop, H. done. }
  rewrite E. split; [done|]. rewrite <- Nat.add_1_r, <- drop_drop, H. done.
Qed.

Lemma valid_entries_cons kind prev e l :
  0 ≤ prev → representable e →
  valid_entries kind prev (e :: l) ↔
    prev < e_id e ∧ (kind = AUTH_V3_CONTEXT_CRITICAL_EXTENSIONS → 0x8000 < e_id e) ∧ present e ∧
    valid_entries kind (e_id e) l.
Proof.
  intros Hp Hr. unfold valid_entries. cbn [map canonical]. rewrite list.Forall_cons.
  destruct Hr as ((? & ?) & ? & ?). cbn. rewrite length_take.
  split; intros H'; destruct_and!; split_and!; auto; lia.
Qed.

Lemma present_dec e :
  negb ((0 <? e_value_len e)%nat && bool_decide (e_value e = NULL)) = true ↔ present e.
Proof.
  unfold present. destruct (Nat.ltb_spec 0 (e_value_len e)); cbn.
  - rewrite negb_true_iff, bool_decide_eq_false. naive_solver.
  - split; [lia|done].
Qed.

Lemma validate_loop_spec kind entries l i prev total :
  drop i entries = l → Forall representable l → (i = 0%nat → prev = 0) → 0 ≤ prev → 0 ≤ total →
  total + 65541 * Z.of_nat (length l) ≤ SIZE_MAX →
  match validate_loop kind entries (length l) i prev total with
  | Ok t => valid_entries kind prev l ∧ t = total + Z.of_nat (length (wire_items (map item_of l)))
  | Err _ => ¬ valid_entries kind prev l
  | Fault => False
  end.
Proof.
  revert i prev total. induction l as [|e l IH]; intros i prev total Hd Hr Hi Hp Ht Hmax.
  { cbn. unfold valid_entries. cbn. by rewrite Z.add_0_r. }
  apply list.Forall_cons in Hr as [He Hr]. pose proof He as ((? & ?) & ? & ?).
  apply entry_at_drop in Hd as [Ee Hd]. cbn [length validate_loop]. rewrite Ee. cbn [mbind outcome_bind].
  pose proof (valid_entries_cons kind prev e l Hp He) as Hiff.
  destruct (Z.eqb_spec (e_id e) 0); cbn [negb check mbind outcome_bind]; [rewrite Hiff; lia|].
  destruct ((0 <? i)%nat && (e_id e <=? prev)) eqn:E1; cbn [negb check mbind outcome_bind].
  { apply andb_true_iff in E1 as [? ?%Z.leb_le]. rewrite Hiff. lia. }
  assert (prev < e_id e).
  { apply andb_false_iff in E1 as [E1%Nat.ltb_ge|E1%Z.leb_gt]; [|lia]. rewrite Hi by lia. lia. }
  rewrite bad_critical_id_spec by lia.
  destruct ((kind =? _) && _) eqn:E2; cbn [negb check mbind outcome_bind].
  { apply andb_true_iff in E2 as [?%Z.eqb_eq E2]. apply negb_true_iff, Z.ltb_ge in E2. rewrite Hiff. intros (_ & Hc & _). specialize (Hc ltac:(done)). lia. }
  assert (kind = AUTH_V3_CONTEXT_CRITICAL_EXTENSIONS → 0x8000 < e_id e).
  { intros ->. by apply negb_false_iff, Z.ltb_lt in E2. }
  destruct (negb ((0 <? e_value_len e)%nat && _)) eqn:E3; cbn [check mbind outcome_bind].
  2:{ rewrite Hiff. intros (_ & _ & Hpr & _). apply present_dec in Hpr. congruence. }
  apply present_dec in E3. cbn [length] in Hmax. unfold SIZE_MAX in *.
  rewrite (proj2 (Z.leb_le _ _)) by lia. cbn [check mbind outcome_bind].
  unfold size_t, u64. rewrite Z.mod_small by lia.
  specialize (IH (S i) (e_id e) (total + (5 + Z.of_nat (e_value_len e))) Hd Hr
    ltac:(lia) ltac:(lia) ltac:(lia) ltac:(lia)).
  destruct (validate_loop _ _ _ _ _ _) as [t|z|]; [|rewrite Hiff; tauto|done].
  destruct IH as [? ->]. split; [by apply Hiff|].
  unfold wire_items. cbn [map concat]. rewrite length_app, length_wire_item. cbn [item_of snd].
  rewrite length_take_le by by apply present_length. lia.
Qed.

Lemma validate_entries_spec kind l :
  Forall representable l →
  match validate_entries kind (Some l) (length l) with
  | Ok t => Forall present l ∧ canonical_context kind (map item_of l) ∧
            t = Z.of_nat (length (wire_context kind (map item_of l)))
  | Err _ => ¬ (Forall present l ∧ canonical_context kind (map item_of l))
  | Fault => False
  end.
Proof.
  intros Hr. unfold validate_entries, canonical_context. rewrite length_map, andb_false_r.
  destruct (Z.leb_spec (Z.of_nat (length l)) 65535) as [Hl|Hl]; cbn [check mbind outcome_bind negb]; [|lia].
  match goal with |- context [check (negb ?b)] => destruct (negb b) eqn:Ek end; cbn [check mbind outcome_bind].
  2:{ intros (_ & Hk & _). revert Ek. unfold kind_ok in Hk. assert (kind = 1 ∨ kind = 2 ∨ kind = 3) as [->|[->| ->]] by lia; done. }
  assert (Hk : kind_ok kind).
  { unfold kind_ok. apply negb_true_iff in Ek. rewrite !andb_false_iff, !negb_false_iff, !Z.eqb_eq in Ek.
    destruct Ek as [[-> | ->] | ->]; done. }
  pose proof (validate_loop_spec kind l l 0 0 9 eq_refl Hr) as H. cbn [default from_option id] in *.
  unfold valid_entries, SIZE_MAX in H.
  destruct (validate_loop _ _ _ _ _ _) as [t|z|]; [|intros (? & _ & _ & ?); apply H; lia || done|apply H; lia].
  destruct H as [[? ?] ->]; [lia..|]. split_and!; [done..|].
  unfold wire_context. rewrite !length_app, length_store_le. cbn [length CONTEXT_MAGIC str_bytes]. cbn. lia.
Qed.

(** ** What the encoder writes and the hash reads *)
Lemma emits_lift {E A B} (o : outcome E A) a (k : A → M E cursor B) x r :
  o = Ok a → emits (k a) x r → emits (lift o ≫= k) x r.
Proof. intros -> Hk w rest Hr Hu. rewrite bind_run. by apply Hk. Qed.

Lemma encode_entries_emits entries l i :
  drop i entries = l → Forall representable l → Forall present l →
  emits (encode_entries entries (length l) i) (wire_items (map item_of l)) (λ _, tt).
Proof.
  revert i. induction l as [|e l IH]; intros i Hd Hr Hp; [apply emits_ret|].
  apply entry_at_drop in Hd as [Ee Hd]. apply list.Forall_cons in Hr as [He Hr], Hp as [Hpe Hp].
  cbn [length encode_entries]. eapply emits_lift; [exact Ee|].
  eapply emits_eq.
  - eapply emits_bind; [apply emits_write|]. intros _.
    eapply (emits_bind _ _ (take (e_value_len e) (default [] (e_value e)))).
    + pose proof (value_load (E:=Z) e He Hpe) as Hv. destruct (0 <? e_value_len e)%nat.
      * eapply emits_lift; [exact Hv|apply emits_write].
      * injection Hv as <-. apply emits_ret.
    + intros _. by apply IH.
  - unfold wire_items. cbn [map concat]. rewrite <- entry_header_item by by apply present_length.
    by rewrite <- app_assoc.
Qed.

Lemma hash_entries_run entries l i :
  drop i entries = l → Forall representable l → Forall present l →
  hash_entries entries (length l) i = Ok (wire_items (map item_of l)).
Proof.
  revert i. induction l as [|e l IH]; intros i Hd Hr Hp; [done|].
  apply entry_at_drop in Hd as [Ee Hd]. apply list.Forall_cons in Hr as [He Hr], Hp as [Hpe Hp].
  cbn [length hash_entries]. rewrite Ee. cbn [mbind outcome_bind]. rewrite value_load by done.
  cbn [mbind outcome_bind]. rewrite IH by done. cbn [mbind outcome_bind mret outcome_ret].
  unfold wire_items. cbn [map concat]. rewrite <- entry_header_item by by apply present_length.
  by rewrite <- app_assoc.
Qed.

Lemma header_fields_wire kind n :
  header_fields kind n = [AUTH_V3_CONTEXT_ENCODING_VERSION; u8 kind] ++ store_le 2 (Z.of_nat n).
Proof. unfold header_fields. by rewrite store_le_2. Qed.

Lemma encode_run kind l out :
  Forall representable l → Forall present l → canonical_context kind (map item_of l) →
  is_u64 (Z.of_nat (length out)) →
  auth_v3_context_encode kind (Some l) (length l) out =
    (if (length (wire_context kind (map item_of l)) <=? length out)%nat
     then (Ok (length (wire_context kind (map item_of l))), written (wire_context kind (map item_of l)) out)
     else (Err AUTH_V3_CONTEXT_BUFFER_TOO_SMALL, out)).
Proof.
  intros Hr Hp Hc Hu. unfold auth_v3_context_encode. pose proof (validate_entries_spec kind l Hr) as Hv.
  destruct (validate_entries _ _ _) as [t|z|]; [|tauto|done]. destruct Hv as (_ & _ & ->). do 2 mstep.
  destruct (Nat.leb_spec (length (wire_context kind (map item_of l))) (length out)) as [H|H].
  - rewrite (proj2 (Z.ltb_ge _ _)) by lia. mstep.
    eapply (writing_run _ _ (λ off, off)); [|done..].
    eapply emits_eq.
    + eapply emits_bind; [apply emits_write|]. intros _. eapply emits_bind; [apply emits_write|]. intros _.
      eapply emits_bind; [by apply (encode_entries_emits l l 0)|]. intros _. apply emits_get_off.
    + unfold wire_context. by rewrite header_fields_wire, length_map, app_nil_r, <- !app_assoc.
  - rewrite (proj2 (Z.ltb_lt _ _)) by lia. done.
Qed.

Lemma hash_run {NaCl : Sodium} kind l :
  Forall representable l → Forall present l → canonical_context kind (map item_of l) →
  auth_v3_context_hash kind (Some l) (length l) = Ok (crypto_hash_sha256 (wire_context kind (map item_of l))).
Proof.
  intros Hr Hp Hc. unfold auth_v3_context_hash. pose proof (validate_entries_spec kind l Hr) as Hv.
  destruct (validate_entries _ _ _) as [t|z|]; [|tauto|done]. cbn [mbind outcome_bind default from_option id].
  rewrite (hash_entries_run l l 0) by done. cbn [mbind outcome_bind mret outcome_ret].
  unfold wire_context. by rewrite header_fields_wire, length_map, <- !app_assoc.
Qed.

(** ** The parser accepts the layout and nothing else *)
Lemma at_pos_nth buf off rest k : at_pos buf off rest → buf !! (off + k)%nat = rest !! k.
Proof. intros [_ <-]. by rewrite lookup_drop. Qed.

Lemma load_u16_at {E} buf off rest k b0 b1 :
  at_pos buf off rest → rest !! k = Some b0 → rest !! (S k) = Some b1 →
  load_u16_le (E:=E) buf (off + k) = Ok (load_le [b0; b1]).
Proof.
  intros H H0 H1. apply load_u16_le_ok; [by rewrite (at_pos_nth _ _ rest)|].
  rewrite <- Nat.add_assoc, Nat.add_1_r. by rewrite (at_pos_nth _ _ rest).
Qed.

(** The five bytes before a value. *)
Lemma item_split (rest : bytes) :
  (5 ≤ length rest)%nat →
  ∃ b0 b1 f b3 b4 tail, rest = b0 :: b1 :: f :: b3 :: b4 :: tail.
Proof.
  intros H. destruct rest as [|b0 [|b1 [|f [|b3 [|b4 tail]]]]]; cbn in H; try lia. naive_solver.
Qed.

Lemma wire_item_split it :
  is_u16 it.1 → Z.of_nat (length it.2) < 65536 →
  ∃ b0 b1 b3 b4, wire_item it = b0 :: b1 :: Byte.x00 :: b3 :: b4 :: it.2 ∧
    load_le [b0; b1] = it.1 ∧ load_le [b3; b4] = Z.of_nat (length it.2).
Proof.
  intros H1 H2. unfold wire_item. pose proof (load_store_le_2 it.1 H1) as E1.
  pose proof (load_store_le_2 (Z.of_nat (length it.2)) ltac:(unfold is_u16; lia)) as E2.
  pose proof (length_store_le 2 it.1) as L1. pose proof (length_store_le 2 (Z.of_nat (length it.2))) as L2.
  destruct (store_le 2 it.1) as [|b0 [|b1 [|]]]; try done.
  destruct (store_le 2 (Z.of_nat (length it.2))) as [|b3 [|b4 [|]]]; try done.
  exists b0, b1, b3, b4. done.
Qed.

Lemma wire_item_join b0 b1 b3 b4 v :
  load_le [b3; b4] = Z.of_nat (length v) →
  b0 :: b1 :: Byte.x00 :: b3 :: b4 :: v = wire_item (load_le [b0; b1], v).
Proof.
  intros H. unfold wire_item. cbn [fst snd].
  rewrite <- H, !(store_load_le_n 2) by done. done.
Qed.

Definition captured (capture : bool) (items : list item) : list auth_v3_context_entry_t :=
  if capture then map entry_of items else [].

Lemma captured_cons capture it items :
  captured capture (it :: items) = if capture then entry_of it :: captured capture items else captured capture items.
Proof. by destruct capture. Qed.

Lemma parse_loop_complete input kind capture items i prev off rest :
  at_pos input off (wire_items items ++ rest) → canonical kind prev items → 0 ≤ prev →
  parse_loop input kind capture (length items) i prev off =
    (Ok (captured capture items), (off + length (wire_items items))%nat).
Proof.
  revert i prev off. induction items as [|[id v] items IH]; intros i prev off Hat Hc Hp.
  { cbn. rewrite Nat.add_0_r. by destruct capture. }
  destruct Hc as (Hid & Hcrit & Hv & Hc). unfold wire_items in Hat. cbn [map concat] in Hat.
  rewrite <- app_assoc in Hat. fold (wire_items items) in Hat.
  destruct (wire_item_split (id, v)) as (b0 & b1 & b3 & b4 & Ew & E1 & E2); [cbn; unfold is_u16; lia|done|].
  cbn [fst snd] in E1, E2. pose proof (at_pos_length _ _ _ Hat) as Hl. rewrite length_app, length_wire_item in Hl.
  rewrite Ew in Hat. cbn [app] in Hat. pose proof (at_pos_app _ _ [b0; b1; Byte.x00; b3; b4] _ Hat) as Hat5.
  cbn [length] in Hat5. pose proof (at_pos_app _ _ v _ Hat5) as Hatv. cbn [snd] in Hl.
  cbn [length parse_loop]. mstep. rewrite (proj2 (Nat.ltb_ge (length input) off)), (proj2 (Nat.ltb_ge (length input - off) 5)) by lia.
  cbn [orb negb]. mstep.
  pose proof (load_u16_at (E:=Z) _ _ _ 0 b0 b1 Hat eq_refl eq_refl) as L0. rewrite Nat.add_0_r in L0.
  mstep. rewrite L0.
  mstep. rewrite (load8_ok _ _ Byte.x00) by by rewrite (at_pos_nth _ _ _ _ Hat).
  mstep. rewrite (load_u16_at _ _ _ 3 b3 b4 Hat) by done. mstep.
  rewrite E1, E2, (proj2 (Z.eqb_neq id 0)), (proj2 (Z.leb_gt id prev)), andb_false_r by lia.
  cbn [negb]. do 2 mstep.
  rewrite bad_critical_id_spec by lia.
  replace ((kind =? _) && negb _) with false.
  2:{ destruct (Z.eqb_spec kind AUTH_V3_CONTEXT_CRITICAL_EXTENSIONS); [|done]. rewrite (proj2 (Z.ltb_lt _ _)); [done|auto]. }
  cbn [negb]. mstep. rewrite bool_decide_true by done. do 2 mstep.
  rewrite Nat2Z.id, (proj2 (Nat.ltb_ge _ _)), (proj2 (Nat.ltb_ge _ _)) by lia. cbn [orb negb]. mstep.
  mstep. rewrite loadn_ok by lia. destruct Hat5 as [_ Hd]. rewrite Hd, take_app_length. do 2 mstep.
  rewrite (IH (S i) id _ Hatv Hc) by lia. rewrite captured_cons. unfold wire_items. cbn [map concat].
  rewrite length_app, length_wire_item. cbn [snd]. rewrite !Nat.add_assoc. by destruct capture.
Qed.

Lemma parse_loop_sound input kind capture n i prev off rest :
  at_pos input off rest → (i = 0%nat → prev = 0) → 0 ≤ prev →
  match parse_loop input kind capture n i prev off with
  | (Ok es, off') => ∃ items rest', length items = n ∧ canonical kind prev items ∧
      rest = wire_items items ++ rest' ∧ at_pos input off' rest' ∧ es = captured capture items
  | (Err _, _) => True
  | (Fault, _) => False
  end.
Proof.
  revert i prev off rest. induction n as [|n IH]; intros i prev off rest Hat Hi Hp.
  { exists [], rest. split_and!; try done. by destruct capture. }
  pose proof (at_pos_length _ _ _ Hat) as Hl. cbn [parse_loop]. mstep.
  rewrite (proj2 (Nat.ltb_ge (length input) off)) by lia.
  destruct (Nat.ltb_spec (length input - off) 5) as [?|H5]; [done|]. cbn [orb negb]. mstep.
  destruct (item_split rest) as (b0 & b1 & f & b3 & b4 & tail & ->); [lia|].
  pose proof (load_u16_at (E:=Z) _ _ _ 0 b0 b1 Hat eq_refl eq_refl) as L0. rewrite Nat.add_0_r in L0.
  pose proof (load_le_is_u16 [b0; b1] eq_refl) as [? ?]. pose proof (load_le_is_u16 [b3; b4] eq_refl) as [? ?].
  mstep. rewrite L0. mstep. rewrite (load8_ok _ _ f) by by rewrite (at_pos_nth _ _ _ _ Hat).
  mstep. rewrite (load_u16_at _ _ _ 3 b3 b4 Hat) by done. mstep.
  destruct (Z.eqb_spec (load_le [b0; b1]) 0) as [|Hid0]; [done|]. cbn [negb]. mstep.
  destruct ((0 <? i)%nat && _) eqn:Eo; [done|]. cbn [negb]. mstep.
  assert (prev < load_le [b0; b1]) as Hlt.
  { apply andb_false_iff in Eo as [Eo%Nat.ltb_ge|Eo%Z.leb_gt]; [|done]. rewrite Hi by lia. lia. }
  rewrite bad_critical_id_spec by lia. destruct ((kind =? _) && _) eqn:Ec; [done|]. cbn [negb]. mstep.
  case_bool_decide as Hf; [subst f|done]. do 2 mstep.
  pose proof (at_pos_app _ _ [b0; b1; Byte.x00; b3; b4] _ Hat) as Hat5. cbn [length] in Hat5, Hl.
  rewrite (proj2 (Nat.ltb_ge (length input) (off + 5))) by lia.
  destruct (Nat.ltb_spec (length input - (off + 5)) (Z.to_nat (load_le [b3; b4]))) as [?|Hv]; [done|].
  cbn [orb negb]. mstep. mstep. rewrite loadn_ok by lia. destruct Hat5 as [? Hd]. rewrite Hd. do 2 mstep.
  set (v := take (Z.to_nat (load_le [b3; b4])) tail).
  assert (Hvl : length v = Z.to_nat (load_le [b3; b4])) by (unfold v; rewrite length_take_le; lia).
  assert (Hat' : at_pos input (off + 5 + Z.to_nat (load_le [b3; b4])) (drop (length v) tail)).
  { rewrite <- Hvl. apply at_pos_app. split; [lia|]. rewrite Hd, Hvl. symmetry. apply take_drop. }
  specialize (IH (S i) (load_le [b0; b1]) _ _ Hat' ltac:(lia) ltac:(lia)).
  destruct (parse_loop _ _ _ _ _ _ _) as [[es|z|] off']; [|done..].
  destruct IH as (items & rest' & Hn & Hc & Hr & Hat'' & ->). unfold mret, M_ret.
  exists ((load_le [b0; b1], v) :: items), rest'. split_and!; [by cbn; f_equal| |..|done|].
  - cbn [canonical]. split_and!; [lia..| | |done]; [|lia]. intros ->. by apply negb_false_iff, Z.ltb_lt in Ec.
  - unfold wire_items in *. cbn [map concat]. rewrite <- (wire_item_join b0 b1 b3 b4) by lia. cbn [app]. do 5 f_equal.
    rewrite <- app_assoc, <- Hr. rewrite Hvl. symmetry. apply take_drop.
  - rewrite captured_cons. unfold entry_of. cbn [fst snd]. rewrite Hvl. by destruct capture.
Qed.

(** The nine bytes of the header. *)
Lemma header_split (input : bytes) :
  (9 ≤ length input)%nat →
  ∃ magic version k c0 c1 tail, input = magic ++ [version; k; c0; c1] ++ tail ∧ length magic = 5%nat.
Proof.
  intros H. destruct (split_at 5 input) as (magic & r & -> & Hm); [lia|]. rewrite length_app in H.
  destruct r as [|version [|k [|c0 [|c1 tail]]]]; cbn in H; try lia.
  by exists magic, version, k, c0, c1, tail.
Qed.

Lemma wire_context_split kind items :
  Z.of_nat (length items) ≤ 65535 →
  ∃ c0 c1, wire_context kind items =
      CONTEXT_MAGIC ++ [AUTH_V3_CONTEXT_ENCODING_VERSION; u8 kind; c0; c1] ++ wire_items items ∧
    load_le [c0; c1] = Z.of_nat (length items).
Proof.
  intros H. unfold wire_context. pose proof (load_store_le_2 (Z.of_nat (length items)) ltac:(unfold is_u16; lia)) as E.
  pose proof (length_store_le 2 (Z.of_nat (length items))) as L.
  destruct (store_le 2 (Z.of_nat (length items))) as [|c0 [|c1 [|]]]; try done. by exists c0, c1.
Qed.

Lemma length_wire_items items : (5 * length items ≤ length (wire_items items))%nat.
Proof.
  induction items as [|it items IH]; [done|]. unfold wire_items in *. cbn [map concat length].
  rewrite length_app, length_wire_item. lia.
Qed.

(** The checks on the header, for an input that is split. *)
Lemma parse_impl_header magic version k c0 c1 tail null cap capture :
  length magic = 5%nat →
  let input := magic ++ [version; k; c0; c1] ++ tail in
  let n := Z.to_nat (load_le [c0; c1]) in
  parse_impl (Some input) null cap capture =
    (check (memeq magic CONTEXT_MAGIC) AUTH_V3_CONTEXT_PARSE_INVALID_MAGIC;;
     check (bool_decide (version = AUTH_V3_CONTEXT_ENCODING_VERSION)) AUTH_V3_CONTEXT_PARSE_UNSUPPORTED_VERSION;;
     check (negb ((b2z k <? 1) || (3 <? b2z k))) AUTH_V3_CONTEXT_PARSE_UNKNOWN_KIND;;
     check (n <=? length tail / 5)%nat AUTH_V3_CONTEXT_PARSE_TRUNCATED;;
     check (negb (capture && (cap <? n)%nat)) AUTH_V3_CONTEXT_PARSE_ENTRY_BUFFER_TOO_SMALL;;
     check (negb (capture && (0 <? n)%nat && null)) AUTH_V3_CONTEXT_PARSE_INVALID_ARGUMENT;;
     match parse_loop input (b2z k) capture n 0 0 9%nat with
     | (Ok entries, offset) =>
         check (offset =? length input)%nat AUTH_V3_CONTEXT_PARSE_TRAILING_BYTES;;
         mret (b2z k, entries)
     | (Err e, _) => Err e
     | (Fault, _) => Fault
     end).
Proof.
  intros Hm input n. unfold parse_impl. cbn [nonnull mbind outcome_bind].
  assert (Hl : length input = (9 + length tail)%nat) by (unfold input; rewrite !length_app, Hm; done).
  assert (Hat : at_pos input 5 ([version; k; c0; c1] ++ tail)) by (unfold input; rewrite <- Hm; split; [len|apply drop_app_length]).
  rewrite Hl. replace (9 <=? 9 + length tail)%nat with true by (symmetry; apply Nat.leb_le; lia).
  cbn [check mbind outcome_bind]. rewrite (loadn_app (E:=Z) [] magic _ 0 5 eq_refl (eq_sym Hm) : loadn input 0 AUTH_V3_CONTEXT_MAGIC_LEN = _).
  cbn [mbind outcome_bind].
  rewrite (load8_ok _ 5 version) by exact (at_pos_nth _ _ _ 0 Hat).
  rewrite (load8_ok _ 6 k) by exact (at_pos_nth _ _ _ 1 Hat).
  rewrite (load_u16_at _ _ _ 2 c0 c1 Hat eq_refl eq_refl : load_u16_le input 7 = _).
  replace (9 + length tail - 9)%nat with (length tail) by lia.
  destruct (memeq magic CONTEXT_MAGIC); [|done]. cbn [check mbind outcome_bind].
  destruct (bool_decide (version = _)); [|done]. cbn [check mbind outcome_bind].
  change AUTH_V3_CONTEXT_AUTHORIZATION with 1. change AUTH_V3_CONTEXT_CHANNEL_BINDING with 3.
  destruct (negb ((b2z k <? 1) || _)); [|done]. cbn [check mbind outcome_bind]. done.
Qed.

Lemma parse_impl_safe input null cap capture : parse_impl input null cap capture ≠ Fault.
Proof.
  destruct input as [input|]; [|done]. destruct (Nat.leb_spec 9 (length input)) as [H|H].
  2:{ unfold parse_impl. cbn [nonnull mbind outcome_bind]. by rewrite (proj2 (Nat.leb_gt _ _)). }
  apply header_split in H as (magic & version & k & c0 & c1 & tail & -> & Hm).
  rewrite parse_impl_header by done.
  assert (Hat : at_pos (magic ++ [version; k; c0; c1] ++ tail) 9 tail).
  { rewrite app_assoc. replace 9%nat with (length (magic ++ [version; k; c0; c1])) by (rewrite length_app, Hm; done).
    split; [len|apply drop_app_length]. }
  pose proof (parse_loop_sound _ (b2z k) capture (Z.to_nat (load_le [c0; c1])) 0 0 9 _ Hat ltac:(done) ltac:(lia)) as Hs.
  unfold check, mbind, outcome_bind. repeat case_match; try done.
Qed.

Lemma parse_impl_exact input null cap capture kind es :
  parse_impl (Some input) null cap capture = Ok (kind, es) ↔
  ∃ items, canonical_context kind items ∧ input = wire_context kind items ∧ es = captured capture items ∧
    (capture = true → (length items ≤ cap)%nat ∧ (items ≠ [] → null = false)).
Proof.
  split.
  - intros H. destruct (Nat.leb_spec 9 (length input)) as [Hl|Hl].
    2:{ unfold parse_impl in H. cbn [nonnull mbind outcome_bind] in H. by rewrite (proj2 (Nat.leb_gt _ _)) in H. }
    apply header_split in Hl as (magic & version & k & c0 & c1 & tail & -> & Hm).
    rewrite parse_impl_header in H by done.
    repeat (apply outcome_bind_ok_inv in H as (? & ?%check_ok_inv & H)).
    assert (Hat : at_pos (magic ++ [version; k; c0; c1] ++ tail) 9 tail).
    { rewrite app_assoc. replace 9%nat with (length (magic ++ [version; k; c0; c1])) by (rewrite length_app, Hm; done).
      split; [len|apply drop_app_length]. }
    pose proof (parse_loop_sound _ (b2z k) capture (Z.to_nat (load_le [c0; c1])) 0 0 9 _ Hat ltac:(done) ltac:(lia)) as Hs.
    destruct (parse_loop _ _ _ _ _ _ _) as [[es'|z|] off']; [|done..].
    apply outcome_bind_ok_inv in H as (? & Ho%check_ok_inv & H). injection H as <- <-.
    destruct Hs as (items & rest' & Hn & Hc & -> & Hat' & ->). bool_to_prop.
    subst off'. apply at_pos_length in Hat'. destruct rest'; [|cbn in Hat'; lia].
    pose proof (load_le_is_u16 [c0; c1] eq_refl) as [? ?]. case_bool_decide; [subst version magic|done].
    exists items. rewrite app_nil_r. split_and!; [split_and!; [|lia|done]| |done|].
    + unfold kind_ok. lia.
    + unfold wire_context. replace (Z.of_nat (length items)) with (load_le [c0; c1]) by lia.
      by rewrite (store_load_le_n 2), u8_b2z.
    + intros ->. cbn [andb] in *. bool_to_prop.
      rewrite Hn. split; [done|]. intros Hne. destruct null; [|done]. destruct items; [done|]. cbn in Hn.
      rewrite andb_true_r in *. bool_to_prop. lia.
  - intros (items & (Hk & Hl & Hc) & -> & -> & Hcap).
    destruct (wire_context_split kind items Hl) as (c0 & c1 & -> & E). rewrite parse_impl_header by done.
    rewrite memeq_refl, bool_decide_true, E, Nat2Z.id, b2z_u8, Z.mod_small by (done || unfold kind_ok in Hk; lia).
    unfold kind_ok in Hk. rewrite (proj2 (Z.ltb_ge _ 1)), (proj2 (Z.ltb_ge 3 _)) by lia.
    assert ((length items <=? length (wire_items items) / 5)%nat = true) as ->.
    { apply Nat.leb_le, Nat.div_le_lower_bound; [lia|]. pose proof (length_wire_items items). lia. }
    assert (capture && (cap <? length items)%nat = false) as ->.
    { destruct capture; [|done]. apply Nat.ltb_ge, Hcap. done. }
    assert (capture && (0 <? length items)%nat && null = false) as ->.
    { destruct capture; [|done]. destruct items; [done|]. cbn. destruct (Hcap eq_refl) as [_ Hn]. by apply Hn. }
    cbn [check negb orb mbind outcome_bind].
    erewrite (parse_loop_complete _ kind capture items 0 0 9 []); [|rewrite app_nil_r|done|lia].
    + rewrite (proj2 (Nat.eqb_eq _ _)) by (rewrite !length_app; done). done.
    + by split; [rewrite !length_app; cbn; lia|].
Qed.

Lemma parse_bytes_exact input null cap kind es :
  auth_v3_context_parse_bytes (Some input) null cap = Ok (kind, es) ↔
  ∃ items, canonical_context kind items ∧ input = wire_context kind items ∧ es = map entry_of items ∧
    (length items ≤ cap)%nat ∧ (items ≠ [] → null = false).
Proof.
  unfold auth_v3_context_parse_bytes. rewrite parse_impl_exact.
  split; intros (items & H1 & H2 & H3 & H4); exists items; [destruct (H4 eq_refl)|]; split_and!; auto.
Qed.

Lemma hash_bytes_exact {NaCl : Sodium} input h :
  auth_v3_context_hash_bytes (Some input) = Ok h ↔
  ∃ kind items, canonical_context kind items ∧ input = wire_context kind items ∧ h = crypto_hash_sha256 input.
Proof.
  unfold auth_v3_context_hash_bytes. split.
  - intros ([kind es] & (items & Hc & -> & _)%parse_impl_exact & Hh)%outcome_bind_ok_inv.
    injection Hh as <-. by exists kind, items.
  - intros (kind & items & Hc & -> & ->).
    assert (parse_impl (Some (wire_context kind items)) true 0 false = Ok (kind, [])) as ->; [|done].
    apply parse_impl_exact. by exists items.
Qed.

Lemma entry_of_representable kind prev items :
  canonical kind prev items → 0 ≤ prev →
  Forall representable (map entry_of items) ∧ Forall present (map entry_of items).
Proof.
  revert prev. induction items as [|[id v] items IH]; intros prev Hc Hp; [done|].
  destruct Hc as (? & ? & ? & Hc). destruct (IH id Hc ltac:(lia)) as [Hr Hpr]. cbn [map].
  split; constructor; try done. split_and!; cbn; [unfold is_u16; lia|done|]. intros w [= <-]. done.
Qed.

(** Contexts with the same encoding have the same entries. *)
Lemma wire_context_inj k1 k2 i1 i2 :
  canonical_context k1 i1 → canonical_context k2 i2 → wire_context k1 i1 = wire_context k2 i2 → k1 = k2 ∧ i1 = i2.
Proof.
  intros H1 H2 E. set (cap := (length i1 + length i2)%nat).
  assert (parse_impl (Some (wire_context k1 i1)) false cap true = Ok (k1, map entry_of i1)) as P1.
  { apply parse_impl_exact. exists i1. split_and!; try done. intros _. split; [lia|done]. }
  assert (parse_impl (Some (wire_context k2 i2)) false cap true = Ok (k2, map entry_of i2)) as P2.
  { apply parse_impl_exact. exists i2. split_and!; try done. intros _. split; [lia|done]. }
  rewrite E, P2 in P1. injection P1 as -> Em. split; [done|].
  apply (f_equal (map item_of)) in Em. by rewrite !map_item_of_entry_of in Em.
Qed.

(** ** The properties *)

(** C23: the context parser accepts exactly the canonical encodings (magic, version,
    a known kind, ids that increase strictly, no flag, no byte left over) that fit
    the caller's array, and returns the kind and the entries that were encoded; for
    no input does it read outside the input. *)
Theorem context_parse_exact input null cap kind es :
  (auth_v3_context_parse_bytes (Some input) null cap = Ok (kind, es) ↔
   ∃ items, canonical_context kind items ∧ input = wire_context kind items ∧ es = map entry_of items ∧
     (length items ≤ cap)%nat ∧ (items ≠ [] → null = false)) ∧
  auth_v3_context_parse_bytes (Some input) null cap ≠ Fault.
Proof. split; [apply parse_bytes_exact|apply parse_impl_safe]. Qed.

(** For entries whose fields are in range, the encoder succeeds exactly when
    the kind and the entries are canonical, no non-empty value is NULL and the
    buffer is large enough; it then writes the encoding and nothing else, and any
    error leaves the buffer untouched. *)
Theorem context_encode_exact kind l out :
  Forall representable l → is_u64 (Z.of_nat (length out)) →
  let ok := Forall present l ∧ canonical_context kind (map item_of l) in
  let wire := wire_context kind (map item_of l) in
  match auth_v3_context_encode kind (Some l) (length l) out with
  | (Ok n, out') => ok ∧ n = length wire ∧ (n ≤ length out)%nat ∧ out' = written wire out
  | (Err e, out') => out' = out ∧
      (ok → e = AUTH_V3_CONTEXT_BUFFER_TOO_SMALL ∧ (length out < length wire)%nat)
  | (Fault, _) => False
  end.
Proof.
  intros Hr Hu ok wire. pose proof (validate_entries_spec kind l Hr) as Hv.
  destruct (validate_entries kind (Some l) (length l)) as [t|z|] eqn:Ev; [|..|done].
  - destruct Hv as (? & ? & _). rewrite encode_run by done. fold wire.
    by destruct (Nat.leb_spec (length wire) (length out)).
  - unfold auth_v3_context_encode. rewrite bind_run, Ev. split; [done|]. intros Hok. by destruct Hv.
Qed.

Lemma context_encode_exact_witness :
  let l := [{| e_id := 1; e_value := Some [Byte.x61]; e_value_len := 1 |}] in
  Forall representable l ∧
  match auth_v3_context_encode 1 (Some l) 1 (zeros 15) with
  | (Ok n, out) => n = 15%nat ∧ out = wire_context 1 (map item_of l)
  | _ => False
  end.
Proof.
  assert (H : Forall representable [{| e_id := 1; e_value := Some [Byte.x61]; e_value_len := 1 |}]).
  { constructor; [|done]. split_and!; [unfold is_u16; cbn; lia|cbn; lia|]. intros v [= <-]. cbn. lia. }
  split; [done|]. pose proof (context_encode_exact 1 _ (zeros 15) H ltac:(concrete_range)) as E.
  destruct (auth_v3_context_encode _ _ _ _) as [[n|z|] out] eqn:Ee; [|by vm_compute in Ee|done].
  destruct E as (_ & -> & _ & ->). done.
Defined.

(** What the encoder writes for a canonical context is parsed back to the same
    kind and entries, and the streaming hash of the entries is the hash of those
    bytes. *)
Theorem context_roundtrip {NaCl : Sodium} kind items out cap :
  canonical_context kind items → is_u64 (Z.of_nat (length out)) →
  (length (wire_context kind items) ≤ length out)%nat → (length items ≤ cap)%nat →
  ∃ n out', auth_v3_context_encode kind (Some (map entry_of items)) (length items) out = (Ok n, out') ∧
    auth_v3_context_parse_bytes (Some (take n out')) false cap = Ok (kind, map entry_of items) ∧
    auth_v3_context_hash kind (Some (map entry_of items)) (length items) =
      auth_v3_context_hash_bytes (Some (take n out')).
Proof.
  intros Hc Hu Hl Hcap. destruct (entry_of_representable kind 0 items) as [Hr Hp]; [apply Hc|lia|].
  pose proof (encode_run kind (map entry_of items) out Hr Hp) as E. pose proof (hash_run kind _ Hr Hp) as Eh.
  rewrite map_item_of_entry_of, length_map in *. rewrite (Eh Hc), (E Hc Hu), (proj2 (Nat.leb_le _ _)) by done.
  eexists _, _. split; [done|]. rewrite take_written. split.
  - apply parse_bytes_exact. exists items. by split_and!.
  - symmetry. apply hash_bytes_exact. by exists kind, items.
Qed.

Lemma context_roundtrip_witness :
  let items := [(1, [Byte.x61]); (2, [])] in
  canonical_context 1 items ∧
  ∃ n out, auth_v3_context_encode 1 (Some (map entry_of items)) 2 (zeros 20) = (Ok n, out) ∧
    auth_v3_context_parse_bytes (Some (take n out)) false 2 = Ok (1, map entry_of items).
Proof.
  assert (H : canonical_context 1 [(1, [Byte.x61]); (2, [])]) by (repeat split; cbn; lia || done).
  split; [done|].
  destruct (@context_roundtrip Toy.sodium 1 _ (zeros 20) 2 H) as (n & out & E & P & _);
    [concrete_range|vm_compute; lia..|].
  by exists n, out.
Defined.
