(* ===== verification/V3Authz.v ===== *)
(** The AUTH v3 iot-core authorization context:
    [src/c/include/auth/auth_v3_iot_core_authz.h] and
    [src/c/src/proto/auth_v3_iot_core_authz.c].

    An authorization context is a context value of kind AUTHORIZATION with seven
    fixed entries, 148 bytes.  Attribution finds the one record of a credential
    reference and compares it with the context. *)
From S2P Require Export V3Context.

#[local] Open Scope Z_scope.

Definition AUTH_V3_IOT_CORE_AUTHZ_HOLDER_BINDING_ID : Z := 1.
Definition AUTH_V3_IOT_CORE_AUTHZ_AUDIENCE_ID : Z := 2.
Definition AUTH_V3_IOT_CORE_AUTHZ_ROLE_POLICY_ID : Z := 3.
Definition AUTH_V3_IOT_CORE_AUTHZ_SCOPE_BITS_ID : Z := 4.
Definition AUTH_V3_IOT_CORE_AUTHZ_GENERATION_ID : Z := 5.
Definition AUTH_V3_IOT_CORE_AUTHZ_POLICY_EPOCH_ID : Z := 6.
Definition AUTH_V3_IOT_CORE_AUTHZ_REVOCATION_EPOCH_ID : Z := 7.

Definition AUTH_V3_IOT_CORE_SCOPE_SECURE_ASSOCIATION : Z := 1.
Definition AUTH_V3_IOT_CORE_AUTHZ_ENTRY_COUNT : nat := 7.
Definition AUTH_V3_IOT_CORE_AUTHZ_CANONICAL_LEN : nat := 148.

Record auth_v3_iot_core_authorization_context_v1_t := {
  ac_holder_binding : bytes;
  ac_audience_id : bytes;
  ac_role_policy_id : Z;
  ac_scope_bits : Z;
  ac_authorization_generation : Z;
  ac_policy_epoch : Z;
  ac_revocation_epoch : Z
}.

Record auth_v3_iot_core_attribution_record_v1_t := {
  ar_credential_reference : bytes;
  ar_peer_identity : bytes;
  ar_holder_binding : bytes;
  ar_audience_id : bytes;
  ar_role_policy_id : Z;
  ar_scope_bits : Z;
  ar_authorization_generation : Z;
  ar_policy_epoch : Z;
  ar_revocation_epoch : Z
}.

Definition AUTH_V3_IOT_CORE_AUTHZ_INVALID_ARGUMENT : Z := -100.
Definition AUTH_V3_IOT_CORE_AUTHZ_INVALID_HOLDER : Z := -101.
Definition AUTH_V3_IOT_CORE_AUTHZ_INVALID_AUDIENCE : Z := -102.
Definition AUTH_V3_IOT_CORE_AUTHZ_INVALID_ROLE_POLICY : Z := -103.
Definition AUTH_V3_IOT_CORE_AUTHZ_INVALID_SCOPE : Z := -104.
Definition AUTH_V3_IOT_CORE_AUTHZ_INVALID_GENERATION : Z := -105.
Definition AUTH_V3_IOT_CORE_AUTHZ_INVALID_POLICY_EPOCH : Z := -106.
Definition AUTH_V3_IOT_CORE_AUTHZ_INVALID_REVOCATION_EPOCH : Z := -107.
Definition AUTH_V3_IOT_CORE_AUTHZ_INVALID_ENCODING_LENGTH : Z := -108.
Definition AUTH_V3_IOT_CORE_AUTHZ_INVALID_CONTEXT_KIND : Z := -109.
Definition AUTH_V3_IOT_CORE_AUTHZ_INVALID_ENTRY_SCHEMA : Z := -110.
Definition AUTH_V3_IOT_CORE_AUTHZ_ENTRY_LIMIT_EXCEEDED : Z := -111.
Definition AUTH_V3_IOT_CORE_AUTHZ_INVALID_ENCODING : Z := -112.
Definition AUTH_V3_IOT_CORE_ATTRIBUTION_MISSING_REFERENCE : Z := -120.
Definition AUTH_V3_IOT_CORE_ATTRIBUTION_AMBIGUOUS_REFERENCE : Z := -121.
Definition AUTH_V3_IOT_CORE_ATTRIBUTION_IDENTITY_MISMATCH : Z := -122.
Definition AUTH_V3_IOT_CORE_ATTRIBUTION_AUTHORIZATION_MISMATCH : Z := -123.

(** ** The fields *)
(** [acc |= value[i]], then [acc == 0] *)
Definition all_zero (value : bytes) : bool := foldl (λ acc b, Z.lor acc (b2z b)) 0 value =? 0.

Definition store_u64_le (value : Z) : bytes := store_le 8 value.

Definition load_u64_le (p : bytes) : outcome Z Z := x ← loadn p 0 8; mret (load_le x).

Definition auth_v3_iot_core_authz_validate (context : ptr auth_v3_iot_core_authorization_context_v1_t) :
    outcome Z unit :=
  context ← nonnull context AUTH_V3_IOT_CORE_AUTHZ_INVALID_ARGUMENT;
  check (negb (all_zero (ac_holder_binding context))) AUTH_V3_IOT_CORE_AUTHZ_INVALID_HOLDER;;
  check (negb (all_zero (ac_audience_id context))) AUTH_V3_IOT_CORE_AUTHZ_INVALID_AUDIENCE;;
  check (negb (ac_role_policy_id context =? 0)) AUTH_V3_IOT_CORE_AUTHZ_INVALID_ROLE_POLICY;;
  check (ac_scope_bits context =? AUTH_V3_IOT_CORE_SCOPE_SECURE_ASSOCIATION) AUTH_V3_IOT_CORE_AUTHZ_INVALID_SCOPE;;
  check (negb (ac_authorization_generation context =? 0)) AUTH_V3_IOT_CORE_AUTHZ_INVALID_GENERATION;;
  check (negb (ac_policy_epoch context =? 0)) AUTH_V3_IOT_CORE_AUTHZ_INVALID_POLICY_EPOCH;;
  check (negb (ac_revocation_epoch context =? 0)) AUTH_V3_IOT_CORE_AUTHZ_INVALID_REVOCATION_EPOCH.

(** ** Encoding *)
(** [entries[i]] with its id, a value and its length *)
Definition mk_entry (id : Z) (value : bytes) (value_len : nat) : auth_v3_context_entry_t :=
  {| e_id := id; e_value := Some value; e_value_len := value_len |}.

Definition build_entries (context : ptr auth_v3_iot_core_authorization_context_v1_t) :
    outcome Z (list auth_v3_context_entry_t) :=
  auth_v3_iot_core_authz_validate context;;
  context ← nonnull context AUTH_V3_IOT_CORE_AUTHZ_INVALID_ARGUMENT;
  mret [mk_entry AUTH_V3_IOT_CORE_AUTHZ_HOLDER_BINDING_ID (ac_holder_binding context) 32;
        mk_entry AUTH_V3_IOT_CORE_AUTHZ_AUDIENCE_ID (ac_audience_id context) 32;
        mk_entry AUTH_V3_IOT_CORE_AUTHZ_ROLE_POLICY_ID (store_u64_le (ac_role_policy_id context)) 8;
        mk_entry AUTH_V3_IOT_CORE_AUTHZ_SCOPE_BITS_ID (store_u64_le (ac_scope_bits context)) 8;
        mk_entry AUTH_V3_IOT_CORE_AUTHZ_GENERATION_ID (store_u64_le (ac_authorization_generation context)) 8;
        mk_entry AUTH_V3_IOT_CORE_AUTHZ_POLICY_EPOCH_ID (store_u64_le (ac_policy_epoch context)) 8;
        mk_entry AUTH_V3_IOT_CORE_AUTHZ_REVOCATION_EPOCH_ID (store_u64_le (ac_revocation_epoch context)) 8].

Definition auth_v3_iot_core_authz_encode (context : ptr auth_v3_iot_core_authorization_context_v1_t) :
    M Z bytes nat :=
  entries ← lift (build_entries context);
  out_len ← auth_v3_context_encode AUTH_V3_CONTEXT_AUTHORIZATION (Some entries) 7;
  require (out_len =? AUTH_V3_IOT_CORE_AUTHZ_CANONICAL_LEN)%nat AUTH_V3_IOT_CORE_AUTHZ_INVALID_ARGUMENT;;
  mret out_len.

Definition auth_v3_iot_core_authz_hash {NaCl : Sodium}
    (context : ptr auth_v3_iot_core_authorization_context_v1_t) : outcome Z bytes :=
  entries ← build_entries context;
  auth_v3_context_hash AUTH_V3_CONTEXT_AUTHORIZATION (Some entries) 7.

(** ** Decoding *)
Definition expected_ids : list Z :=
  [AUTH_V3_IOT_CORE_AUTHZ_HOLDER_BINDING_ID; AUTH_V3_IOT_CORE_AUTHZ_AUDIENCE_ID;
   AUTH_V3_IOT_CORE_AUTHZ_ROLE_POLICY_ID; AUTH_V3_IOT_CORE_AUTHZ_SCOPE_BITS_ID;
   AUTH_V3_IOT_CORE_AUTHZ_GENERATION_ID; AUTH_V3_IOT_CORE_AUTHZ_POLICY_EPOCH_ID;
   AUTH_V3_IOT_CORE_AUTHZ_REVOCATION_EPOCH_ID].

Definition expected_lengths : list nat := [32; 32; 8; 8; 8; 8; 8]%nat.

(** The loop over [i .. i + n - 1] *)
Fixpoint schema_loop (entries : list auth_v3_context_entry_t) (n i : nat) : outcome Z unit :=
  match n with
  | O => mret tt
  | S n =>
      entry ← entry_at entries i;
      match expected_ids !! i, expected_lengths !! i with
      | Some id, Some len =>
          check (negb (negb (e_id entry =? id) || negb (e_value_len entry =? len)%nat))
            AUTH_V3_IOT_CORE_AUTHZ_INVALID_ENTRY_SCHEMA;;
          schema_loop entries n (S i)
      | _, _ => Fault
      end
  end.

(** [entries[i].value], read for [n] bytes *)
Definition entry_bytes (entries : list auth_v3_context_entry_t) (i n : nat) : outcome Z bytes :=
  entry ← entry_at entries i;
  loadn (default [] (e_value entry)) 0 n.

Definition entry_u64 (entries : list auth_v3_context_entry_t) (i : nat) : outcome Z Z :=
  entry ← entry_at entries i;
  load_u64_le (default [] (e_value entry)).

Definition zero_authz : auth_v3_iot_core_authorization_context_v1_t :=
  {| ac_holder_binding := zeros 32; ac_audience_id := zeros 32; ac_role_policy_id := 0; ac_scope_bits := 0;
     ac_authorization_generation := 0; ac_policy_epoch := 0; ac_revocation_epoch := 0 |}.

(** The fields after the [memset]. *)
Definition read_fields (entries : list auth_v3_context_entry_t) :
    outcome Z auth_v3_iot_core_authorization_context_v1_t :=
  holder_binding ← entry_bytes entries 0 32;
  audience_id ← entry_bytes entries 1 32;
  role_policy_id ← entry_u64 entries 2;
  scope_bits ← entry_u64 entries 3;
  authorization_generation ← entry_u64 entries 4;
  policy_epoch ← entry_u64 entries 5;
  revocation_epoch ← entry_u64 entries 6;
  mret {| ac_holder_binding := holder_binding; ac_audience_id := audience_id; ac_role_policy_id := role_policy_id;
          ac_scope_bits := scope_bits; ac_authorization_generation := authorization_generation;
          ac_policy_epoch := policy_epoch; ac_revocation_epoch := revocation_epoch |}.

(** The state is [*context_out]. *)
Definition auth_v3_iot_core_authz_decode_bytes (input : ptr bytes) :
    M Z auth_v3_iot_core_authorization_context_v1_t unit :=
  input ← deref input AUTH_V3_IOT_CORE_AUTHZ_INVALID_ARGUMENT;
  require (length input =? AUTH_V3_IOT_CORE_AUTHZ_CANONICAL_LEN)%nat AUTH_V3_IOT_CORE_AUTHZ_INVALID_ENCODING_LENGTH;;
  '(kind, entries) ←
    match auth_v3_context_parse_bytes (Some input) false AUTH_V3_IOT_CORE_AUTHZ_ENTRY_COUNT with
    | Err rc => if rc =? AUTH_V3_CONTEXT_PARSE_ENTRY_BUFFER_TOO_SMALL
                then fail AUTH_V3_IOT_CORE_AUTHZ_ENTRY_LIMIT_EXCEEDED
                else fail AUTH_V3_IOT_CORE_AUTHZ_INVALID_ENCODING
    | o => lift o
    end;
  require (kind =? AUTH_V3_CONTEXT_AUTHORIZATION) AUTH_V3_IOT_CORE_AUTHZ_INVALID_CONTEXT_KIND;;
  require (length entries =? AUTH_V3_IOT_CORE_AUTHZ_ENTRY_COUNT)%nat AUTH_V3_IOT_CORE_AUTHZ_INVALID_ENTRY_SCHEMA;;
  lift (schema_loop entries AUTH_V3_IOT_CORE_AUTHZ_ENTRY_COUNT 0);;
  put zero_authz;;
  fields ← lift (read_fields entries);
  put fields;;
  lift (auth_v3_iot_core_authz_validate (Some fields)).

Definition auth_v3_iot_core_authz_hash_bytes {NaCl : Sodium} (input : ptr bytes) : outcome Z bytes :=
  eval (auth_v3_iot_core_authz_decode_bytes input) zero_authz;;
  input ← nonnull input AUTH_V3_IOT_CORE_AUTHZ_INVALID_ARGUMENT;
  mret (crypto_hash_sha256 input).

(** ** Attribution *)
(** The loop over the records [i .. i + n - 1], with [match_] the one found so far. *)
Fixpoint resolve_loop (records : list auth_v3_iot_core_attribution_record_v1_t) (credential_reference : bytes)
    (n i : nat) (match_ : ptr auth_v3_iot_core_attribution_record_v1_t) :
    outcome Z (ptr auth_v3_iot_core_attribution_record_v1_t) :=
  match n with
  | O => mret match_
  | S n =>
      match records !! i with
      | None => Fault
      | Some r =>
          if memeq (ar_credential_reference r) credential_reference
          then check (bool_decide (match_ = NULL)) AUTH_V3_IOT_CORE_ATTRIBUTION_AMBIGUOUS_REFERENCE;;
               resolve_loop records credential_reference n (S i) (Some r)
          else resolve_loop records credential_reference n (S i) match_
      end
  end.

(** The state is [*record_out]. *)
Definition auth_v3_iot_core_attribution_resolve (records : ptr (list auth_v3_iot_core_attribution_record_v1_t))
    (record_count : nat) (credential_reference expected_peer_identity : ptr bytes)
    (context : ptr auth_v3_iot_core_authorization_context_v1_t) :
    M Z (ptr auth_v3_iot_core_attribution_record_v1_t) unit :=
  require (negb (bool_decide (records = NULL) && negb (record_count =? 0)%nat)) AUTH_V3_IOT_CORE_AUTHZ_INVALID_ARGUMENT;;
  credential_reference ← deref credential_reference AUTH_V3_IOT_CORE_AUTHZ_INVALID_ARGUMENT;
  expected_peer_identity ← deref expected_peer_identity AUTH_V3_IOT_CORE_AUTHZ_INVALID_ARGUMENT;
  context ← deref context AUTH_V3_IOT_CORE_AUTHZ_INVALID_ARGUMENT;
  put NULL;;
  match_ ← lift (resolve_loop (default [] records) credential_reference record_count 0 NULL);
  r ← deref match_ AUTH_V3_IOT_CORE_ATTRIBUTION_MISSING_REFERENCE;
  require (memeq (ar_peer_identity r) expected_peer_identity) AUTH_V3_IOT_CORE_ATTRIBUTION_IDENTITY_MISMATCH;;
  require (negb (negb (memeq (ar_holder_binding r) (ac_holder_binding context)) ||
                 negb (memeq (ar_audience_id r) (ac_audience_id context)) ||
                 negb (ar_role_policy_id r =? ac_role_policy_id context) ||
                 negb (ar_scope_bits r =? ac_scope_bits context) ||
                 negb (ar_authorization_generation r =? ac_authorization_generation context) ||
                 negb (ar_policy_epoch r =? ac_policy_epoch context) ||
                 negb (ar_revocation_epoch r =? ac_revocation_epoch context)))
    AUTH_V3_IOT_CORE_ATTRIBUTION_AUTHORIZATION_MISMATCH;;
  put (Some r).

(** ** Well-formed and valid contexts *)
Record authz_wf (c : auth_v3_iot_core_authorization_context_v1_t) : Prop := {
  wf_holder : is_n 32 (ac_holder_binding c);
  wf_audience : is_n 32 (ac_audience_id c);
  wf_role : is_u64 (ac_role_policy_id c);
  wf_scope : is_u64 (ac_scope_bits c);
  wf_generation : is_u64 (ac_authorization_generation c);
  wf_policy : is_u64 (ac_policy_epoch c);
  wf_revocation : is_u64 (ac_revocation_epoch c)
}.

Record authz_valid (c : auth_v3_iot_core_authorization_context_v1_t) : Prop := {
  valid_holder : ac_holder_binding c ≠ zeros 32;
  valid_audience : ac_audience_id c ≠ zeros 32;
  valid_role : ac_role_policy_id c ≠ 0;
  valid_scope : ac_scope_bits c = 1;
  valid_generation : ac_authorization_generation c ≠ 0;
  valid_policy : ac_policy_epoch c ≠ 0;
  valid_revocation : ac_revocation_epoch c ≠ 0
}.

Definition authz_items (c : auth_v3_iot_core_authorization_context_v1_t) : list item :=
  [(1, ac_holder_binding c); (2, ac_audience_id c); (3, store_le 8 (ac_role_policy_id c));
   (4, store_le 8 (ac_scope_bits c)); (5, store_le 8 (ac_authorization_generation c));
   (6, store_le 8 (ac_policy_epoch c)); (7, store_le 8 (ac_revocation_epoch c))].

Definition wire_authz (c : auth_v3_iot_core_authorization_context_v1_t) : bytes :=
  wire_context AUTH_V3_CONTEXT_AUTHORIZATION (authz_items c).

Lemma foldl_lor_zero v acc :
  0 ≤ acc → foldl (λ acc b, Z.lor acc (b2z b)) acc v = 0 ↔ acc = 0 ∧ v = zeros (length v).
Proof.
  revert acc. induction v as [|b v IH]; intros acc Ha; cbn [foldl length zeros replicate]; [by split; [|intros [? _]]|].
  pose proof (b2z_range b) as [? _].
  rewrite IH by (by apply Z.lor_nonneg). rewrite Z.lor_eq_0_iff. unfold zeros. split.
  - intros [[-> Eb] Ev]. split; [done|]. f_equal; [|done]. apply b2z_inj. by rewrite Eb.
  - intros [-> Ev]. injection Ev as -> Ev. done.
Qed.

Lemma all_zero_spec n v : is_n n v → all_zero v = true ↔ v = zeros n.
Proof. intros <-. unfold all_zero. rewrite Z.eqb_eq, foldl_lor_zero by lia. by split; [intros [_ ?]|]. Qed.

Lemma all_zero_false n v : is_n n v → negb (all_zero v) = true ↔ v ≠ zeros n.
Proof. intros H. rewrite negb_true_iff, <- (all_zero_spec n) by done. by destruct (all_zero v). Qed.

Lemma validate_ok c u :
  authz_wf c → auth_v3_iot_core_authz_validate (Some c) = Ok u ↔ authz_valid c.
Proof.
  intros Hw. destruct Hw. unfold auth_v3_iot_core_authz_validate. cbn [nonnull mbind outcome_bind]. split.
  - intros H. repeat (apply outcome_bind_ok_inv in H as (? & ?%check_ok_inv & H)). apply check_ok_inv in H.
    repeat match goal with
    | H : negb (all_zero _) = true |- _ => apply (all_zero_false 32) in H; [|done]
    | H : negb (_ =? 0) = true |- _ => apply negb_true_iff, Z.eqb_neq in H
    | H : (_ =? _) = true |- _ => apply Z.eqb_eq in H
    end. by constructor.
  - intros [? ? ? Hs ? ? ?]. rewrite (proj2 (all_zero_false 32 (ac_holder_binding c) ltac:(done))) by done.
    rewrite (proj2 (all_zero_false 32 (ac_audience_id c) ltac:(done))) by done. rewrite Hs.
    rewrite (proj2 (Z.eqb_neq (ac_role_policy_id c) 0)), (proj2 (Z.eqb_neq (ac_authorization_generation c) 0)),
      (proj2 (Z.eqb_neq (ac_policy_epoch c) 0)), (proj2 (Z.eqb_neq (ac_revocation_epoch c) 0)) by done.
    by destruct u.
Qed.

Lemma length_wire_authz c : authz_wf c → length (wire_authz c) = AUTH_V3_IOT_CORE_AUTHZ_CANONICAL_LEN.
Proof.
  intros [Hh Ha _ _ _ _ _]. unfold is_n in *. unfold wire_authz, wire_context, wire_items. cbn [authz_items map concat].
  rewrite !length_app, !length_wire_item. cbn [snd]. rewrite Hh, Ha, !length_store_le. done.
Qed.

Lemma authz_items_canonical c : authz_wf c → canonical_context AUTH_V3_CONTEXT_AUTHORIZATION (authz_items c).
Proof.
  intros [Hh Ha _ _ _ _ _]. unfold is_n in *. split_and!; [done|done|]. cbn [authz_items canonical].
  rewrite Hh, Ha, !length_store_le. split_and!; done || lia.
Qed.

Lemma build_entries_run c :
  authz_wf c → authz_valid c → build_entries (Some c) = Ok (map entry_of (authz_items c)).
Proof.
  intros Hw Hv. unfold build_entries. rewrite (proj2 (validate_ok c tt Hw) Hv). destruct Hw as [Hh Ha _ _ _ _ _].
  cbn [mbind outcome_bind nonnull]. unfold entry_of. cbn [map authz_items fst snd].
  by rewrite Hh, Ha, !length_store_le.
Qed.

Lemma build_entries_err c e : authz_wf c → auth_v3_iot_core_authz_validate (Some c) = Err e → build_entries (Some c) = Err e.
Proof. intros _ E. unfold build_entries. by rewrite E. Qed.

(** ** The decoder *)
Lemma load_all {E} v n : is_n n v → loadn (E:=E) v 0 n = Ok v.
Proof. intros <-. by rewrite loadn_ok, drop_0, firstn_all by lia. Qed.

Lemma read_fields_run h a r s g p v :
  is_n 32 h → is_n 32 a → Forall (is_n 8) [r; s; g; p; v] →
  read_fields (map entry_of [(1, h); (2, a); (3, r); (4, s); (5, g); (6, p); (7, v)]) =
    Ok {| ac_holder_binding := h; ac_audience_id := a; ac_role_policy_id := load_le r; ac_scope_bits := load_le s;
          ac_authorization_generation := load_le g; ac_policy_epoch := load_le p; ac_revocation_epoch := load_le v |}.
Proof.
  intros Hh Ha H8. rewrite !list.Forall_cons in H8. destruct H8 as (? & ? & ? & ? & ? & _).
  unfold read_fields, entry_bytes, entry_u64, load_u64_le. cbn -[loadn].
  rewrite (load_all h), (load_all a) by done. cbn -[loadn]. by do 5 (rewrite load_all by done; cbn -[loadn]).
Qed.

Lemma schema_loop_inv items :
  length items = 7%nat → schema_loop (map entry_of items) 7 0 = Ok tt →
  map fst items = expected_ids ∧ map (length ∘ snd) items = expected_lengths.
Proof.
  intros Hl H. do 7 (destruct items as [|[? ?] items]; [done|]). destruct items; [|done].
  cbn in H. repeat (apply outcome_bind_ok_inv in H as (? & ?%check_ok_inv & H)).
  repeat match goal with
  | H : negb (negb (?i =? ?j) || negb (?k =? ?l)%nat) = true |- _ =>
      rewrite negb_orb, !negb_involutive in H; apply andb_true_iff in H as [->%Z.eqb_eq ?%Nat.eqb_eq]
  end.
  unfold expected_lengths. cbn. split; [done|]. congruence.
Qed.

Lemma schema_loop_run items :
  map fst items = expected_ids → map (length ∘ snd) items = expected_lengths →
  schema_loop (map entry_of items) 7 0 = Ok tt.
Proof.
  intros Hi Hl. do 7 (destruct items as [|[? ?] items]; [done|]). destruct items; [|done].
  injection Hi as -> -> -> -> -> -> ->. cbn in Hl. injection Hl as E1 E2 E3 E4 E5 E6 E7.
  cbn. by rewrite E1, E2, E3, E4, E5, E6, E7.
Qed.

Lemma is_u64_load r : is_n 8 r → is_u64 (load_le r).
Proof. apply load_le_is_u64. Qed.

(** A context that comes from seven items of the schema. *)
Lemma authz_items_of items :
  map fst items = expected_ids → map (length ∘ snd) items = expected_lengths →
  ∃ c, authz_wf c ∧ authz_items c = items ∧ read_fields (map entry_of items) = Ok c.
Proof.
  intros Hi Hl. destruct items as [|[? h] [|[? a] [|[? r] [|[? s] [|[? g] [|[? p] [|[? v] [|]]]]]]]]; try done.
  injection Hi as -> -> -> -> -> -> ->. unfold expected_lengths in Hl. cbn in Hl. injection Hl as Hh Ha Hr Hs Hg Hp Hv.
  eexists. split; [|split; [|by apply read_fields_run; repeat constructor]].
  - constructor; cbn; try done; by apply is_u64_load.
  - unfold authz_items. cbn. by rewrite !(store_load_le_n 8).
Qed.

Lemma read_fields_items c : authz_wf c → read_fields (map entry_of (authz_items c)) = Ok c.
Proof.
  intros [Hh Ha ? ? ? ? ?]. unfold authz_items. rewrite read_fields_run; [|done..|].
  - rewrite !load_store_le_8 by done. by destruct c.
  - repeat constructor; apply length_store_le.
Qed.

Lemma schema_items c : authz_wf c → map (length ∘ snd) (authz_items c) = expected_lengths.
Proof. intros [Hh Ha _ _ _ _ _]. unfold authz_items. cbn. by rewrite Hh, Ha, !length_store_le. Qed.

(** Decoding the encoding of any context of the right sizes ends in its validation. *)
Lemma decode_wire c c0 :
  authz_wf c →
  auth_v3_iot_core_authz_decode_bytes (Some (wire_authz c)) c0 = (auth_v3_iot_core_authz_validate (Some c), c).
Proof.
  intros Hw. unfold auth_v3_iot_core_authz_decode_bytes. mstep.
  rewrite length_wire_authz, Nat.eqb_refl by done. mstep.
  assert (auth_v3_context_parse_bytes (Some (wire_authz c)) false AUTH_V3_IOT_CORE_AUTHZ_ENTRY_COUNT =
    Ok (1, map entry_of (authz_items c))) as ->.
  { apply parse_bytes_exact. exists (authz_items c). split_and!; try done. by apply authz_items_canonical. }
  mstep. rewrite (proj2 (Z.eqb_eq _ _)) by done. mstep. rewrite length_map, (proj2 (Nat.eqb_eq _ _)) by done. mstep.
  mstep. rewrite schema_loop_run by (done || by apply schema_items).
  do 2 mstep. by rewrite read_fields_items.
Qed.

Lemma schema_loop_cases items :
  length items = 7%nat →
  (map fst items = expected_ids ∧ map (length ∘ snd) items = expected_lengths) ∨
  ∃ e, schema_loop (map entry_of items) 7 0 = Err e.
Proof.
  intros Hl. destruct (schema_loop (map entry_of items) 7 0) as [[]|e|] eqn:E; [left|right; eauto|exfalso].
  - by apply schema_loop_inv.
  - do 7 (destruct items as [|[? ?] items]; [done|]). destruct items; [|done].
    cbn in E. unfold check in E. repeat case_match; done.
Qed.

(** Decoding refuses the input before it writes [*context_out], or the input is the
    encoding of some context of the right sizes. *)
Lemma decode_cases input c0 :
  (∃ e, auth_v3_iot_core_authz_decode_bytes (Some input) c0 = (Err e, c0)) ∨
  ∃ c, authz_wf c ∧ input = wire_authz c.
Proof.
  unfold auth_v3_iot_core_authz_decode_bytes. mstep.
  destruct (length input =? _)%nat; [|left; by eexists]. mstep.
  destruct (auth_v3_context_parse_bytes _ _ _) as [[kind es]|rc|] eqn:Ep.
  - apply parse_bytes_exact in Ep as (items & Hc & -> & -> & _). mstep.
    destruct (Z.eqb_spec kind AUTH_V3_CONTEXT_AUTHORIZATION) as [->|]; [|left; by eexists]. mstep.
    rewrite length_map. destruct (Nat.eqb_spec (length items) AUTH_V3_IOT_CORE_AUTHZ_ENTRY_COUNT) as [Hl|]; [|left; by eexists].
    mstep. destruct (schema_loop_cases items Hl) as [[Hi Hle]|[e He]].
    + right. destruct (authz_items_of items Hi Hle) as (c & Hw & <- & _). by exists c.
    + left. exists e. rewrite bind_run. unfold lift. change AUTH_V3_IOT_CORE_AUTHZ_ENTRY_COUNT with 7%nat. by rewrite He.
  - left. destruct (rc =? _); by eexists.
  - by apply parse_impl_safe in Ep.
Qed.

(** ** Attribution as a search *)
Definition with_reference (credential_reference : bytes)
    (records : list auth_v3_iot_core_attribution_record_v1_t) : list auth_v3_iot_core_attribution_record_v1_t :=
  filter (λ r, ar_credential_reference r = credential_reference) records.

Lemma resolve_loop_run records ref l i m :
  drop i records = l →
  resolve_loop records ref (length l) i m =
    match m, with_reference ref l with
    | m, [] => Ok m
    | None, [r] => Ok (Some r)
    | _, _ => Err AUTH_V3_IOT_CORE_ATTRIBUTION_AMBIGUOUS_REFERENCE
    end.
Proof.
  revert i m. induction l as [|r l IH]; intros i m Hd; [by destruct m|]. cbn [length resolve_loop].
  assert (records !! i = Some r) as Hr by (by rewrite <- (Nat.add_0_r i), <- lookup_drop, Hd).
  assert (drop (S i) records = l) as Hd' by (by rewrite <- Nat.add_1_r, <- drop_drop, Hd).
  rewrite Hr. unfold with_reference. rewrite filter_cons. unfold memeq. case_bool_decide.
  - rewrite decide_True by done. destruct m; [done|]. cbn [check mbind outcome_bind]. rewrite bool_decide_true by done.
    cbn [check mbind outcome_bind]. rewrite IH by done. fold (with_reference ref l). by destruct (with_reference ref l) as [|? [|]].
  - rewrite decide_False by done. by apply IH.
Qed.

(** The context that a record grants. *)
Definition granted (r : auth_v3_iot_core_attribution_record_v1_t) : auth_v3_iot_core_authorization_context_v1_t :=
  {| ac_holder_binding := ar_holder_binding r; ac_audience_id := ar_audience_id r;
     ac_role_policy_id := ar_role_policy_id r; ac_scope_bits := ar_scope_bits r;
     ac_authorization_generation := ar_authorization_generation r; ac_policy_epoch := ar_policy_epoch r;
     ac_revocation_epoch := ar_revocation_epoch r |}.

#[export] Instance authz_context_eq_dec : EqDecision auth_v3_iot_core_authorization_context_v1_t.
Proof. solve_decision. Defined.

#[export] Instance attribution_record_eq_dec : EqDecision auth_v3_iot_core_attribution_record_v1_t.
Proof. solve_decision. Defined.

(** ** The properties *)

(** C24: decoding accepts exactly the 148-byte encodings of valid contexts (non-zero
    holder, audience, policy, generation and epochs, the one scope bit) and returns
    the context that was encoded; an error leaves [*context_out] as it was or with
    a context that validation refuses, and no input makes it read outside. *)
Theorem authz_decode_exact input c0 :
  match auth_v3_iot_core_authz_decode_bytes (Some input) c0 with
  | (Ok _, c) => authz_wf c ∧ authz_valid c ∧ input = wire_authz c
  | (Err _, c) => (∀ c', authz_wf c' → authz_valid c' → input ≠ wire_authz c') ∧ (c = c0 ∨ ¬ authz_valid c)
  | (Fault, _) => False
  end.
Proof.
  destruct (decode_cases input c0) as [[e He]|(c & Hw & ->)].
  - rewrite He. split; [|by left]. intros c' Hw Hv ->. rewrite decode_wire, (proj2 (validate_ok c' tt Hw) Hv) in He; done.
  - rewrite decode_wire by done. pose proof (validate_ok c tt Hw) as Hok.
    destruct (auth_v3_iot_core_authz_validate (Some c)) as [[]|e|] eqn:E.
    + split_and!; [done|by apply Hok|done].
    + split; [|right; intros Hv; by apply Hok in Hv]. intros c' Hw' Hv' Ew.
      pose proof (decode_wire c zero_authz Hw) as D. rewrite Ew, decode_wire, (proj2 (validate_ok c' tt Hw') Hv'), E in D; done.
    + unfold auth_v3_iot_core_authz_validate, check in E. cbn in E. repeat case_match; done.
Qed.

(** A valid context is encoded in 148 bytes that decode to it, and both hash
    functions give the hash of those bytes. *)
Theorem authz_roundtrip {NaCl : Sodium} c out c0 :
  authz_wf c → authz_valid c → is_u64 (Z.of_nat (length out)) → (148 ≤ length out)%nat →
  auth_v3_iot_core_authz_encode (Some c) out = (Ok 148%nat, written (wire_authz c) out) ∧
  auth_v3_iot_core_authz_decode_bytes (Some (take 148 (written (wire_authz c) out))) c0 = (Ok tt, c) ∧
  auth_v3_iot_core_authz_hash (Some c) = Ok (crypto_hash_sha256 (wire_authz c)) ∧
  auth_v3_iot_core_authz_hash_bytes (Some (wire_authz c)) = auth_v3_iot_core_authz_hash (Some c).
Proof.
  intros Hw Hv Hu Hl. pose proof (authz_items_canonical c Hw) as Hc. pose proof (length_wire_authz c Hw) as L.
  destruct (entry_of_representable AUTH_V3_CONTEXT_AUTHORIZATION 0 (authz_items c)) as [Hr Hp]; [apply Hc|lia|].
  pose proof (encode_run AUTH_V3_CONTEXT_AUTHORIZATION _ out Hr Hp) as E. pose proof (hash_run AUTH_V3_CONTEXT_AUTHORIZATION _ Hr Hp) as Eh.
  rewrite map_item_of_entry_of, length_map in *. cbn [length authz_items] in E, Eh.
  change (wire_context _ (authz_items c)) with (wire_authz c) in *. rewrite L in E.
  assert (auth_v3_iot_core_authz_hash (Some c) = Ok (crypto_hash_sha256 (wire_authz c))) as Ehash.
  { unfold auth_v3_iot_core_authz_hash. rewrite build_entries_run by done. cbn [mbind outcome_bind]. by rewrite Eh. }
  split_and!; [| | done|].
  - unfold auth_v3_iot_core_authz_encode. rewrite build_entries_run by done. mstep.
    rewrite bind_run, E, (proj2 (Nat.leb_le _ _)) by done. by mstep.
  - rewrite <- L at 1. rewrite take_written, decode_wire by done. f_equal. by apply validate_ok.
  - rewrite Ehash. unfold auth_v3_iot_core_authz_hash_bytes, eval. rewrite decode_wire by done. cbn [fst].
    by rewrite (proj2 (validate_ok c tt Hw) Hv).
Qed.

(** Attribution succeeds exactly when one record has the credential reference,
    it names the expected peer and it grants exactly the context; the code tells a
    missing reference, an ambiguous one, another peer and another authorization
    apart, and [*record_out] is NULL after every error. *)
Theorem attribution_resolve_exact records reference peer c r0 :
  auth_v3_iot_core_attribution_resolve (Some records) (length records) (Some reference) (Some peer) (Some c) r0 =
  match with_reference reference records with
  | [] => (Err AUTH_V3_IOT_CORE_ATTRIBUTION_MISSING_REFERENCE, NULL)
  | [r] => if decide (ar_peer_identity r ≠ peer) then (Err AUTH_V3_IOT_CORE_ATTRIBUTION_IDENTITY_MISMATCH, NULL)
           else if decide (granted r ≠ c) then (Err AUTH_V3_IOT_CORE_ATTRIBUTION_AUTHORIZATION_MISMATCH, NULL)
           else (Ok tt, Some r)
  | _ => (Err AUTH_V3_IOT_CORE_ATTRIBUTION_AMBIGUOUS_REFERENCE, NULL)
  end.
Proof.
  unfold auth_v3_iot_core_attribution_resolve. rewrite bool_decide_false by done. cbn [andb negb]. do 5 mstep. mstep.
  cbn [default from_option id]. rewrite (resolve_loop_run records reference records) by done.
  destruct (with_reference reference records) as [|r [|r' l]]; [by mstep| |done]. mstep.
  unfold memeq. destruct (decide (ar_peer_identity r = peer)) as [Hp|Hp].
  2:{ rewrite (bool_decide_false (ar_peer_identity r = peer)) by done. by rewrite decide_True. }
  rewrite (bool_decide_true (ar_peer_identity r = peer)) by done. rewrite (decide_False (P:=ar_peer_identity r ≠ peer)) by tauto. mstep.
  rewrite <- !negb_andb, negb_involutive. case_decide as Hg.
  - replace (_ && _) with false; [done|]. symmetry. apply not_true_iff_false. intros E. apply Hg. bool_to_prop.
    repeat match goal with H : bool_decide _ = true |- _ => apply bool_decide_eq_true in H
      | H : (_ =? _) = true |- _ => apply Z.eqb_eq in H end. destruct c. unfold granted. cbn in *. congruence.
  - subst c. cbn. rewrite !bool_decide_true, !Z.eqb_refl by done. done.
Qed.

Definition sample_authz : auth_v3_iot_core_authorization_context_v1_t :=
  {| ac_holder_binding := replicate 32 Byte.x01; ac_audience_id := replicate 32 Byte.x02; ac_role_policy_id := 7;
     ac_scope_bits := 1; ac_authorization_generation := 3; ac_policy_epoch := 4; ac_revocation_epoch := 5 |}.

Lemma sample_authz_ok : authz_wf sample_authz ∧ authz_valid sample_authz.
Proof. split; constructor; cbn; unfold is_u64; done || lia. Qed.

Lemma authz_roundtrip_witness :
  auth_v3_iot_core_authz_decode_bytes (Some (take 148 (written (wire_authz sample_authz) (zeros 160)))) zero_authz =
    (Ok tt, sample_authz).
Proof.
  apply (@authz_roundtrip Toy.sodium sample_authz (zeros 160) zero_authz);
    [apply sample_authz_ok|apply sample_authz_ok|concrete_range|cbn; lia].
Defined.
