(* ===== verification/V3.v ===== *)
(** The draft AUTH v3 key confirmation: [src/c/include/auth/auth_v3.h] and
    [src/c/src/proto/auth_v3.c].

    The transcript has the layout of the v2 transcripts, domain and labelled fields,
    and is written into the caller's buffer; its hash keys three purpose-separated
    keys and the completion tag. *)
From S2P Require Export V3Authz.

#[local] Open Scope nat_scope.

Definition AUTH_V3_DRAFT_PROTOCOL_VERSION : byte := Byte.x03.
Definition AUTH_V3_TRANSCRIPT_MAX : nat := 768.

Record auth_v3_context_t := {
  v3_protocol_version : byte;
  v3_suite_id : Z;
  v3_profile_id : Z;
  v3_selected_capabilities : Z;
  v3_session_id : bytes;
  v3_authz_context_hash : bytes;
  v3_critical_extensions_hash : bytes;
  v3_channel_binding_hash : bytes
}.

Record auth_v3_transcript_parts_t := {
  tp_context : ptr auth_v3_context_t;
  tp_pid : ptr bytes;
  tp_a_c : ptr bytes;
  tp_s_c : ptr bytes;
  tp_nonce_c : ptr bytes;
  tp_eph_c : ptr bytes;
  tp_server_pub : ptr bytes;
  tp_a_s : ptr bytes;
  tp_s_s : ptr bytes;
  tp_nonce_s : ptr bytes;
  tp_eph_s : ptr bytes
}.

Definition KC_V3_DOMAIN : bytes := str_bytes "zk-arche/kc/v3".
Definition COMPLETE_DOMAIN : bytes := str_bytes "zk-arche/auth-complete/v3".
Definition INFO_S2C : bytes := str_bytes "kc s2c v3".
Definition INFO_C2S : bytes := str_bytes "kc c2s v3".
Definition INFO_COMPLETE : bytes := str_bytes "kc complete s2c v3".
Definition SERVER_COMPLETE : bytes := str_bytes "server complete v3".

(** ** The transcript *)
Definition put_u16_le (value : Z) : bytes := [u8 value; u8 (Z.shiftr value 8)].

(** The loop [out[i] = (uint8_t)(value >> (8u * i))] *)
Definition put_u64_le (value : Z) : bytes := store_le 8 value.

(** [append_bytes] of this file; the state is [out] and [*offset]. *)
Definition v3_append_bytes (value : ptr bytes) (value_len : nat) : M auth_err_t cursor unit :=
  value ← deref value AUTH_ERR_INVALID_ARGUMENT;
  offset ← get_off;
  out_cap ← get_cap;
  require (negb ((out_cap <? offset) || (out_cap - offset <? value_len))) AUTH_ERR_BUFFER_TOO_SMALL;;
  x ← lift (loadn value 0 value_len);
  write_bytes x.

Definition append_field (label value : ptr bytes) (value_len : nat) : M auth_err_t cursor unit :=
  label ← deref label AUTH_ERR_INVALID_ARGUMENT;
  value ← deref value AUTH_ERR_INVALID_ARGUMENT;
  let label_len := length label in
  require (negb ((255 <? label_len) || (0xFFFFFFFF <? Z.of_nat value_len)%Z)) AUTH_ERR_INVALID_ARGUMENT;;
  let n := u32 (Z.of_nat value_len) in
  let value_len_le := [u8 n; u8 (Z.shiftr n 8); u8 (Z.shiftr n 16); u8 (Z.shiftr n 24)] in
  v3_append_bytes (Some [u8 (Z.of_nat label_len)]) 1;;
  v3_append_bytes (Some label) label_len;;
  v3_append_bytes (Some value_len_le) 4;;
  v3_append_bytes (Some value) value_len.

Definition non_null {A} (p : ptr A) : bool := bool_decide (is_Some p).

Definition parts_valid (p : auth_v3_transcript_parts_t) : bool :=
  non_null (tp_context p) && non_null (tp_pid p) && non_null (tp_a_c p) && non_null (tp_s_c p) &&
  non_null (tp_nonce_c p) && non_null (tp_eph_c p) && non_null (tp_server_pub p) && non_null (tp_a_s p) &&
  non_null (tp_s_s p) && non_null (tp_nonce_s p) && non_null (tp_eph_s p).

(** The fields in the order of the code, each with the length that is appended. *)
Definition v3_fields (c : auth_v3_context_t) (p : auth_v3_transcript_parts_t) : list (bytes * ptr bytes * nat) :=
  [(str_bytes "protocol_version", Some [v3_protocol_version c], 1);
   (str_bytes "suite_id", Some (put_u16_le (v3_suite_id c)), 2);
   (str_bytes "profile_id", Some (put_u16_le (v3_profile_id c)), 2);
   (str_bytes "selected_capabilities", Some (put_u64_le (v3_selected_capabilities c)), 8);
   (str_bytes "session_id", Some (v3_session_id c), AUTH_SESSION_ID_LEN);
   (str_bytes "authz_context_hash", Some (v3_authz_context_hash c), AUTH_HASH_LEN);
   (str_bytes "critical_extensions_hash", Some (v3_critical_extensions_hash c), AUTH_HASH_LEN);
   (str_bytes "channel_binding_hash", Some (v3_channel_binding_hash c), AUTH_HASH_LEN);
   (str_bytes "pid", tp_pid p, AUTH_DEVICE_ID_LEN);
   (str_bytes "a_c", tp_a_c p, AUTH_POINT_LEN);
   (str_bytes "s_c", tp_s_c p, AUTH_SCALAR_LEN);
   (str_bytes "nonce_c", tp_nonce_c p, AUTH_NONCE_LEN);
   (str_bytes "eph_c", tp_eph_c p, AUTH_POINT_LEN);
   (str_bytes "server_pub", tp_server_pub p, AUTH_POINT_LEN);
   (str_bytes "a_s", tp_a_s p, AUTH_POINT_LEN);
   (str_bytes "s_s", tp_s_s p, AUTH_SCALAR_LEN);
   (str_bytes "nonce_s", tp_nonce_s p, AUTH_NONCE_LEN);
   (str_bytes "eph_s", tp_eph_s p, AUTH_POINT_LEN)].

(** [APPEND_FIELD(...)] for each of them *)
Fixpoint append_fields (fields : list (bytes * ptr bytes * nat)) : M auth_err_t cursor unit :=
  match fields with
  | [] => mret tt
  | (label, value, len) :: fields => append_field (Some label) value len;; append_fields fields
  end.

Definition auth_v3_build_kc_transcript (parts : ptr auth_v3_transcript_parts_t) : M auth_err_t bytes nat :=
  parts ← deref parts AUTH_ERR_INVALID_ARGUMENT;
  require (parts_valid parts) AUTH_ERR_INVALID_ARGUMENT;;
  c ← deref (tp_context parts) AUTH_ERR_INVALID_ARGUMENT;
  require (negb (255 <? length KC_V3_DOMAIN)) AUTH_ERR_INVALID_ARGUMENT;;
  writing (
    v3_append_bytes (Some [u8 (Z.of_nat (length KC_V3_DOMAIN))]) 1;;
    v3_append_bytes (Some KC_V3_DOMAIN) (length KC_V3_DOMAIN);;
    append_fields (v3_fields c parts);;
    get_off).

(** ** Keys and tags *)
Section v3.
Context {NaCl : Sodium}.

Definition auth_v3_kc_transcript_hash (parts : ptr auth_v3_transcript_parts_t) : outcome auth_err_t bytes :=
  p ← nonnull parts AUTH_ERR_INVALID_ARGUMENT;
  check (parts_valid p) AUTH_ERR_INVALID_ARGUMENT;;
  transcript ← match auth_v3_build_kc_transcript parts (zeros AUTH_V3_TRANSCRIPT_MAX) with
               | (Ok n, buf) => loadn buf 0 n
               | (Err e, _) => Err e
               | (Fault, _) => Fault
               end;
  mret (crypto_hash_sha256 transcript).

(** [k_s2c], [k_c2s], [k_complete] *)
Definition auth_v3_derive_kc_keys (session_key th_v3 : ptr bytes) : outcome auth_err_t (bytes * bytes * bytes) :=
  _ ← nonnull session_key AUTH_ERR_INVALID_ARGUMENT;
  _ ← nonnull th_v3 AUTH_ERR_INVALID_ARGUMENT;
  k_s2c ← auth_hkdf_sha256 AUTH_MAC_KEY_LEN th_v3 session_key AUTH_SESSION_KEY_LEN
            (Some INFO_S2C) (length INFO_S2C);
  k_c2s ← auth_hkdf_sha256 AUTH_MAC_KEY_LEN th_v3 session_key AUTH_SESSION_KEY_LEN
            (Some INFO_C2S) (length INFO_C2S);
  k_complete ← auth_hkdf_sha256 AUTH_MAC_KEY_LEN th_v3 session_key AUTH_SESSION_KEY_LEN
                 (Some INFO_COMPLETE) (length INFO_COMPLETE);
  mret (k_s2c, k_c2s, k_complete).

Definition auth_v3_finished_tag (key label th_v3 : bytes) : bytes := auth_hmac_tag key label th_v3.

Definition auth_v3_completion_hash (th_v3 tag_c : ptr bytes) : outcome auth_err_t bytes :=
  th_v3 ← nonnull th_v3 AUTH_ERR_INVALID_ARGUMENT;
  tag_c ← nonnull tag_c AUTH_ERR_INVALID_ARGUMENT;
  mret (crypto_hash_sha256 (COMPLETE_DOMAIN ++ th_v3 ++ tag_c)).

Definition auth_v3_completion_tag (k_complete completion_hash : bytes) : bytes :=
  auth_hmac_tag k_complete SERVER_COMPLETE completion_hash.
End v3.

(** ** What the transcript contains *)
Record v3_context_wf (c : auth_v3_context_t) : Prop := {
  cwf_suite : is_u16 (v3_suite_id c);
  cwf_profile : is_u16 (v3_profile_id c);
  cwf_caps : is_u64 (v3_selected_capabilities c);
  cwf_session : is_n 16 (v3_session_id c);
  cwf_authz : is_n 32 (v3_authz_context_hash c);
  cwf_ext : is_n 32 (v3_critical_extensions_hash c);
  cwf_binding : is_n 32 (v3_channel_binding_hash c)
}.

(** Pointers to the bytes that are read. *)
Definition points (p : ptr bytes) (n : nat) : Prop := ∃ x, p = Some x ∧ is_n n x.

Record v3_parts_wf (c : auth_v3_context_t) (p : auth_v3_transcript_parts_t) : Prop := {
  pwf_context : tp_context p = Some c;
  pwf_context_wf : v3_context_wf c;
  pwf_pid : points (tp_pid p) 32;
  pwf_a_c : points (tp_a_c p) 32;
  pwf_s_c : points (tp_s_c p) 32;
  pwf_nonce_c : points (tp_nonce_c p) 32;
  pwf_eph_c : points (tp_eph_c p) 32;
  pwf_server_pub : points (tp_server_pub p) 32;
  pwf_a_s : points (tp_a_s p) 32;
  pwf_s_s : points (tp_s_s p) 32;
  pwf_nonce_s : points (tp_nonce_s p) 32;
  pwf_eph_s : points (tp_eph_s p) 32
}.

Definition v3_entries (c : auth_v3_context_t) (p : auth_v3_transcript_parts_t) : list (bytes * bytes) :=
  map (λ '(label, value, _), (label, default [] value)) (v3_fields c p).

Definition wire_v3 (c : auth_v3_context_t) (p : auth_v3_transcript_parts_t) : bytes :=
  wire_transcript KC_V3_DOMAIN (v3_entries c p).

(** *** Appending to a bounded buffer

    [fills m x r]: [m] appends [x] when there is room and returns [r off], [off] being
    the final offset; otherwise it returns BUFFER_TOO_SMALL. *)
Definition fills {A} (m : M auth_err_t cursor A) (x : bytes) (r : nat → A) : Prop :=
  ∀ w rest,
    if length x <=? length rest
    then m (wstate w rest) = (Ok (r (length w + length x)), wstate (w ++ x) (drop (length x) rest))
    else ∃ c, m (wstate w rest) = (Err AUTH_ERR_BUFFER_TOO_SMALL, c).

Lemma fills_ret {A} (a : A) : fills (mret a) [] (λ _, a).
Proof. intros w rest. by rewrite app_nil_r. Qed.

Lemma fills_get_off : fills get_off [] id.
Proof. intros w rest. cbn. by rewrite app_nil_r, Nat.add_0_r. Qed.

Lemma fills_bind {A} m (k : M auth_err_t cursor A) x y r :
  fills m x (λ _, tt) → fills k y r → fills (m;; k) (x ++ y) r.
Proof.
  intros Hm Hk w rest. specialize (Hm w rest). rewrite length_app.
  destruct (Nat.leb_spec (length x) (length rest)) as [Hx|Hx].
  - rewrite bind_run, Hm. specialize (Hk (w ++ x) (drop (length x) rest)). rewrite length_drop, length_app in Hk.
    destruct (Nat.leb_spec (length x + length y) (length rest)).
    + rewrite (proj2 (Nat.leb_le _ _)) in Hk by lia. by rewrite Hk, <- app_assoc, drop_drop, Nat.add_assoc.
    + rewrite (proj2 (Nat.leb_gt _ _)) in Hk by lia. done.
  - rewrite (proj2 (Nat.leb_gt _ _)) by lia. destruct Hm as [c Hm]. exists c. by rewrite bind_run, Hm.
Qed.

Lemma fills_append_bytes x n : length x = n → fills (v3_append_bytes (Some x) n) x (λ _, tt).
Proof.
  intros <- w rest. unfold v3_append_bytes. do 3 mstep. unfold wstate. cbn [fst snd].
  rewrite (proj2 (Nat.ltb_ge _ _)) by len. rewrite length_app, Nat.add_comm, Nat.add_sub. cbn [orb].
  destruct (Nat.leb_spec (length x) (length rest)) as [H|H].
  - rewrite (proj2 (Nat.ltb_ge _ _)) by done. cbn [negb]. do 2 mstep. rewrite loadn_ok, drop_0, firstn_all by done.
    by apply write_bytes_wstate.
  - rewrite (proj2 (Nat.ltb_lt _ _)) by done. by eexists.
Qed.

Lemma value_len_le v :
  let n := u32 v in [u8 n; u8 (Z.shiftr n 8); u8 (Z.shiftr n 16); u8 (Z.shiftr n 24)] = store_le 4 n.
Proof. cbn. unfold store_le. by rewrite !Z.shiftr_shiftr by lia. Qed.

Lemma fills_append_field label value n :
  length label ≤ 255 → length value = n → is_u32 (Z.of_nat n) →
  fills (append_field (Some label) (Some value) n) (wire_entry (label, value)) (λ _, tt).
Proof.
  intros Hl Hn Hu w rest. unfold append_field. do 2 mstep. unfold is_u32 in Hu.
  rewrite (proj2 (Nat.ltb_ge _ _)), (proj2 (Z.ltb_ge _ _)) by lia. cbn [orb negb]. mstep.
  revert w rest. fold (fills (v3_append_bytes (Some [u8 (Z.of_nat (length label))]) 1;;
    v3_append_bytes (Some label) (length label);;
    v3_append_bytes (Some (let n := u32 (Z.of_nat n) in [u8 n; u8 (Z.shiftr n 8); u8 (Z.shiftr n 16); u8 (Z.shiftr n 24)])) 4;;
    v3_append_bytes (Some value) n) (wire_entry (label, value)) (λ _, tt)).
  unfold wire_entry. cbn [fst snd]. rewrite Hn. replace (store_le 4 (Z.of_nat n)) with (store_le 4 (u32 (Z.of_nat n)))
    by (unfold u32; by rewrite Z.mod_small).
  rewrite <- value_len_le. repeat apply fills_bind; by apply fills_append_bytes.
Qed.

Definition field_ok (f : bytes * ptr bytes * nat) : Prop :=
  let '(label, value, n) := f in length label ≤ 255 ∧ points value n ∧ is_u32 (Z.of_nat n).

Lemma fills_append_fields fields :
  Forall field_ok fields →
  fills (append_fields fields) (concat (map wire_entry (map (λ '(label, value, _), (label, default [] value)) fields))) (λ _, tt).
Proof.
  induction fields as [|[[label value] n] fields IH]; intros H; [apply fills_ret|].
  apply list.Forall_cons in H as [(Hl & (x & -> & Hx) & Hu) H]. cbn [map concat append_fields].
  apply fills_bind; [by apply fills_append_field|by apply IH].
Qed.

Lemma fields_ok c p : v3_parts_wf c p → Forall field_ok (v3_fields c p).
Proof.
  intros [_ [] ]. unfold v3_fields.
  repeat (apply list.Forall_cons; split; [split_and!;
    [apply Nat.leb_le; reflexivity|try done; by eexists; split|concrete_range]|]).
  done.
Qed.

Lemma fills_writing m x buf :
  fills m x id →
  match writing m buf with
  | (Ok n, buf') => n = length x ∧ length x ≤ length buf ∧ buf' = written x buf
  | (Err e, _) => e = AUTH_ERR_BUFFER_TOO_SMALL ∧ length buf < length x
  | (Fault, _) => False
  end.
Proof.
  intros Hm. unfold writing. rewrite wstate_0. specialize (Hm [] buf).
  destruct (Nat.leb_spec (length x) (length buf)); [by rewrite Hm|]. by destruct Hm as [[??] ->].
Qed.

(** The bytes that the entries hold. *)
Lemma entries_at c p :
  v3_parts_wf c p →
  ∃ pid a_c s_c nonce_c eph_c server_pub a_s s_s nonce_s eph_s,
    p = {| tp_context := Some c; tp_pid := Some pid; tp_a_c := Some a_c; tp_s_c := Some s_c;
           tp_nonce_c := Some nonce_c; tp_eph_c := Some eph_c; tp_server_pub := Some server_pub;
           tp_a_s := Some a_s; tp_s_s := Some s_s; tp_nonce_s := Some nonce_s; tp_eph_s := Some eph_s |} ∧
    Forall (is_n 32) [pid; a_c; s_c; nonce_c; eph_c; server_pub; a_s; s_s; nonce_s; eph_s].
Proof.
  destruct p. intros [Hc _ (? & ? & ?) (? & ? & ?) (? & ? & ?) (? & ? & ?) (? & ? & ?) (? & ? & ?) (? & ? & ?)
    (? & ? & ?) (? & ? & ?) (? & ? & ?)]. cbn in *. subst. do 10 eexists. split; [done|]. by repeat constructor.
Qed.

Lemma length_wire_v3 c p : v3_parts_wf c p → length (wire_v3 c p) = 726.
Proof.
  intros H. pose proof (pwf_context_wf _ _ H) as [_ _ _ Hs Ha He Hb].
  destruct (entries_at c p H) as (? & ? & ? & ? & ? & ? & ? & ? & ? & ? & -> & H32).
  rewrite !list.Forall_cons in H32. destruct_and!. unfold is_n in *.
  unfold wire_v3, wire_transcript, v3_entries, v3_fields, wire_entry. cbn [map concat fst snd default from_option id
    tp_pid tp_a_c tp_s_c tp_nonce_c tp_eph_c tp_server_pub tp_a_s tp_s_s tp_nonce_s tp_eph_s].
  unfold put_u64_le. rewrite !length_app, !length_store_le. cbn [length put_u16_le].
  repeat match goal with E : length _ = _ |- _ => rewrite E; clear E end. reflexivity.
Qed.

Lemma build_run c p out :
  v3_parts_wf c p →
  match auth_v3_build_kc_transcript (Some p) out with
  | (Ok n, out') => n = 726 ∧ 726 ≤ length out ∧ out' = written (wire_v3 c p) out
  | (Err e, _) => e = AUTH_ERR_BUFFER_TOO_SMALL ∧ length out < 726
  | (Fault, _) => False
  end.
Proof.
  intros H. pose proof (length_wire_v3 c p H) as Hl. unfold auth_v3_build_kc_transcript. mstep.
  assert (parts_valid p = true) as ->.
  { destruct (entries_at c p H) as (? & ? & ? & ? & ? & ? & ? & ? & ? & ? & -> & _). done. }
  mstep. rewrite (pwf_context _ _ H). mstep. rewrite (proj2 (Nat.ltb_ge _ _)) by (apply Nat.leb_le; done). mstep.
  rewrite <- Hl. apply fills_writing. rewrite <- (app_nil_r (wire_v3 c p)).
  unfold wire_v3, wire_transcript, v3_entries. rewrite <- !app_assoc.
  apply fills_bind; [by apply fills_append_bytes|]. apply fills_bind; [by apply fills_append_bytes|].
  apply fills_bind; [by apply fills_append_fields, fields_ok|apply fills_get_off].
Qed.

Lemma put_u16_le_store v : put_u16_le v = store_le 2 v.
Proof. done. Qed.

Lemma v3_entries_wf c p : v3_parts_wf c p → Forall entry_wf (v3_entries c p).
Proof.
  intros H. apply fields_ok in H. unfold v3_entries. induction H as [|[[l v] n] fields (Hl & (x & -> & Hx) & Hu) _ IH];
    constructor; [|done]. split; [done|]. cbn. by rewrite Hx.
Qed.

Lemma v3_entries_inj c1 p1 c2 p2 :
  v3_parts_wf c1 p1 → v3_parts_wf c2 p2 → v3_entries c1 p1 = v3_entries c2 p2 → c1 = c2 ∧ p1 = p2.
Proof.
  intros H1 H2 E. pose proof (pwf_context_wf _ _ H1) as [Hs1 Hp1 Hc1 _ _ _ _].
  pose proof (pwf_context_wf _ _ H2) as [Hs2 Hp2 Hc2 _ _ _ _].
  destruct (entries_at c1 p1 H1) as (? & ? & ? & ? & ? & ? & ? & ? & ? & ? & -> & _).
  destruct (entries_at c2 p2 H2) as (? & ? & ? & ? & ? & ? & ? & ? & ? & ? & -> & _).
  assert (Ek : ∀ k, (v3_entries c1 _ !!! k : bytes * bytes).2 = (v3_entries c2 _ !!! k).2) by (intros k; by rewrite E).
  pose proof (Ek 1) as E1. pose proof (Ek 2) as E2. pose proof (Ek 3) as E3.
  rewrite !put_u16_le_store in * || cbn in E1, E2, E3.
  apply (store_le_inj 2) in E1; [|done..]. apply (store_le_inj 2) in E2; [|done..]. apply (store_le_inj 8) in E3; [|done..].
  destruct c1, c2. cbn in E, E1, E2, E3. injection E. intros. subst. done.
Qed.

(** What is hashed. *)
Lemma transcript_hash_run {NaCl : Sodium} c p :
  v3_parts_wf c p → auth_v3_kc_transcript_hash (Some p) = Ok (crypto_hash_sha256 (wire_v3 c p)).
Proof.
  intros H. pose proof (build_run c p (zeros AUTH_V3_TRANSCRIPT_MAX) H) as Hb. unfold auth_v3_kc_transcript_hash. cbn [nonnull mbind outcome_bind].
  assert (parts_valid p = true) as ->.
  { destruct (entries_at c p H) as (? & ? & ? & ? & ? & ? & ? & ? & ? & ? & -> & _). done. }
  cbn [check mbind outcome_bind].
  destruct (auth_v3_build_kc_transcript _ _) as [[n|e|] out'].
  - destruct Hb as (-> & Hl & ->). pose proof (length_wire_v3 c p H) as L.
    rewrite loadn_ok by (rewrite length_written; lia). rewrite drop_0, <- L, take_written. done.
  - destruct Hb as [_ Hb]. by apply Nat.ltb_lt in Hb.
  - done.
Qed.

(** What the builder has left in its buffer. *)
Lemma built_transcript {NaCl : Sodium} c p out n out' :
  v3_parts_wf c p → auth_v3_build_kc_transcript (Some p) out = (Ok n, out') →
  take n out' = wire_v3 c p ∧ auth_v3_kc_transcript_hash (Some p) = Ok (crypto_hash_sha256 (wire_v3 c p)).
Proof.
  intros H E. pose proof (build_run c p out H) as Hb. rewrite E in Hb. destruct Hb as (-> & _ & ->).
  rewrite <- (length_wire_v3 c p H), take_written. split; [done|by apply transcript_hash_run].
Qed.

(** ** The properties *)

(** C22: with all its pointers set, the v3 transcript is always 726 bytes in the
    layout of the draft (domain, then the eighteen labelled fields in order): the
    builder writes it when the buffer has room, returns BUFFER_TOO_SMALL otherwise,
    and the hash, with its 768-byte buffer, never fails. *)
Theorem v3_transcript_exact {NaCl : Sodium} c p out :
  v3_parts_wf c p →
  match auth_v3_build_kc_transcript (Some p) out with
  | (Ok n, out') => n = 726 ∧ 726 ≤ length out ∧ out' = written (wire_v3 c p) out
  | (Err e, _) => e = AUTH_ERR_BUFFER_TOO_SMALL ∧ length out < 726
  | (Fault, _) => False
  end ∧
  auth_v3_kc_transcript_hash (Some p) = Ok (crypto_hash_sha256 (wire_v3 c p)).
Proof.
  intros H. split; [by apply build_run|by apply transcript_hash_run].
Qed.

(** C21: the transcript commits to every one of its inputs: two runs of the builder whose
    output buffers hold the same transcript, whatever else the buffers hold, were given
    the same version, suite, profile, capabilities, session, context hashes, identities,
    proofs, nonces and ephemeral keys; and what the key confirmation hashes of these
    inputs is this transcript. *)
Theorem v3_transcript_binding {NaCl : Sodium} c1 p1 out1 n1 out1' c2 p2 out2 n2 out2' :
  v3_parts_wf c1 p1 → v3_parts_wf c2 p2 →
  auth_v3_build_kc_transcript (Some p1) out1 = (Ok n1, out1') →
  auth_v3_build_kc_transcript (Some p2) out2 = (Ok n2, out2') →
  (take n1 out1' = take n2 out2' ↔ c1 = c2 ∧ p1 = p2) ∧
  auth_v3_kc_transcript_hash (Some p1) = Ok (crypto_hash_sha256 (take n1 out1')) ∧
  auth_v3_kc_transcript_hash (Some p2) = Ok (crypto_hash_sha256 (take n2 out2')).
Proof.
  intros H1 H2 E1 E2. destruct (built_transcript _ _ _ _ _ H1 E1) as [B1 K1]. destruct (built_transcript _ _ _ _ _ H2 E2) as [B2 K2].
  rewrite B1, B2.
  split; [|done]. split; [|by intros [-> ->]]. intros E.
  apply wire_transcript_inj in E as [_ E];
    [|apply Nat.leb_le; reflexivity|apply Nat.leb_le; reflexivity|by apply v3_entries_wf|by apply v3_entries_wf].
  by apply v3_entries_inj.
Qed.

Definition sample_v3_context : auth_v3_context_t :=
  {| v3_protocol_version := AUTH_V3_DRAFT_PROTOCOL_VERSION; v3_suite_id := 1; v3_profile_id := 2;
     v3_selected_capabilities := 5; v3_session_id := replicate 16 Byte.x01; v3_authz_context_hash := replicate 32 Byte.x02;
     v3_critical_extensions_hash := replicate 32 Byte.x03; v3_channel_binding_hash := replicate 32 Byte.x04 |}.

Definition sample_v3_parts (nonce_c : bytes) : auth_v3_transcript_parts_t :=
  let x := Some (replicate 32 Byte.x05) in
  {| tp_context := Some sample_v3_context; tp_pid := x; tp_a_c := x; tp_s_c := x; tp_nonce_c := Some nonce_c;
     tp_eph_c := x; tp_server_pub := x; tp_a_s := x; tp_s_s := x; tp_nonce_s := x; tp_eph_s := x |}.

Lemma sample_v3_context_wf : v3_context_wf sample_v3_context.
Proof. constructor; cbn; unfold is_u16, is_u64, is_n; done || lia. Qed.

Lemma sample_v3_wf nonce_c : is_n 32 nonce_c → v3_parts_wf sample_v3_context (sample_v3_parts nonce_c).
Proof. constructor; cbn; try apply sample_v3_context_wf; by eexists. Qed.

Lemma v3_transcript_exact_witness :
  v3_parts_wf sample_v3_context (sample_v3_parts (zeros 32)) ∧
  auth_v3_kc_transcript_hash (NaCl := Toy.sodium) (Some (sample_v3_parts (zeros 32))) =
    Ok (crypto_hash_sha256 (Sodium := Toy.sodium) (wire_v3 sample_v3_context (sample_v3_parts (zeros 32)))).
Proof.
  assert (H : v3_parts_wf sample_v3_context (sample_v3_parts (zeros 32))) by by apply sample_v3_wf.
  split; [done|]. apply (v3_transcript_exact (NaCl := Toy.sodium) _ _ (zeros 0) H).
Defined.

(** With another client nonce the transcript is another one. *)
(** The transcript of a run into a buffer of zeros. *)
Definition sample_transcript (nonce_c : bytes) : outcome auth_err_t nat * bytes :=
  auth_v3_build_kc_transcript (Some (sample_v3_parts nonce_c)) (zeros AUTH_V3_TRANSCRIPT_MAX).

Lemma v3_transcript_binding_witness :
  let r1 := sample_transcript (zeros 32) in let r2 := sample_transcript (replicate 32 Byte.x01) in
  r1.1 = Ok 726 ∧ r2.1 = Ok 726 ∧ take 726 r1.2 ≠ take 726 r2.2.
Proof.
  intros r1 r2. assert (r1.1 = Ok 726) as E1 by (vm_compute; reflexivity). assert (r2.1 = Ok 726) as E2 by (vm_compute; reflexivity).
  split; [exact E1|]. split; [exact E2|]. intros E.
  destruct (v3_transcript_binding (NaCl := Toy.sodium) sample_v3_context (sample_v3_parts (zeros 32)) (zeros AUTH_V3_TRANSCRIPT_MAX) 726 r1.2
    sample_v3_context (sample_v3_parts (replicate 32 Byte.x01)) (zeros AUTH_V3_TRANSCRIPT_MAX) 726 r2.2) as [[H _] _].
  - by apply sample_v3_wf.
  - by apply sample_v3_wf.
  - change (r1 = (Ok 726, r1.2)). rewrite <- E1. apply surjective_pairing.
  - change (r2 = (Ok 726, r2.2)). rewrite <- E2. apply surjective_pairing.
  - destruct (H E) as [_ Hp]. discriminate Hp.
Defined.

(** The three keys are HKDF outputs under distinct labels. *)
Lemma v3_keys_run {NaCl : Sodium} {HS : SodiumSpec NaCl} session_key th :
  is_n 32 session_key → is_n 32 th →
  auth_v3_derive_kc_keys (Some session_key) (Some th) =
    Ok (rfc5869 th session_key INFO_S2C 32, rfc5869 th session_key INFO_C2S 32, rfc5869 th session_key INFO_COMPLETE 32).
Proof.
  intros Hk Ht. unfold auth_v3_derive_kc_keys. cbn [nonnull mbind outcome_bind].
  assert (Hrun : ∀ info, auth_hkdf_sha256 AUTH_MAC_KEY_LEN (Some th) (Some session_key) AUTH_SESSION_KEY_LEN
    (Some info) (length info) = Ok (rfc5869 th session_key info 32)).
  { intros info. unfold is_n in *. erewrite hkdf_run; [|apply Nat.leb_le; done..|done|done|done|done].
    destruct th; [discriminate Ht|reflexivity]. }
  by rewrite !Hrun.
Qed.
