(* ===== verification/Lineage.v ===== *)
(** Lineage replacement, the local part: [src/c/include/auth/lineage_replace.h],
    [lineage_replace_recovery.h], [lineage_replace_faults.h],
    [lineage_replace_freshness.h], [lineage_replace_storage_capability.h],
    [lineage_replace_storage_transaction.h] and the files of the same names under
    [src/c/src/proto].

    A lifecycle request is decided from normalized facts, planned, and carried out as
    a transaction of five storage steps through the caller's adapter; after a restart
    the stored record is classified.  The adapter is a parameter: [durable_adapter]
    is what the header asks of it. *)
From S2P Require Export Prelude.

#[local] Open Scope Z_scope.

(** ** Decision *)
Inductive lineage_replace_authorization_decision_t :=
  | LINEAGE_REPLACE_AUTHORIZED_REPLACEMENT
  | LINEAGE_REPLACE_REJECT_CURRENT_CREDENTIAL_CONTROL
  | LINEAGE_REPLACE_REJECT_SUCCESSOR_KEY_CONTROL
  | LINEAGE_REPLACE_REJECT_SESSION_AUTHENTICATION
  | LINEAGE_REPLACE_REJECT_SESSION_AUTHORIZATION
  | LINEAGE_REPLACE_REJECT_CONTEXT_BINDING
  | LINEAGE_REPLACE_REJECT_PREDECESSOR_BINDING
  | LINEAGE_REPLACE_REJECT_PRIVILEGE_EXPANSION.

Inductive lineage_replace_trigger_t :=
  | LINEAGE_REPLACE_TRIGGER_LIFECYCLE
  | LINEAGE_REPLACE_TRIGGER_RESTART
  | LINEAGE_REPLACE_TRIGGER_TRANSPORT_CHANGE
  | LINEAGE_REPLACE_TRIGGER_AUTH.

Inductive lineage_replace_decision_t :=
  | LINEAGE_REPLACE_ACCEPT_SUCCESSOR
  | LINEAGE_REPLACE_REJECT_AUTHORITY
  | LINEAGE_REPLACE_REJECT_PREDECESSOR
  | LINEAGE_REPLACE_REJECT_SUCCESSOR
  | LINEAGE_REPLACE_REJECT_CONTEXT
  | LINEAGE_REPLACE_REJECT_FRESHNESS
  | LINEAGE_REPLACE_REJECT_REPLAY
  | LINEAGE_REPLACE_REJECT_CONCURRENT
  | LINEAGE_REPLACE_REJECT_ROLLBACK
  | LINEAGE_REPLACE_REJECT_STORAGE.

Record lineage_replace_facts_t := {
  lf_trigger : lineage_replace_trigger_t;
  lf_authority_valid : bool;
  lf_predecessor_valid : bool;
  lf_successor_valid : bool;
  lf_context_valid : bool;
  lf_freshness_valid : bool;
  lf_replay_free : bool;
  lf_concurrent_free : bool;
  lf_rollback_clear : bool;
  lf_storage_safe : bool;
  lf_dependent_state_safe : bool
}.

Record lineage_replace_plan_t := {
  lp_retire_predecessor : bool;
  lp_activate_successor : bool;
  lp_invalidate_session_keys : bool;
  lp_invalidate_resumption : bool;
  lp_invalidate_authorization_cache : bool;
  lp_invalidate_attribution_cache : bool;
  lp_invalidate_channel_binding : bool;
  lp_invalidate_replay_state : bool
}.

Inductive lineage_replace_state_t :=
  | LINEAGE_REPLACE_STATE_ACTIVE_PREDECESSOR
  | LINEAGE_REPLACE_STATE_REPLACEMENT_PENDING
  | LINEAGE_REPLACE_STATE_ACTIVE_SUCCESSOR_PREDECESSOR_RETIRED
  | LINEAGE_REPLACE_STATE_CONTINUITY_BROKEN.

Inductive lineage_replace_event_t :=
  | LINEAGE_REPLACE_EVENT_BEGIN
  | LINEAGE_REPLACE_EVENT_COMMIT
  | LINEAGE_REPLACE_EVENT_INTERRUPT.

#[export] Instance authorization_eq_dec : EqDecision lineage_replace_authorization_decision_t.
Proof. solve_decision. Defined.
#[export] Instance trigger_eq_dec : EqDecision lineage_replace_trigger_t.
Proof. solve_decision. Defined.
#[export] Instance decision_eq_dec : EqDecision lineage_replace_decision_t.
Proof. solve_decision. Defined.
#[export] Instance state_eq_dec : EqDecision lineage_replace_state_t.
Proof. solve_decision. Defined.
#[export] Instance event_eq_dec : EqDecision lineage_replace_event_t.
Proof. solve_decision. Defined.

(** [lineage_replace_plan_complete], and [plan_complete] of the storage transaction *)
Definition lineage_replace_plan_complete (plan : ptr lineage_replace_plan_t) : bool :=
  match plan with
  | None => false
  | Some p => lp_retire_predecessor p && lp_activate_successor p && lp_invalidate_session_keys p &&
              lp_invalidate_resumption p && lp_invalidate_authorization_cache p && lp_invalidate_attribution_cache p &&
              lp_invalidate_channel_binding p && lp_invalidate_replay_state p
  end.

Definition plan_complete (plan : ptr lineage_replace_plan_t) : bool :=
  match plan with
  | None => false
  | Some p => lp_retire_predecessor p && lp_activate_successor p && lp_invalidate_session_keys p &&
              lp_invalidate_resumption p && lp_invalidate_authorization_cache p && lp_invalidate_attribution_cache p &&
              lp_invalidate_channel_binding p && lp_invalidate_replay_state p
  end.

Definition lineage_replace_evaluate (facts : ptr lineage_replace_facts_t) : lineage_replace_decision_t :=
  match facts with
  | None => LINEAGE_REPLACE_REJECT_STORAGE
  | Some f =>
      if negb (bool_decide (lf_trigger f = LINEAGE_REPLACE_TRIGGER_LIFECYCLE)) || negb (lf_authority_valid f)
      then LINEAGE_REPLACE_REJECT_AUTHORITY
      else if negb (lf_predecessor_valid f) then LINEAGE_REPLACE_REJECT_PREDECESSOR
      else if negb (lf_successor_valid f) then LINEAGE_REPLACE_REJECT_SUCCESSOR
      else if negb (lf_context_valid f) || negb (lf_dependent_state_safe f) then LINEAGE_REPLACE_REJECT_CONTEXT
      else if negb (lf_freshness_valid f) then LINEAGE_REPLACE_REJECT_FRESHNESS
      else if negb (lf_replay_free f) then LINEAGE_REPLACE_REJECT_REPLAY
      else if negb (lf_concurrent_free f) then LINEAGE_REPLACE_REJECT_CONCURRENT
      else if negb (lf_rollback_clear f) then LINEAGE_REPLACE_REJECT_ROLLBACK
      else if negb (lf_storage_safe f) then LINEAGE_REPLACE_REJECT_STORAGE
      else LINEAGE_REPLACE_ACCEPT_SUCCESSOR
  end.

(** [normalized = *facts; normalized.authority_valid = v;] *)
Definition with_authority (v : bool) (f : lineage_replace_facts_t) : lineage_replace_facts_t :=
  {| lf_trigger := lf_trigger f; lf_authority_valid := v; lf_predecessor_valid := lf_predecessor_valid f;
     lf_successor_valid := lf_successor_valid f; lf_context_valid := lf_context_valid f;
     lf_freshness_valid := lf_freshness_valid f; lf_replay_free := lf_replay_free f;
     lf_concurrent_free := lf_concurrent_free f; lf_rollback_clear := lf_rollback_clear f;
     lf_storage_safe := lf_storage_safe f; lf_dependent_state_safe := lf_dependent_state_safe f |}.

Definition lineage_replace_evaluate_authorized (authorization : lineage_replace_authorization_decision_t)
    (facts : ptr lineage_replace_facts_t) : lineage_replace_decision_t :=
  match facts with
  | None => LINEAGE_REPLACE_REJECT_STORAGE
  | Some f =>
      lineage_replace_evaluate
        (Some (with_authority (bool_decide (authorization = LINEAGE_REPLACE_AUTHORIZED_REPLACEMENT)) f))
  end.

Definition const_plan (b : bool) : lineage_replace_plan_t := Build_lineage_replace_plan_t b b b b b b b b.

(** The result and [*out_plan], if it is not NULL. *)
Definition lineage_replace_plan (decision : lineage_replace_decision_t) (out_plan : ptr lineage_replace_plan_t) :
    bool * ptr lineage_replace_plan_t :=
  match out_plan with
  | None => (false, NULL)
  | Some _ =>
      if negb (bool_decide (decision = LINEAGE_REPLACE_ACCEPT_SUCCESSOR)) then (false, Some (const_plan false))
      else (true, Some (const_plan true))
  end.

(** The result and [*state], if it is not NULL. *)
Definition lineage_replace_advance (state : ptr lineage_replace_state_t) (event : lineage_replace_event_t)
    (plan : ptr lineage_replace_plan_t) : bool * ptr lineage_replace_state_t :=
  match state with
  | None => (false, NULL)
  | Some s =>
      if bool_decide (s = LINEAGE_REPLACE_STATE_ACTIVE_PREDECESSOR) &&
         bool_decide (event = LINEAGE_REPLACE_EVENT_BEGIN) && lineage_replace_plan_complete plan
      then (true, Some LINEAGE_REPLACE_STATE_REPLACEMENT_PENDING)
      else if bool_decide (s = LINEAGE_REPLACE_STATE_REPLACEMENT_PENDING) &&
              bool_decide (event = LINEAGE_REPLACE_EVENT_COMMIT) && lineage_replace_plan_complete plan
      then (true, Some LINEAGE_REPLACE_STATE_ACTIVE_SUCCESSOR_PREDECESSOR_RETIRED)
      else if bool_decide (s = LINEAGE_REPLACE_STATE_REPLACEMENT_PENDING) &&
              bool_decide (event = LINEAGE_REPLACE_EVENT_INTERRUPT)
      then (true, Some LINEAGE_REPLACE_STATE_CONTINUITY_BROKEN)
      else (false, Some s)
  end.

(** ** Restart *)
Record lineage_replace_recovery_facts_t := {
  rf_record_integrity_valid : bool;
  rf_predecessor_active : bool;
  rf_replacement_pending : bool;
  rf_successor_active : bool;
  rf_predecessor_retired : bool;
  rf_invalidations_complete : bool
}.

Definition lineage_replace_recover (facts : ptr lineage_replace_recovery_facts_t) : lineage_replace_state_t :=
  match facts with
  | None => LINEAGE_REPLACE_STATE_CONTINUITY_BROKEN
  | Some f =>
      if negb (rf_record_integrity_valid f) then LINEAGE_REPLACE_STATE_CONTINUITY_BROKEN
      else if rf_predecessor_active f && negb (rf_replacement_pending f) && negb (rf_successor_active f) &&
              negb (rf_predecessor_retired f) && negb (rf_invalidations_complete f)
      then LINEAGE_REPLACE_STATE_ACTIVE_PREDECESSOR
      else if negb (rf_predecessor_active f) && negb (rf_replacement_pending f) && rf_successor_active f &&
              rf_predecessor_retired f && rf_invalidations_complete f
      then LINEAGE_REPLACE_STATE_ACTIVE_SUCCESSOR_PREDECESSOR_RETIRED
      else LINEAGE_REPLACE_STATE_CONTINUITY_BROKEN
  end.

(** The last constructor stands for every value that is not an enumerator. *)
Inductive lineage_replace_write_cut_t :=
  | LINEAGE_REPLACE_CUT_BEFORE_BEGIN
  | LINEAGE_REPLACE_CUT_AFTER_PENDING_MARKER
  | LINEAGE_REPLACE_CUT_AFTER_SUCCESSOR_ACTIVATION
  | LINEAGE_REPLACE_CUT_AFTER_PREDECESSOR_RETIREMENT
  | LINEAGE_REPLACE_CUT_AFTER_INVALIDATIONS
  | LINEAGE_REPLACE_CUT_AFTER_COMMIT_MARKER_CLEAR
  | CUT_OTHER.

Definition lineage_replace_facts_at_write_cut (cut : lineage_replace_write_cut_t) : lineage_replace_recovery_facts_t :=
  match cut with
  | LINEAGE_REPLACE_CUT_BEFORE_BEGIN => Build_lineage_replace_recovery_facts_t true true false false false false
  | LINEAGE_REPLACE_CUT_AFTER_PENDING_MARKER => Build_lineage_replace_recovery_facts_t true true true false false false
  | LINEAGE_REPLACE_CUT_AFTER_SUCCESSOR_ACTIVATION => Build_lineage_replace_recovery_facts_t true true true true false false
  | LINEAGE_REPLACE_CUT_AFTER_PREDECESSOR_RETIREMENT => Build_lineage_replace_recovery_facts_t true false true true true false
  | LINEAGE_REPLACE_CUT_AFTER_INVALIDATIONS => Build_lineage_replace_recovery_facts_t true false true true true true
  | LINEAGE_REPLACE_CUT_AFTER_COMMIT_MARKER_CLEAR => Build_lineage_replace_recovery_facts_t true false false true true true
  | CUT_OTHER => Build_lineage_replace_recovery_facts_t false false false false false false
  end.

Record lineage_replace_freshness_facts_t := {
  ff_anchor_available : bool;
  ff_anchor_integrity_valid : bool;
  ff_anchor_binding_valid : bool;
  ff_record_generation : Z;
  ff_trusted_high_water_generation : Z
}.

Inductive lineage_replace_freshness_decision_t :=
  | LINEAGE_REPLACE_FRESHNESS_CURRENT
  | LINEAGE_REPLACE_FRESHNESS_ANCHOR_UNAVAILABLE
  | LINEAGE_REPLACE_FRESHNESS_ANCHOR_INVALID
  | LINEAGE_REPLACE_FRESHNESS_BINDING_MISMATCH
  | LINEAGE_REPLACE_FRESHNESS_ROLLBACK_DETECTED
  | LINEAGE_REPLACE_FRESHNESS_GENERATION_AHEAD.

#[export] Instance freshness_eq_dec : EqDecision lineage_replace_freshness_decision_t.
Proof. solve_decision. Defined.

Definition lineage_replace_classify_freshness (facts : ptr lineage_replace_freshness_facts_t) :
    lineage_replace_freshness_decision_t :=
  match facts with
  | None => LINEAGE_REPLACE_FRESHNESS_ANCHOR_INVALID
  | Some f =>
      if negb (ff_anchor_integrity_valid f) then LINEAGE_REPLACE_FRESHNESS_ANCHOR_INVALID
      else if negb (ff_anchor_available f) then LINEAGE_REPLACE_FRESHNESS_ANCHOR_UNAVAILABLE
      else if negb (ff_anchor_binding_valid f) then LINEAGE_REPLACE_FRESHNESS_BINDING_MISMATCH
      else if ff_record_generation f <? ff_trusted_high_water_generation f then LINEAGE_REPLACE_FRESHNESS_ROLLBACK_DETECTED
      else if ff_trusted_high_water_generation f <? ff_record_generation f then LINEAGE_REPLACE_FRESHNESS_GENERATION_AHEAD
      else LINEAGE_REPLACE_FRESHNESS_CURRENT
  end.

Definition lineage_replace_recover_with_freshness (recovery : ptr lineage_replace_recovery_facts_t)
    (freshness : ptr lineage_replace_freshness_facts_t) : lineage_replace_state_t :=
  if negb (bool_decide (lineage_replace_classify_freshness freshness = LINEAGE_REPLACE_FRESHNESS_CURRENT))
  then LINEAGE_REPLACE_STATE_CONTINUITY_BROKEN
  else lineage_replace_recover recovery.

#[export] Instance recovery_facts_eq_dec : EqDecision lineage_replace_recovery_facts_t.
Proof. solve_decision. Defined.

(** ** Storage *)
Record lineage_replace_storage_capability_t := {
  sc_durable_commit_confirmed : bool;
  sc_power_loss_recovery_supported : bool;
  sc_record_integrity_protected : bool;
  sc_replay_protection_supported : bool;
  sc_freshness_anchor_available : bool;
  sc_freshness_anchor_integrity_valid : bool;
  sc_freshness_anchor_lineage_bound : bool
}.

Inductive lineage_replace_storage_capability_decision_t :=
  | LINEAGE_REPLACE_STORAGE_CAPABILITY_QUALIFIED
  | LINEAGE_REPLACE_STORAGE_CAPABILITY_REJECT_DURABILITY
  | LINEAGE_REPLACE_STORAGE_CAPABILITY_REJECT_POWER_LOSS_RECOVERY
  | LINEAGE_REPLACE_STORAGE_CAPABILITY_REJECT_RECORD_INTEGRITY
  | LINEAGE_REPLACE_STORAGE_CAPABILITY_REJECT_REPLAY_PROTECTION
  | LINEAGE_REPLACE_STORAGE_CAPABILITY_REJECT_FRESHNESS_ANCHOR
  | LINEAGE_REPLACE_STORAGE_CAPABILITY_REJECT_FRESHNESS_INTEGRITY
  | LINEAGE_REPLACE_STORAGE_CAPABILITY_REJECT_FRESHNESS_BINDING.

Definition lineage_replace_classify_storage_capability (capability : ptr lineage_replace_storage_capability_t) :
    lineage_replace_storage_capability_decision_t :=
  match capability with
  | None => LINEAGE_REPLACE_STORAGE_CAPABILITY_REJECT_DURABILITY
  | Some c =>
      if negb (sc_durable_commit_confirmed c) then LINEAGE_REPLACE_STORAGE_CAPABILITY_REJECT_DURABILITY
      else if negb (sc_power_loss_recovery_supported c) then LINEAGE_REPLACE_STORAGE_CAPABILITY_REJECT_POWER_LOSS_RECOVERY
      else if negb (sc_record_integrity_protected c) then LINEAGE_REPLACE_STORAGE_CAPABILITY_REJECT_RECORD_INTEGRITY
      else if negb (sc_replay_protection_supported c) then LINEAGE_REPLACE_STORAGE_CAPABILITY_REJECT_REPLAY_PROTECTION
      else if negb (sc_freshness_anchor_available c) then LINEAGE_REPLACE_STORAGE_CAPABILITY_REJECT_FRESHNESS_ANCHOR
      else if negb (sc_freshness_anchor_integrity_valid c) then LINEAGE_REPLACE_STORAGE_CAPABILITY_REJECT_FRESHNESS_INTEGRITY
      else if negb (sc_freshness_anchor_lineage_bound c) then LINEAGE_REPLACE_STORAGE_CAPABILITY_REJECT_FRESHNESS_BINDING
      else LINEAGE_REPLACE_STORAGE_CAPABILITY_QUALIFIED
  end.

Inductive lineage_replace_storage_step_t :=
  | LINEAGE_REPLACE_STORAGE_STEP_PERSIST_PENDING
  | LINEAGE_REPLACE_STORAGE_STEP_ACTIVATE_SUCCESSOR
  | LINEAGE_REPLACE_STORAGE_STEP_RETIRE_PREDECESSOR
  | LINEAGE_REPLACE_STORAGE_STEP_INVALIDATE_DEPENDENT_STATE
  | LINEAGE_REPLACE_STORAGE_STEP_CLEAR_PENDING.

Inductive lineage_replace_storage_transaction_result_t :=
  | LINEAGE_REPLACE_STORAGE_TRANSACTION_COMMITTED
  | LINEAGE_REPLACE_STORAGE_TRANSACTION_REJECT_PLAN
  | LINEAGE_REPLACE_STORAGE_TRANSACTION_FAIL_PENDING
  | LINEAGE_REPLACE_STORAGE_TRANSACTION_FAIL_SUCCESSOR
  | LINEAGE_REPLACE_STORAGE_TRANSACTION_FAIL_PREDECESSOR
  | LINEAGE_REPLACE_STORAGE_TRANSACTION_FAIL_INVALIDATIONS
  | LINEAGE_REPLACE_STORAGE_TRANSACTION_FAIL_CLEAR.

#[export] Instance transaction_result_eq_dec : EqDecision lineage_replace_storage_transaction_result_t.
Proof. solve_decision. Defined.

(** The callback, on its context: whether the step was made durable. *)
Definition lineage_replace_storage_apply_fn (C : Type) : Type := lineage_replace_storage_step_t → C → bool * C.

(** [if (!apply(context, step)) return failed;] and what follows. *)
Definition apply_step {C} (apply : lineage_replace_storage_apply_fn C) (step : lineage_replace_storage_step_t)
    (failed : lineage_replace_storage_transaction_result_t)
    (next : C → lineage_replace_storage_transaction_result_t * C) (context : C) :
    lineage_replace_storage_transaction_result_t * C :=
  let '(ok, context) := apply step context in
  if negb ok then (failed, context) else next context.

Definition lineage_replace_execute_storage_transaction {C} (plan : ptr lineage_replace_plan_t)
    (apply : ptr (lineage_replace_storage_apply_fn C)) (context : C) :
    lineage_replace_storage_transaction_result_t * C :=
  match apply with
  | None => (LINEAGE_REPLACE_STORAGE_TRANSACTION_REJECT_PLAN, context)
  | Some apply =>
      if negb (plan_complete plan) then (LINEAGE_REPLACE_STORAGE_TRANSACTION_REJECT_PLAN, context)
      else
        apply_step apply LINEAGE_REPLACE_STORAGE_STEP_PERSIST_PENDING
          LINEAGE_REPLACE_STORAGE_TRANSACTION_FAIL_PENDING (
        apply_step apply LINEAGE_REPLACE_STORAGE_STEP_ACTIVATE_SUCCESSOR
          LINEAGE_REPLACE_STORAGE_TRANSACTION_FAIL_SUCCESSOR (
        apply_step apply LINEAGE_REPLACE_STORAGE_STEP_RETIRE_PREDECESSOR
          LINEAGE_REPLACE_STORAGE_TRANSACTION_FAIL_PREDECESSOR (
        apply_step apply LINEAGE_REPLACE_STORAGE_STEP_INVALIDATE_DEPENDENT_STATE
          LINEAGE_REPLACE_STORAGE_TRANSACTION_FAIL_INVALIDATIONS (
        apply_step apply LINEAGE_REPLACE_STORAGE_STEP_CLEAR_PENDING
          LINEAGE_REPLACE_STORAGE_TRANSACTION_FAIL_CLEAR (
        λ context, (LINEAGE_REPLACE_STORAGE_TRANSACTION_COMMITTED, context)))))) context
  end.

(** ** Sequences of calls to [lineage_replace_advance] *)
Definition call : Type := lineage_replace_event_t * ptr lineage_replace_plan_t.

(** The calls that return true, in order, and the final state. *)
Fixpoint run_calls (s : lineage_replace_state_t) (calls : list call) : list call * lineage_replace_state_t :=
  match calls with
  | [] => ([], s)
  | (event, plan) :: calls =>
      match lineage_replace_advance (Some s) event plan with
      | (true, Some s') => let '(accepted, s'') := run_calls s' calls in ((event, plan) :: accepted, s'')
      | (_, Some s') => run_calls s' calls
      | (_, None) => ([], s)
      end
  end.

(** The histories that the state machine allows. *)
Inductive history : list call → lineage_replace_state_t → Prop :=
  | h_start : history [] LINEAGE_REPLACE_STATE_ACTIVE_PREDECESSOR
  | h_begin p : lineage_replace_plan_complete p = true →
      history [(LINEAGE_REPLACE_EVENT_BEGIN, p)] LINEAGE_REPLACE_STATE_REPLACEMENT_PENDING
  | h_commit p q : lineage_replace_plan_complete p = true → lineage_replace_plan_complete q = true →
      history [(LINEAGE_REPLACE_EVENT_BEGIN, p); (LINEAGE_REPLACE_EVENT_COMMIT, q)]
        LINEAGE_REPLACE_STATE_ACTIVE_SUCCESSOR_PREDECESSOR_RETIRED
  | h_interrupt p q : lineage_replace_plan_complete p = true →
      history [(LINEAGE_REPLACE_EVENT_BEGIN, p); (LINEAGE_REPLACE_EVENT_INTERRUPT, q)]
        LINEAGE_REPLACE_STATE_CONTINUITY_BROKEN.

Lemma advance_cases s e p :
  match lineage_replace_advance (Some s) e p with
  | (true, Some s') =>
      (s = LINEAGE_REPLACE_STATE_ACTIVE_PREDECESSOR ∧ e = LINEAGE_REPLACE_EVENT_BEGIN ∧
       lineage_replace_plan_complete p = true ∧ s' = LINEAGE_REPLACE_STATE_REPLACEMENT_PENDING) ∨
      (s = LINEAGE_REPLACE_STATE_REPLACEMENT_PENDING ∧ e = LINEAGE_REPLACE_EVENT_COMMIT ∧
       lineage_replace_plan_complete p = true ∧ s' = LINEAGE_REPLACE_STATE_ACTIVE_SUCCESSOR_PREDECESSOR_RETIRED) ∨
      (s = LINEAGE_REPLACE_STATE_REPLACEMENT_PENDING ∧ e = LINEAGE_REPLACE_EVENT_INTERRUPT ∧
       s' = LINEAGE_REPLACE_STATE_CONTINUITY_BROKEN)
  | (false, Some s') => s' = s
  | (_, None) => False
  end.
Proof. unfold lineage_replace_advance. destruct s, e, (lineage_replace_plan_complete p) eqn:E; cbn; naive_solver. Qed.

Lemma history_step h s e p :
  history h s →
  match lineage_replace_advance (Some s) e p with
  | (true, Some s') => history (h ++ [(e, p)]) s'
  | (_, Some s') => s' = s
  | (_, None) => False
  end.
Proof.
  intros H. pose proof (advance_cases s e p) as Ha.
  destruct (lineage_replace_advance (Some s) e p) as [[|] [s'|]]; try done.
  destruct Ha as [(-> & -> & Hp & ->)|[(-> & -> & Hp & ->)|(-> & -> & ->)]]; inversion H; by constructor.
Qed.

Lemma run_calls_history h s calls :
  history h s → history (h ++ (run_calls s calls).1) (run_calls s calls).2.
Proof.
  revert h s. induction calls as [|[e p] calls IH]; intros h s H; cbn [run_calls fst snd]; [by rewrite app_nil_r|].
  pose proof (history_step h s e p H) as Hs.
  destruct (lineage_replace_advance (Some s) e p) as [[|] [s'|]]; [| |subst; by apply IH|done]; [|done].
  specialize (IH _ _ Hs). destruct (run_calls s' calls) as [accepted s'']. cbn [fst snd] in *.
  by rewrite <- app_assoc in IH.
Qed.

(** ** The transaction on an adapter *)

(** What a durable step does to the stored record. *)
Definition step_effect (step : lineage_replace_storage_step_t) (f : lineage_replace_recovery_facts_t) :
    lineage_replace_recovery_facts_t :=
  let '(Build_lineage_replace_recovery_facts_t i a p s r v) := f in
  match step with
  | LINEAGE_REPLACE_STORAGE_STEP_PERSIST_PENDING => Build_lineage_replace_recovery_facts_t i a true s r v
  | LINEAGE_REPLACE_STORAGE_STEP_ACTIVATE_SUCCESSOR => Build_lineage_replace_recovery_facts_t i a p true r v
  | LINEAGE_REPLACE_STORAGE_STEP_RETIRE_PREDECESSOR => Build_lineage_replace_recovery_facts_t i false p s true v
  | LINEAGE_REPLACE_STORAGE_STEP_INVALIDATE_DEPENDENT_STATE => Build_lineage_replace_recovery_facts_t i a p s r true
  | LINEAGE_REPLACE_STORAGE_STEP_CLEAR_PENDING => Build_lineage_replace_recovery_facts_t i a false s r v
  end.

(** What the header asks of the callback: true asserts that the step is durable; a
    step that fails may or may not be. *)
Record durable_adapter {C} (record_of : C → lineage_replace_recovery_facts_t)
    (apply : lineage_replace_storage_apply_fn C) : Prop := {
  da_done step c c' : apply step c = (true, c') → record_of c' = step_effect step (record_of c);
  da_failed step c c' : apply step c = (false, c') →
    record_of c' = record_of c ∨ record_of c' = step_effect step (record_of c)
}.

(** The cuts at which a transaction with a result may have left the record. *)
Definition cuts_of (r : lineage_replace_storage_transaction_result_t) : list lineage_replace_write_cut_t :=
  match r with
  | LINEAGE_REPLACE_STORAGE_TRANSACTION_REJECT_PLAN => [LINEAGE_REPLACE_CUT_BEFORE_BEGIN]
  | LINEAGE_REPLACE_STORAGE_TRANSACTION_FAIL_PENDING =>
      [LINEAGE_REPLACE_CUT_BEFORE_BEGIN; LINEAGE_REPLACE_CUT_AFTER_PENDING_MARKER]
  | LINEAGE_REPLACE_STORAGE_TRANSACTION_FAIL_SUCCESSOR =>
      [LINEAGE_REPLACE_CUT_AFTER_PENDING_MARKER; LINEAGE_REPLACE_CUT_AFTER_SUCCESSOR_ACTIVATION]
  | LINEAGE_REPLACE_STORAGE_TRANSACTION_FAIL_PREDECESSOR =>
      [LINEAGE_REPLACE_CUT_AFTER_SUCCESSOR_ACTIVATION; LINEAGE_REPLACE_CUT_AFTER_PREDECESSOR_RETIREMENT]
  | LINEAGE_REPLACE_STORAGE_TRANSACTION_FAIL_INVALIDATIONS =>
      [LINEAGE_REPLACE_CUT_AFTER_PREDECESSOR_RETIREMENT; LINEAGE_REPLACE_CUT_AFTER_INVALIDATIONS]
  | LINEAGE_REPLACE_STORAGE_TRANSACTION_FAIL_CLEAR =>
      [LINEAGE_REPLACE_CUT_AFTER_INVALIDATIONS; LINEAGE_REPLACE_CUT_AFTER_COMMIT_MARKER_CLEAR]
  | LINEAGE_REPLACE_STORAGE_TRANSACTION_COMMITTED => [LINEAGE_REPLACE_CUT_AFTER_COMMIT_MARKER_CLEAR]
  end.

(** What a restart makes of the record at a cut. *)
Definition restart_at (cut : lineage_replace_write_cut_t) : lineage_replace_state_t :=
  match cut with
  | LINEAGE_REPLACE_CUT_BEFORE_BEGIN => LINEAGE_REPLACE_STATE_ACTIVE_PREDECESSOR
  | LINEAGE_REPLACE_CUT_AFTER_COMMIT_MARKER_CLEAR => LINEAGE_REPLACE_STATE_ACTIVE_SUCCESSOR_PREDECESSOR_RETIRED
  | _ => LINEAGE_REPLACE_STATE_CONTINUITY_BROKEN
  end.

Lemma recover_at cut : lineage_replace_recover (Some (lineage_replace_facts_at_write_cut cut)) = restart_at cut.
Proof. by destruct cut. Qed.

Section adapter.
Context {C : Type} (record_of : C → lineage_replace_recovery_facts_t) (apply : lineage_replace_storage_apply_fn C).
Context (Had : durable_adapter record_of apply).

(** A step between two cuts. *)
Lemma apply_step_cut step failed next c before after :
  record_of c = lineage_replace_facts_at_write_cut before →
  cuts_of failed = [before; after] →
  step_effect step (lineage_replace_facts_at_write_cut before) = lineage_replace_facts_at_write_cut after →
  (∀ c', record_of c' = lineage_replace_facts_at_write_cut after →
     ∃ cut, cut ∈ cuts_of (next c').1 ∧ record_of (next c').2 = lineage_replace_facts_at_write_cut cut) →
  ∃ cut, cut ∈ cuts_of (apply_step apply step failed next c).1 ∧
    record_of (apply_step apply step failed next c).2 = lineage_replace_facts_at_write_cut cut.
Proof.
  intros Hc Hf He Hn. unfold apply_step. destruct (apply step c) as [[|] c'] eqn:E.
  - apply Hn. by rewrite (da_done _ _ Had _ _ _ E), Hc.
  - cbn [negb fst snd]. rewrite Hf. destruct (da_failed _ _ Had _ _ _ E) as [-> | ->]; rewrite Hc, ?He.
    + exists before. split; [constructor|done].
    + exists after. split; [by apply list_elem_of_further, list_elem_of_here|done].
Qed.

Lemma transaction_cut plan c :
  record_of c = lineage_replace_facts_at_write_cut LINEAGE_REPLACE_CUT_BEFORE_BEGIN →
  let '(r, c') := lineage_replace_execute_storage_transaction plan (Some apply) c in
  ∃ cut, cut ∈ cuts_of r ∧ record_of c' = lineage_replace_facts_at_write_cut cut.
Proof.
  intros Hc. rewrite (surjective_pairing (lineage_replace_execute_storage_transaction _ _ _)).
  unfold lineage_replace_execute_storage_transaction. destruct (negb (plan_complete plan)).
  { exists LINEAGE_REPLACE_CUT_BEFORE_BEGIN. split; [constructor|done]. }
  eapply apply_step_cut; [exact Hc|reflexivity|reflexivity|]. intros c1 H1.
  eapply apply_step_cut; [exact H1|reflexivity|reflexivity|]. intros c2 H2.
  eapply apply_step_cut; [exact H2|reflexivity|reflexivity|]. intros c3 H3.
  eapply apply_step_cut; [exact H3|reflexivity|reflexivity|]. intros c4 H4.
  eapply apply_step_cut; [exact H4|reflexivity|reflexivity|]. intros c5 H5.
  eexists. split; [constructor|exact H5].
Qed.
End adapter.

(** ** The properties *)

(** Whatever lifecycle calls are made, the successor becomes active only by one
    accepted BEGIN followed by one accepted COMMIT, each with a complete plan; the
    accepted calls of a lineage are one of four histories, an interruption breaks
    continuity for good and nothing leaves a final state. *)
Theorem lineage_histories calls :
  let '(accepted, s) := run_calls LINEAGE_REPLACE_STATE_ACTIVE_PREDECESSOR calls in history accepted s.
Proof.
  pose proof (run_calls_history [] _ calls h_start) as H. by destruct (run_calls _ calls).
Qed.

(** With any adapter that does what its contract says, a replacement transaction
    that starts from the predecessor's record leaves, however it ends, the record of
    one of the write cuts next to the step that failed; a restart then makes the
    predecessor active only if nothing was made durable and the successor only if
    every step was, and any other record breaks continuity. *)
Theorem transaction_restart {C} (record_of : C → lineage_replace_recovery_facts_t) apply plan c :
  durable_adapter record_of apply →
  record_of c = lineage_replace_facts_at_write_cut LINEAGE_REPLACE_CUT_BEFORE_BEGIN →
  let '(r, c') := lineage_replace_execute_storage_transaction plan (Some apply) c in
  ∃ cut, cut ∈ cuts_of r ∧ record_of c' = lineage_replace_facts_at_write_cut cut ∧
    lineage_replace_recover (Some (record_of c')) = restart_at cut ∧
    (r = LINEAGE_REPLACE_STORAGE_TRANSACTION_COMMITTED →
       restart_at cut = LINEAGE_REPLACE_STATE_ACTIVE_SUCCESSOR_PREDECESSOR_RETIRED).
Proof.
  intros Had Hc. pose proof (transaction_cut record_of apply Had plan c Hc) as H.
  destruct (lineage_replace_execute_storage_transaction _ _ _) as [r c']. destruct H as (cut & Hcut & Hr).
  exists cut. split_and!; [done|done|by rewrite Hr, recover_at|]. intros ->. by apply list_elem_of_singleton in Hcut as ->.
Qed.

(** An adapter that keeps the record and fails at the steps of a script, making the
    step durable or not. *)
Definition scripted_adapter : lineage_replace_storage_apply_fn (list (bool * bool) * lineage_replace_recovery_facts_t) :=
  λ step '(script, f),
    match script with
    | [] => (true, ([], step_effect step f))
    | (ok, durable) :: script => (ok, (script, if ok || durable then step_effect step f else f))
    end.

Lemma scripted_adapter_durable : durable_adapter snd scripted_adapter.
Proof.
  split; intros step [[|[ok durable] script] f] c' E; try discriminate E; injection E as E; subst; try done.
  destruct durable; [by right|by left].
Qed.

Lemma transaction_restart_witness :
  let c := ([(true, true); (false, true)], lineage_replace_facts_at_write_cut LINEAGE_REPLACE_CUT_BEFORE_BEGIN) in
  let '(r, c') := lineage_replace_execute_storage_transaction (Some (const_plan true)) (Some scripted_adapter) c in
  r = LINEAGE_REPLACE_STORAGE_TRANSACTION_FAIL_SUCCESSOR ∧
  lineage_replace_recover (Some c'.2) = LINEAGE_REPLACE_STATE_CONTINUITY_BROKEN.
Proof.
  pose proof (transaction_restart snd scripted_adapter (Some (const_plan true))
    ([(true, true); (false, true)], lineage_replace_facts_at_write_cut LINEAGE_REPLACE_CUT_BEFORE_BEGIN)
    scripted_adapter_durable eq_refl) as H.
  cbn in H. destruct H as (cut & Hcut & Hr & -> & _). split; [done|]. cbn in Hcut, Hr. by destruct cut.
Defined.

(** A restart makes the predecessor or the successor active exactly when the
    freshness anchor is intact, available and bound, the stored generation equals the
    trusted high-water generation (an older record is a rollback, a newer one is
    ahead), and the record is that of the first or of the last write cut. *)
Theorem restart_exact recovery freshness :
  lineage_replace_recover_with_freshness recovery freshness =
  match freshness with
  | Some (Build_lineage_replace_freshness_facts_t true true true generation high_water) =>
      if decide (generation = high_water ∧
                 recovery = Some (lineage_replace_facts_at_write_cut LINEAGE_REPLACE_CUT_BEFORE_BEGIN))
      then LINEAGE_REPLACE_STATE_ACTIVE_PREDECESSOR
      else if decide (generation = high_water ∧
                 recovery = Some (lineage_replace_facts_at_write_cut LINEAGE_REPLACE_CUT_AFTER_COMMIT_MARKER_CLEAR))
      then LINEAGE_REPLACE_STATE_ACTIVE_SUCCESSOR_PREDECESSOR_RETIRED
      else LINEAGE_REPLACE_STATE_CONTINUITY_BROKEN
  | _ => LINEAGE_REPLACE_STATE_CONTINUITY_BROKEN
  end.
Proof.
  destruct freshness as [[[|] [|] [|] g h]|]; try done. unfold lineage_replace_recover_with_freshness. cbn.
  destruct (Z.ltb_spec g h), (Z.ltb_spec h g); try lia; cbn;
    [rewrite !decide_False by lia; done..|]. assert (g = h) as -> by lia.
  destruct recovery as [[[|] [|] [|] [|] [|] [|]]|]; cbn; repeat case_decide; intuition congruence.
Qed.
