(* ===== verification/LineageAuth.v ===== *)
(** Lineage replacement, its authorization: the headers
    [lineage_replace_authorization.h], [lineage_replace_possession.h],
    [lineage_replace_session_binding.h], [lineage_replace_auth_context.h],
    [lineage_replace_bound_auth_context.h] and [lineage_replace_verified_commit.h] of
    [src/c/include/auth] and the files of the same names under [src/c/src/proto].

    The verified commit composes possession proofs, the binding to an AUTH v3
    session, the iot-core authorization context with its attribution record, the
    decision and the storage transaction. *)
From S2P Require Export V3 Lineage.

#[local] Open Scope Z_scope.

(** ** Possession *)
Inductive lineage_replace_possession_decision_t :=
  | LINEAGE_REPLACE_POSSESSION_REJECT_CURRENT_CREDENTIAL_CONTROL
  | LINEAGE_REPLACE_POSSESSION_REJECT_SUCCESSOR_KEY_CONTROL
  | LINEAGE_REPLACE_POSSESSION_VERIFIED.

Record lineage_replace_verified_lifecycle_possession_proof_t := {
  pp_verification_valid : bool;
  pp_session_id : bytes;
  pp_subject_reference : bytes
}.

(** The conditions on one proof; a NULL proof fails them. *)
Definition proof_accepted (proof : ptr lineage_replace_verified_lifecycle_possession_proof_t)
    (expected_session_id expected_reference : bytes) : bool :=
  match proof with
  | None => false
  | Some p => pp_verification_valid p && memeq (pp_session_id p) expected_session_id &&
              memeq (pp_subject_reference p) expected_reference
  end.

Definition lineage_replace_classify_possession
    (current_credential_proof successor_key_proof : ptr lineage_replace_verified_lifecycle_possession_proof_t)
    (expected_session_id expected_predecessor_credential_reference expected_successor_key_reference : ptr bytes) :
    lineage_replace_possession_decision_t :=
  match expected_session_id, expected_predecessor_credential_reference, expected_successor_key_reference with
  | Some sid, Some predecessor, Some successor =>
      if negb (proof_accepted current_credential_proof sid predecessor)
      then LINEAGE_REPLACE_POSSESSION_REJECT_CURRENT_CREDENTIAL_CONTROL
      else if negb (proof_accepted successor_key_proof sid successor)
      then LINEAGE_REPLACE_POSSESSION_REJECT_SUCCESSOR_KEY_CONTROL
      else LINEAGE_REPLACE_POSSESSION_VERIFIED
  | _, _, _ => LINEAGE_REPLACE_POSSESSION_REJECT_CURRENT_CREDENTIAL_CONTROL
  end.

(** ** Session binding *)
Inductive lineage_replace_session_binding_decision_t :=
  | LINEAGE_REPLACE_SESSION_BOUND
  | LINEAGE_REPLACE_SESSION_REJECT_COMPLETION
  | LINEAGE_REPLACE_SESSION_REJECT_VERSION
  | LINEAGE_REPLACE_SESSION_REJECT_SUITE
  | LINEAGE_REPLACE_SESSION_REJECT_PROFILE
  | LINEAGE_REPLACE_SESSION_REJECT_SESSION_ID
  | LINEAGE_REPLACE_SESSION_REJECT_AUTHZ_CONTEXT
  | LINEAGE_REPLACE_SESSION_REJECT_CHANNEL_BINDING.

Record lineage_replace_session_binding_expectation_t := {
  se_auth_completion_verified : bool;
  se_expected_protocol_version : byte;
  se_expected_suite_id : Z;
  se_expected_profile_id : Z;
  se_expected_session_id : bytes;
  se_expected_authz_context_hash : bytes;
  se_expected_channel_binding_hash : bytes
}.

#[export] Instance session_binding_eq_dec : EqDecision lineage_replace_session_binding_decision_t.
Proof. solve_decision. Defined.

Definition lineage_replace_classify_session_binding (context : ptr auth_v3_context_t)
    (expectation : ptr lineage_replace_session_binding_expectation_t) : lineage_replace_session_binding_decision_t :=
  match context, expectation with
  | Some c, Some e =>
      if negb (se_auth_completion_verified e) then LINEAGE_REPLACE_SESSION_REJECT_COMPLETION
      else if negb (bool_decide (v3_protocol_version c = se_expected_protocol_version e))
      then LINEAGE_REPLACE_SESSION_REJECT_VERSION
      else if negb (v3_suite_id c =? se_expected_suite_id e) then LINEAGE_REPLACE_SESSION_REJECT_SUITE
      else if negb (v3_profile_id c =? se_expected_profile_id e) then LINEAGE_REPLACE_SESSION_REJECT_PROFILE
      else if negb (memeq (v3_session_id c) (se_expected_session_id e)) then LINEAGE_REPLACE_SESSION_REJECT_SESSION_ID
      else if negb (memeq (v3_authz_context_hash c) (se_expected_authz_context_hash e))
      then LINEAGE_REPLACE_SESSION_REJECT_AUTHZ_CONTEXT
      else if negb (memeq (v3_channel_binding_hash c) (se_expected_channel_binding_hash e))
      then LINEAGE_REPLACE_SESSION_REJECT_CHANNEL_BINDING
      else LINEAGE_REPLACE_SESSION_BOUND
  | _, _ => LINEAGE_REPLACE_SESSION_REJECT_COMPLETION
  end.

(** ** Authorization *)
Record lineage_replace_authorization_facts_t := {
  af_current_credential_control_valid : bool;
  af_successor_key_control_valid : bool;
  af_current_session_authenticated : bool;
  af_current_session_authorized : bool;
  af_current_context_bound : bool;
  af_predecessor_binding_current : bool;
  af_successor_scope_within_authorized_scope : bool
}.

Definition lineage_replace_classify_authorization (facts : ptr lineage_replace_authorization_facts_t) :
    lineage_replace_authorization_decision_t :=
  match facts with
  | None => LINEAGE_REPLACE_REJECT_CURRENT_CREDENTIAL_CONTROL
  | Some f =>
      if negb (af_current_credential_control_valid f) then LINEAGE_REPLACE_REJECT_CURRENT_CREDENTIAL_CONTROL
      else if negb (af_successor_key_control_valid f) then LINEAGE_REPLACE_REJECT_SUCCESSOR_KEY_CONTROL
      else if negb (af_current_session_authenticated f) then LINEAGE_REPLACE_REJECT_SESSION_AUTHENTICATION
      else if negb (af_current_session_authorized f) then LINEAGE_REPLACE_REJECT_SESSION_AUTHORIZATION
      else if negb (af_current_context_bound f) then LINEAGE_REPLACE_REJECT_CONTEXT_BINDING
      else if negb (af_predecessor_binding_current f) then LINEAGE_REPLACE_REJECT_PREDECESSOR_BINDING
      else if negb (af_successor_scope_within_authorized_scope f) then LINEAGE_REPLACE_REJECT_PRIVILEGE_EXPANSION
      else LINEAGE_REPLACE_AUTHORIZED_REPLACEMENT
  end.

Record lineage_replace_auth_context_evidence_t := {
  ev_current_credential_control_valid : bool;
  ev_successor_key_control_valid : bool;
  ev_current_session_authenticated : bool;
  ev_expected_peer_identity : bytes;
  ev_predecessor_credential_reference : bytes;
  ev_requested_successor_scope_bits : Z
}.

Definition bytes_nonzero (value : bytes) : bool := negb (foldl (λ acc b, Z.lor acc (b2z b)) 0 value =? 0).

Definition context_shape_valid (context : ptr auth_v3_iot_core_authorization_context_v1_t) : bool :=
  match context with
  | None => false
  | Some c => bytes_nonzero (ac_holder_binding c) && bytes_nonzero (ac_audience_id c) &&
              negb (ac_role_policy_id c =? 0) && (ac_scope_bits c =? AUTH_V3_IOT_CORE_SCOPE_SECURE_ASSOCIATION) &&
              negb (ac_authorization_generation c =? 0) && negb (ac_policy_epoch c =? 0) &&
              negb (ac_revocation_epoch c =? 0)
  end.

(** [attribution_context_match] *)
Definition attribution_matches (r : auth_v3_iot_core_attribution_record_v1_t)
    (c : auth_v3_iot_core_authorization_context_v1_t) : bool :=
  memeq (ar_holder_binding r) (ac_holder_binding c) && memeq (ar_audience_id r) (ac_audience_id c) &&
  (ar_role_policy_id r =? ac_role_policy_id c) && (ar_scope_bits r =? ac_scope_bits c) &&
  (ar_authorization_generation r =? ac_authorization_generation c) && (ar_policy_epoch r =? ac_policy_epoch c) &&
  (ar_revocation_epoch r =? ac_revocation_epoch c).

(** [requested & ~scope] on 64 bits *)
Definition scope_excess (requested scope : Z) : Z := Z.land requested (u64 (Z.lnot scope)).

Definition lineage_replace_authorization_from_iot_core (context : ptr auth_v3_iot_core_authorization_context_v1_t)
    (attribution : ptr auth_v3_iot_core_attribution_record_v1_t) (evidence : ptr lineage_replace_auth_context_evidence_t) :
    lineage_replace_authorization_decision_t :=
  match evidence with
  | None => LINEAGE_REPLACE_REJECT_CURRENT_CREDENTIAL_CONTROL
  | Some e =>
      let facts authorized bound predecessor scope :=
        {| af_current_credential_control_valid := ev_current_credential_control_valid e;
           af_successor_key_control_valid := ev_successor_key_control_valid e;
           af_current_session_authenticated := ev_current_session_authenticated e;
           af_current_session_authorized := authorized; af_current_context_bound := bound;
           af_predecessor_binding_current := predecessor; af_successor_scope_within_authorized_scope := scope |} in
      match context, attribution with
      | Some c, Some r =>
          if negb (context_shape_valid context)
          then lineage_replace_classify_authorization (Some (facts false false false false))
          else
            let attribution_context_match := attribution_matches r c in
            let peer_match := memeq (ar_peer_identity r) (ev_expected_peer_identity e) in
            let predecessor_match := memeq (ar_credential_reference r) (ev_predecessor_credential_reference e) in
            lineage_replace_classify_authorization (Some (facts
              attribution_context_match
              (attribution_context_match && peer_match)
              (predecessor_match && (ar_authorization_generation r =? ac_authorization_generation c))
              (negb (ev_requested_successor_scope_bits e =? 0) &&
               (scope_excess (ev_requested_successor_scope_bits e) (ac_scope_bits c) =? 0))))
      | _, _ => lineage_replace_classify_authorization (Some (facts false false false false))
      end
  end.

(** ** Bound authorization *)
Record lineage_replace_bound_auth_context_evidence_t := {
  be_current_credential_control_valid : bool;
  be_successor_key_control_valid : bool;
  be_expected_peer_identity : bytes;
  be_predecessor_credential_reference : bytes;
  be_requested_successor_scope_bits : Z
}.

Record lineage_replace_verified_bound_auth_context_evidence_t := {
  ve_current_credential_proof : lineage_replace_verified_lifecycle_possession_proof_t;
  ve_successor_key_proof : lineage_replace_verified_lifecycle_possession_proof_t;
  ve_successor_key_reference : bytes;
  ve_expected_peer_identity : bytes;
  ve_predecessor_credential_reference : bytes;
  ve_requested_successor_scope_bits : Z
}.

Definition lineage_replace_authorization_from_bound_iot_core (auth_context : ptr auth_v3_context_t)
    (session_expectation : ptr lineage_replace_session_binding_expectation_t)
    (authorization_context : ptr auth_v3_iot_core_authorization_context_v1_t)
    (attribution : ptr auth_v3_iot_core_attribution_record_v1_t)
    (evidence : ptr lineage_replace_bound_auth_context_evidence_t) : lineage_replace_authorization_decision_t :=
  match evidence with
  | None => LINEAGE_REPLACE_REJECT_CURRENT_CREDENTIAL_CONTROL
  | Some e =>
      lineage_replace_authorization_from_iot_core authorization_context attribution (Some
        {| ev_current_credential_control_valid := be_current_credential_control_valid e;
           ev_successor_key_control_valid := be_successor_key_control_valid e;
           ev_current_session_authenticated :=
             bool_decide (lineage_replace_classify_session_binding auth_context session_expectation =
                          LINEAGE_REPLACE_SESSION_BOUND);
           ev_expected_peer_identity := be_expected_peer_identity e;
           ev_predecessor_credential_reference := be_predecessor_credential_reference e;
           ev_requested_successor_scope_bits := be_requested_successor_scope_bits e |})
  end.

Definition lineage_replace_authorization_from_verified_bound_iot_core (auth_context : ptr auth_v3_context_t)
    (session_expectation : ptr lineage_replace_session_binding_expectation_t)
    (authorization_context : ptr auth_v3_iot_core_authorization_context_v1_t)
    (attribution : ptr auth_v3_iot_core_attribution_record_v1_t)
    (evidence : ptr lineage_replace_verified_bound_auth_context_evidence_t) : lineage_replace_authorization_decision_t :=
  match evidence, session_expectation with
  | None, _ => LINEAGE_REPLACE_REJECT_CURRENT_CREDENTIAL_CONTROL
  | Some _, None => LINEAGE_REPLACE_REJECT_SESSION_AUTHENTICATION
  | Some e, Some expectation =>
      match lineage_replace_classify_possession (Some (ve_current_credential_proof e)) (Some (ve_successor_key_proof e))
              (Some (se_expected_session_id expectation)) (Some (ve_predecessor_credential_reference e))
              (Some (ve_successor_key_reference e)) with
      | LINEAGE_REPLACE_POSSESSION_REJECT_CURRENT_CREDENTIAL_CONTROL => LINEAGE_REPLACE_REJECT_CURRENT_CREDENTIAL_CONTROL
      | LINEAGE_REPLACE_POSSESSION_REJECT_SUCCESSOR_KEY_CONTROL => LINEAGE_REPLACE_REJECT_SUCCESSOR_KEY_CONTROL
      | LINEAGE_REPLACE_POSSESSION_VERIFIED =>
          lineage_replace_authorization_from_bound_iot_core auth_context session_expectation authorization_context
            attribution (Some
              {| be_current_credential_control_valid := true; be_successor_key_control_valid := true;
                 be_expected_peer_identity := ve_expected_peer_identity e;
                 be_predecessor_credential_reference := ve_predecessor_credential_reference e;
                 be_requested_successor_scope_bits := ve_requested_successor_scope_bits e |})
      end
  end.

(** ** The verified commit *)
Inductive lineage_replace_verified_commit_phase_t :=
  | LINEAGE_REPLACE_VERIFIED_COMMIT_REJECT_AUTHORIZATION
  | LINEAGE_REPLACE_VERIFIED_COMMIT_REJECT_DECISION
  | LINEAGE_REPLACE_VERIFIED_COMMIT_REJECT_PLAN
  | LINEAGE_REPLACE_VERIFIED_COMMIT_REJECT_STORAGE_ADAPTER
  | LINEAGE_REPLACE_VERIFIED_COMMIT_STORAGE_COMMITTED
  | LINEAGE_REPLACE_VERIFIED_COMMIT_STORAGE_FAILED.

Record lineage_replace_verified_commit_result_t := {
  vc_phase : lineage_replace_verified_commit_phase_t;
  vc_authorization : lineage_replace_authorization_decision_t;
  vc_decision : lineage_replace_decision_t;
  vc_storage_result : lineage_replace_storage_transaction_result_t
}.

(** The local [plan] is not initialised before [lineage_replace_plan] writes it. *)
Definition lineage_replace_execute_verified_bound_iot_core_commit {C} (auth_context : ptr auth_v3_context_t)
    (session_expectation : ptr lineage_replace_session_binding_expectation_t)
    (authorization_context : ptr auth_v3_iot_core_authorization_context_v1_t)
    (attribution : ptr auth_v3_iot_core_attribution_record_v1_t)
    (evidence : ptr lineage_replace_verified_bound_auth_context_evidence_t) (facts : ptr lineage_replace_facts_t)
    (apply : ptr (lineage_replace_storage_apply_fn C)) (storage_context : C) :
    lineage_replace_verified_commit_result_t * C :=
  let out phase authorization decision storage_result :=
    Build_lineage_replace_verified_commit_result_t phase authorization decision storage_result in
  let authorization := lineage_replace_authorization_from_verified_bound_iot_core auth_context session_expectation
                         authorization_context attribution evidence in
  if negb (bool_decide (authorization = LINEAGE_REPLACE_AUTHORIZED_REPLACEMENT))
  then (out LINEAGE_REPLACE_VERIFIED_COMMIT_REJECT_AUTHORIZATION authorization LINEAGE_REPLACE_REJECT_AUTHORITY
          LINEAGE_REPLACE_STORAGE_TRANSACTION_REJECT_PLAN, storage_context)
  else
    let decision := lineage_replace_evaluate_authorized authorization facts in
    if negb (bool_decide (decision = LINEAGE_REPLACE_ACCEPT_SUCCESSOR))
    then (out LINEAGE_REPLACE_VERIFIED_COMMIT_REJECT_DECISION authorization decision
            LINEAGE_REPLACE_STORAGE_TRANSACTION_REJECT_PLAN, storage_context)
    else
      match lineage_replace_plan decision (Some (const_plan false)) with
      | (false, _) => (out LINEAGE_REPLACE_VERIFIED_COMMIT_REJECT_PLAN authorization decision
                         LINEAGE_REPLACE_STORAGE_TRANSACTION_REJECT_PLAN, storage_context)
      | (true, plan) =>
          match apply with
          | None => (out LINEAGE_REPLACE_VERIFIED_COMMIT_REJECT_STORAGE_ADAPTER authorization decision
                       LINEAGE_REPLACE_STORAGE_TRANSACTION_REJECT_PLAN, storage_context)
          | Some _ =>
              let '(storage_result, storage_context) :=
                lineage_replace_execute_storage_transaction plan apply storage_context in
              let phase :=
                if bool_decide (storage_result = LINEAGE_REPLACE_STORAGE_TRANSACTION_COMMITTED)
                then LINEAGE_REPLACE_VERIFIED_COMMIT_STORAGE_COMMITTED
                else if bool_decide (storage_result = LINEAGE_REPLACE_STORAGE_TRANSACTION_REJECT_PLAN)
                then LINEAGE_REPLACE_VERIFIED_COMMIT_REJECT_PLAN
                else LINEAGE_REPLACE_VERIFIED_COMMIT_STORAGE_FAILED in
              (out phase authorization decision storage_result, storage_context)
          end
      end.


(** ** What the gates amount to *)
Ltac split_gates :=
  repeat match goal with
  | H : bool_decide _ = true |- _ => apply bool_decide_eq_true in H
  | H : (_ =? _)%Z = true |- _ => apply Z.eqb_eq in H
  | _ => progress bool_to_prop
  end.

Lemma bytes_nonzero_all_zero v : bytes_nonzero v = negb (all_zero v).
Proof. done. Qed.

(** The shape check is the validation of [auth_v3_iot_core_authz_validate]. *)
Lemma context_shape_valid_iff c : authz_wf c → context_shape_valid (Some c) = true ↔ authz_valid c.
Proof.
  intros Hw. destruct (Hw) as [Hh Ha _ _ _ _ _]. unfold context_shape_valid. rewrite !bytes_nonzero_all_zero.
  rewrite !andb_true_iff, (all_zero_false 32), (all_zero_false 32), !negb_true_iff, !Z.eqb_neq, Z.eqb_eq by done.
  unfold AUTH_V3_IOT_CORE_SCOPE_SECURE_ASSOCIATION. split; [intros; by constructor; tauto|by intros []].
Qed.

Lemma attribution_matches_iff r c : attribution_matches r c = true ↔ granted r = c.
Proof.
  unfold attribution_matches, granted. rewrite !andb_true_iff, !Z.eqb_eq, !memeq_true. destruct c; cbn. split.
  - intros [[[[[[-> ->] ->] ->] ->] ->] ->]. done.
  - intros E. injection E. tauto.
Qed.

(** [requested & ~scope] is zero for the subsets of [scope]. *)
Lemma scope_excess_zero requested scope :
  is_u64 requested → scope_excess requested scope = 0 ↔ Z.land requested scope = requested.
Proof.
  intros [Hr0 Hr]. unfold scope_excess, u64. split.
  - intros E. apply Z.bits_inj'. intros n Hn. rewrite Z.land_spec.
    apply (f_equal (λ x, Z.testbit x n)) in E. rewrite Z.land_spec, Z.bits_0 in E.
    destruct (Z.lt_ge_cases n 64) as [Hlt|Hge].
    + change 18446744073709551616 with (2 ^ 64) in E. rewrite Z.mod_pow2_bits_low, Z.lnot_spec in E by lia.
      by destruct (Z.testbit requested n), (Z.testbit scope n).
    + destruct (decide (requested = 0)) as [-> |Hz]; [by rewrite Z.bits_0|].
      rewrite (Z.bits_above_log2 requested n); [done|done|].
      apply Z.log2_lt_pow2; [lia|]. eapply Z.lt_le_trans; [exact Hr|]. by apply (Z.pow_le_mono_r 2 64 n).
  - intros E. apply Z.bits_inj'. intros n Hn. rewrite Z.land_spec, Z.bits_0.
    apply (f_equal (λ x, Z.testbit x n)) in E. rewrite Z.land_spec in E.
    destruct (Z.lt_ge_cases n 64) as [Hlt|Hge].
    + change 18446744073709551616 with (2 ^ 64). rewrite Z.mod_pow2_bits_low, Z.lnot_spec by lia.
      by destruct (Z.testbit requested n), (Z.testbit scope n).
    + change 18446744073709551616 with (2 ^ 64). rewrite Z.mod_pow2_bits_high by lia. apply andb_false_r.
Qed.

(** The one scope bit of a valid context leaves one request. *)
Lemma scope_within_one requested :
  is_u64 requested → negb (requested =? 0) && (scope_excess requested 1 =? 0) = true ↔ requested = 1.
Proof.
  intros Hr. rewrite andb_true_iff, negb_true_iff, Z.eqb_neq, Z.eqb_eq, scope_excess_zero by done.
  change (Z.land requested 1) with (Z.land requested (Z.ones 1)). rewrite Z.land_ones by lia. change (2 ^ 1) with 2. pose proof (Z.mod_pos_bound requested 2 ltac:(lia)).
  split; [lia|by intros ->].
Qed.

(** A proof of possession for a reference in a session. *)
Definition possession_proved (p : lineage_replace_verified_lifecycle_possession_proof_t) (session_id reference : bytes) :
    Prop :=
  p = {| pp_verification_valid := true; pp_session_id := session_id; pp_subject_reference := reference |}.

Lemma proof_accepted_iff p sid ref : proof_accepted (Some p) sid ref = true ↔ possession_proved p sid ref.
Proof.
  unfold proof_accepted, possession_proved. rewrite !andb_true_iff, !memeq_true. destruct p; cbn. split.
  - intros [[-> ->] ->]. done.
  - intros E. injection E. tauto.
Qed.

(** The session the expectation describes, of a completed AUTH. *)
Definition session_bound (a : auth_v3_context_t) (ex : lineage_replace_session_binding_expectation_t) : Prop :=
  ex = {| se_auth_completion_verified := true; se_expected_protocol_version := v3_protocol_version a;
          se_expected_suite_id := v3_suite_id a; se_expected_profile_id := v3_profile_id a;
          se_expected_session_id := v3_session_id a; se_expected_authz_context_hash := v3_authz_context_hash a;
          se_expected_channel_binding_hash := v3_channel_binding_hash a |}.

Lemma session_binding_iff a ex :
  lineage_replace_classify_session_binding (Some a) (Some ex) = LINEAGE_REPLACE_SESSION_BOUND ↔ session_bound a ex.
Proof.
  unfold lineage_replace_classify_session_binding, session_bound. split.
  - intros E. repeat case_match; try done. split_gates. destruct ex; cbn in *. congruence.
  - intros ->. cbn. unfold memeq. by rewrite !bool_decide_true, !Z.eqb_refl.
Qed.

(** Everything a replacement needs before its lifecycle facts are looked at. *)
Record replacement_authorized (a : auth_v3_context_t) (ex : lineage_replace_session_binding_expectation_t)
    (c : auth_v3_iot_core_authorization_context_v1_t) (r : auth_v3_iot_core_attribution_record_v1_t)
    (e : lineage_replace_verified_bound_auth_context_evidence_t) : Prop := {
  ra_current : possession_proved (ve_current_credential_proof e) (v3_session_id a) (ve_predecessor_credential_reference e);
  ra_successor : possession_proved (ve_successor_key_proof e) (v3_session_id a) (ve_successor_key_reference e);
  ra_session : session_bound a ex;
  ra_context : authz_valid c;
  ra_granted : granted r = c;
  ra_peer : ar_peer_identity r = ve_expected_peer_identity e;
  ra_predecessor : ar_credential_reference r = ve_predecessor_credential_reference e;
  ra_scope : ve_requested_successor_scope_bits e = 1
}.

Lemma classify_authorization_iff f :
  lineage_replace_classify_authorization (Some f) = LINEAGE_REPLACE_AUTHORIZED_REPLACEMENT ↔
  f = Build_lineage_replace_authorization_facts_t true true true true true true true.
Proof. by destruct f as [[] [] [] [] [] [] []]. Qed.

Lemma possession_verified_iff p q sid predecessor successor :
  lineage_replace_classify_possession (Some p) (Some q) (Some sid) (Some predecessor) (Some successor) =
    LINEAGE_REPLACE_POSSESSION_VERIFIED ↔ possession_proved p sid predecessor ∧ possession_proved q sid successor.
Proof.
  unfold lineage_replace_classify_possession. rewrite <- !proof_accepted_iff.
  destruct (proof_accepted (Some p) _ _), (proof_accepted (Some q) _ _); cbn; intuition discriminate.
Qed.

Definition authorized (a : ptr auth_v3_context_t) (ex : ptr lineage_replace_session_binding_expectation_t)
    (c : ptr auth_v3_iot_core_authorization_context_v1_t) (r : ptr auth_v3_iot_core_attribution_record_v1_t)
    (e : ptr lineage_replace_verified_bound_auth_context_evidence_t) : Prop :=
  match a, ex, c, r, e with
  | Some a, Some ex, Some c, Some r, Some e => replacement_authorized a ex c r e
  | _, _, _, _, _ => False
  end.

(** The arguments are of the C types' widths. *)
Record commit_args_wf (c : ptr auth_v3_iot_core_authorization_context_v1_t)
    (e : ptr lineage_replace_verified_bound_auth_context_evidence_t) : Prop := {
  ca_context : ∀ c', c = Some c' → authz_wf c';
  ca_scope : ∀ e', e = Some e' → is_u64 (ve_requested_successor_scope_bits e')
}.

Lemma from_iot_core_iff c r e :
  authz_wf c → is_u64 (ev_requested_successor_scope_bits e) →
  lineage_replace_authorization_from_iot_core (Some c) (Some r) (Some e) = LINEAGE_REPLACE_AUTHORIZED_REPLACEMENT ↔
  ev_current_credential_control_valid e = true ∧ ev_successor_key_control_valid e = true ∧
  ev_current_session_authenticated e = true ∧ authz_valid c ∧ granted r = c ∧
  ar_peer_identity r = ev_expected_peer_identity e ∧
  ar_credential_reference r = ev_predecessor_credential_reference e ∧ ev_requested_successor_scope_bits e = 1.
Proof.
  intros Hw Hu. unfold lineage_replace_authorization_from_iot_core. rewrite <- (context_shape_valid_iff c Hw).
  destruct (context_shape_valid (Some c)) eqn:Es; cbn [negb]; rewrite classify_authorization_iff.
  2:{ split; [discriminate|intros (_ & _ & _ & ? & _); discriminate]. }
  apply context_shape_valid_iff in Es as [_ _ _ Hs _ _ _]; [|done]. rewrite Hs. rewrite <- attribution_matches_iff.
  rewrite <- (scope_within_one _ Hu), <- !memeq_true. split.
  - intros E. injection E as -> -> -> Em Eb Ep ->. rewrite Em in Eb. split_gates. rewrite !memeq_true. by split_and!.
  - intros (-> & -> & -> & _ & Em & -> & -> & ->). rewrite Em. cbn. apply attribution_matches_iff in Em as <-.
    by rewrite Z.eqb_refl.
Qed.

Lemma from_iot_core_null c r e :
  (c = NULL ∨ r = NULL) →
  lineage_replace_authorization_from_iot_core c r (Some e) ≠ LINEAGE_REPLACE_AUTHORIZED_REPLACEMENT.
Proof.
  intros H. unfold lineage_replace_authorization_from_iot_core.
  destruct c, r; try (by destruct H); by rewrite classify_authorization_iff.
Qed.

(** The classification authorizes exactly what [authorized] describes. *)
Lemma authorized_iff a ex c r e :
  commit_args_wf c e →
  lineage_replace_authorization_from_verified_bound_iot_core a ex c r e = LINEAGE_REPLACE_AUTHORIZED_REPLACEMENT ↔
  authorized a ex c r e.
Proof.
  intros [Hc He]. destruct e as [e|]; [|by destruct a, ex, c, r]. specialize (He e eq_refl).
  destruct ex as [ex|]; [|by destruct a]. cbn [lineage_replace_authorization_from_verified_bound_iot_core].
  pose proof (possession_verified_iff (ve_current_credential_proof e) (ve_successor_key_proof e)
    (se_expected_session_id ex) (ve_predecessor_credential_reference e) (ve_successor_key_reference e)) as Hp.
  destruct (lineage_replace_classify_possession _ _ _ _ _).
  1-2: split; [discriminate|]; intros H; exfalso; destruct a as [a|], c as [c|], r as [r|]; try done;
    destruct H as [H1 H2 -> _ _ _ _ _]; cbn in Hp; destruct Hp as [_ Hp]; by discriminate Hp.
  destruct Hp as [Hp _]. specialize (Hp eq_refl) as [H1 H2]. unfold lineage_replace_authorization_from_bound_iot_core.
  cbn [be_current_credential_control_valid be_successor_key_control_valid].
  destruct c as [c|], r as [r|]; [specialize (Hc c eq_refl)|split; [intros H; by apply from_iot_core_null in H; tauto|by destruct a]..].
  rewrite from_iot_core_iff by done. cbn. rewrite bool_decide_eq_true. destruct a as [a|]; [|by split; [intros (_ & _ & ? & _)|]].
  rewrite session_binding_iff. unfold authorized. split.
  - intros (_ & _ & Hs & ?). rewrite Hs in H1, H2. by constructor; try tauto.
  - intros [_ _ Hs]. by split_and!.
Qed.

(** The lifecycle facts of a request that is accepted; the caller's own
    [authority_valid] does not count. *)
Definition facts_accepted (f : ptr lineage_replace_facts_t) : Prop :=
  with_authority true <$> f =
  Some (Build_lineage_replace_facts_t LINEAGE_REPLACE_TRIGGER_LIFECYCLE true true true true true true true true true true).

Lemma evaluate_authorized_iff f :
  lineage_replace_evaluate_authorized LINEAGE_REPLACE_AUTHORIZED_REPLACEMENT f = LINEAGE_REPLACE_ACCEPT_SUCCESSOR ↔
  facts_accepted f.
Proof.
  unfold facts_accepted. destruct f as [[t a b c d e f g h i j]|]; cbn; [|done]. split.
  - intros E. repeat case_match; try done. destruct t; [|done..]. split_gates. by subst.
  - intros E. by injection E as -> -> -> -> -> -> -> -> -> ->.
Qed.

Section commit.
Context {C : Type} (a : ptr auth_v3_context_t) (ex : ptr lineage_replace_session_binding_expectation_t)
  (c : ptr auth_v3_iot_core_authorization_context_v1_t) (r : ptr auth_v3_iot_core_attribution_record_v1_t)
  (e : ptr lineage_replace_verified_bound_auth_context_evidence_t) (f : ptr lineage_replace_facts_t)
  (apply : ptr (lineage_replace_storage_apply_fn C)) (st : C).
Context (Hw : commit_args_wf c e).

Lemma commit_unauthorized :
  ¬ authorized a ex c r e →
  let '(res, st') := lineage_replace_execute_verified_bound_iot_core_commit a ex c r e f apply st in
  st' = st ∧ vc_phase res = LINEAGE_REPLACE_VERIFIED_COMMIT_REJECT_AUTHORIZATION ∧
  vc_storage_result res = LINEAGE_REPLACE_STORAGE_TRANSACTION_REJECT_PLAN.
Proof.
  intros Hn. unfold lineage_replace_execute_verified_bound_iot_core_commit. rewrite bool_decide_false; [done|].
  by rewrite authorized_iff.
Qed.

Lemma commit_refused :
  authorized a ex c r e → ¬ facts_accepted f →
  let '(res, st') := lineage_replace_execute_verified_bound_iot_core_commit a ex c r e f apply st in
  st' = st ∧ vc_phase res = LINEAGE_REPLACE_VERIFIED_COMMIT_REJECT_DECISION ∧
  vc_storage_result res = LINEAGE_REPLACE_STORAGE_TRANSACTION_REJECT_PLAN.
Proof.
  intros Ha Hn. apply authorized_iff in Ha; [|done]. unfold lineage_replace_execute_verified_bound_iot_core_commit.
  rewrite Ha, bool_decide_true by done. cbn [negb]. rewrite bool_decide_false; [done|].
  by rewrite evaluate_authorized_iff.
Qed.

Lemma commit_stored fn :
  apply = Some fn → authorized a ex c r e → facts_accepted f →
  let '(res, st') := lineage_replace_execute_verified_bound_iot_core_commit a ex c r e f apply st in
  (vc_storage_result res, st') = lineage_replace_execute_storage_transaction (Some (const_plan true)) apply st ∧
  (vc_phase res = LINEAGE_REPLACE_VERIFIED_COMMIT_STORAGE_COMMITTED ↔
     vc_storage_result res = LINEAGE_REPLACE_STORAGE_TRANSACTION_COMMITTED) ∧
  vc_phase res ≠ LINEAGE_REPLACE_VERIFIED_COMMIT_REJECT_AUTHORIZATION.
Proof.
  intros -> Ha Hf. apply authorized_iff in Ha; [|done]. apply evaluate_authorized_iff in Hf.
  unfold lineage_replace_execute_verified_bound_iot_core_commit.
  rewrite Ha, bool_decide_true, Hf by done. cbn [negb lineage_replace_plan]. rewrite bool_decide_true by done.
  cbn [negb]. destruct (lineage_replace_execute_storage_transaction _ _ _) as [tx st']. split; [done|]. cbn. by destruct tx.
Qed.

#[local] Instance facts_accepted_dec : Decision (facts_accepted f).
Proof. destruct (decide (lineage_replace_evaluate_authorized LINEAGE_REPLACE_AUTHORIZED_REPLACEMENT f =
  LINEAGE_REPLACE_ACCEPT_SUCCESSOR)); [left|right]; by rewrite <- evaluate_authorized_iff. Defined.

#[local] Instance authorized_dec : Decision (authorized a ex c r e).
Proof. destruct (decide (lineage_replace_authorization_from_verified_bound_iot_core a ex c r e =
  LINEAGE_REPLACE_AUTHORIZED_REPLACEMENT)); [left|right]; by rewrite <- authorized_iff. Defined.

(** The three cases of a call with an adapter. *)
Lemma commit_cases :
  ¬ authorized a ex c r e ∨ (authorized a ex c r e ∧ ¬ facts_accepted f) ∨ (authorized a ex c r e ∧ facts_accepted f).
Proof. destruct (decide (authorized a ex c r e)), (decide (facts_accepted f)); tauto. Qed.
End commit.

(** ** The properties *)

(** C19: the verified commit reaches the storage adapter exactly when both proofs of
    possession are valid for the session and name the predecessor and the successor,
    the session is the expected one of a completed AUTH, the authorization context is
    valid and is what the attribution record grants, that record names the expected
    peer and the predecessor, the one scope bit is requested, and the lifecycle facts
    hold whatever [authority_valid] says: then the result and the adapter's context
    are those of the storage transaction with the complete plan. Otherwise the
    adapter's context is untouched and nothing is reported as committed. *)
Theorem verified_commit_gated {C} a ex c r e f (apply : lineage_replace_storage_apply_fn C) st :
  commit_args_wf c e →
  let '(res, st') := lineage_replace_execute_verified_bound_iot_core_commit a ex c r e f (Some apply) st in
  (authorized a ex c r e ∧ facts_accepted f →
     (vc_storage_result res, st') =
       lineage_replace_execute_storage_transaction (Some (const_plan true)) (Some apply) st ∧
     (vc_phase res = LINEAGE_REPLACE_VERIFIED_COMMIT_STORAGE_COMMITTED ↔
        vc_storage_result res = LINEAGE_REPLACE_STORAGE_TRANSACTION_COMMITTED)) ∧
  (¬ (authorized a ex c r e ∧ facts_accepted f) →
     st' = st ∧ vc_storage_result res = LINEAGE_REPLACE_STORAGE_TRANSACTION_REJECT_PLAN ∧
     vc_phase res ∈ [LINEAGE_REPLACE_VERIFIED_COMMIT_REJECT_AUTHORIZATION; LINEAGE_REPLACE_VERIFIED_COMMIT_REJECT_DECISION] ∧
     (vc_phase res = LINEAGE_REPLACE_VERIFIED_COMMIT_REJECT_AUTHORIZATION ↔ ¬ authorized a ex c r e)).
Proof.
  intros Hw. destruct (commit_cases a ex c r e f Hw) as [Ha|[[Ha Hf]|[Ha Hf]]].
  - pose proof (commit_unauthorized a ex c r e f (Some apply) st Hw Ha) as H.
    destruct (lineage_replace_execute_verified_bound_iot_core_commit _ _ _ _ _ _ _ _). destruct H as (-> & -> & ->).
    split; [tauto|]. intros _. split_and!; [done|done|constructor|tauto].
  - pose proof (commit_refused a ex c r e f (Some apply) st Hw Ha Hf) as H.
    destruct (lineage_replace_execute_verified_bound_iot_core_commit _ _ _ _ _ _ _ _). destruct H as (-> & -> & ->).
    split; [tauto|]. intros _. split_and!; [done|done|by repeat constructor|split; [done|tauto]].
  - pose proof (commit_stored a ex c r e f (Some apply) st Hw apply eq_refl Ha Hf) as H.
    destruct (lineage_replace_execute_verified_bound_iot_core_commit _ _ _ _ _ _ _ _). split; tauto.
Qed.

(** With a durable adapter that holds the predecessor's record, a restart after a
    verified commit finds the successor active only if the replacement was authorized
    and its lifecycle facts held, and always after a reported commit; a refused
    request leaves the predecessor active. *)
Theorem verified_commit_restart {C} (record_of : C → lineage_replace_recovery_facts_t) a ex c r e f apply st :
  commit_args_wf c e → durable_adapter record_of apply →
  record_of st = lineage_replace_facts_at_write_cut LINEAGE_REPLACE_CUT_BEFORE_BEGIN →
  let '(res, st') := lineage_replace_execute_verified_bound_iot_core_commit a ex c r e f (Some apply) st in
  let restarted := lineage_replace_recover (Some (record_of st')) in
  (restarted = LINEAGE_REPLACE_STATE_ACTIVE_SUCCESSOR_PREDECESSOR_RETIRED → authorized a ex c r e ∧ facts_accepted f) ∧
  (¬ (authorized a ex c r e ∧ facts_accepted f) → restarted = LINEAGE_REPLACE_STATE_ACTIVE_PREDECESSOR) ∧
  (vc_phase res = LINEAGE_REPLACE_VERIFIED_COMMIT_STORAGE_COMMITTED →
     restarted = LINEAGE_REPLACE_STATE_ACTIVE_SUCCESSOR_PREDECESSOR_RETIRED).
Proof.
  intros Hw Had Hst. destruct (commit_cases a ex c r e f Hw) as [Ha|[[Ha Hf]|[Ha Hf]]].
  - pose proof (commit_unauthorized a ex c r e f (Some apply) st Hw Ha) as H.
    destruct (lineage_replace_execute_verified_bound_iot_core_commit _ _ _ _ _ _ _ _). destruct H as (-> & -> & _).
    by rewrite Hst.
  - pose proof (commit_refused a ex c r e f (Some apply) st Hw Ha Hf) as H.
    destruct (lineage_replace_execute_verified_bound_iot_core_commit _ _ _ _ _ _ _ _). destruct H as (-> & -> & _).
    by rewrite Hst.
  - pose proof (commit_stored a ex c r e f (Some apply) st Hw apply eq_refl Ha Hf) as H.
    pose proof (transaction_cut record_of apply Had (Some (const_plan true)) st Hst) as Ht.
    destruct (lineage_replace_execute_verified_bound_iot_core_commit _ _ _ _ _ _ _ _) as [res st'].
    destruct H as (Etx & Hphase & _). rewrite <- Etx in Ht. destruct Ht as (cut & Hcut & Hr).
    split_and!; [tauto|tauto|]. intros Hc. apply Hphase in Hc. rewrite Hc in Hcut.
    apply list_elem_of_singleton in Hcut as ->. by rewrite Hr.
Qed.

(** ** A concrete request *)
Definition sample_session (authz_context_hash : bytes) : auth_v3_context_t :=
  {| v3_protocol_version := AUTH_V3_DRAFT_PROTOCOL_VERSION; v3_suite_id := 1; v3_profile_id := 2;
     v3_selected_capabilities := 5; v3_session_id := replicate 16 Byte.x01; v3_authz_context_hash := authz_context_hash;
     v3_critical_extensions_hash := replicate 32 Byte.x03; v3_channel_binding_hash := replicate 32 Byte.x04 |}.

Definition sample_expectation (authz_context_hash : bytes) : lineage_replace_session_binding_expectation_t :=
  {| se_auth_completion_verified := true; se_expected_protocol_version := AUTH_V3_DRAFT_PROTOCOL_VERSION;
     se_expected_suite_id := 1; se_expected_profile_id := 2; se_expected_session_id := replicate 16 Byte.x01;
     se_expected_authz_context_hash := authz_context_hash; se_expected_channel_binding_hash := replicate 32 Byte.x04 |}.

Definition sample_record : auth_v3_iot_core_attribution_record_v1_t :=
  {| ar_credential_reference := replicate 32 Byte.x0a; ar_peer_identity := replicate 32 Byte.x0b;
     ar_holder_binding := replicate 32 Byte.x01; ar_audience_id := replicate 32 Byte.x02; ar_role_policy_id := 7;
     ar_scope_bits := 1; ar_authorization_generation := 3; ar_policy_epoch := 4; ar_revocation_epoch := 5 |}.

Definition sample_evidence : lineage_replace_verified_bound_auth_context_evidence_t :=
  let proved reference := Build_lineage_replace_verified_lifecycle_possession_proof_t true (replicate 16 Byte.x01) reference in
  {| ve_current_credential_proof := proved (replicate 32 Byte.x0a); ve_successor_key_proof := proved (replicate 32 Byte.x0c);
     ve_successor_key_reference := replicate 32 Byte.x0c; ve_expected_peer_identity := replicate 32 Byte.x0b;
     ve_predecessor_credential_reference := replicate 32 Byte.x0a; ve_requested_successor_scope_bits := 1 |}.

Definition sample_facts : lineage_replace_facts_t :=
  Build_lineage_replace_facts_t LINEAGE_REPLACE_TRIGGER_LIFECYCLE false true true true true true true true true true.

Lemma sample_commit_wf : commit_args_wf (Some sample_authz) (Some sample_evidence).
Proof. split; intros ? [= <-]; [apply sample_authz_ok|by unfold is_u64; cbn]. Qed.

Lemma sample_authorized h :
  authorized (Some (sample_session h)) (Some (sample_expectation h)) (Some sample_authz) (Some sample_record)
    (Some sample_evidence).
Proof. by constructor. Qed.

Lemma verified_commit_gated_witness :
  let st := ([(true, true); (false, true)], lineage_replace_facts_at_write_cut LINEAGE_REPLACE_CUT_BEFORE_BEGIN) in
  let '(res, st') := lineage_replace_execute_verified_bound_iot_core_commit (Some (sample_session (zeros 32)))
    (Some (sample_expectation (zeros 32))) (Some sample_authz) (Some sample_record) (Some sample_evidence)
    (Some sample_facts) (Some scripted_adapter) st in
  vc_storage_result res = LINEAGE_REPLACE_STORAGE_TRANSACTION_FAIL_SUCCESSOR ∧ st'.1 = [].
Proof.
  pose proof (verified_commit_gated (Some (sample_session (zeros 32))) (Some (sample_expectation (zeros 32)))
    (Some sample_authz) (Some sample_record) (Some sample_evidence) (Some sample_facts) scripted_adapter
    ([(true, true); (false, true)], lineage_replace_facts_at_write_cut LINEAGE_REPLACE_CUT_BEFORE_BEGIN)
    sample_commit_wf) as H.
  cbv zeta. destruct (lineage_replace_execute_verified_bound_iot_core_commit _ _ _ _ _ _ _ _) as [res st'].
  destruct H as [H _]. destruct H as [H _]; [split; [apply sample_authorized|done]|].
  cbn in H. injection H as -> ->. done.
Defined.

Lemma verified_commit_restart_witness :
  let st := ([], lineage_replace_facts_at_write_cut LINEAGE_REPLACE_CUT_BEFORE_BEGIN) in
  let '(res, st') := lineage_replace_execute_verified_bound_iot_core_commit (Some (sample_session (zeros 32)))
    (Some (sample_expectation (zeros 32))) (Some sample_authz) (Some sample_record) (Some sample_evidence)
    (Some sample_facts) (Some scripted_adapter) st in
  vc_phase res = LINEAGE_REPLACE_VERIFIED_COMMIT_STORAGE_COMMITTED ∧
  lineage_replace_recover (Some st'.2) = LINEAGE_REPLACE_STATE_ACTIVE_SUCCESSOR_PREDECESSOR_RETIRED.
Proof.
  pose proof (verified_commit_restart snd (Some (sample_session (zeros 32))) (Some (sample_expectation (zeros 32)))
    (Some sample_authz) (Some sample_record) (Some sample_evidence) (Some sample_facts) scripted_adapter
    ([], lineage_replace_facts_at_write_cut LINEAGE_REPLACE_CUT_BEFORE_BEGIN)
    sample_commit_wf scripted_adapter_durable eq_refl) as H.
  vm_compute in H |- *. destruct H as (_ & _ & H). split; [done|]. by apply H.
Defined.

(** The session's authorization hash is compared with the expectation's, not with the
    hash of the authorization context that is judged: that context is committed in a
    session bound to any 32 bytes. *)
Theorem verified_commit_context_unbound h :
  is_n 32 h →
  vc_phase (lineage_replace_execute_verified_bound_iot_core_commit (Some (sample_session h))
    (Some (sample_expectation h)) (Some sample_authz) (Some sample_record) (Some sample_evidence)
    (Some sample_facts) (Some scripted_adapter)
    ([], lineage_replace_facts_at_write_cut LINEAGE_REPLACE_CUT_BEFORE_BEGIN)).1 =
  LINEAGE_REPLACE_VERIFIED_COMMIT_STORAGE_COMMITTED.
Proof.
  intros _. pose proof (commit_stored (Some (sample_session h)) (Some (sample_expectation h)) (Some sample_authz)
    (Some sample_record) (Some sample_evidence) (Some sample_facts) (Some scripted_adapter)
    ([], lineage_replace_facts_at_write_cut LINEAGE_REPLACE_CUT_BEFORE_BEGIN) sample_commit_wf
    scripted_adapter eq_refl (sample_authorized h) eq_refl) as H.
  destruct (lineage_replace_execute_verified_bound_iot_core_commit _ _ _ _ _ _ _ _) as [res st'].
  destruct H as (Etx & Hp & _). cbn in Etx. injection Etx as Etx _. by apply Hp.
Qed.
