(* ===== verification/LineagePair.v ===== *)
(** Lineage replacement, the two sides: [lineage_replace_attempt.h],
    [lineage_replace_attempt_evidence.h], [lineage_replace_convergence.h],
    [lineage_replace_reconciliation.h] and
    [lineage_replace_reconciliation_transition.h] of [src/c/include/auth] and the files
    of the same names under [src/c/src/proto].

    Five classifiers decide, from what each side knows of the attempt, its stored
    record and the confirmations, whether the pair uses the successor. *)
From S2P Require Export Lineage.

#[local] Open Scope Z_scope.

(** ** The attempt *)
Record lineage_replace_attempt_facts_t := {
  at_local_authorized : bool;
  at_peer_authorized : bool;
  at_same_attempt : bool;
  at_same_predecessor_generation : bool;
  at_same_successor : bool;
  at_same_context : bool;
  at_local_confirmation_bound : bool;
  at_peer_confirmation_bound : bool
}.

Inductive lineage_replace_attempt_decision_t :=
  | LINEAGE_REPLACE_ATTEMPT_CONVERGED
  | LINEAGE_REPLACE_ATTEMPT_AWAITING_CONFIRMATION
  | LINEAGE_REPLACE_ATTEMPT_UNAUTHORIZED
  | LINEAGE_REPLACE_ATTEMPT_ID_MISMATCH
  | LINEAGE_REPLACE_ATTEMPT_PREDECESSOR_MISMATCH
  | LINEAGE_REPLACE_ATTEMPT_SUCCESSOR_MISMATCH
  | LINEAGE_REPLACE_ATTEMPT_CONTEXT_MISMATCH.

#[export] Instance attempt_eq_dec : EqDecision lineage_replace_attempt_decision_t.
Proof. solve_decision. Defined.

Definition lineage_replace_classify_attempt (facts : ptr lineage_replace_attempt_facts_t) :
    lineage_replace_attempt_decision_t :=
  match facts with
  | None => LINEAGE_REPLACE_ATTEMPT_UNAUTHORIZED
  | Some f =>
      if negb (at_local_authorized f) || negb (at_peer_authorized f) then LINEAGE_REPLACE_ATTEMPT_UNAUTHORIZED
      else if negb (at_same_attempt f) then LINEAGE_REPLACE_ATTEMPT_ID_MISMATCH
      else if negb (at_same_predecessor_generation f) then LINEAGE_REPLACE_ATTEMPT_PREDECESSOR_MISMATCH
      else if negb (at_same_successor f) then LINEAGE_REPLACE_ATTEMPT_SUCCESSOR_MISMATCH
      else if negb (at_same_context f) then LINEAGE_REPLACE_ATTEMPT_CONTEXT_MISMATCH
      else if negb (at_local_confirmation_bound f) || negb (at_peer_confirmation_bound f)
      then LINEAGE_REPLACE_ATTEMPT_AWAITING_CONFIRMATION
      else LINEAGE_REPLACE_ATTEMPT_CONVERGED
  end.

(** ** The evidence of the current attempt; zero is no attempt *)
Record lineage_replace_attempt_evidence_facts_t := {
  ae_local_attempt_id : Z;
  ae_peer_attempt_id : Z;
  ae_local_confirmation_attempt_id : Z;
  ae_peer_confirmation_attempt_id : Z
}.

Inductive lineage_replace_attempt_evidence_decision_t :=
  | LINEAGE_REPLACE_ATTEMPT_EVIDENCE_FRESH_CURRENT_ATTEMPT
  | LINEAGE_REPLACE_ATTEMPT_EVIDENCE_MISSING_CURRENT_ATTEMPT
  | LINEAGE_REPLACE_ATTEMPT_EVIDENCE_ATTEMPT_MISMATCH
  | LINEAGE_REPLACE_ATTEMPT_EVIDENCE_LOCAL_CONFIRMATION_MISSING
  | LINEAGE_REPLACE_ATTEMPT_EVIDENCE_PEER_CONFIRMATION_MISSING.

#[export] Instance attempt_evidence_eq_dec : EqDecision lineage_replace_attempt_evidence_decision_t.
Proof. solve_decision. Defined.

Definition lineage_replace_classify_attempt_evidence (facts : ptr lineage_replace_attempt_evidence_facts_t) :
    lineage_replace_attempt_evidence_decision_t :=
  match facts with
  | None => LINEAGE_REPLACE_ATTEMPT_EVIDENCE_MISSING_CURRENT_ATTEMPT
  | Some f =>
      if (ae_local_attempt_id f =? 0) || (ae_peer_attempt_id f =? 0)
      then LINEAGE_REPLACE_ATTEMPT_EVIDENCE_MISSING_CURRENT_ATTEMPT
      else if negb (ae_local_attempt_id f =? ae_peer_attempt_id f) then LINEAGE_REPLACE_ATTEMPT_EVIDENCE_ATTEMPT_MISMATCH
      else if negb (ae_local_confirmation_attempt_id f =? ae_local_attempt_id f)
      then LINEAGE_REPLACE_ATTEMPT_EVIDENCE_LOCAL_CONFIRMATION_MISSING
      else if negb (ae_peer_confirmation_attempt_id f =? ae_peer_attempt_id f)
      then LINEAGE_REPLACE_ATTEMPT_EVIDENCE_PEER_CONFIRMATION_MISSING
      else LINEAGE_REPLACE_ATTEMPT_EVIDENCE_FRESH_CURRENT_ATTEMPT
  end.

(** ** Convergence *)
Record lineage_replace_convergence_facts_t := {
  cv_local_authorized : bool;
  cv_peer_authorized : bool;
  cv_same_successor : bool;
  cv_local_confirmed : bool;
  cv_peer_confirmed : bool
}.

Inductive lineage_replace_convergence_decision_t :=
  | LINEAGE_REPLACE_CONVERGED
  | LINEAGE_REPLACE_AWAITING_CONFIRMATION
  | LINEAGE_REPLACE_UNAUTHORIZED
  | LINEAGE_REPLACE_SUCCESSOR_CONFLICT.

Definition lineage_replace_classify_convergence (facts : ptr lineage_replace_convergence_facts_t) :
    lineage_replace_convergence_decision_t :=
  match facts with
  | None => LINEAGE_REPLACE_UNAUTHORIZED
  | Some f =>
      if negb (cv_local_authorized f) || negb (cv_peer_authorized f) then LINEAGE_REPLACE_UNAUTHORIZED
      else if negb (cv_same_successor f) then LINEAGE_REPLACE_SUCCESSOR_CONFLICT
      else if cv_local_confirmed f && cv_peer_confirmed f then LINEAGE_REPLACE_CONVERGED
      else LINEAGE_REPLACE_AWAITING_CONFIRMATION
  end.

(** ** Reconciliation *)
Record lineage_replace_reconciliation_facts_t := {
  rc_local_attempt : lineage_replace_attempt_decision_t;
  rc_local_state : lineage_replace_state_t;
  rc_peer_attempt : lineage_replace_attempt_decision_t;
  rc_peer_state : lineage_replace_state_t;
  rc_same_successor : bool
}.

Inductive lineage_replace_reconciliation_decision_t :=
  | LINEAGE_REPLACE_PAIR_SUCCESSOR_READY
  | LINEAGE_REPLACE_PAIR_PREDECESSOR_READY
  | LINEAGE_REPLACE_RECONCILIATION_REQUIRED
  | LINEAGE_REPLACE_PAIR_CONTINUITY_BROKEN
  | LINEAGE_REPLACE_SUCCESSOR_DIVERGENCE.

#[export] Instance reconciliation_eq_dec : EqDecision lineage_replace_reconciliation_decision_t.
Proof. solve_decision. Defined.

Definition lineage_replace_classify_reconciliation (facts : ptr lineage_replace_reconciliation_facts_t) :
    lineage_replace_reconciliation_decision_t :=
  match facts with
  | None => LINEAGE_REPLACE_PAIR_CONTINUITY_BROKEN
  | Some f =>
      if bool_decide (rc_local_state f = LINEAGE_REPLACE_STATE_CONTINUITY_BROKEN) ||
         bool_decide (rc_peer_state f = LINEAGE_REPLACE_STATE_CONTINUITY_BROKEN)
      then LINEAGE_REPLACE_PAIR_CONTINUITY_BROKEN
      else
        let local_successor :=
          bool_decide (rc_local_state f = LINEAGE_REPLACE_STATE_ACTIVE_SUCCESSOR_PREDECESSOR_RETIRED) in
        let peer_successor :=
          bool_decide (rc_peer_state f = LINEAGE_REPLACE_STATE_ACTIVE_SUCCESSOR_PREDECESSOR_RETIRED) in
        if local_successor && peer_successor
        then
          if negb (rc_same_successor f) then LINEAGE_REPLACE_SUCCESSOR_DIVERGENCE
          else if bool_decide (rc_local_attempt f = LINEAGE_REPLACE_ATTEMPT_CONVERGED) &&
                  bool_decide (rc_peer_attempt f = LINEAGE_REPLACE_ATTEMPT_CONVERGED)
          then LINEAGE_REPLACE_PAIR_SUCCESSOR_READY
          else LINEAGE_REPLACE_RECONCILIATION_REQUIRED
        else if bool_decide (rc_local_state f = LINEAGE_REPLACE_STATE_ACTIVE_PREDECESSOR) &&
                bool_decide (rc_peer_state f = LINEAGE_REPLACE_STATE_ACTIVE_PREDECESSOR) &&
                negb (bool_decide (rc_local_attempt f = LINEAGE_REPLACE_ATTEMPT_CONVERGED)) &&
                negb (bool_decide (rc_peer_attempt f = LINEAGE_REPLACE_ATTEMPT_CONVERGED))
        then LINEAGE_REPLACE_PAIR_PREDECESSOR_READY
        else LINEAGE_REPLACE_RECONCILIATION_REQUIRED
  end.

(** ** The transition out of reconciliation *)
Record lineage_replace_reconciliation_transition_facts_t := {
  rt_prior : lineage_replace_reconciliation_decision_t;
  rt_current : lineage_replace_reconciliation_decision_t;
  rt_attempt_evidence : lineage_replace_attempt_evidence_decision_t;
  rt_explicit_clean_retry : bool
}.

Inductive lineage_replace_reconciliation_transition_t :=
  | LINEAGE_REPLACE_RECONCILIATION_HOLD
  | LINEAGE_REPLACE_RECONCILIATION_ACTIVATE_SUCCESSOR
  | LINEAGE_REPLACE_RECONCILIATION_RESUME_PREDECESSOR
  | LINEAGE_REPLACE_RECONCILIATION_REJECT_DIVERGENCE
  | LINEAGE_REPLACE_RECONCILIATION_CONTINUITY_BROKEN.

#[export] Instance transition_eq_dec : EqDecision lineage_replace_reconciliation_transition_t.
Proof. solve_decision. Defined.

Definition lineage_replace_classify_reconciliation_transition
    (facts : ptr lineage_replace_reconciliation_transition_facts_t) : lineage_replace_reconciliation_transition_t :=
  match facts with
  | None => LINEAGE_REPLACE_RECONCILIATION_CONTINUITY_BROKEN
  | Some f =>
      let prior d := bool_decide (rt_prior f = d) in
      let current d := bool_decide (rt_current f = d) in
      if prior LINEAGE_REPLACE_PAIR_CONTINUITY_BROKEN || current LINEAGE_REPLACE_PAIR_CONTINUITY_BROKEN
      then LINEAGE_REPLACE_RECONCILIATION_CONTINUITY_BROKEN
      else if current LINEAGE_REPLACE_SUCCESSOR_DIVERGENCE then LINEAGE_REPLACE_RECONCILIATION_REJECT_DIVERGENCE
      else if prior LINEAGE_REPLACE_SUCCESSOR_DIVERGENCE && negb (rt_explicit_clean_retry f)
      then LINEAGE_REPLACE_RECONCILIATION_REJECT_DIVERGENCE
      else if current LINEAGE_REPLACE_PAIR_SUCCESSOR_READY
      then
        if prior LINEAGE_REPLACE_PAIR_SUCCESSOR_READY then LINEAGE_REPLACE_RECONCILIATION_ACTIVATE_SUCCESSOR
        else if bool_decide (rt_attempt_evidence f = LINEAGE_REPLACE_ATTEMPT_EVIDENCE_FRESH_CURRENT_ATTEMPT) &&
                (prior LINEAGE_REPLACE_RECONCILIATION_REQUIRED ||
                 (prior LINEAGE_REPLACE_SUCCESSOR_DIVERGENCE && rt_explicit_clean_retry f))
        then LINEAGE_REPLACE_RECONCILIATION_ACTIVATE_SUCCESSOR
        else LINEAGE_REPLACE_RECONCILIATION_HOLD
      else if current LINEAGE_REPLACE_PAIR_PREDECESSOR_READY &&
              (prior LINEAGE_REPLACE_PAIR_PREDECESSOR_READY || prior LINEAGE_REPLACE_RECONCILIATION_REQUIRED ||
               (prior LINEAGE_REPLACE_SUCCESSOR_DIVERGENCE && rt_explicit_clean_retry f))
      then LINEAGE_REPLACE_RECONCILIATION_RESUME_PREDECESSOR
      else LINEAGE_REPLACE_RECONCILIATION_HOLD
  end.

(** ** An observation of the pair *)

(** What one side brings: its attempt facts, its record and its freshness anchor. *)
Record side := {
  sd_attempt : ptr lineage_replace_attempt_facts_t;
  sd_record : ptr lineage_replace_recovery_facts_t;
  sd_freshness : ptr lineage_replace_freshness_facts_t
}.

Record observation := {
  ob_local : side;
  ob_peer : side;
  ob_same_successor : bool;
  ob_evidence : ptr lineage_replace_attempt_evidence_facts_t;
  ob_retry : bool
}.

Definition side_state (s : side) : lineage_replace_state_t :=
  lineage_replace_recover_with_freshness (sd_record s) (sd_freshness s).

(** The pair's decision on an observation. *)
Definition observed (o : observation) : lineage_replace_reconciliation_decision_t :=
  lineage_replace_classify_reconciliation (Some
    {| rc_local_attempt := lineage_replace_classify_attempt (sd_attempt (ob_local o));
       rc_local_state := side_state (ob_local o);
       rc_peer_attempt := lineage_replace_classify_attempt (sd_attempt (ob_peer o));
       rc_peer_state := side_state (ob_peer o); rc_same_successor := ob_same_successor o |}).

(** The transition on an observation after a decision. *)
Definition transition (prior : lineage_replace_reconciliation_decision_t) (o : observation) :
    lineage_replace_reconciliation_transition_t :=
  lineage_replace_classify_reconciliation_transition (Some
    {| rt_prior := prior; rt_current := observed o;
       rt_attempt_evidence := lineage_replace_classify_attempt_evidence (ob_evidence o);
       rt_explicit_clean_retry := ob_retry o |}).

(** The transitions of a sequence of observations, each after the decision before. *)
Fixpoint transitions (prior : lineage_replace_reconciliation_decision_t) (os : list observation) :
    list lineage_replace_reconciliation_transition_t :=
  match os with
  | [] => []
  | o :: os => transition prior o :: transitions (observed o) os
  end.

(** ** What the classifiers amount to *)
Definition side_at (cut : lineage_replace_write_cut_t) (s : side) : Prop :=
  sd_record s = Some (lineage_replace_facts_at_write_cut cut) ∧
  ∃ generation, sd_freshness s = Some (Build_lineage_replace_freshness_facts_t true true true generation generation).

Definition converged (s : side) : Prop :=
  sd_attempt s = Some (Build_lineage_replace_attempt_facts_t true true true true true true true true).

(** All four identifiers name one attempt. *)
Definition fresh_evidence (o : observation) : Prop :=
  ∃ id, id ≠ 0 ∧ ob_evidence o = Some (Build_lineage_replace_attempt_evidence_facts_t id id id id).

Definition successor_ready (o : observation) : Prop :=
  side_at LINEAGE_REPLACE_CUT_AFTER_COMMIT_MARKER_CLEAR (ob_local o) ∧
  side_at LINEAGE_REPLACE_CUT_AFTER_COMMIT_MARKER_CLEAR (ob_peer o) ∧
  ob_same_successor o = true ∧ converged (ob_local o) ∧ converged (ob_peer o).

Definition predecessor_ready (o : observation) : Prop :=
  side_at LINEAGE_REPLACE_CUT_BEFORE_BEGIN (ob_local o) ∧ side_at LINEAGE_REPLACE_CUT_BEFORE_BEGIN (ob_peer o) ∧
  ¬ converged (ob_local o) ∧ ¬ converged (ob_peer o).

Lemma freshness_current_iff f :
  lineage_replace_classify_freshness f = LINEAGE_REPLACE_FRESHNESS_CURRENT ↔
  ∃ g, f = Some (Build_lineage_replace_freshness_facts_t true true true g g).
Proof.
  split.
  - destruct f as [[[] [] [] g h]|]; cbn; try done. destruct (Z.ltb_spec g h), (Z.ltb_spec h g); try done.
    intros _. exists g. by replace h with g by lia.
  - intros [g ->]. cbn. by rewrite Z.ltb_irrefl.
Qed.

Lemma side_state_iff cut s :
  cut = LINEAGE_REPLACE_CUT_BEFORE_BEGIN ∨ cut = LINEAGE_REPLACE_CUT_AFTER_COMMIT_MARKER_CLEAR →
  side_state s = restart_at cut ↔ side_at cut s.
Proof.
  intros Hcut. unfold side_state, side_at, lineage_replace_recover_with_freshness. rewrite <- freshness_current_iff.
  case_bool_decide as E; cbn [negb].
  - destruct (sd_record s) as [[[] [] [] [] [] []]|], Hcut as [-> | ->]; cbn; intuition congruence.
  - destruct Hcut as [-> | ->]; cbn; intuition congruence.
Qed.

Lemma side_successor_iff s :
  side_state s = LINEAGE_REPLACE_STATE_ACTIVE_SUCCESSOR_PREDECESSOR_RETIRED ↔
  side_at LINEAGE_REPLACE_CUT_AFTER_COMMIT_MARKER_CLEAR s.
Proof. apply (side_state_iff LINEAGE_REPLACE_CUT_AFTER_COMMIT_MARKER_CLEAR). by right. Qed.

Lemma side_predecessor_iff s :
  side_state s = LINEAGE_REPLACE_STATE_ACTIVE_PREDECESSOR ↔ side_at LINEAGE_REPLACE_CUT_BEFORE_BEGIN s.
Proof. apply (side_state_iff LINEAGE_REPLACE_CUT_BEFORE_BEGIN). by left. Qed.

Lemma converged_iff s : lineage_replace_classify_attempt (sd_attempt s) = LINEAGE_REPLACE_ATTEMPT_CONVERGED ↔ converged s.
Proof. unfold converged. by destruct (sd_attempt s) as [[[] [] [] [] [] [] [] []]|]. Qed.

Lemma fresh_evidence_iff o :
  lineage_replace_classify_attempt_evidence (ob_evidence o) = LINEAGE_REPLACE_ATTEMPT_EVIDENCE_FRESH_CURRENT_ATTEMPT ↔
  fresh_evidence o.
Proof.
  unfold fresh_evidence. split.
  - destruct (ob_evidence o) as [[a b c d]|]; cbn; [|done].
    destruct (Z.eqb_spec a 0), (Z.eqb_spec b 0), (Z.eqb_spec a b), (Z.eqb_spec c a), (Z.eqb_spec d b); cbn; try done.
    intros _. exists a. by subst.
  - intros (id & Hid & ->). cbn. apply Z.eqb_neq in Hid as ->. by rewrite Z.eqb_refl.
Qed.

Lemma observed_successor_iff o : observed o = LINEAGE_REPLACE_PAIR_SUCCESSOR_READY ↔ successor_ready o.
Proof.
  unfold successor_ready. rewrite <- !side_successor_iff, <- !converged_iff. unfold observed, lineage_replace_classify_reconciliation.
  cbn. destruct (side_state (ob_local o)), (side_state (ob_peer o)), (ob_same_successor o),
    (lineage_replace_classify_attempt (sd_attempt (ob_local o))), (lineage_replace_classify_attempt (sd_attempt (ob_peer o)));
    cbn; intuition discriminate.
Qed.

Lemma observed_predecessor_iff o : observed o = LINEAGE_REPLACE_PAIR_PREDECESSOR_READY ↔ predecessor_ready o.
Proof.
  unfold predecessor_ready. rewrite <- !side_predecessor_iff, <- !converged_iff.
  unfold observed, lineage_replace_classify_reconciliation.
  cbn. destruct (side_state (ob_local o)), (side_state (ob_peer o)), (ob_same_successor o),
    (lineage_replace_classify_attempt (sd_attempt (ob_local o))), (lineage_replace_classify_attempt (sd_attempt (ob_peer o)));
    cbn; intuition discriminate.
Qed.

(** A transition in terms of the two decisions, the evidence and the retry. *)
Lemma classify_transition_cases prior current evidence retry :
  let t := lineage_replace_classify_reconciliation_transition
             (Some (Build_lineage_replace_reconciliation_transition_facts_t prior current evidence retry)) in
  (t = LINEAGE_REPLACE_RECONCILIATION_ACTIVATE_SUCCESSOR ↔
     current = LINEAGE_REPLACE_PAIR_SUCCESSOR_READY ∧
     (prior = LINEAGE_REPLACE_PAIR_SUCCESSOR_READY ∨
      evidence = LINEAGE_REPLACE_ATTEMPT_EVIDENCE_FRESH_CURRENT_ATTEMPT ∧
      (prior = LINEAGE_REPLACE_RECONCILIATION_REQUIRED ∨ prior = LINEAGE_REPLACE_SUCCESSOR_DIVERGENCE ∧ retry = true))) ∧
  (t = LINEAGE_REPLACE_RECONCILIATION_RESUME_PREDECESSOR ↔
     current = LINEAGE_REPLACE_PAIR_PREDECESSOR_READY ∧
     (prior = LINEAGE_REPLACE_PAIR_PREDECESSOR_READY ∨ prior = LINEAGE_REPLACE_RECONCILIATION_REQUIRED ∨
      prior = LINEAGE_REPLACE_SUCCESSOR_DIVERGENCE ∧ retry = true)).
Proof. destruct prior, current, evidence, retry; cbn; intuition discriminate. Qed.

(** ** The properties *)

(** C20: when the pair acts on an observation, exactly.  It activates the successor exactly
    when both sides, restarted from durable records of the last write cut with current
    freshness anchors, hold the same successor, both attempts converged, and either the
    pair was ready with the successor before or one non-zero attempt is named by both
    sides and both confirmations and the pair was being reconciled or is explicitly
    retried after a divergence.  It resumes the predecessor exactly when both sides,
    restarted from durable records of before the first write with current freshness
    anchors, have it active, neither attempt converged, and the pair was ready with the
    predecessor before, was being reconciled, or is explicitly retried after a
    divergence. *)
Theorem pair_activation_exact prior o :
  (transition prior o = LINEAGE_REPLACE_RECONCILIATION_ACTIVATE_SUCCESSOR ↔
     successor_ready o ∧
     (prior = LINEAGE_REPLACE_PAIR_SUCCESSOR_READY ∨
      fresh_evidence o ∧
      (prior = LINEAGE_REPLACE_RECONCILIATION_REQUIRED ∨
       prior = LINEAGE_REPLACE_SUCCESSOR_DIVERGENCE ∧ ob_retry o = true))) ∧
  (transition prior o = LINEAGE_REPLACE_RECONCILIATION_RESUME_PREDECESSOR ↔
     predecessor_ready o ∧
     (prior = LINEAGE_REPLACE_PAIR_PREDECESSOR_READY ∨ prior = LINEAGE_REPLACE_RECONCILIATION_REQUIRED ∨
      prior = LINEAGE_REPLACE_SUCCESSOR_DIVERGENCE ∧ ob_retry o = true)).
Proof.
  rewrite <- observed_successor_iff, <- observed_predecessor_iff, <- fresh_evidence_iff. apply classify_transition_cases.
Qed.

(** A refused activation does not last. If each decision is the next one's prior,
    as the transition contract words it, a pair that looks ready is activated at its
    second observation after any prior decision, a broken one included, and without
    any evidence of the current attempt. *)
Theorem reconciliation_hold_not_sticky prior o :
  successor_ready o →
  ∃ t, transitions prior [o; o] = [t; LINEAGE_REPLACE_RECONCILIATION_ACTIVATE_SUCCESSOR] ∧
    (prior = LINEAGE_REPLACE_RECONCILIATION_REQUIRED → ¬ fresh_evidence o → t = LINEAGE_REPLACE_RECONCILIATION_HOLD) ∧
    (prior = LINEAGE_REPLACE_PAIR_CONTINUITY_BROKEN → t = LINEAGE_REPLACE_RECONCILIATION_CONTINUITY_BROKEN).
Proof.
  intros Ho. apply observed_successor_iff in Ho. exists (transition prior o). cbn [transitions]. rewrite Ho. split_and!.
  - f_equal. f_equal. unfold transition. rewrite Ho. apply classify_transition_cases. split; [done|by left].
  - intros -> Hn. rewrite <- fresh_evidence_iff in Hn. unfold transition. rewrite Ho.
    by destruct (lineage_replace_classify_attempt_evidence _).
  - by intros ->.
Qed.

Definition sample_side : side :=
  {| sd_attempt := Some (Build_lineage_replace_attempt_facts_t true true true true true true true true);
     sd_record := Some (lineage_replace_facts_at_write_cut LINEAGE_REPLACE_CUT_AFTER_COMMIT_MARKER_CLEAR);
     sd_freshness := Some (Build_lineage_replace_freshness_facts_t true true true 4 4) |}.

(** The confirmations are those of the attempt before. *)
Definition sample_observation : observation :=
  {| ob_local := sample_side; ob_peer := sample_side; ob_same_successor := true;
     ob_evidence := Some (Build_lineage_replace_attempt_evidence_facts_t 8 8 7 7); ob_retry := false |}.

Lemma reconciliation_hold_not_sticky_witness :
  transitions LINEAGE_REPLACE_RECONCILIATION_REQUIRED [sample_observation; sample_observation] =
    [LINEAGE_REPLACE_RECONCILIATION_HOLD; LINEAGE_REPLACE_RECONCILIATION_ACTIVATE_SUCCESSOR].
Proof.
  destruct (reconciliation_hold_not_sticky LINEAGE_REPLACE_RECONCILIATION_REQUIRED sample_observation) as (t & E & Ht & _).
  { split_and!; try done; (split; [done|by exists 4]). }
  rewrite E, Ht; [done|done|]. intros (id & _ & [=]). congruence.
Defined.
