(* ===== verification/Transport.v ===== *)
(** The transports: [src/c/include/auth/transport.h],
    [src/c/src/transport/transport_tcp.c] and [transport_udp.c].

    A packet is sent as [u32 length | packet], little-endian.  The system calls work
    on a [socket]: the bytes that the peer sends before it closes, the bytes that
    were sent to it, and scripts of the answers to the next [poll]s and to the next
    [send]s and [recv]s (a full transfer, a short one, an interruption, a failure).
    After the scripts every call succeeds; any segmentation of the stream is a
    script.  A UDP socket works on lists of datagrams in the same way, each with the
    address that it came from or was sent to.  Parsing addresses, [connect], [bind] and
    [accept] are in [Sockets]. *)
From S2P Require Export Store.

(** ** Sockets *)
Inductive poll_answer := P_ready | P_timeout | P_interrupted | P_failed.

Record socket := {
  so_incoming : bytes;
  so_sent : bytes;
  so_polls : list poll_answer;
  so_answers : list answer
}.

Definition socket_answer : M auth_err_t socket answer := λ s,
  match so_answers s with
  | [] => (Ok A_full, s)
  | a :: l => (Ok a, {| so_incoming := so_incoming s; so_sent := so_sent s; so_polls := so_polls s; so_answers := l |})
  end.

(** [poll(&pfd, 1, timeout_ms)] *)
Definition sys_poll : M auth_err_t socket poll_answer := λ s,
  match so_polls s with
  | [] => (Ok P_ready, s)
  | a :: l => (Ok a, {| so_incoming := so_incoming s; so_sent := so_sent s; so_polls := l; so_answers := so_answers s |})
  end.

(** [send(fd, data, length, MSG_NOSIGNAL)]; [None] is -1, with [errno]. *)
Definition sys_send (data : bytes) : M auth_err_t socket (answer * option nat) :=
  a ← socket_answer;
  match transferred a (length data) with
  | None => mret (a, None)
  | Some n =>
      modify (λ s, {| so_incoming := so_incoming s; so_sent := so_sent s ++ take n data; so_polls := so_polls s;
                      so_answers := so_answers s |});;
      mret (a, Some n)
  end.

(** [recv(fd, buf, cap, 0)]; an empty result is the end of the stream. *)
Definition sys_recv (cap : nat) : M auth_err_t socket (answer * option bytes) :=
  a ← socket_answer;
  s ← get;
  let arrived := take cap (so_incoming s) in
  match transferred a (length arrived) with
  | None => mret (a, None)
  | Some n =>
      put {| so_incoming := drop n (so_incoming s); so_sent := so_sent s; so_polls := so_polls s;
             so_answers := so_answers s |};;
      mret (a, Some (take n arrived))
  end.

(** ** Shared helpers *)

(** [do { n = send(...); } while (n < 0 && errno == EINTR);]; -1 is [None]. *)
Fixpoint send_retry (fuel : nat) (data : bytes) : M auth_err_t socket (option nat) :=
  match fuel with
  | O => fault
  | S fuel =>
      '(a, n) ← sys_send data;
      match n, a with
      | None, A_interrupted => send_retry fuel data
      | _, _ => mret n
      end
  end.

Fixpoint write_all_loop (fuel : nat) (buf : bytes) (off : nat) : M auth_err_t socket unit :=
  if length buf <=? off then mret tt
  else match fuel with
  | O => fault
  | S fuel =>
      s ← get;
      n ← send_retry (S (length (so_answers s))) (drop off buf);
      match n with
      | None | Some O => fail AUTH_ERR_IO
      | Some n => write_all_loop fuel buf (off + n)
      end
  end.

Definition write_all (buf : bytes) : M auth_err_t socket unit :=
  s ← get;
  write_all_loop (S (length (so_answers s))) buf 0.

(** [do { pr = poll(&pfd, 1, timeout_ms); } while (pr < 0 && errno == EINTR);] *)
Fixpoint poll_retry (fuel : nat) : M auth_err_t socket poll_answer :=
  match fuel with
  | O => fault
  | S fuel =>
      a ← sys_poll;
      match a with P_interrupted => poll_retry fuel | _ => mret a end
  end.

(** [if (timeout_ms >= 0) { ... }] *)
Definition wait_readable (timeout_ms : Z) : M auth_err_t socket unit :=
  if (0 <=? timeout_ms)%Z then
    s ← get;
    pr ← poll_retry (S (length (so_polls s)));
    match pr with
    | P_timeout => fail AUTH_ERR_TIMEOUT
    | P_failed => fail AUTH_ERR_IO
    | _ => mret tt
    end
  else mret tt.

(** [do { n = recv(...); } while (n < 0 && errno == EINTR);] *)
Fixpoint recv_retry (fuel : nat) (cap : nat) : M auth_err_t socket (option bytes) :=
  match fuel with
  | O => fault
  | S fuel =>
      '(a, x) ← sys_recv cap;
      match x, a with
      | None, A_interrupted => recv_retry fuel cap
      | _, _ => mret x
      end
  end.

(** The bytes read so far are [acc]; [got_any] is that there are some. *)
Fixpoint read_all_loop (fuel len : nat) (timeout_ms : Z) (acc : bytes) : M auth_err_t socket bytes :=
  if len <=? length acc then mret acc
  else match fuel with
  | O => fault
  | S fuel =>
      wait_readable timeout_ms;;
      s ← get;
      x ← recv_retry (S (length (so_answers s))) (len - length acc);
      match x with
      | None => fail AUTH_ERR_IO
      | Some [] => fail (if 0 <? length acc then AUTH_ERR_MALFORMED_PACKET else AUTH_ERR_IO)
      | Some x => read_all_loop fuel len timeout_ms (acc ++ x)
      end
  end.

(** [buf[0 .. len - 1]] *)
Definition read_all (len : nat) (timeout_ms : Z) : M auth_err_t socket bytes :=
  s ← get;
  read_all_loop (S (S (length (so_answers s)))) len timeout_ms [].

(** ** Frames *)
Record auth_tcp_conn_t := { tc_fd : Z }.

(** The four stores into [hdr]. *)
Definition put_length (n : Z) : bytes :=
  [u8 (Z.land n 0xff); u8 (Z.land (Z.shiftr n 8) 0xff); u8 (Z.land (Z.shiftr n 16) 0xff);
   u8 (Z.land (Z.shiftr n 24) 0xff)].

Definition get_length (hdr : bytes) : outcome auth_err_t Z :=
  b0 ← load8 hdr 0; b1 ← load8 hdr 1; b2 ← load8 hdr 2; b3 ← load8 hdr 3;
  mret (Z.lor (Z.lor (Z.lor (b2z b0) (u32 (Z.shiftl (b2z b1) 8)))
                 (u32 (Z.shiftl (b2z b2) 16))) (u32 (Z.shiftl (b2z b3) 24))).

Definition auth_tcp_send (c : ptr auth_tcp_conn_t) (buf : ptr bytes) : M auth_err_t socket unit :=
  c ← deref c AUTH_ERR_INVALID_ARGUMENT;
  require (negb (tc_fd c <? 0)%Z) AUTH_ERR_INVALID_ARGUMENT;;
  buf ← deref buf AUTH_ERR_INVALID_ARGUMENT;
  require (negb (AUTH_MAX_DATAGRAM <? length buf)) AUTH_ERR_PAYLOAD_TOO_LARGE;;
  write_all (put_length (u32 (Z.of_nat (length buf))));;
  write_all buf.

(** [buf[0 .. *received_len - 1]]; [buf_cap] is the size of [buf]. *)
Definition auth_tcp_recv (c : ptr auth_tcp_conn_t) (buf_cap : nat) (timeout_ms : Z) : M auth_err_t socket bytes :=
  c ← deref c AUTH_ERR_INVALID_ARGUMENT;
  require (negb (tc_fd c <? 0)%Z) AUTH_ERR_INVALID_ARGUMENT;;
  hdr ← read_all 4 timeout_ms;
  len ← lift (get_length hdr);
  require (negb (Z.of_nat AUTH_MAX_DATAGRAM <? len)%Z) AUTH_ERR_PAYLOAD_TOO_LARGE;;
  require (negb (Z.of_nat buf_cap <? len)%Z) AUTH_ERR_BUFFER_TOO_SMALL;;
  read_all (Z.to_nat len) timeout_ms.

Definition auth_tcp_conn_wrap (c : ptr auth_tcp_conn_t) (fd : Z) : ptr auth_tcp_conn_t :=
  match c with Some _ => Some {| tc_fd := fd |} | None => None end.

(** [close] has no result that the program looks at. *)
Definition auth_tcp_conn_close (c : ptr auth_tcp_conn_t) : ptr auth_tcp_conn_t :=
  match c with
  | Some conn => Some (if (0 <=? tc_fd conn)%Z then {| tc_fd := -1 |} else conn)
  | None => None
  end.

(** ** Datagrams *)

(** [sizeof(struct sockaddr_storage)] of Linux. *)
Definition SOCKADDR_STORAGE : nat := 128.

Record auth_addr_t := { sa : bytes; sa_len : nat }.

Definition zero_addr : auth_addr_t := {| sa := zeros SOCKADDR_STORAGE; sa_len := 0 |}.

(** An address in a [sockaddr_storage]. *)
Definition addr_of (x : bytes) : auth_addr_t :=
  {| sa := take SOCKADDR_STORAGE (x ++ zeros SOCKADDR_STORAGE); sa_len := length x |}.

(** [a.sa] as a [struct sockaddr] of [a.sa_len] bytes. *)
Definition sockaddr (a : auth_addr_t) : bytes := take (sa_len a) (sa a).

Lemma sockaddr_of x : length x ≤ SOCKADDR_STORAGE → sockaddr (addr_of x) = x.
Proof. intros H. unfold sockaddr, addr_of. cbn [sa sa_len]. by rewrite take_take, Nat.min_l, take_app_length by done. Qed.

(** The datagrams that arrive, with the addresses of their senders, and those that were
    sent, to an address or ([None]) to the peer that the socket is connected to. *)
Record udp_socket := {
  us_incoming : list (bytes * bytes);
  us_sent : list (option bytes * bytes);
  us_polls : list poll_answer;
  us_answers : list answer
}.

Record auth_udp_t := { u_fd : Z }.

Definition auth_udp_close (u : ptr auth_udp_t) : ptr auth_udp_t :=
  match u with
  | Some udp => Some (if (0 <=? u_fd udp)%Z then {| u_fd := -1 |} else udp)
  | None => None
  end.

Definition udp_answer : M auth_err_t udp_socket answer := λ s,
  match us_answers s with
  | [] => (Ok A_full, s)
  | a :: l => (Ok a, {| us_incoming := us_incoming s; us_sent := us_sent s; us_polls := us_polls s; us_answers := l |})
  end.

(** After the script, [poll] waits for a datagram in vain when none is left. *)
Definition udp_poll : M auth_err_t udp_socket poll_answer := λ s,
  match us_polls s with
  | [] => (Ok (match us_incoming s with [] => P_timeout | _ => P_ready end), s)
  | a :: l => (Ok a, {| us_incoming := us_incoming s; us_sent := us_sent s; us_polls := l; us_answers := us_answers s |})
  end.

(** [sendto(u->fd, buf, buf_len, 0, to, ...)], or [send] without an address; [None] is -1. *)
Definition udp_sendto (to : option bytes) (data : bytes) : M auth_err_t udp_socket (option nat) :=
  a ← udp_answer;
  match transferred a (length data) with
  | None => mret None
  | Some n =>
      modify (λ s, {| us_incoming := us_incoming s; us_sent := us_sent s ++ [(to, take n data)]; us_polls := us_polls s;
                      us_answers := us_answers s |});;
      mret (Some n)
  end.

(** [recvfrom(u->fd, buf, cap, 0, &tmp.sa, &tmp.sa_len)]: the first datagram, cut at
    [cap], and [tmp]; -1 is [None], and so is a call that would wait forever. *)
Definition udp_recvfrom (cap : nat) : M auth_err_t udp_socket (option (bytes * auth_addr_t)) :=
  a ← udp_answer;
  s ← get;
  match us_incoming s with
  | (from, d) :: rest =>
      if succeeds a
      then put {| us_incoming := rest; us_sent := us_sent s; us_polls := us_polls s; us_answers := us_answers s |};;
           mret (Some (take cap d, addr_of from))
      else mret None
  | [] => mret None
  end.

(** [do { pr = poll(&pfd, 1, timeout_ms); } while (pr < 0 && errno == EINTR);] *)
Fixpoint udp_poll_retry (fuel : nat) : M auth_err_t udp_socket poll_answer :=
  match fuel with
  | O => fault
  | S fuel =>
      a ← udp_poll;
      match a with P_interrupted => udp_poll_retry fuel | _ => mret a end
  end.

(** [peer && peer->sa_len] *)
Definition destination (peer : ptr auth_addr_t) : option bytes :=
  match peer with
  | Some p => if sa_len p =? 0 then None else Some (sockaddr p)
  | None => None
  end.

Definition auth_udp_send (u : ptr auth_udp_t) (peer : ptr auth_addr_t) (buf : ptr bytes) : M auth_err_t udp_socket unit :=
  u ← deref u AUTH_ERR_INVALID_ARGUMENT;
  require (negb (u_fd u <? 0)%Z) AUTH_ERR_INVALID_ARGUMENT;;
  buf ← deref buf AUTH_ERR_INVALID_ARGUMENT;
  require (negb (AUTH_MAX_DATAGRAM <? length buf)) AUTH_ERR_PAYLOAD_TOO_LARGE;;
  n ← udp_sendto (destination peer) buf;
  match n with
  | None => fail AUTH_ERR_IO
  | Some n => require (n =? length buf) AUTH_ERR_IO
  end.

(** The packet and [*peer_out]. *)
Definition auth_udp_recv (u : ptr auth_udp_t) (buf_cap : nat) (timeout_ms : Z) :
    M auth_err_t udp_socket (bytes * auth_addr_t) :=
  u ← deref u AUTH_ERR_INVALID_ARGUMENT;
  require (negb (u_fd u <? 0)%Z) AUTH_ERR_INVALID_ARGUMENT;;
  (if (0 <=? timeout_ms)%Z then
     s ← get;
     pr ← udp_poll_retry (S (length (us_polls s)));
     match pr with
     | P_timeout => fail AUTH_ERR_TIMEOUT
     | P_failed => fail AUTH_ERR_IO
     | _ => mret tt
     end
   else mret tt);;
  x ← udp_recvfrom buf_cap;
  match x with None => fail AUTH_ERR_IO | Some x => mret x end.

(** ** What the calls do *)

(** No failure and no timeout is coming. *)
Record smooth (s : socket) : Prop := {
  sm_answers : Forall (λ a, a ≠ A_failed) (so_answers s);
  sm_polls : Forall (λ a, a ≠ P_timeout ∧ a ≠ P_failed) (so_polls s)
}.

Lemma socket_answer_run s :
  ∃ a s', socket_answer s = (Ok a, s') ∧ so_incoming s' = so_incoming s ∧ so_sent s' = so_sent s ∧
    so_polls s' = so_polls s ∧ so_answers s' = tl (so_answers s) ∧ (so_answers s = [] → a = A_full) ∧
    (smooth s → smooth s' ∧ a ≠ A_failed).
Proof.
  unfold socket_answer. destruct (so_answers s) as [|a l] eqn:E.
  - exists A_full, s. by rewrite E.
  - eexists a, _. split; [done|]. cbn. split_and!; [done..|]. intros [Ha Hp]. rewrite E in Ha.
    apply list.Forall_cons in Ha as [? ?]. done.
Qed.

Lemma poll_retry_run fuel s :
  length (so_polls s) < fuel →
  ∃ a s', poll_retry fuel s = (Ok a, s') ∧ so_incoming s' = so_incoming s ∧ so_sent s' = so_sent s ∧
    so_answers s' = so_answers s ∧ (smooth s → smooth s' ∧ a ≠ P_timeout ∧ a ≠ P_failed).
Proof.
  revert s. induction fuel as [|fuel IH]; intros s Hf; [lia|]. cbn [poll_retry]. unfold sys_poll. rewrite bind_run.
  destruct (so_polls s) as [|p l] eqn:E; [by exists P_ready, s|].
  set (s1 := {| so_incoming := _; so_sent := _; so_polls := l; so_answers := _ |}).
  assert (smooth s → smooth s1 ∧ p ≠ P_timeout ∧ p ≠ P_failed) as Hs.
  { intros [Ha Hp]. rewrite E in Hp. by apply list.Forall_cons in Hp as [? ?]. }
  destruct p; try by eexists _, s1.
  destruct (IH s1) as (a & s' & -> & ? & ? & ? & Hs'); [cbn in *; lia|]. exists a, s'. split_and!; [done..|]. tauto.
Qed.

Lemma wait_readable_run t s :
  ∃ o s', wait_readable t s = (o, s') ∧ so_incoming s' = so_incoming s ∧ so_sent s' = so_sent s ∧
    so_answers s' = so_answers s ∧ (smooth s → smooth s') ∧
    (o = Ok tt ∨ ¬ smooth s ∧ (o = Err AUTH_ERR_TIMEOUT ∨ o = Err AUTH_ERR_IO)).
Proof.
  unfold wait_readable. destruct (0 <=? t)%Z; [|eexists _, s; split_and!; try done; by left]. mstep.
  destruct (poll_retry_run (S (length (so_polls s))) s) as (a & s' & E & ? & ? & ? & Hs); [lia|].
  rewrite bind_run, E. destruct a; (eexists _, s'; split; [done|]; split_and!; [done..|tauto|]); tauto.
Qed.

Lemma sys_recv_run cap s :
  ∃ a x s', sys_recv cap s = (Ok (a, x), s') ∧ so_sent s' = so_sent s ∧ so_polls s' = so_polls s ∧
    so_answers s' = tl (so_answers s) ∧ (so_answers s = [] → a = A_full ∧ x = Some (take cap (so_incoming s))) ∧
    (smooth s → smooth s' ∧ a ≠ A_failed) ∧
    match x with
    | None => (a = A_interrupted ∨ a = A_failed) ∧ so_incoming s' = so_incoming s
    | Some x => ∃ n, n ≤ cap ∧ x = take n (so_incoming s) ∧ so_incoming s' = drop n (so_incoming s) ∧
                  (x = [] → 0 < cap → so_incoming s = [])
    end.
Proof.
  destruct (socket_answer_run s) as (a & s1 & E & Ei & Es & Ep & Ea & Hfull & Hs). unfold sys_recv.
  rewrite bind_run, E. mstep. rewrite Ei. destruct (transferred a _) as [n|] eqn:Et.
  - mstep. eexists a, _, _. split; [done|]. cbn. split_and!; [done..| | |].
    + intros H. rewrite (Hfull H) in *. injection Et as <-. by rewrite firstn_all.
    + intros H. destruct (Hs H) as [[? ?] ?]. done.
    + exists n. rewrite length_take in Et. assert (n ≤ min cap (length (so_incoming s))) as Hn.
      { destruct (decide (min cap (length (so_incoming s)) = 0)) as [Z|Z];
          [rewrite Z in Et; destruct a; simplify_eq Et; cbn; lia|].
        apply transferred_some in Et; lia. }
      rewrite take_take, Nat.min_l by lia. split_and!; [lia|done..|]. intros Hx Hc.
      apply (f_equal length) in Hx. rewrite length_take in Hx. cbn in Hx. apply nil_length_inv.
      destruct (decide (length (so_incoming s) = 0)); [done|]. apply transferred_some in Et; lia.
  - exists a, None, s1. rewrite Ei. split_and!; try done.
    + intros H. by rewrite (Hfull H) in Et.
    + destruct a; try discriminate Et; tauto.
Qed.

Lemma recv_retry_run fuel cap s :
  length (so_answers s) < fuel →
  ∃ x s', recv_retry fuel cap s = (Ok x, s') ∧ so_sent s' = so_sent s ∧ so_polls s' = so_polls s ∧
    length (so_answers s') ≤ pred (length (so_answers s)) ∧
    (so_answers s = [] → x = Some (take cap (so_incoming s))) ∧ (smooth s → smooth s' ∧ x ≠ None) ∧
    match x with
    | None => so_incoming s' = so_incoming s
    | Some x => ∃ n, n ≤ cap ∧ x = take n (so_incoming s) ∧ so_incoming s' = drop n (so_incoming s) ∧
                  (x = [] → 0 < cap → so_incoming s = [])
    end.
Proof.
  revert s. induction fuel as [|fuel IH]; intros s Hf; [lia|]. cbn [recv_retry].
  destruct (sys_recv_run cap s) as (a & x & s1 & E & Es & Ep & Ea & Hfull & Hs & Hx). rewrite bind_run, E. cbv beta iota.
  assert (length (so_answers s1) = pred (length (so_answers s))) as Hl by (rewrite Ea; by destruct (so_answers s)).
  destruct x as [x|].
  - exists (Some x), s1. destruct a; (split; [done|]); split_and!; try done; try lia; try (by intros H; destruct (Hfull H));
      intros H; by destruct (Hs H).
  - destruct Hx as [[-> | ->] Hi].
    + destruct (so_answers s) as [|a0 l] eqn:El; [by destruct (Hfull eq_refl)|]. cbn in Hl, Hf.
      destruct (IH s1) as (x & s' & -> & ? & ? & Hl' & _ & Hs' & Hx); [lia|]. exists x, s'.
      split_and!; [done|congruence|congruence|cbn; lia|done| |by rewrite <- Hi].
      intros Hsm. apply Hs'. by destruct (Hs Hsm).
    + exists None, s1. split_and!; try done; [lia|intros E0; by destruct (Hfull E0)|intros Hsm; by destruct (Hs Hsm)].
Qed.

(** What reading [len] bytes makes of a stream: the bytes, or the error at its end. *)
Definition read_stream (len : nat) (incoming : bytes) : outcome auth_err_t bytes * bytes :=
  if len <=? length incoming then (Ok (take len incoming), drop len incoming)
  else (Err (if bool_decide (incoming = []) then AUTH_ERR_IO else AUTH_ERR_MALFORMED_PACKET), []).

(** A call that reads: it ends, and unless the system failed it did what [spec] says. *)
Record reads {A} (spec : outcome auth_err_t A * bytes) (s : socket) (r : outcome auth_err_t A * socket) : Prop := {
  rd_total : r.1 ≠ Fault;
  rd_sent : so_sent r.2 = so_sent s;
  rd_smooth : smooth s → smooth r.2;
  rd_result : (r.1, so_incoming r.2) = spec ∨ ¬ smooth s ∧ (r.1 = Err AUTH_ERR_TIMEOUT ∨ r.1 = Err AUTH_ERR_IO)
}.

(** Reading goes on where it stopped. *)
Lemma read_stream_more len acc x rest :
  length acc + length x ≤ len → x ≠ [] →
  (let '(o, r) := read_stream (len - length acc) (x ++ rest) in
   match o with
   | Ok y => (Ok (acc ++ y), r)
   | _ => (Err (if bool_decide (acc ++ x ++ rest = []) then AUTH_ERR_IO else AUTH_ERR_MALFORMED_PACKET), r)
   end) =
  (let '(o, r) := read_stream (len - length (acc ++ x)) rest in
   match o with
   | Ok y => (Ok ((acc ++ x) ++ y), r)
   | _ => (Err (if bool_decide ((acc ++ x) ++ rest = []) then AUTH_ERR_IO else AUTH_ERR_MALFORMED_PACKET), r)
   end).
Proof.
  intros Hl Hx. rewrite <- app_assoc. unfold read_stream. rewrite !length_app.
  replace (len - (length acc + length x)) with (len - length acc - length x) by lia.
  destruct (Nat.leb_spec (len - length acc - length x) (length rest)).
  - rewrite (proj2 (Nat.leb_le _ _)) by lia. rewrite take_app_ge, drop_app_ge, <- app_assoc by lia. done.
  - by rewrite (proj2 (Nat.leb_gt _ _)) by lia.
Qed.

Lemma read_all_loop_run fuel len t acc s :
  S (length (so_answers s)) < fuel ∨ len ≤ length acc ∨ fuel = 1 ∧ so_answers s = [] ∧ so_incoming s = [] →
  length acc ≤ len →
  reads (let '(o, rest) := read_stream (len - length acc) (so_incoming s) in
         match o with
         | Ok x => (Ok (acc ++ x), rest)
         | _ => (Err (if bool_decide (acc ++ so_incoming s = []) then AUTH_ERR_IO else AUTH_ERR_MALFORMED_PACKET), rest)
         end) s (read_all_loop fuel len t acc s).
Proof.
  revert acc s. induction fuel as [|fuel IH]; intros acc s Hf Hl.
  { cbn [read_all_loop]. destruct Hf as [Hf|[Hf|[Hf _]]]; [lia| |lia]. rewrite (proj2 (Nat.leb_le _ _)) by done.
    replace (len - length acc) with 0 by lia. unfold read_stream. cbn. rewrite drop_0, app_nil_r. constructor; try done. by left. }
  cbn [read_all_loop]. destruct (Nat.leb_spec len (length acc)) as [H|H].
  { replace (len - length acc) with 0 by lia. unfold read_stream. cbn. rewrite drop_0, app_nil_r. constructor; try done. by left. }
  rewrite bind_run. destruct (wait_readable_run t s) as (o & s1 & E & Ei & Es & Ea & Hs & Ho). rewrite E.
  destruct Ho as [-> |[Hn Ho]]; [|destruct Ho as [-> | ->]; constructor; cbn; try done; tauto].
  mstep. destruct (recv_retry_run (S (length (so_answers s1))) (len - length acc) s1) as
    (x & s2 & E2 & Es2 & Ep2 & Ha2 & Hfull & Hs2 & Hx); [lia|].
  rewrite bind_run, E2. destruct x as [x|].
  2:{ constructor; cbn; [done|congruence|tauto|]. right. split; [|by right]. intros Hsm. by destruct (Hs2 (Hs Hsm)). }
  rewrite Ei in Hx. destruct Hx as (n & Hn & -> & Hi & He). destruct (take n (so_incoming s)) as [|b x] eqn:Ex.
  { specialize (He eq_refl ltac:(lia)). rewrite He in *. unfold read_stream. cbn [length].
    rewrite (proj2 (Nat.leb_gt _ _)) by lia. rewrite app_nil_r. constructor; cbn; [done|congruence|intros; by apply Hs2, Hs|].
    left. rewrite Hi, drop_nil. f_equal. f_equal. destruct acc; [done|]. by rewrite bool_decide_false. }
  assert (0 < n ∧ 0 < length (so_incoming s)) as [Hn0 Hi0].
  { apply (f_equal length) in Ex. rewrite length_take in Ex. cbn in Ex. lia. }
  rewrite <- Ex in Hfull |- *. clear Ex He. set (x' := take n (so_incoming s)) in *.
  assert (length x' = min n (length (so_incoming s))) as Hlx by apply length_take.
  assert (so_incoming s = x' ++ so_incoming s2) as Hcat by (rewrite Hi; symmetry; apply take_drop).
  assert (reads (let '(o, rest) := read_stream (len - length (acc ++ x')) (so_incoming s2) in
         match o with
         | Ok y => (Ok ((acc ++ x') ++ y), rest)
         | _ => (Err (if bool_decide ((acc ++ x') ++ so_incoming s2 = []) then AUTH_ERR_IO else AUTH_ERR_MALFORMED_PACKET), rest)
         end) s2 (read_all_loop fuel len t (acc ++ x') s2)) as [Hr1 Hr2 Hr3 Hr4].
  { apply IH; [|rewrite length_app; lia]. rewrite Ea in *. destruct (so_answers s) as [|a l] eqn:El.
    - specialize (Hfull eq_refl). injection Hfull as Hfull. rewrite Ei in Hfull.
      destruct (decide (len - length acc ≤ length (so_incoming s))) as [Hge|Hlt].
      + right; left. rewrite length_app. rewrite Hfull, length_take. lia.
      + destruct Hf as [Hf|[Hf|(Hf & _ & Hf')]]; [|lia|rewrite Hf' in Hi0; cbn in Hi0; lia]. cbn in *.
        assert (so_answers s2 = []) as Ha by (apply nil_length_inv; lia). rewrite Ha.
        destruct (decide (1 < fuel)); [by left|]. right; right. split_and!; [lia|done|].
        apply nil_length_inv. rewrite Hi, length_drop.
        assert (length x' = length (so_incoming s)) by (rewrite Hfull, length_take; lia). lia.
    - left. destruct Hf as [Hf|[Hf|(_ & Hf & _)]]; [|lia|discriminate]. cbn in *. lia. }
  constructor; [done|congruence|intros; by apply Hr3, Hs2, Hs|].
  destruct Hr4 as [Hr4|[Hns Hr4]]; [left|right; split; [intros Hsm; apply Hns; by apply Hs2, Hs|done]].
  rewrite Hr4, Hcat. symmetry. apply read_stream_more; [lia|].
  intros E0. rewrite E0 in Hlx. cbn in Hlx. lia.
Qed.

Lemma read_all_run len t s : reads (read_stream len (so_incoming s)) s (read_all len t s).
Proof.
  unfold read_all. mstep. pose proof (read_all_loop_run (S (S (length (so_answers s)))) len t [] s) as H.
  cbn [length app] in H. rewrite Nat.sub_0_r in H. unfold read_stream in *. destruct (len <=? length (so_incoming s)); apply H; lia.
Qed.

Lemma send_retry_run fuel data s :
  length (so_answers s) < fuel → 0 < length data →
  ∃ n s', send_retry fuel data s = (Ok n, s') ∧ so_incoming s' = so_incoming s ∧ so_polls s' = so_polls s ∧
    length (so_answers s') ≤ pred (length (so_answers s)) ∧ (so_answers s = [] → n = Some (length data)) ∧
    (smooth s → smooth s' ∧ n ≠ None) ∧
    match n with
    | None => so_sent s' = so_sent s
    | Some n => 0 < n ≤ length data ∧ so_sent s' = so_sent s ++ take n data
    end.
Proof.
  revert s. induction fuel as [|fuel IH]; intros s Hf Hd; [lia|]. cbn [send_retry].
  destruct (socket_answer_run s) as (a & s1 & E & Ei & Es & Ep & Ea & Hfull & Hs).
  assert (length (so_answers s1) = pred (length (so_answers s))) as Hl by (rewrite Ea; by destruct (so_answers s)).
  rewrite bind_run. unfold sys_send. rewrite bind_run, E. destruct (transferred a (length data)) as [n|] eqn:Et.
  - mstep. destruct (transferred_some _ _ _ Et Hd) as [Hn0 Hn]. eexists (Some n), _.
    split; [by destruct a|]. cbn. rewrite Es. split_and!; [done|done|lia| |intros Hsm; by destruct (Hs Hsm) as [[? ?] ?]|done|done|done].
    intros E0. rewrite (Hfull E0) in Et. symmetry in Et. by injection Et as ->.
  - cbn [mret M_ret]. destruct a; try discriminate Et.
    + destruct (so_answers s) as [|a0 l] eqn:El; [by specialize (Hfull eq_refl)|]. cbn in Hl, Hf.
      destruct (IH s1) as (n & s' & -> & ? & ? & Hl' & _ & Hs' & Hn); [lia|done|]. exists n, s'.
      split_and!; [done|congruence|congruence|cbn; lia|done|intros Hsm; apply Hs'; by destruct (Hs Hsm)|by rewrite <- Es].
    + exists None, s1. split_and!; try done; [lia|intros E0; by specialize (Hfull E0)|intros Hsm; by destruct (Hs Hsm)].
Qed.

(** A call that sends [data]: it ends, and unless the system failed all is sent. *)
Record sends (data : bytes) (s : socket) (r : outcome auth_err_t unit * socket) : Prop := {
  sd_incoming : so_incoming r.2 = so_incoming s;
  sd_smooth : smooth s → smooth r.2;
  sd_result : (r.1 = Ok tt ∧ so_sent r.2 = so_sent s ++ data) ∨
              (¬ smooth s ∧ r.1 = Err AUTH_ERR_IO ∧ ∃ n, so_sent r.2 = so_sent s ++ take n data)
}.

Lemma write_all_loop_run fuel buf off s :
  length (so_answers s) < fuel ∨ length buf ≤ off → sends (drop off buf) s (write_all_loop fuel buf off s).
Proof.
  revert off s. induction fuel as [|fuel IH]; intros off s Hf; cbn [write_all_loop];
    (destruct (Nat.leb_spec (length buf) off);
      [rewrite drop_ge by done; constructor; try done; left; by rewrite app_nil_r|]); [lia|].
  destruct Hf as [Hf|Hf]; [|lia]. mstep.
  destruct (send_retry_run (S (length (so_answers s))) (drop off buf) s) as (n & s1 & E & Ei & Ep & Hl & Hfull & Hs & Hn);
    [lia|rewrite length_drop; lia|]. rewrite bind_run, E. destruct n as [[|n]|].
  - lia.
  - destruct Hn as [Hn Es]. rewrite length_drop in Hn, Hfull. destruct (IH (off + S n) s1) as [Hi' Hs' Hr].
    { destruct (so_answers s); [right|left; cbn in *; lia]. specialize (Hfull eq_refl). injection Hfull. lia. }
    constructor; [congruence|intros; by apply Hs', Hs|]. rewrite Es, <- !app_assoc in Hr. rewrite <- drop_drop in Hr.
    destruct Hr as [[-> ->]|(Hns & -> & k & ->)].
    + left. by rewrite take_drop.
    + right. split; [intros Hsm; by apply Hns, Hs|]. split; [done|]. exists (S n + k). rewrite <- app_assoc. apply (f_equal (app _)), take_take_drop.
  - constructor; [done|intros; by apply Hs|]. right. split; [intros Hsm; by destruct (Hs Hsm)|]. split; [done|].
    exists 0. cbn. by rewrite Hn, app_nil_r.
Qed.

Lemma write_all_run buf s : sends buf s (write_all buf s).
Proof. unfold write_all. mstep. rewrite <- (drop_0 buf) at 1. apply write_all_loop_run. left. lia. Qed.

(** ** Frames *)
Definition frame (packet : bytes) : bytes := store_le 4 (Z.of_nat (length packet)) ++ packet.

Lemma put_length_frame n : n ≤ AUTH_MAX_DATAGRAM → put_length (u32 (Z.of_nat n)) = store_le 4 (Z.of_nat n).
Proof. intros H. unfold AUTH_MAX_DATAGRAM in H. rewrite store_le_4. unfold put_length, u32. by rewrite Z.mod_small by lia. Qed.

Lemma get_length_run hdr : length hdr = 4 → get_length hdr = Ok (load_le hdr).
Proof.
  intros H. destruct hdr as [|b0 [|b1 [|b2 [|b3 [|]]]]]; try discriminate H. etrans; [|by rewrite <- load_le_4]. done.
Qed.

Definition open_conn (c : auth_tcp_conn_t) : Prop := (0 ≤ tc_fd c)%Z.

Lemma sends_app x y s r k :
  sends x s r → (∀ s', r = (Ok tt, s') → sends y s' (k tt s')) →
  sends (x ++ y) s (match r with (Ok a, s') => k a s' | (Err e, s') => (Err e, s') | (Fault, s') => (Fault, s') end).
Proof.
  intros [Hi Hs Hr] Hk. destruct r as [o s1]. cbn in *. destruct Hr as [[-> Es]|(Hn & -> & n & Es)].
  - destruct (Hk s1 eq_refl) as [Hi' Hs' Hr']. constructor; [congruence|auto|].
    rewrite Es, <- !app_assoc in Hr'. destruct Hr' as [[? ?]|(Hn' & ? & m & E)]; [by left|right].
    split; [intros Hsm; by apply Hn', Hs|]. split; [done|]. exists (length x + m). by rewrite E, <- app_assoc, take_app_add.
  - constructor; [done..|]. right. split; [done|]. split; [done|]. cbn. exists (min n (length x)).
    by rewrite take_app_le, <- (take_take x), (firstn_all x) by lia.
Qed.

Lemma tcp_send_run c packet s :
  open_conn c → length packet ≤ AUTH_MAX_DATAGRAM →
  sends (frame packet) s (auth_tcp_send (Some c) (Some packet) s).
Proof.
  unfold open_conn. intros Hc Hp. unfold auth_tcp_send. mstep. rewrite (proj2 (Z.ltb_ge _ _)) by done. cbn [negb]. mstep. mstep.
  rewrite (proj2 (Nat.ltb_ge _ _)) by done. cbn [negb]. mstep. rewrite put_length_frame by done.
  rewrite bind_run. apply (sends_app _ _ _ _ (λ _, write_all packet)); [apply write_all_run|]. intros. apply write_all_run.
Qed.

(** What [auth_tcp_recv] makes of a stream. *)
Definition recv_stream (cap : nat) (incoming : bytes) : outcome auth_err_t bytes * bytes :=
  match read_stream 4 incoming with
  | (Ok hdr, rest) =>
      if (Z.of_nat AUTH_MAX_DATAGRAM <? load_le hdr)%Z then (Err AUTH_ERR_PAYLOAD_TOO_LARGE, rest)
      else if (Z.of_nat cap <? load_le hdr)%Z then (Err AUTH_ERR_BUFFER_TOO_SMALL, rest)
      else read_stream (Z.to_nat (load_le hdr)) rest
  | (o, rest) => (o, rest)
  end.

Lemma reads_err {A} (e : auth_err_t) s s' (spec : outcome auth_err_t A * bytes) :
  so_sent s' = so_sent s → (smooth s → smooth s') →
  ((Err e, so_incoming s') = spec ∨ ¬ smooth s ∧ (Err (A:=A) e = Err AUTH_ERR_TIMEOUT ∨ Err (A:=A) e = Err AUTH_ERR_IO)) →
  reads spec s (Err e, s').
Proof. by constructor. Qed.

Lemma tcp_recv_run c cap t s :
  open_conn c → reads (recv_stream cap (so_incoming s)) s (auth_tcp_recv (Some c) cap t s).
Proof.
  unfold open_conn. intros Hc. unfold auth_tcp_recv. mstep. rewrite (proj2 (Z.ltb_ge _ _)) by done. cbn [negb]. mstep.
  rewrite bind_run. destruct (read_all_run 4 t s) as [Ht Hs Hsm Hr]. destruct (read_all 4 t s) as [o s1]. cbn in *.
  destruct o as [hdr|e|]; [|apply reads_err; [done..|]|done].
  2:{ destruct Hr as [Hr|[? [[= ->]|[= ->]]]]; [left|right; tauto..]. unfold recv_stream. by rewrite <- Hr. }
  destruct Hr as [Hr|[_ [?|?]]]; [|done..]. unfold recv_stream. rewrite <- Hr.
  assert (length hdr = 4) as Hl.
  { unfold read_stream in Hr. destruct (Nat.leb_spec 4 (length (so_incoming s))); [|done]. injection Hr as -> _. rewrite length_take. lia. }
  rewrite bind_run, get_length_run by done. cbn [lift]. destruct (Z.ltb_spec (Z.of_nat AUTH_MAX_DATAGRAM) (load_le hdr)).
  { cbn. apply reads_err; [done..|by left]. }
  cbn [negb]. mstep. destruct (Z.ltb_spec (Z.of_nat cap) (load_le hdr)); cbn [negb]; mstep.
  { apply reads_err; [done..|by left]. }
  destruct (read_all_run (Z.to_nat (load_le hdr)) t s1) as [Ht' Hs' Hsm' Hr']. constructor; [done|congruence|auto|].
  destruct Hr' as [?|[? ?]]; [by left|right; auto].
Qed.

(** ** Frames in a stream *)
Definition fits (cap : nat) (packet : bytes) : Prop := length packet ≤ cap ∧ length packet ≤ AUTH_MAX_DATAGRAM.

Lemma length_frame packet : length (frame packet) = 4 + length packet.
Proof. unfold frame. by rewrite length_app, length_store_le. Qed.

Lemma recv_stream_frame cap packet rest :
  fits cap packet → recv_stream cap (frame packet ++ rest) = (Ok packet, rest).
Proof.
  intros [Hc Hm]. unfold recv_stream, frame. unfold read_stream at 1. rewrite <- app_assoc.
  assert (length (store_le 4 (Z.of_nat (length packet))) = 4) as L by apply length_store_le.
  rewrite (proj2 (Nat.leb_le _ _)) by (rewrite length_app, L; lia).
  rewrite take_app_length', drop_app_length' by done. rewrite load_store_le_4 by (unfold is_u32, AUTH_MAX_DATAGRAM in *; lia).
  rewrite !(proj2 (Z.ltb_ge _ _)) by lia. unfold read_stream. rewrite Nat2Z.id.
  rewrite (proj2 (Nat.leb_le _ _)) by (rewrite length_app; lia). by rewrite take_app_length, drop_app_length.
Qed.

Lemma recv_stream_ok cap incoming x rest :
  recv_stream cap incoming = (Ok x, rest) → fits cap x ∧ incoming = frame x ++ rest.
Proof.
  unfold recv_stream. unfold read_stream at 1. destruct (Nat.leb_spec 4 (length incoming)); [|done].
  set (hdr := take 4 incoming). assert (length hdr = 4) as L by (unfold hdr; rewrite length_take; lia).
  destruct (Z.ltb_spec (Z.of_nat AUTH_MAX_DATAGRAM) (load_le hdr)); [done|].
  destruct (Z.ltb_spec (Z.of_nat cap) (load_le hdr)); [done|]. unfold read_stream.
  destruct (Nat.leb_spec (Z.to_nat (load_le hdr)) (length (drop 4 incoming))) as [Hl|]; [|done].
  intros E. injection E as <- <-. pose proof (load_le_nonneg hdr).
  split; [split; rewrite length_take_le by done; lia|].
  unfold frame. rewrite length_take_le by done. rewrite Z2Nat.id by done. rewrite (store_load_le_n 4 hdr) by done.
  rewrite <- app_assoc, take_drop. unfold hdr. by rewrite take_drop.
Qed.

(** [auth_tcp_send] for each packet; [auth_tcp_recv] until it fails. *)
Fixpoint send_all (c : auth_tcp_conn_t) (packets : list bytes) : M auth_err_t socket unit :=
  match packets with
  | [] => mret tt
  | p :: packets => auth_tcp_send (Some c) (Some p);; send_all c packets
  end.

Fixpoint recv_all (fuel : nat) (c : auth_tcp_conn_t) (cap : nat) (timeout_ms : Z) (s : socket) :
    list bytes * outcome auth_err_t unit :=
  match fuel with
  | O => ([], Fault)
  | S fuel =>
      match auth_tcp_recv (Some c) cap timeout_ms s with
      | (Ok x, s) => let '(l, o) := recv_all fuel c cap timeout_ms s in (x :: l, o)
      | (Err e, _) => ([], Err e)
      | (Fault, _) => ([], Fault)
      end
  end.

Lemma recv_ok c cap t s packet rest :
  open_conn c → smooth s → so_incoming s = frame packet ++ rest → fits cap packet →
  ∃ s', auth_tcp_recv (Some c) cap t s = (Ok packet, s') ∧ smooth s' ∧ so_incoming s' = rest ∧ so_sent s' = so_sent s.
Proof.
  intros Hc Hs Hi Hf. destruct (tcp_recv_run c cap t s Hc) as [_ Hsent Hsm Hr].
  destruct (auth_tcp_recv _ _ _ s) as [o s']. cbn in *. destruct Hr as [Hr|[? _]]; [|done].
  rewrite Hi, recv_stream_frame in Hr by done. injection Hr as -> Hr. exists s'. auto.
Qed.

Lemma send_all_run c packets s :
  open_conn c → smooth s → Forall (fits AUTH_MAX_DATAGRAM) packets →
  ∃ s', send_all c packets s = (Ok tt, s') ∧ so_sent s' = so_sent s ++ concat (map frame packets).
Proof.
  intros Hc. revert s. induction packets as [|p packets IH]; intros s Hs Hp; cbn [send_all map concat].
  - exists s. by rewrite app_nil_r.
  - apply list.Forall_cons in Hp as [[Hp _] Hps]. destruct (tcp_send_run c p s Hc Hp) as [_ Hsm Hr]. rewrite bind_run.
    destruct (auth_tcp_send _ _ s) as [o s1]. cbn in *. destruct Hr as [[-> E]|[? _]]; [|done].
    destruct (IH s1) as (s' & -> & E'); [auto|done|]. exists s'. by rewrite E', E, <- app_assoc.
Qed.

Lemma recv_all_run fuel c cap t packets s :
  open_conn c → smooth s → Forall (fits cap) packets → so_incoming s = concat (map frame packets) →
  length packets < fuel → recv_all fuel c cap t s = (packets, Err AUTH_ERR_IO).
Proof.
  intros Hc. revert fuel s. induction packets as [|p packets IH]; intros [|fuel] s Hs Hp Hi Hf; cbn in Hf; try lia; cbn [recv_all].
  - destruct (tcp_recv_run c cap t s Hc) as [_ _ _ Hr]. destruct (auth_tcp_recv _ _ _ s) as [o s1]. cbn in Hr.
    destruct Hr as [Hr|[? _]]; [|done]. rewrite Hi in Hr. by injection Hr as -> _.
  - apply list.Forall_cons in Hp as [Hp Hps]. destruct (recv_ok c cap t s p (concat (map frame packets))) as (s' & -> & Hs' & Hi' & _);
      [done..|]. by rewrite IH by (done || lia).
Qed.

(** ** No call leaves an object *)
Lemma tcp_send_total c out s : (auth_tcp_send (Some c) (Some out) s).1 ≠ Fault.
Proof.
  destruct (decide (0 ≤ tc_fd c)%Z) as [Hc|Hc]; [destruct (decide (length out ≤ AUTH_MAX_DATAGRAM)) as [Hl|Hl]|].
  - destruct (tcp_send_run c out s Hc Hl) as [_ _ [[-> _]|(_ & -> & _)]]; done.
  - unfold auth_tcp_send. mstep. rewrite (proj2 (Z.ltb_ge _ _)) by done. cbn [negb]. mstep. mstep.
    by rewrite (proj2 (Nat.ltb_lt _ _)) by lia.
  - unfold auth_tcp_send. mstep. by rewrite (proj2 (Z.ltb_lt _ _)) by lia.
Qed.

Lemma tcp_recv_total c cap t s : (auth_tcp_recv (Some c) cap t s).1 ≠ Fault.
Proof.
  destruct (decide (0 ≤ tc_fd c)%Z) as [Hc|Hc]; [by apply (tcp_recv_run c cap t s Hc)|].
  unfold auth_tcp_recv. mstep. by rewrite (proj2 (Z.ltb_lt _ _)) by lia.
Qed.

Lemma triple_true {S A} (m : M auth_err_t S A) : (∀ s, (m s).1 ≠ Fault) → triple (λ _, True) m (λ _, True).
Proof. intros H s _. split; [by apply good_true|done]. Qed.

Lemma triple_total {S A} (m : M auth_err_t S A) Q s : triple (λ _, True) m Q → (m s).1 ≠ Fault.
Proof. intros H. destruct (H s I) as [Hg _]. by destruct (m s) as [[] ?]. Qed.

Lemma udp_answer_total : triple (λ _, True) udp_answer (λ _, True).
Proof. apply triple_true. intros s. unfold udp_answer. by destruct (us_answers s). Qed.

Lemma udp_poll_retry_total fuel s : length (us_polls s) < fuel → (udp_poll_retry fuel s).1 ≠ Fault.
Proof.
  revert s. induction fuel as [|fuel IH]; intros s Hf; [lia|]. cbn [udp_poll_retry]. rewrite bind_run. unfold udp_poll.
  destruct (us_polls s) as [|p l] eqn:E; [by destruct (us_incoming s)|]. destruct p; try done. apply IH. cbn in *. lia.
Qed.

Lemma udp_send_total u peer out s : (auth_udp_send (Some u) peer (Some out) s).1 ≠ Fault.
Proof.
  apply (triple_total _ (λ _, True)). unfold auth_udp_send, udp_sendto.
  eapply triple_bind; [apply triple_deref|cbv beta]. intros u' _.
  eapply triple_bind; [apply triple_require|cbv beta]. intros _ _.
  eapply triple_bind; [apply triple_deref|cbv beta]. intros b _.
  eapply triple_bind; [apply triple_require|cbv beta]. intros _ _.
  eapply (triple_bind _ _ _ (λ _, True)).
  - eapply triple_bind; [apply udp_answer_total|cbv beta]. intros a _. destruct (transferred a (length b)); [|by apply triple_ret].
    eapply triple_bind; [by apply triple_modify|cbv beta]. intros _ _. by apply triple_ret.
  - intros [n|] _; [eapply triple_conseq; [apply triple_require|done]|apply triple_fail].
Qed.

Lemma udp_recv_total u cap t s : (auth_udp_recv (Some u) cap t s).1 ≠ Fault.
Proof.
  apply (triple_total _ (λ _, True)). unfold auth_udp_recv.
  eapply triple_bind; [apply triple_deref|cbv beta]. intros u' _.
  eapply triple_bind; [apply triple_require|cbv beta]. intros _ _.
  eapply (triple_bind _ _ _ (λ _, True)).
  - destruct (0 <=? t)%Z; [|by apply triple_ret]. apply triple_true. intros s0. mstep. rewrite bind_run.
    pose proof (udp_poll_retry_total (S (length (us_polls s0))) s0 ltac:(lia)) as H.
    destruct (udp_poll_retry _ s0) as [[[]|e|] s1]; done.
  - intros _ _. eapply (triple_bind _ _ _ (λ _, True)); [|intros [x|] _; [by apply triple_ret|apply triple_fail]].
    unfold udp_recvfrom. eapply triple_bind; [apply udp_answer_total|cbv beta]. intros a _.
    eapply triple_bind; [apply triple_get|cbv beta]. intros s0 _. destruct (us_incoming s0) as [|[from x] l]; [by apply triple_ret|].
    destruct (succeeds a); [|by apply triple_ret]. eapply triple_bind; [by apply triple_put|cbv beta]. intros _ _. by apply triple_ret.
Qed.

(** ** The properties *)

(** C25: receiving a packet ends for every stream and every behaviour of the system,
    and never writes past [buf_cap] bytes; a success is exactly a complete frame of
    at most [buf_cap] and 2048 bytes at the head of the stream, which is consumed,
    and when the system neither fails nor times out there is no other outcome on
    such a stream. *)
Theorem tcp_recv_exact c cap timeout_ms s :
  open_conn c →
  match auth_tcp_recv (Some c) cap timeout_ms s with
  | (Ok packet, s') => fits cap packet ∧ so_incoming s = frame packet ++ so_incoming s' ∧ so_sent s' = so_sent s
  | (Err _, s') => so_sent s' = so_sent s ∧
      (smooth s → ∀ packet rest, fits cap packet → so_incoming s ≠ frame packet ++ rest)
  | (Fault, _) => False
  end.
Proof.
  intros Hc. destruct (tcp_recv_run c cap timeout_ms s Hc) as [Ht Hs _ Hr].
  destruct (auth_tcp_recv _ _ _ s) as [[x|e|] s']; cbn in *; [|split; [done|]|done].
  - destruct Hr as [Hr|[_ [?|?]]]; [|done..]. symmetry in Hr. by apply recv_stream_ok in Hr as [? ?].
  - intros Hsm p rest Hf E. destruct Hr as [Hr|[? _]]; [|done]. by rewrite E, recv_stream_frame in Hr.
Qed.

(** Packets of at most 2048 bytes that are sent over a connection arrive in
    order and unchanged, then the end of the stream is reported, however the two
    systems split, delay and interrupt the transfers. *)
Theorem tcp_stream_roundtrip c c' cap timeout_ms packets s r :
  open_conn c → open_conn c' → smooth s → smooth r → so_sent s = [] → AUTH_MAX_DATAGRAM ≤ cap →
  Forall (λ p, length p ≤ AUTH_MAX_DATAGRAM) packets →
  let '(o, s') := send_all c packets s in
  o = Ok tt ∧
  (so_incoming r = so_sent s' →
   recv_all (S (length packets)) c' cap timeout_ms r = (packets, Err AUTH_ERR_IO)).
Proof.
  intros Hc Hc' Hs Hr H0 Hcap Hp.
  destruct (send_all_run c packets s Hc Hs) as (s' & -> & E).
  { apply (list.Forall_impl _ _ _ Hp). intros x Hx. by split. }
  split; [done|]. intros Hi. apply recv_all_run; [done..| |by rewrite Hi, E, H0|lia].
  apply (list.Forall_impl _ _ _ Hp). intros x Hx. split; [lia|done].
Qed.

(** The end of the stream right after a length prefix is reported as
    [AUTH_ERR_IO], like the end between two packets. *)
Theorem tcp_eof_after_prefix c cap timeout_ms s n :
  open_conn c → smooth s → 0 < n → n ≤ cap → n ≤ AUTH_MAX_DATAGRAM → so_incoming s = store_le 4 (Z.of_nat n) →
  (auth_tcp_recv (Some c) cap timeout_ms s).1 = Err AUTH_ERR_IO.
Proof.
  intros Hc Hs Hn Hcap Hmax Hi. destruct (tcp_recv_run c cap timeout_ms s Hc) as [_ _ _ Hr].
  destruct (auth_tcp_recv _ _ _ s) as [o s']. cbn in *. destruct Hr as [Hr|[? _]]; [|done].
  assert (recv_stream cap (so_incoming s) = (Err AUTH_ERR_IO, [])) as E; [|rewrite E in Hr; by injection Hr].
  rewrite Hi. unfold recv_stream. unfold read_stream at 1. rewrite length_store_le, Nat.leb_refl.
  rewrite take_ge, drop_ge by (by rewrite length_store_le). rewrite load_store_le_4 by (unfold is_u32, AUTH_MAX_DATAGRAM in *; lia).
  rewrite !(proj2 (Z.ltb_ge _ _)) by lia. unfold read_stream. rewrite Nat2Z.id. cbn [length]. by rewrite (proj2 (Nat.leb_gt _ _)) by lia.
Qed.

(** A connection on which everything arrives byte by byte, with interruptions. *)
Definition sample_conn : auth_tcp_conn_t := {| tc_fd := 3 |}.

Definition sample_socket (incoming : bytes) : socket :=
  {| so_incoming := incoming; so_sent := []; so_polls := [P_interrupted; P_ready];
     so_answers := [A_short 0; A_interrupted; A_short 0; A_short 1; A_interrupted; A_short 0] |}.

Lemma sample_smooth incoming : smooth (sample_socket incoming).
Proof. constructor; cbn; repeat constructor; done. Qed.

Lemma tcp_recv_exact_witness :
  let '(o, s') := auth_tcp_recv (Some sample_conn) 64 5000 (sample_socket (frame (str_bytes "zk"))) in
  o = Ok (str_bytes "zk") ∧ fits 64 (str_bytes "zk") ∧ frame (str_bytes "zk") = frame (str_bytes "zk") ++ so_incoming s'.
Proof.
  pose proof (tcp_recv_exact sample_conn 64 5000 (sample_socket (frame (str_bytes "zk"))) ltac:(by unfold open_conn)) as H.
  destruct (auth_tcp_recv _ _ _ _) as [o s'] eqn:E. vm_compute in E. injection E as <- <-.
  destruct H as (? & ? & _). done.
Defined.

Definition sample_packets : list bytes := [str_bytes "zk"; []; str_bytes "arche"].

Lemma tcp_stream_roundtrip_witness :
  (send_all sample_conn sample_packets (sample_socket [])).1 = Ok tt ∧
  recv_all 4 sample_conn 2048 5000 (sample_socket (concat (map frame sample_packets))) = (sample_packets, Err AUTH_ERR_IO).
Proof.
  pose proof (tcp_stream_roundtrip sample_conn sample_conn 2048 5000 sample_packets
    (sample_socket []) (sample_socket (concat (map frame sample_packets)))) as H.
  destruct (send_all _ _ _) as [o s'] eqn:E. vm_compute in E. injection E as <- <-.
  destruct H as [_ H]; [by unfold open_conn|by unfold open_conn|apply sample_smooth|apply sample_smooth|done|done| |].
  - repeat constructor; apply Nat.leb_le; reflexivity.
  - split; [done|]. apply H. vm_compute. reflexivity.
Defined.
