(* ===== verification/Sockets.v ===== *)
(** Addresses and descriptors: [src/c/src/transport/transport_addr.c] and the opening
    and closing of sockets in [transport_tcp.c] and [transport_udp.c].

    [getaddrinfo], [getnameinfo], the layout of a [sockaddr] and the address that a
    bound socket gets are parameters ([Net]).  The kernel is a table of open sockets
    with a script of the answers to the next calls (success, failure, interruption);
    after the script every call succeeds, so any finite behaviour is a script. *)
From stdpp Require Import gmap.
From S2P Require Export Transport.

(** ** The system *)

(** [AF_INET6] of Linux. *)
Definition AF_INET6 : Z := 10.

Class Net := {
  (** the addresses of the list, for the hints of [auth_addr_parse]; [None]: an error *)
  getaddrinfo : bytes → bytes → option (list bytes);
  (** host and port in numbers; [None]: an error *)
  getnameinfo : bytes → option (bytes * bytes);
  ss_family : bytes → Z;
  (** the address of a socket that is bound to the argument (port 0: any) *)
  bound_to : bytes → bytes
}.

Inductive kernel_answer := K_ok | K_failed | K_interrupted.

#[export] Instance kernel_answer_eq_dec : EqDecision kernel_answer.
Proof. solve_decision. Defined.

Record sock := {
  sk_family : Z;
  sk_stream : bool;
  sk_local : option bytes;
  sk_peer : option bytes;
  sk_backlog : option Z;
  sk_reuse : bool;
  sk_nodelay : bool
}.

(** The open sockets, the other descriptors, the script, and the peers that connect. *)
Record kernel := {
  k_socks : gmap nat sock;
  k_files : gset nat;
  k_answers : list kernel_answer;
  k_peers : list bytes
}.

Definition k_set (socks : gmap nat sock) (k : kernel) : kernel :=
  {| k_socks := socks; k_files := k_files k; k_answers := k_answers k; k_peers := k_peers k |}.

Definition kernel_answers : M auth_err_t kernel kernel_answer := λ k,
  match k_answers k with
  | [] => (Ok K_ok, k)
  | a :: l => (Ok a, {| k_socks := k_socks k; k_files := k_files k; k_answers := l; k_peers := k_peers k |})
  end.

(** A descriptor that is not open. *)
Definition new_fd (k : kernel) : nat := fresh (dom (k_socks k) ∪ k_files k).

Definition install (s : sock) : M auth_err_t kernel Z := λ k,
  (Ok (Z.of_nat (new_fd k)), k_set (<[new_fd k := s]> (k_socks k)) k).

(** A call on [fd] that changes its socket by [f]: whether the result is 0. *)
Definition sys_update (fd : Z) (f : sock → sock) : M auth_err_t kernel bool :=
  a ← kernel_answers;
  k ← get;
  match a, k_socks k !! Z.to_nat fd with
  | K_ok, Some s => put (k_set (<[Z.to_nat fd := f s]> (k_socks k)) k);; mret true
  | _, _ => mret false
  end.

Definition new_sock (family : Z) (stream : bool) : sock :=
  {| sk_family := family; sk_stream := stream; sk_local := None; sk_peer := None; sk_backlog := None; sk_reuse := false;
     sk_nodelay := false |}.

(** [socket(family, type, protocol)], or -1. *)
Definition sys_socket (family : Z) (stream : bool) : M auth_err_t kernel Z :=
  a ← kernel_answers;
  match a with K_ok => install (new_sock family stream) | _ => mret (-1)%Z end.

Definition set_local a s : sock :=
  {| sk_family := sk_family s; sk_stream := sk_stream s; sk_local := Some a; sk_peer := sk_peer s; sk_backlog := sk_backlog s;
     sk_reuse := sk_reuse s; sk_nodelay := sk_nodelay s |}.
Definition set_peer a s : sock :=
  {| sk_family := sk_family s; sk_stream := sk_stream s; sk_local := sk_local s; sk_peer := Some a; sk_backlog := sk_backlog s;
     sk_reuse := sk_reuse s; sk_nodelay := sk_nodelay s |}.
Definition set_backlog n s : sock :=
  {| sk_family := sk_family s; sk_stream := sk_stream s; sk_local := sk_local s; sk_peer := sk_peer s; sk_backlog := Some n;
     sk_reuse := sk_reuse s; sk_nodelay := sk_nodelay s |}.
Definition set_reuse s : sock :=
  {| sk_family := sk_family s; sk_stream := sk_stream s; sk_local := sk_local s; sk_peer := sk_peer s; sk_backlog := sk_backlog s;
     sk_reuse := true; sk_nodelay := sk_nodelay s |}.
Definition set_nodelay s : sock :=
  {| sk_family := sk_family s; sk_stream := sk_stream s; sk_local := sk_local s; sk_peer := sk_peer s; sk_backlog := sk_backlog s;
     sk_reuse := sk_reuse s; sk_nodelay := true |}.

(** [close(fd)], whose result the program ignores. *)
Definition sys_close (fd : Z) : M auth_err_t kernel unit := modify (λ k, k_set (delete (Z.to_nat fd) (k_socks k)) k).

(** ** Addresses *)
Definition strchr (c : byte) (p : bytes) : option nat := fst <$> list_find (λ x, x = c) p.

Definition strrchr (c : byte) (p : bytes) : option nat := (λ i, length p - 1 - i) <$> strchr c (reverse p).

Definition HOST_CAP : nat := 256.
Definition PORT_CAP : nat := 32.

(** The strings [host] and [port]. *)
Definition split_hostport (p : bytes) : outcome auth_err_t (bytes * bytes) :=
  if bool_decide (head p = Some Byte.x5b) then
    last ← nonnull (strchr Byte.x5d p) AUTH_ERR_INVALID_ARGUMENT;
    let n := last - 1 in
    check (negb (HOST_CAP <=? n)) AUTH_ERR_INVALID_ARGUMENT;;
    check (bool_decide (p !! (last + 1) = Some Byte.x3a)) AUTH_ERR_INVALID_ARGUMENT;;
    mret (take n (drop 1 p), take (PORT_CAP - 1) (drop (last + 2) p))
  else
    colon ← nonnull (strrchr Byte.x3a p) AUTH_ERR_INVALID_ARGUMENT;
    check (negb (HOST_CAP <=? colon)) AUTH_ERR_INVALID_ARGUMENT;;
    mret (take colon p, take (PORT_CAP - 1) (drop (colon + 1) p)).

Section net.
Context {NET : Net}.

(** [auth_addr_parse]; [*out] is the state. *)
Definition auth_addr_parse (hostport : ptr bytes) : M auth_err_t auth_addr_t unit :=
  p ← deref hostport AUTH_ERR_INVALID_ARGUMENT;
  put zero_addr;;
  '(host, port) ← lift (split_hostport p);
  match getaddrinfo host port with
  | Some (x :: _) =>
      require (negb (SOCKADDR_STORAGE <? length x)) AUTH_ERR_INVALID_ARGUMENT;;
      put (addr_of x)
  | _ => fail AUTH_ERR_INVALID_ARGUMENT
  end.

(** The string that [auth_addr_format] leaves in [buf]; nothing for a [cap] of 0. *)
Definition auth_addr_format (a : ptr auth_addr_t) (cap : nat) : bytes :=
  match a with
  | None => []
  | Some a =>
      if sa_len a =? 0 then []
      else take (cap - 1)
        match getnameinfo (sockaddr a) with
        | None => str_bytes "<unknown>"
        | Some (host, port) =>
            if (ss_family (sa a) =? AF_INET6)%Z then [Byte.x5b] ++ host ++ [Byte.x5d; Byte.x3a] ++ port
            else host ++ [Byte.x3a] ++ port
        end
  end.

(** [auth_addr_t a; err = auth_addr_parse(&a, addr);] with [a] not initialised. *)
Definition parse_local (addr : ptr bytes) : M auth_err_t kernel auth_addr_t := λ k,
  match auth_addr_parse addr zero_addr with
  | (Ok _, a) => (Ok a, k)
  | (Err e, _) => (Err e, k)
  | (Fault, _) => (Fault, k)
  end.

(** ** Opening and closing *)

(** [if (...) { close(fd); return AUTH_ERR_IO; }] *)
Definition or_close (ok : bool) (fd : Z) : M auth_err_t kernel unit :=
  if ok then mret tt else sys_close fd;; fail AUTH_ERR_IO.

Definition sys_bind (fd : Z) (a : auth_addr_t) : M auth_err_t kernel bool :=
  sys_update fd (set_local (bound_to (sockaddr a))).
Definition sys_connect (fd : Z) (a : auth_addr_t) : M auth_err_t kernel bool := sys_update fd (set_peer (sockaddr a)).
Definition sys_listen (fd : Z) (backlog : Z) : M auth_err_t kernel bool := sys_update fd (set_backlog backlog).

Definition auth_udp_bind (bind_addr : ptr bytes) : M auth_err_t kernel auth_udp_t :=
  a ← parse_local bind_addr;
  fd ← sys_socket (ss_family (sa a)) false;
  require (negb (fd <? 0)%Z) AUTH_ERR_IO;;
  sys_update fd set_reuse;;
  ok ← sys_bind fd a;
  or_close ok fd;;
  mret {| u_fd := fd |}.

Definition auth_udp_connect (server_addr : ptr bytes) : M auth_err_t kernel auth_udp_t :=
  a ← parse_local server_addr;
  fd ← sys_socket (ss_family (sa a)) false;
  require (negb (fd <? 0)%Z) AUTH_ERR_IO;;
  ok ← sys_connect fd a;
  or_close ok fd;;
  mret {| u_fd := fd |}.

Record auth_tcp_listener_t := { l_fd : Z }.

Definition auth_tcp_listener_bind (bind_addr : ptr bytes) (backlog : Z) : M auth_err_t kernel auth_tcp_listener_t :=
  a ← parse_local bind_addr;
  fd ← sys_socket (ss_family (sa a)) true;
  require (negb (fd <? 0)%Z) AUTH_ERR_IO;;
  sys_update fd set_reuse;;
  ok ← sys_bind fd a;
  or_close ok fd;;
  ok ← sys_listen fd (if (0 <? backlog)%Z then backlog else 64);
  or_close ok fd;;
  mret {| l_fd := fd |}.

Definition auth_tcp_connect (server_addr : ptr bytes) : M auth_err_t kernel auth_tcp_conn_t :=
  a ← parse_local server_addr;
  fd ← sys_socket (ss_family (sa a)) true;
  require (negb (fd <? 0)%Z) AUTH_ERR_IO;;
  ok ← sys_connect fd a;
  or_close ok fd;;
  sys_update fd set_nodelay;;
  mret {| tc_fd := fd |}.

(** [if (x && x->fd >= 0) close(x->fd);] *)
Definition close_fd (fd : option Z) : M auth_err_t kernel unit :=
  match fd with Some fd => if (0 <=? fd)%Z then sys_close fd else mret tt | None => mret tt end.

Definition auth_tcp_listener_close (l : ptr auth_tcp_listener_t) : M auth_err_t kernel (ptr auth_tcp_listener_t) :=
  close_fd (l_fd <$> l);;
  mret ((λ l, if (0 <=? l_fd l)%Z then {| l_fd := -1 |} else l) <$> l).

(** The kernel's part of [auth_tcp_conn_close] and of [auth_udp_close]. *)
Definition tcp_close (c : ptr auth_tcp_conn_t) : M auth_err_t kernel (ptr auth_tcp_conn_t) :=
  close_fd (tc_fd <$> c);; mret (auth_tcp_conn_close c).
Definition udp_close (u : ptr auth_udp_t) : M auth_err_t kernel (ptr auth_udp_t) :=
  close_fd (u_fd <$> u);; mret (auth_udp_close u).

(** [getsockname(fd, ...)]: an unbound socket has no address. *)
Definition sys_getsockname (fd : Z) : M auth_err_t kernel (option bytes) :=
  a ← kernel_answers;
  k ← get;
  mret match a, k_socks k !! Z.to_nat fd with K_ok, Some s => Some (default [] (sk_local s)) | _, _ => None end.

(** [auth_udp_local_addr] and [auth_tcp_listener_local_addr] on the descriptor [fd]. *)
Definition local_addr (fd : option Z) : M auth_err_t kernel auth_addr_t :=
  fd ← deref fd AUTH_ERR_INVALID_ARGUMENT;
  require (negb (fd <? 0)%Z) AUTH_ERR_INVALID_ARGUMENT;;
  name ← sys_getsockname fd;
  match name with Some x => mret (addr_of x) | None => fail AUTH_ERR_IO end.

Definition auth_udp_local_addr (u : ptr auth_udp_t) : M auth_err_t kernel auth_addr_t := local_addr (u_fd <$> u).
Definition auth_tcp_listener_local_addr (l : ptr auth_tcp_listener_t) : M auth_err_t kernel auth_addr_t :=
  local_addr (l_fd <$> l).

(** ** Accepting *)

(** [accept(fd, ...)]: -1, or a descriptor and the address of the next peer. *)
Definition sys_accept (fd : Z) : M auth_err_t kernel (kernel_answer * Z * bytes) :=
  a ← kernel_answers;
  k ← get;
  match a, k_socks k !! Z.to_nat fd with
  | K_ok, Some s =>
      let peer := default [] (head (k_peers k)) in
      put {| k_socks := k_socks k; k_files := k_files k; k_answers := k_answers k; k_peers := tail (k_peers k) |};;
      cfd ← install (set_peer peer (new_sock (sk_family s) true));
      mret (K_ok, cfd, peer)
  | K_interrupted, _ => mret (K_interrupted, (-1)%Z, [])
  | _, _ => mret (K_failed, (-1)%Z, [])
  end.

(** [do { cfd = accept(...) } while (cfd < 0 && errno == EINTR)]; the fuel is more than
    the interruptions of the script. *)
Fixpoint accept_retry (fuel : nat) (fd : Z) : M auth_err_t kernel (Z * bytes) :=
  match fuel with
  | O => fault
  | S fuel =>
      '(a, cfd, peer) ← sys_accept fd;
      if bool_decide (a = K_interrupted) then accept_retry fuel fd else mret (cfd, peer)
  end.

Definition auth_tcp_listener_accept (l : ptr auth_tcp_listener_t) : M auth_err_t kernel (Z * auth_addr_t) :=
  l ← deref l AUTH_ERR_INVALID_ARGUMENT;
  require (negb (l_fd l <? 0)%Z) AUTH_ERR_INVALID_ARGUMENT;;
  k ← get;
  '(cfd, peer) ← accept_retry (S (length (k_answers k))) (l_fd l);
  require (negb (cfd <? 0)%Z) AUTH_ERR_IO;;
  sys_update cfd set_nodelay;;
  mret (cfd, addr_of peer).

(** One turn of the loop of [run_tcp]: the descriptor that a new thread is started
    for; [malloc] and [pthread_create] answer by the script as well. *)
Definition accept_turn (l : auth_tcp_listener_t) : M auth_err_t kernel (option Z) := λ k,
  match auth_tcp_listener_accept (Some l) k with
  | (Ok (peer_fd, _), k) =>
      (malloc ← kernel_answers;
       if bool_decide (malloc ≠ K_ok) then sys_close peer_fd;; mret None
       else
         create ← kernel_answers;
         if bool_decide (create ≠ K_ok) then sys_close peer_fd;; mret None else mret (Some peer_fd)) k
  | (Err _, k) => (Ok None, k)
  | (Fault, k) => (Fault, k)
  end.

(** The descriptors of the threads that [n] turns start. *)
Fixpoint accept_turns (n : nat) (l : auth_tcp_listener_t) : M auth_err_t kernel (list Z) :=
  match n with
  | O => mret []
  | S n => fd ← accept_turn l; fds ← accept_turns n l; mret (match fd with Some fd => fd :: fds | None => fds end)
  end.
End net.

(** ** Host and port *)
Lemma strchr_app c x y : c ∉ x → strchr c (x ++ c :: y) = Some (length x).
Proof.
  intros Hx. unfold strchr. rewrite list_find_app_r.
  - cbn. by rewrite decide_True.
  - apply list_find_None, list.Forall_forall. by intros z Hz ->.
Qed.

Lemma strchr_inv c p i : strchr c p = Some i → ∃ x y, p = x ++ (c :: y) ∧ (c ∉ x) ∧ length x = i.
Proof.
  unfold strchr. destruct (list_find (λ x, x = c) p) as [[j z]|] eqn:E; [|done]. cbn. intros [= <-].
  apply list_find_Some in E as (Hi & -> & Hf). pose proof (lookup_lt_Some _ _ _ Hi). exists (take j p), (drop (S j) p).
  split; [by rewrite take_drop_middle|]. split; [|by rewrite length_take_le by lia].
  intros Hin. apply list_elem_of_lookup in Hin as (k & Hk). apply lookup_take_Some in Hk as [Hk Hlt]. by eapply Hf.
Qed.

Lemma strrchr_app c x y : c ∉ y → strrchr c (x ++ c :: y) = Some (length x).
Proof.
  intros Hy. unfold strrchr. rewrite reverse_app, reverse_cons, <- app_assoc. cbn [app].
  rewrite strchr_app by by rewrite elem_of_reverse. cbn. f_equal. rewrite length_reverse, length_app. cbn. lia.
Qed.

Lemma strrchr_inv c p i : strrchr c p = Some i → ∃ x y, p = x ++ (c :: y) ∧ (c ∉ y) ∧ length x = i.
Proof.
  unfold strrchr. destruct (strchr c (reverse p)) as [j|] eqn:E; [|done]. cbn. intros [= <-].
  apply strchr_inv in E as (x & y & E & Hx & <-). exists (reverse y), (reverse x).
  assert (p = reverse y ++ c :: reverse x) as Ep.
  { rewrite <- (reverse_involutive p), E, reverse_app, reverse_cons, <- app_assoc. done. }
  split; [done|]. split; [by rewrite elem_of_reverse|]. rewrite Ep, length_app, !length_reverse. cbn. rewrite length_reverse. lia.
Qed.

(** The two forms of an address: a bracketed host, and anything before the last colon. *)
Inductive hostport : bytes → bytes → bytes → Prop :=
  | hostport_v6 host port : Byte.x5d ∉ host → hostport (Byte.x5b :: host ++ Byte.x5d :: Byte.x3a :: port) host port
  | hostport_v4 host port : Byte.x3a ∉ port → head (host ++ Byte.x3a :: port) ≠ Some Byte.x5b →
      hostport (host ++ Byte.x3a :: port) host port.

Lemma split_hostport_exact p host port :
  split_hostport p = Ok (host, port) ↔
  ∃ port', hostport p host port' ∧ length host < HOST_CAP ∧ port = take (PORT_CAP - 1) port'.
Proof.
  split.
  - unfold split_hostport. case_bool_decide as Hh.
    + destruct p as [|b p]; [done|]. injection Hh as ->. intros H. apply outcome_bind_ok_inv in H as (i & Hi & H).
      destruct (strchr Byte.x5d (Byte.x5b :: p)) as [i'|] eqn:E; [|done]. injection Hi as ->.
      apply strchr_inv in E as (x & y & E & Hx & <-). destruct x as [|c x]; [discriminate E|]. injection E as <- ->.
      apply outcome_bind_ok_inv in H as (u & Hc & H). apply check_ok_inv in Hc. bool_to_prop.
      apply outcome_bind_ok_inv in H as (u' & Hc' & H). apply check_ok_inv, bool_decide_eq_true in Hc'.
      change (Byte.x5b :: x ++ Byte.x5d :: y) with ((Byte.x5b :: x) ++ Byte.x5d :: y) in *.
      rewrite lookup_app_r in Hc' by lia. replace (length (Byte.x5b :: x) + 1 - length (Byte.x5b :: x)) with 1 in Hc' by lia.
      destruct y as [|c port']; [done|]. injection Hc' as ->. injection H as <- <-. exists port'.
      rewrite Nat.sub_0_r, drop_0, take_app_length, drop_app_ge by lia. replace (length x + 2 - length x) with 2 by lia.
      split_and!; [|cbn in Hc; lia|done]. apply hostport_v6. intros Hin. apply Hx. by right.
    + intros H. apply outcome_bind_ok_inv in H as (i & Hi & H).
      destruct (strrchr Byte.x3a p) as [i'|] eqn:E; [|done]. injection Hi as ->. apply strrchr_inv in E as (x & y & -> & Hy & <-).
      apply outcome_bind_ok_inv in H as (u & Hc & H). apply check_ok_inv in Hc. bool_to_prop. injection H as <- <-. exists y.
      rewrite take_app_length, drop_app_ge by lia. replace (length x + 1 - length x) with 1 by lia.
      split_and!; [by apply hostport_v4|done|done].
  - intros (port' & H & Hl & ->). unfold split_hostport. destruct H as [host port' Hn|host port' Hn Hh].
    + rewrite bool_decide_true by done. change (Byte.x5b :: host ++ ?y) with ((Byte.x5b :: host) ++ y).
      rewrite strchr_app by (apply not_elem_of_cons; done). cbn [nonnull mbind outcome_bind].
      replace (length (Byte.x5b :: host) - 1) with (length host) by (cbn; lia).
      rewrite (proj2 (Nat.leb_gt _ _)) by done. cbn [negb check mbind outcome_bind].
      rewrite lookup_app_r by lia. replace (length (Byte.x5b :: host) + 1 - length (Byte.x5b :: host)) with 1 by lia.
      rewrite bool_decide_true by done. cbn [check mbind outcome_bind].
      rewrite (drop_app_ge _ _ (length (Byte.x5b :: host) + 2)) by lia. replace (length (Byte.x5b :: host) + 2 - length (Byte.x5b :: host)) with 2 by lia.
      change (drop 1 ((Byte.x5b :: host) ++ ?y)) with (host ++ y). by rewrite take_app_length.
    + rewrite bool_decide_false by done. rewrite strrchr_app by done. cbn [nonnull mbind outcome_bind].
      rewrite (proj2 (Nat.leb_gt _ _)) by done. cbn [negb check mbind outcome_bind].
      rewrite take_app_length, drop_app_ge by lia. by replace (length host + 1 - length host) with 1 by lia.
Qed.

Lemma ok_pair_inj {E A B} (a a' : A) (b b' : B) : Ok (E := E) (a, b) = Ok (a', b') → a = a' ∧ b = b'.
Proof. by intros [= -> ->]. Qed.

Lemma split_hostport_cases p :
  (∃ hp, split_hostport p = Ok hp) ∨ split_hostport p = Err AUTH_ERR_INVALID_ARGUMENT.
Proof.
  unfold split_hostport. case_bool_decide.
  - destruct (strchr Byte.x5d p) as [i|]; [|by right]. cbn [nonnull mbind outcome_bind].
    destruct (negb _); [|by right]. cbn [check mbind outcome_bind]. destruct (bool_decide _); [left; by eexists|by right].
  - destruct (strrchr Byte.x3a p) as [i|]; [|by right]. cbn [nonnull mbind outcome_bind].
    destruct (negb _); [left; by eexists|by right].
Qed.

Section proofs.
Context {NET : Net}.

(** What [auth_addr_parse] finds for an argument. *)
Definition resolves (addr : ptr bytes) (a : auth_addr_t) : Prop :=
  ∃ p host port x rest, addr = Some p ∧ hostport p host port ∧ length host < HOST_CAP ∧
    getaddrinfo host (take (PORT_CAP - 1) port) = Some (x :: rest) ∧ length x ≤ SOCKADDR_STORAGE ∧ a = addr_of x.

Lemma addr_parse_exact addr a0 :
  (∃ a, auth_addr_parse addr a0 = (Ok tt, a) ∧ resolves addr a) ∨
  (auth_addr_parse addr a0 = (Err AUTH_ERR_INVALID_ARGUMENT, match addr with Some _ => zero_addr | None => a0 end) ∧
   ∀ a, ¬ resolves addr a).
Proof.
  destruct addr as [p|]; [|right; split; [done|]; intros a (? & ? & ? & ? & ? & [=] & _)].
  unfold auth_addr_parse. mstep. mstep. rewrite bind_run. pose proof (split_hostport_exact p) as Hs.
  destruct (split_hostport p) as [[host port]|e|] eqn:E; cbn [lift].
  - destruct (proj1 (Hs host port) eq_refl) as (port' & Hh & Hl & ->).
    assert (∀ a, resolves (Some p) a → ∃ x rest, getaddrinfo host (take (PORT_CAP - 1) port') = Some (x :: rest) ∧
      length x ≤ SOCKADDR_STORAGE ∧ a = addr_of x) as Hr.
    { intros a (p' & h & q & x & rest & [= <-] & H1 & H2 & H3 & H4 & ->). exists x, rest.
      assert (Ok (host, take (PORT_CAP - 1) port') = Ok (E := auth_err_t) (h, take (PORT_CAP - 1) q)) as Eq.
      { apply Hs. by exists q. }
      apply ok_pair_inj in Eq as [<- Eq]. by rewrite Eq. }
    destruct (getaddrinfo host _) as [[|x rest]|] eqn:Eg.
    + right. split; [done|]. intros a Ha. destruct (Hr a Ha) as (? & ? & [=] & _).
    + destruct (Nat.ltb_spec SOCKADDR_STORAGE (length x)); cbn [negb]; mstep.
      * right. split; [done|]. intros a Ha. destruct (Hr a Ha) as (? & ? & [= <- <-] & ? & _). lia.
      * left. eexists. split; [done|]. by exists p, host, port', x, rest.
    + right. split; [done|]. intros a Ha. destruct (Hr a Ha) as (? & ? & [=] & _).
  - right. assert (e = AUTH_ERR_INVALID_ARGUMENT) as -> 
      by (destruct (split_hostport_cases p) as [[hp Ec]|Ec]; rewrite Ec in E; congruence).
    split; [done|]. intros a (p' & h & q & x & rest & [= <-] & H1 & H2 & _).
    assert (Err AUTH_ERR_INVALID_ARGUMENT = Ok (h, take (PORT_CAP - 1) q)) as [=]. apply Hs. by exists q.
  - destruct (split_hostport_cases p) as [[hp Ec]|Ec]; rewrite Ec in E; congruence.
Qed.

(** C28: an address that [auth_addr_format] has written, with room for it, is read back
    by [auth_addr_parse] to the same address, for IPv4 and IPv6, if the resolver finds
    the numeric host and port that it gave for that address. *)
Theorem addr_roundtrip x a0 cap host port rest :
  x ≠ [] → length x ≤ SOCKADDR_STORAGE →
  getnameinfo x = Some (host, port) → getaddrinfo host port = Some (x :: rest) →
  (Byte.x5d ∉ host) → (Byte.x3a ∉ port) → head host ≠ Some Byte.x5b →
  length host < HOST_CAP → length port < PORT_CAP → length host + length port + 4 ≤ cap →
  auth_addr_parse (Some (auth_addr_format (Some (addr_of x)) cap)) a0 = (Ok tt, addr_of x).
Proof.
  intros Hx Hxl Hn Hg Hb Hc Hh Hhl Hpl Hcap.
  assert (sockaddr (addr_of x) = x) as Es by (by apply sockaddr_of).
  assert (take (PORT_CAP - 1) port = port) as Ep by (apply take_ge; lia).
  assert (hostport (auth_addr_format (Some (addr_of x)) cap) host port) as Hf.
  { unfold auth_addr_format. rewrite Es, Hn. cbn [sa_len addr_of]. rewrite (proj2 (Nat.eqb_neq _ _)) by by destruct x.
    destruct (_ =? AF_INET6)%Z; rewrite take_ge by (rewrite !length_app; cbn; lia).
    - by apply hostport_v6.
    - apply hostport_v4; [done|]. by destruct host. }
  destruct (addr_parse_exact (Some (auth_addr_format (Some (addr_of x)) cap)) a0) as [(a & -> & Ha)|[_ Hno]].
  - f_equal. destruct Ha as (p & h & q & y & rest' & [= <-] & H1 & H2 & H3 & H4 & ->).
    assert (Ok (host, port) = Ok (E := auth_err_t) (h, take (PORT_CAP - 1) q)) as Eq.
    { rewrite <- Ep at 1. rewrite <- (proj2 (split_hostport_exact _ _ _) (ex_intro _ port (conj Hf (conj Hhl eq_refl)))).
      apply split_hostport_exact. by exists q. }
    apply ok_pair_inj in Eq as [<- Eq]. rewrite <- Eq, Hg in H3. by injection H3 as <- _.
  - exfalso. apply (Hno (addr_of x)). exists (auth_addr_format (Some (addr_of x)) cap), host, port, x, rest. by rewrite Ep.
Qed.
(** ** Descriptors *)
Definition same_table (k k' : kernel) : Prop := k_socks k' = k_socks k ∧ k_files k' = k_files k.

(** [k'] has the socket [s] at the new descriptor [n] beside what [k] has. *)
Definition fresh_sock (k k' : kernel) (n : nat) (s : sock) : Prop :=
  (n ∉ dom (k_socks k) ∪ k_files k) ∧ k_socks k' = <[n := s]> (k_socks k) ∧ k_files k' = k_files k.

Lemma answers_run k :
  ∃ a k', kernel_answers k = (Ok a, k') ∧ same_table k k' ∧
    (k_answers k = [] ∧ a = K_ok ∧ k' = k ∨ k_answers k = a :: k_answers k').
Proof. unfold kernel_answers. destruct (k_answers k) as [|a l] eqn:E; eexists _, _; (split; [done|]); [by split; [|left]|by split; [|right]]. Qed.

Lemma same_table_trans k1 k2 k3 : same_table k1 k2 → same_table k2 k3 → same_table k1 k3.
Proof. intros [? ?] [? ?]. split; congruence. Qed.

Lemma install_run s k : ∃ n k', install s k = (Ok (Z.of_nat n), k') ∧ fresh_sock k k' n s ∧ k_answers k' = k_answers k.
Proof.
  exists (new_fd k). eexists. split; [done|]. split; [|done]. split; [|done].
  unfold new_fd. apply (is_fresh (dom (k_socks k) ∪ k_files k)).
Qed.

Lemma fresh_sock_same k0 k k' n s : same_table k0 k → fresh_sock k k' n s → fresh_sock k0 k' n s.
Proof. intros [E1 E2] (H1 & H2 & H3). unfold fresh_sock. by rewrite <- E1, <- E2. Qed.

Lemma same_fresh_sock k k1 k2 n s : fresh_sock k k1 n s → same_table k1 k2 → fresh_sock k k2 n s.
Proof. intros (H1 & H2 & H3) [E1 E2]. split; [done|]. by rewrite E1, E2. Qed.

Lemma sys_socket_run family stream k :
  (∃ k', sys_socket family stream k = (Ok (-1)%Z, k') ∧ same_table k k') ∨
  (∃ n k', sys_socket family stream k = (Ok (Z.of_nat n), k') ∧ fresh_sock k k' n (new_sock family stream)).
Proof.
  unfold sys_socket. destruct (answers_run k) as (a & k1 & E & Ht & _). mstep by E. destruct a; [right|left; by exists k1..].
  destruct (install_run (new_sock family stream) k1) as (n & k2 & -> & Hf & _). exists n, k2. split; [done|].
  by eapply fresh_sock_same.
Qed.

Lemma sys_update_run k k1 n s f :
  fresh_sock k k1 n s →
  ∃ b k2, sys_update (Z.of_nat n) f k1 = (Ok b, k2) ∧ fresh_sock k k2 n (if b then f s else s).
Proof.
  intros Hf. unfold sys_update. destruct (answers_run k1) as (a & k2 & E & Ht & _). mstep by E. mstep.
  pose proof (same_fresh_sock _ _ _ _ _ Hf Ht) as Hf2. pose proof Hf2 as (H1 & H2 & H3).
  rewrite Nat2Z.id, H2, lookup_insert_eq. destruct a; [mstep|by exists false, k2..].
  eexists true, _. split; [done|]. split; [done|]. by rewrite insert_insert_eq.
Qed.

Lemma sys_close_run k k1 n s : fresh_sock k k1 n s → ∃ k2, sys_close (Z.of_nat n) k1 = (Ok tt, k2) ∧ same_table k k2.
Proof.
  intros (H1 & H2 & H3). eexists. split; [done|]. split; [|done]. cbn. rewrite Nat2Z.id, H2.
  apply delete_insert_id, not_elem_of_dom. by apply not_elem_of_union in H1 as [? _].
Qed.

Lemma or_close_run k k1 n s (ok : bool) :
  fresh_sock k k1 n s →
  if ok then or_close ok (Z.of_nat n) k1 = (Ok tt, k1)
  else ∃ k2, or_close ok (Z.of_nat n) k1 = (Err AUTH_ERR_IO, k2) ∧ same_table k k2.
Proof.
  intros Hf. destruct ok; [done|]. destruct (sys_close_run _ _ _ _ Hf) as (k2 & E & Ht). exists k2. split; [|done].
  unfold or_close. by rewrite bind_run, E.
Qed.

Lemma parse_local_run addr k :
  (∃ a, parse_local addr k = (Ok a, k) ∧ resolves addr a) ∨ parse_local addr k = (Err AUTH_ERR_INVALID_ARGUMENT, k).
Proof.
  unfold parse_local. destruct (addr_parse_exact addr zero_addr) as [(a & -> & Ha)|[-> _]]; [left; by exists a|by right].
Qed.

(** A function that opens a socket on the address that [addr] names, as [Q] says: it succeeds with a new descriptor, or leaves the table alone. *)
Definition opens_sock {A} (m : M auth_err_t kernel A) (fd : A → Z) (addr : ptr bytes) (Q : auth_addr_t → sock → Prop) (k : kernel) : Prop :=
  match m k with
  | (Ok x, k') => ∃ a n s, resolves addr a ∧ fd x = Z.of_nat n ∧ fresh_sock k k' n s ∧ sk_family s = ss_family (sa a) ∧ Q a s
  | (Err _, k') => same_table k k'
  | (Fault, _) => False
  end.

Lemma opens_sock_start {A} (m : auth_addr_t → Z → M auth_err_t kernel A) fd addr stream Q k :
  (∀ a n k1, resolves addr a → fresh_sock k k1 n (new_sock (ss_family (sa a)) stream) →
    match m a (Z.of_nat n) k1 with
    | (Ok x, k') => ∃ s, fd x = Z.of_nat n ∧ fresh_sock k k' n s ∧ sk_family s = ss_family (sa a) ∧ Q a s
    | (Err _, k') => same_table k k'
    | (Fault, _) => False
    end) →
  opens_sock (a ← parse_local addr; fd ← sys_socket (ss_family (sa a)) stream; require (negb (fd <? 0)%Z) AUTH_ERR_IO;; m a fd)
    fd addr Q k.
Proof.
  intros H. unfold opens_sock. destruct (parse_local_run addr k) as [(a & E & Ha)|E]; mstep by E; [|done].
  destruct (sys_socket_run (ss_family (sa a)) stream k) as [(k1 & E1 & Ht)|(n & k1 & E1 & Hf)]; mstep by E1; [done|].
  rewrite (proj2 (Z.ltb_ge _ _)) by lia. cbn [negb]. mstep. specialize (H a n k1 Ha Hf).
  destruct (m a (Z.of_nat n) k1) as [[x|e|] k2]; [|done..]. destruct H as (s & ? & ? & ? & ?). by exists a, n, s.
Qed.

(** The next [sys_update]; [or_close] after it. *)
Local Ltac supdate Hf b Hf' :=
  rewrite bind_run;
  match goal with |- context [sys_update _ ?f ?k] =>
    let k' := fresh "k" in let E := fresh "E" in
    destruct (sys_update_run _ _ _ _ f Hf) as (b & k' & E & Hf'); rewrite E; clear E
  end.
Local Ltac sclose Hf b :=
  pose proof (or_close_run _ _ _ _ b Hf) as E; destruct b;
  [rewrite bind_run, E; clear E|destruct E as (? & E & ?); by rewrite bind_run, E].

Lemma udp_bind_opens addr k :
  opens_sock (auth_udp_bind addr) u_fd addr
    (λ a s, sk_stream s = false ∧ sk_local s = Some (bound_to (sockaddr a)) ∧ sk_peer s = None) k.
Proof.
  apply opens_sock_start; intros a n k1 Ha Hf. supdate Hf b1 Hf1. unfold sys_bind. supdate Hf1 b2 Hf2. sclose Hf2 b2.
  eexists. split; [done|]. split; [exact Hf2|]. by destruct b1.
Qed.

Lemma udp_connect_opens addr k :
  opens_sock (auth_udp_connect addr) u_fd addr
    (λ a s, sk_stream s = false ∧ sk_local s = None ∧ sk_peer s = Some (sockaddr a)) k.
Proof.
  apply opens_sock_start; intros a n k1 Ha Hf. unfold sys_connect. supdate Hf b1 Hf1. sclose Hf1 b1.
  eexists. split; [done|]. split; [exact Hf1|]. done.
Qed.

Lemma listener_bind_opens addr backlog k :
  opens_sock (auth_tcp_listener_bind addr backlog) l_fd addr
    (λ a s, sk_stream s = true ∧ sk_local s = Some (bound_to (sockaddr a)) ∧ sk_peer s = None ∧
      ∃ n, (0 < n)%Z ∧ sk_backlog s = Some n) k.
Proof.
  apply opens_sock_start; intros a n k1 Ha Hf.
  supdate Hf b1 Hf1. unfold sys_bind. supdate Hf1 b2 Hf2. sclose Hf2 b2. unfold sys_listen. supdate Hf2 b3 Hf3. sclose Hf3 b3.
  eexists. split; [done|]. split; [exact Hf3|]. split; [by destruct b1|]. split_and!; [by destruct b1..|].
  destruct (Z.ltb_spec 0 backlog); eexists; (split; [|by destruct b1]); lia.
Qed.

Lemma tcp_connect_opens addr k :
  opens_sock (auth_tcp_connect addr) tc_fd addr
    (λ a s, sk_stream s = true ∧ sk_local s = None ∧ sk_peer s = Some (sockaddr a)) k.
Proof.
  apply opens_sock_start; intros a n k1 Ha Hf. unfold sys_connect. supdate Hf b1 Hf1. sclose Hf1 b1. supdate Hf1 b2 Hf2.
  eexists. split; [done|]. split; [exact Hf2|]. by destruct b2.
Qed.

(** C26: no call that opens a socket leaks a descriptor: [auth_udp_bind],
    [auth_udp_connect], [auth_tcp_listener_bind] and [auth_tcp_connect] succeed with
    exactly one new socket, of the right kind, bound or connected to the address that
    the argument names, or they leave the table of descriptors as it was, whichever
    system call fails. *)
Theorem sockets_open_exact addr backlog k :
  opens_sock (auth_udp_bind addr) u_fd addr
    (λ a s, sk_stream s = false ∧ sk_local s = Some (bound_to (sockaddr a)) ∧ sk_peer s = None) k ∧
  opens_sock (auth_udp_connect addr) u_fd addr
    (λ a s, sk_stream s = false ∧ sk_local s = None ∧ sk_peer s = Some (sockaddr a)) k ∧
  opens_sock (auth_tcp_listener_bind addr backlog) l_fd addr
    (λ a s, sk_stream s = true ∧ sk_local s = Some (bound_to (sockaddr a)) ∧ sk_peer s = None ∧
      ∃ n, (0 < n)%Z ∧ sk_backlog s = Some n) k ∧
  opens_sock (auth_tcp_connect addr) tc_fd addr
    (λ a s, sk_stream s = true ∧ sk_local s = None ∧ sk_peer s = Some (sockaddr a)) k.
Proof. split_and!; [apply udp_bind_opens|apply udp_connect_opens|apply listener_bind_opens|apply tcp_connect_opens]. Qed.

Lemma close_fd_run k k1 n s : fresh_sock k k1 n s → ∃ k2, close_fd (Some (Z.of_nat n)) k1 = (Ok tt, k2) ∧ same_table k k2.
Proof. intros Hf. unfold close_fd. rewrite (proj2 (Z.leb_le _ _)) by lia. by eapply sys_close_run. Qed.

(** Closing gives the descriptor back, and once only. *)
Lemma tcp_close_run k k1 n s :
  fresh_sock k k1 n s →
  ∃ k2, tcp_close (Some {| tc_fd := Z.of_nat n |}) k1 = (Ok (Some {| tc_fd := -1 |}), k2) ∧ same_table k k2.
Proof.
  intros Hf. destruct (close_fd_run _ _ _ _ Hf) as (k2 & E & Ht). exists k2. split; [|done].
  unfold tcp_close. rewrite bind_run. cbn [fmap option_fmap option_map tc_fd]. rewrite E.
  unfold auth_tcp_conn_close. cbn [tc_fd]. by rewrite (proj2 (Z.leb_le _ _)) by lia.
Qed.

Lemma udp_close_run k k1 n s :
  fresh_sock k k1 n s →
  ∃ k2, udp_close (Some {| u_fd := Z.of_nat n |}) k1 = (Ok (Some {| u_fd := -1 |}), k2) ∧ same_table k k2.
Proof.
  intros Hf. destruct (close_fd_run _ _ _ _ Hf) as (k2 & E & Ht). exists k2. split; [|done].
  unfold udp_close. rewrite bind_run. cbn [fmap option_fmap option_map u_fd]. rewrite E.
  unfold auth_udp_close. cbn [u_fd]. by rewrite (proj2 (Z.leb_le _ _)) by lia.
Qed.

Lemma sys_accept_run fd k :
  (∃ a k', sys_accept fd k = (Ok (a, (-1)%Z, []), k') ∧ same_table k k' ∧
     (a = K_interrupted → length (k_answers k') < length (k_answers k))) ∨
  (∃ n s peer k', sys_accept fd k = (Ok (K_ok, Z.of_nat n, peer), k') ∧ fresh_sock k k' n s).
Proof.
  unfold sys_accept. destruct (answers_run k) as (a & k1 & E & Ht & Ha). mstep by E. mstep.
  assert (a = K_interrupted → length (k_answers k1) < length (k_answers k)) as Hi.
  { intros ->. destruct Ha as [(_ & [=] & _)|Ha]. rewrite Ha. cbn. lia. }
  destruct a; [|left; by eexists _, k1..]. destruct (k_socks k1 !! Z.to_nat fd) as [s0|]; [right|left; by eexists _, k1].
  mstep. rewrite bind_run. match goal with |- context [install ?s ?k] => destruct (install_run s k) as (n & k2 & -> & Hf & _) end.
  eexists n, _, _, k2. split; [done|]. by eapply fresh_sock_same.
Qed.

Lemma accept_retry_run fuel fd k :
  length (k_answers k) < fuel →
  (∃ k', accept_retry fuel fd k = (Ok ((-1)%Z, []), k') ∧ same_table k k') ∨
  (∃ n s peer k', accept_retry fuel fd k = (Ok (Z.of_nat n, peer), k') ∧ fresh_sock k k' n s).
Proof.
  revert k. induction fuel as [|fuel IH]; intros k Hl; [lia|]. cbn [accept_retry].
  destruct (sys_accept_run fd k) as [(a & k1 & E & Ht & Ha)|(n & s & peer & k1 & E & Hf)]; mstep by E.
  - case_bool_decide as Hi.
    + destruct (IH k1) as [(k2 & -> & Ht2)|(n & s & peer & k2 & -> & Hf)]; [specialize (Ha Hi); lia| |].
      * left. exists k2. split; [done|]. by eapply same_table_trans.
      * right. exists n, s, peer, k2. split; [done|]. by eapply fresh_sock_same.
    + left. by exists k1.
  - rewrite bool_decide_false by done. right. by exists n, s, peer, k1.
Qed.

Lemma listener_accept_run l k :
  (∃ e k', auth_tcp_listener_accept (Some l) k = (Err e, k') ∧ same_table k k') ∨
  (∃ n s peer k', auth_tcp_listener_accept (Some l) k = (Ok (Z.of_nat n, addr_of peer), k') ∧ fresh_sock k k' n s).
Proof.
  unfold auth_tcp_listener_accept. mstep. destruct (l_fd l <? 0)%Z; cbn [negb]; mstep; [left; by eexists _, k|]. mstep. rewrite bind_run.
  destruct (accept_retry_run (S (length (k_answers k))) (l_fd l) k) as [(k1 & -> & Ht)|(n & s & peer & k1 & -> & Hf)]; [lia| |]; mstep.
  - left. by eexists _, k1.
  - rewrite (proj2 (Z.ltb_ge _ _)) by lia. cbn [negb require mret M_ret]. supdate Hf b Hf1.
    right. by eexists n, _, peer, _.
Qed.

(** A turn of the loop of [run_tcp] starts a thread with a new connection or leaves the
    table alone. *)
Lemma accept_turn_run l k :
  (∃ k', accept_turn l k = (Ok None, k') ∧ same_table k k') ∨
  (∃ n s k', accept_turn l k = (Ok (Some (Z.of_nat n)), k') ∧ fresh_sock k k' n s).
Proof.
  unfold accept_turn. destruct (listener_accept_run l k) as [(e & k1 & -> & Ht)|(n & s & peer & k1 & -> & Hf)]; [left; by exists k1|].
  destruct (answers_run k1) as (a & k2 & E2 & Ht2 & _). mstep by E2. pose proof (same_fresh_sock _ _ _ _ _ Hf Ht2) as Hf2.
  case_bool_decide.
  { destruct (sys_close_run _ _ _ _ Hf2) as (k3 & E3 & Ht3). mstep by E3. left. by exists k3. }
  destruct (answers_run k2) as (b & k3 & E3 & Ht3 & _). mstep by E3. pose proof (same_fresh_sock _ _ _ _ _ Hf2 Ht3) as Hf3.
  case_bool_decide.
  - destruct (sys_close_run _ _ _ _ Hf3) as (k4 & E4 & Ht4). mstep by E4. left. by exists k4.
  - right. by exists n, s, k3.
Qed.

(** C27: the listener leaks no descriptor: however long [run_tcp] runs, and whichever
    calls of [accept], [malloc] and [pthread_create] fail, the descriptors that are open
    are those that were open before and, each once, those of the connections whose
    threads it has started. *)
Theorem run_tcp_no_leak turns l k :
  ∃ ns k', accept_turns turns l k = (Ok (map Z.of_nat ns), k') ∧ NoDup ns ∧ k_files k' = k_files k ∧
    (∀ n, n ∈ ns → n ∉ dom (k_socks k) ∪ k_files k) ∧ dom (k_socks k') = dom (k_socks k) ∪ list_to_set ns.
Proof.
  revert k. induction turns as [|turns IH]; intros k; cbn [accept_turns].
  { exists [], k. split; [done|]. split; [constructor|]. split; [done|]. split; [set_solver|]. cbn. set_solver. }
  destruct (accept_turn_run l k) as [(k1 & E & Hs & Hf)|(n & s & k1 & E & Hn & Hs & Hf)]; mstep by E;
    destruct (IH k1) as (ns & k2 & E2 & Hd & Hf2 & Hnew & Hdom); mstep by E2.
  - exists ns, k2. rewrite Hs, Hf in *. by split_and!.
  - rewrite Hs, dom_insert_L in Hnew, Hdom. rewrite Hf in Hf2, Hnew. exists (n :: ns), k2. split; [done|].
    split; [constructor; [intros Hin; specialize (Hnew n Hin); set_solver|done]|]. split; [done|].
    split; [intros m; rewrite elem_of_cons; intros [->|Hm]; [done|specialize (Hnew m Hm); set_solver]|].
    rewrite Hdom. cbn. set_solver.
Qed.
End proofs.

(** ** A concrete resolver *)
Module ToyNet.
Definition loopback : bytes := [Byte.x0a; Byte.x00; Byte.x0f; Byte.xa0; Byte.x01].

#[export] Instance net : Net := {
  getaddrinfo host port := if memeq host (str_bytes "::1") && memeq port (str_bytes "4000") then Some [loopback] else None;
  getnameinfo x := if memeq x loopback then Some (str_bytes "::1", str_bytes "4000") else None;
  ss_family x := load_le (take 2 x);
  bound_to x := x
}.
End ToyNet.

Lemma addr_roundtrip_witness :
  auth_addr_format (NET := ToyNet.net) (Some (addr_of ToyNet.loopback)) 128 = str_bytes "[::1]:4000" ∧
  auth_addr_parse (NET := ToyNet.net) (Some (auth_addr_format (NET := ToyNet.net) (Some (addr_of ToyNet.loopback)) 128)) zero_addr =
    (Ok tt, addr_of ToyNet.loopback).
Proof.
  split; [reflexivity|].
  apply (addr_roundtrip (NET := ToyNet.net) ToyNet.loopback zero_addr 128 (str_bytes "::1") (str_bytes "4000") []);
    try reflexivity; try discriminate; try (apply Nat.leb_le; reflexivity).
  - apply (bool_decide_unpack _). reflexivity.
  - apply (bool_decide_unpack _). reflexivity.
Defined.
