(* ===== verification/Client.v ===== *)
(** The client program: [src/c/bin/client.c].

    [do_setup] enrolls the device and [do_auth] authenticates it, each over a
    transport whose other end and whose system calls are arbitrary, with the
    credential file of the state directory.  The functions return 1 after an error
    message: here the error, or [Ok] for 0.  The command line is in [Args], [mkdir],
    the connection and [main] are in [Programs]. *)
From stdpp Require Import gmap.
From S2P Require Export Args Registry Transport.

(** ** The transport *)
Record client_transport_t := {
  t_kind : transport_kind_t;
  t_udp : auth_udp_t;
  t_tcp : auth_tcp_conn_t;
  t_udp_socket : udp_socket;
  t_tcp_socket : socket
}.

Definition on_udp {A} (m : auth_udp_t → M auth_err_t udp_socket A) : M auth_err_t client_transport_t A := λ t,
  let '(o, s) := m (t_udp t) (t_udp_socket t) in
  (o, {| t_kind := t_kind t; t_udp := t_udp t; t_tcp := t_tcp t; t_udp_socket := s; t_tcp_socket := t_tcp_socket t |}).

Definition on_tcp {A} (m : auth_tcp_conn_t → M auth_err_t socket A) : M auth_err_t client_transport_t A := λ t,
  let '(o, s) := m (t_tcp t) (t_tcp_socket t) in
  (o, {| t_kind := t_kind t; t_udp := t_udp t; t_tcp := t_tcp t; t_udp_socket := t_udp_socket t; t_tcp_socket := s |}).

Definition TIMEOUT_MS : Z := 5000.

(** [if (err == AUTH_OK) return AUTH_OK; if (err != AUTH_ERR_TIMEOUT) return err;] *)
Definition on_timeout {S A} (m k : M auth_err_t S A) : M auth_err_t S A := λ s,
  match m s with
  | (Err AUTH_ERR_TIMEOUT, s') => k s'
  | r => r
  end.

Definition transport_send (out : bytes) : M auth_err_t client_transport_t unit :=
  t ← get;
  if bool_decide (t_kind t = TRANSPORT_UDP)
  then on_udp (λ u, auth_udp_send (Some u) None (Some out))
  else on_tcp (λ c, auth_tcp_send (Some c) (Some out)).

Definition transport_recv (in_cap : nat) : M auth_err_t client_transport_t bytes :=
  t ← get;
  if bool_decide (t_kind t = TRANSPORT_UDP)
  then on_udp (λ u, '(x, _) ← auth_udp_recv (Some u) in_cap TIMEOUT_MS; mret x)
  else on_tcp (λ c, auth_tcp_recv (Some c) in_cap TIMEOUT_MS).

(** The attempts that are left. *)
Fixpoint attempts (n : nat) (out : bytes) (in_cap : nat) : M auth_err_t client_transport_t bytes :=
  match n with
  | O => fail AUTH_ERR_TIMEOUT
  | S n => transport_send out;; on_timeout (transport_recv in_cap) (attempts n out in_cap)
  end.

(** [in[0 .. *in_len - 1]] *)
Definition send_then_recv (out : bytes) (in_cap : nat) : M auth_err_t client_transport_t bytes :=
  t ← get;
  attempts (if bool_decide (t_kind t = TRANSPORT_UDP) then 2 else 1) out in_cap.

(** ** The programs *)

(** [snprintf(out, cap, "%s/%s", dir, file)] *)
Definition path_join (cap : nat) (dir file : bytes) : bytes := take (cap - 1) (dir ++ str_bytes "/" ++ file).

Definition cred_path (a : args_t) : bytes := path_join 512 (a_state_dir a) (str_bytes "credentials.bin").

(** The local variables [ctx] and [out], the transport and the files. *)
Record client_state := {
  cs_ctx : auth_client_ctx_t;
  cs_out : bytes;
  cs_net : client_transport_t;
  cs_world : world
}.

Definition on_client {A} (m : M auth_err_t (auth_client_ctx_t * bytes) A) : M auth_err_t client_state A := λ s,
  let '(o, (c, out)) := m (cs_ctx s, cs_out s) in
  (o, {| cs_ctx := c; cs_out := out; cs_net := cs_net s; cs_world := cs_world s |}).

Definition on_net {A} (m : M auth_err_t client_transport_t A) : M auth_err_t client_state A := λ s,
  let '(o, t) := m (cs_net s) in
  (o, {| cs_ctx := cs_ctx s; cs_out := cs_out s; cs_net := t; cs_world := cs_world s |}).

Definition on_files {A} (m : M auth_err_t world A) : M auth_err_t client_state A := λ s,
  let '(o, w) := m (cs_world s) in
  (o, {| cs_ctx := cs_ctx s; cs_out := cs_out s; cs_net := cs_net s; cs_world := w |}).

(** [err = send_then_recv(t, out, out_len, in, sizeof in, &in_len);] *)
Definition round_trip (out_len : nat) : M auth_err_t client_state bytes :=
  s ← get;
  out ← lift (loadn (cs_out s) 0 out_len);
  on_net (send_then_recv out AUTH_MAX_DATAGRAM).

(** [auth_client_ctx_t ctx = {0}] *)
Definition zero_ctx : auth_client_ctx_t :=
  {| c_device_root := zeros 32; c_device_id := zeros 32; c_device_sk := zeros 32; c_device_pub := zeros 32;
     c_server_pub_pinned := zeros 32; c_has_pinned_server := false; c_role_commitment := zeros 32;
     c_role_blind := zeros 32; c_role_code := 0; c_has_role := false; c_session_id := zeros 16; c_seq := 0;
     c_client_nonce := zeros 32; c_eph_secret := zeros 32; c_eph_c := zeros 32;
     c_pending_client_proof := {| sp_a := zeros 32; sp_s := zeros 32 |}; c_pending_server_pub := zeros 32;
     c_pending_server_nonce := zeros 32; c_pending_setup_challenge := zeros 16; c_session_key := zeros 32;
     c_kc_th := zeros 32; c_kc_k_s2c := zeros 32; c_kc_k_c2s := zeros 32; c_auth_complete := false |}.

(** [memcpy(ctx.device_root, ...); ...; ctx.device_sk], from [ctx = {0}] *)
Definition device_keys {NaCl : Sodium} (root : bytes) : auth_client_ctx_t :=
  {| c_device_root := root; c_device_id := auth_derive_device_id root; c_device_sk := auth_derive_device_scalar root;
     c_device_pub := zeros 32; c_server_pub_pinned := zeros 32; c_has_pinned_server := false;
     c_role_commitment := zeros 32; c_role_blind := zeros 32; c_role_code := 0; c_has_role := false;
     c_session_id := zeros 16; c_seq := 0; c_client_nonce := zeros 32; c_eph_secret := zeros 32; c_eph_c := zeros 32;
     c_pending_client_proof := {| sp_a := zeros 32; sp_s := zeros 32 |}; c_pending_server_pub := zeros 32;
     c_pending_server_nonce := zeros 32; c_pending_setup_challenge := zeros 16; c_session_key := zeros 32;
     c_kc_th := zeros 32; c_kc_k_s2c := zeros 32; c_kc_k_c2s := zeros 32; c_auth_complete := false |}.

Definition set_device_pub v c : auth_client_ctx_t := ltac:(set_field eta_ctx c_device_pub c v).

(** [ctx.has_pinned_server = pinned; ...; ctx.role_code = role_code;] *)
Definition restore (creds : auth_credentials_t) (pinned has_role : bool) (role_code : Z) (c : auth_client_ctx_t) :
    auth_client_ctx_t :=
  set_role_code role_code (set_role_blind (cr_role_blind creds) (set_role_commitment (cr_role_commitment creds)
    (set_has_role has_role (set_pinned (cr_server_pub_pinned creds) (set_has_pinned pinned c))))).

(** The context before the first packet, with the fields of the credentials. *)
Definition prepare_ctx {NaCl : Sodium} (session_id : bytes) (creds : auth_credentials_t) (pinned has_role : bool)
    (role_code : Z) : M auth_err_t client_state unit :=
  on_client (on_ctx (put (device_keys (cr_device_root creds))));;
  pub ← lift (auth_scalarmult_base (auth_derive_device_scalar (cr_device_root creds)));
  on_client (on_ctx (modify (set_device_pub pub)));;
  on_client (on_ctx (auth_client_ctx_init session_id));;
  on_client (on_ctx (modify (restore creds pinned has_role role_code))).

(** The random draws. *)
Record client_draws := {
  cd_root : bytes;
  cd_session_id : bytes;
  cd_nonce : bytes;
  cd_role_blind : bytes;
  cd_setup_proof : bytes;
  cd_eph : bytes;
  cd_delta : bytes;
  cd_client_proof : bytes;
  cd_rerand : bytes;
  cd_branches : nat → bytes
}.

(** [auth_creds_load]; with [fresh], credentials that are missing are made from it.
    The local [creds] is not initialised before. *)
Definition load_credentials (path : bytes) (fresh : option bytes) : M auth_err_t client_state auth_credentials_t :=
  on_files (λ w,
    match auth_creds_load (Some path) (zero_credentials, w), fresh with
    | (Ok _, (creds, w)), _ => (Ok creds, w)
    | (Err AUTH_ERR_CREDENTIAL_MISSING, (creds, w)), Some random =>
        match auth_creds_init_fresh random creds with
        | (Fault, _) => (Fault, w)
        | (_, creds) => (Ok creds, w)
        end
    | (Err e, (_, w)), _ => (Err e, w)
    | (Fault, (_, w)), _ => (Fault, w)
    end).

(** [creds.has_pinned_server = 1; ...; creds.role_code = ctx.role_code;] *)
Definition enroll_credentials (creds : auth_credentials_t) (ctx : auth_client_ctx_t) : auth_credentials_t :=
  {| cr_device_root := cr_device_root creds; cr_has_pinned_server := true;
     cr_server_pub_pinned := c_server_pub_pinned ctx; cr_has_role := true;
     cr_role_commitment := c_role_commitment ctx; cr_role_blind := c_role_blind ctx; cr_role_code := c_role_code ctx |}.

Section client.
Context {NaCl : Sodium}.

(** From SETUP_1 to the acknowledgement. *)
Definition setup_handshake (a : args_t) (d : client_draws) : M auth_err_t client_state unit :=
  out_len ← on_client (auth_client_build_setup1 (cd_nonce d) (cd_role_blind d) (a_pairing_token a)
                         (match a_pairing_token a with Some t => length t | None => 0 end));
  inp ← round_trip out_len;
  on_client (on_ctx (auth_client_handle_setup2 (Some inp) (a_allow_tofu a)));;
  out_len ← on_client (auth_client_build_setup3 (cd_setup_proof d));
  inp ← round_trip out_len;
  on_client (on_ctx (auth_client_handle_setup_ack (Some inp))).

Definition do_setup (a : args_t) (d : client_draws) : M auth_err_t client_state unit :=
  creds ← load_credentials (cred_path a) (Some (cd_root d));
  prepare_ctx (cd_session_id d) creds (cr_has_pinned_server creds) (cr_has_role creds)
    (if cr_has_role creds then cr_role_code creds else a_role a);;
  setup_handshake a d;;
  s ← get;
  on_files (auth_creds_save (Some (enroll_credentials creds (cs_ctx s))) (Some (cred_path a))).

(** From AUTH_1 to the acknowledgement. *)
Definition auth_handshake (a : args_t) (d : client_draws) : M auth_err_t client_state unit :=
  out_len ← on_client (auth_client_build_auth1 (cd_nonce d) (cd_eph d) (cd_delta d) (cd_client_proof d) (cd_rerand d)
                         (cd_branches d) (Some (a_allowed a)));
  inp ← round_trip out_len;
  on_client (on_ctx (auth_client_handle_auth2 (Some inp)));;
  out_len ← on_client auth_client_build_auth3;
  inp ← round_trip out_len;
  on_client (on_ctx (auth_client_handle_auth_ack (Some inp))).

(** "Credentials incomplete" is no error code: [AUTH_ERR_DEVICE_NOT_ENROLLED] stands
    for that message. *)
Definition do_auth (a : args_t) (d : client_draws) : M auth_err_t client_state unit :=
  creds ← load_credentials (cred_path a) None;
  require (cr_has_pinned_server creds && cr_has_role creds) AUTH_ERR_DEVICE_NOT_ENROLLED;;
  prepare_ctx (cd_session_id d) creds true true (cr_role_code creds);;
  auth_handshake a d.
End client.

(** ** The calls stay inside their objects *)
Lemma on_udp_total {A} (m : auth_udp_t → M auth_err_t udp_socket A) t :
  (∀ u s, (m u s).1 ≠ Fault) → (on_udp m t).1 ≠ Fault.
Proof. intros H. unfold on_udp. specialize (H (t_udp t) (t_udp_socket t)). by destruct (m _ _). Qed.

Lemma on_tcp_total {A} (m : auth_tcp_conn_t → M auth_err_t socket A) t :
  (∀ u s, (m u s).1 ≠ Fault) → (on_tcp m t).1 ≠ Fault.
Proof. intros H. unfold on_tcp. specialize (H (t_tcp t) (t_tcp_socket t)). by destruct (m _ _). Qed.

Lemma transport_send_total out t : (transport_send out t).1 ≠ Fault.
Proof.
  unfold transport_send. mstep. case_bool_decide; [apply on_udp_total; intros; apply udp_send_total
    |apply on_tcp_total; intros; apply tcp_send_total].
Qed.

Lemma transport_recv_total cap t : (transport_recv cap t).1 ≠ Fault.
Proof.
  unfold transport_recv. mstep. case_bool_decide; [apply on_udp_total; intros u s; rewrite bind_run; pose proof (udp_recv_total u cap TIMEOUT_MS s); by destruct (auth_udp_recv _ _ _ s) as [[[]| |] ?]
    |apply on_tcp_total; intros; apply tcp_recv_total].
Qed.

Lemma attempts_total n out cap t : (attempts n out cap t).1 ≠ Fault.
Proof.
  revert t. induction n as [|n IH]; intros t; [done|]. cbn [attempts]. rewrite bind_run.
  pose proof (transport_send_total out t) as H1. destruct (transport_send out t) as [[[]|e|] t1]; [|done..].
  unfold on_timeout. pose proof (transport_recv_total cap t1) as H2.
  destruct (transport_recv cap t1) as [[x|e|] t2]; [done| |done]. destruct e; apply IH || done.
Qed.

Lemma send_then_recv_total out cap t : (send_then_recv out cap t).1 ≠ Fault.
Proof. unfold send_then_recv. mstep. apply attempts_total. Qed.

(** ** What a handshake leaves alone *)

(** The context and the buffer have their sizes and the files are those of [w0]. *)
Record idle (w0 : world) (s : client_state) : Prop := {
  id_ctx : ctx_sizes (cs_ctx s);
  id_out : length (cs_out s) = AUTH_MAX_DATAGRAM;
  id_files : untouched w0 (cs_world s)
}.

Lemma triple_on_client {A} w0 (m : M auth_err_t (auth_client_ctx_t * bytes) A) Q :
  triple (with_out ctx_sizes AUTH_MAX_DATAGRAM) m Q → triple (idle w0) (on_client m) Q.
Proof.
  intros H s [H1 H2 H3]. unfold on_client. destruct (H (cs_ctx s, cs_out s)) as [Hg [Hs Ho]]; [done|].
  destruct (m _) as [o [c out]]. by split.
Qed.

Lemma triple_on_net {A} w0 (m : M auth_err_t client_transport_t A) :
  (∀ t, (m t).1 ≠ Fault) → triple (idle w0) (on_net m) (λ _, True).
Proof.
  intros H s [H1 H2 H3]. unfold on_net. specialize (H (cs_net s)). destruct (m (cs_net s)) as [o t].
  split; [by apply good_true|done].
Qed.

Lemma round_trip_safe w0 n : n ≤ AUTH_MAX_DATAGRAM → triple (idle w0) (round_trip n) (λ _, True).
Proof.
  intros Hn s Hs. unfold round_trip. mstep. rewrite bind_run. pose proof Hs as [_ Ho _].
  rewrite loadn_ok by lia. cbn [lift]. by apply triple_on_net; [intros; apply send_then_recv_total|].
Qed.

Section handshakes.
Context {NaCl : Sodium} {HS : SodiumSpec NaCl}.

Lemma setup_handshake_safe w0 a d : is_n 32 (cd_nonce d) → triple (idle w0) (setup_handshake a d) (λ _, True).
Proof.
  intros Hn. unfold setup_handshake.
  eapply triple_bind; [apply triple_on_client, build_setup1_safe; [done|]|cbv beta].
  { destruct (a_pairing_token a) as [t|]; [right; by exists t|by left]. }
  intros n1 H1. eapply triple_bind; [by apply round_trip_safe|cbv beta]. intros i1 _.
  eapply triple_bind; [apply triple_on_client, triple_on_ctx, handle_setup2_safe|cbv beta]. intros _ _.
  eapply triple_bind; [apply triple_on_client, build_setup3_safe|cbv beta].
  intros n2 H2. eapply triple_bind; [by apply round_trip_safe|cbv beta]. intros i2 _.
  apply triple_on_client, triple_on_ctx, handle_setup_ack_safe.
Qed.

Lemma auth_handshake_safe w0 a d :
  is_n 32 (cd_nonce d) → (∀ n, length (cd_branches d n) = n) → Forall is_u64 (a_allowed a) →
  triple (idle w0) (auth_handshake a d) (λ _, True).
Proof.
  intros Hn Hb Ha. unfold auth_handshake.
  eapply triple_bind; [apply triple_on_client, build_auth1_safe; [done|done|by intros ? [= <-]]|cbv beta].
  intros n1 H1. eapply triple_bind; [by apply round_trip_safe|cbv beta]. intros i1 _.
  eapply triple_bind; [apply triple_on_client, triple_on_ctx, handle_auth2_safe|cbv beta]. intros _ _.
  eapply triple_bind; [apply triple_on_client, build_auth3_safe|cbv beta].
  intros n2 H2. eapply triple_bind; [by apply round_trip_safe|cbv beta]. intros i2 _.
  apply triple_on_client, triple_on_ctx, handle_auth_ack_safe.
Qed.

(** A property of the context that the packets' own fields do not touch. *)
Record framed (J : auth_client_ctx_t → Prop) : Prop := {
  fr_nonce c v : J c → J (set_client_nonce v c);
  fr_seq c v : J c → J (set_seq v c);
  fr_pub c v : J c → J (set_pending_server_pub v c);
  fr_server_nonce c v : J c → J (set_pending_server_nonce v c);
  fr_challenge c v : J c → J (set_pending_challenge v c)
}.

Lemma keeps_on_client {A} (J : auth_client_ctx_t → Prop) (m : M auth_err_t (auth_client_ctx_t * bytes) A) :
  keeps (λ s, J s.1) m → keeps (λ s, J (cs_ctx s)) (on_client m).
Proof. intros H s Hs. specialize (H (cs_ctx s, cs_out s) Hs). unfold on_client. by destruct (m _) as [o [c out]]. Qed.

Lemma keeps_round_trip (J : auth_client_ctx_t → Prop) n : keeps (λ s, J (cs_ctx s)) (round_trip n).
Proof.
  unfold round_trip. apply keeps_bind; [apply keeps_get|]. intros s0. apply keeps_bind; [apply keeps_lift|]. intros out s Hs.
  unfold on_net. by destruct (send_then_recv _ _ _).
Qed.

Section framed.
Context (J : auth_client_ctx_t → Prop) (HJ : framed J).

Lemma framed_send_next t payload : keeps (λ s, J s.1) (send_next t payload).
Proof.
  unfold send_next. apply keeps_bind; [apply keeps_on_ctx, keeps_modify; intros; by apply HJ|]. intros [].
  apply keeps_bind; [apply keeps_get|]. intros [c out]. by apply keeps_on_out.
Qed.

Lemma framed_setup1 nonce wide token n :
  keeps J (ensure_role wide) → keeps (λ s, J s.1) (auth_client_build_setup1 nonce wide token n).
Proof.
  intros He. unfold auth_client_build_setup1.
  do 2 (apply keeps_bind; [apply keeps_require|intros []]).
  apply keeps_bind; [apply keeps_on_ctx, keeps_modify; intros; by apply HJ|intros []].
  apply keeps_bind; [by apply keeps_on_ctx|intros []].
  apply keeps_bind; [apply keeps_if; [apply keeps_bind; intros; apply keeps_lift|apply keeps_ret]|intros token'].
  apply keeps_bind; [apply keeps_get|intros [c out]].
  apply keeps_bind; [apply keeps_lift|intros payload]. apply framed_send_next.
Qed.

Lemma framed_setup2 inp tofu :
  (∀ spub, keeps J (pin_server spub tofu)) → keeps J (auth_client_handle_setup2 inp tofu).
Proof.
  intros Hp. unfold auth_client_handle_setup2. apply keeps_bind; [apply keeps_lift|intros [hdr payload]].
  apply keeps_bind; [apply keeps_get|intros c]. apply keeps_bind; [apply keeps_require|intros []].
  apply keeps_bind; [apply keeps_lift|intros s2]. apply keeps_bind; [apply keeps_lift|intros _].
  apply keeps_bind; [apply Hp|intros []]. apply keeps_bind; [apply keeps_lift|intros []].
  do 2 (apply keeps_bind; [apply keeps_modify; intros; by apply HJ|intros []]). apply keeps_modify; intros; by apply HJ.
Qed.

Lemma framed_setup3 wide : keeps (λ s, J s.1) (auth_client_build_setup3 wide).
Proof.
  unfold auth_client_build_setup3. apply keeps_bind; [apply keeps_get|intros [c out]].
  do 2 (apply keeps_bind; [apply keeps_lift|intros ?]). apply framed_send_next.
Qed.

Lemma framed_ack inp : keeps J (auth_client_handle_setup_ack inp).
Proof.
  unfold auth_client_handle_setup_ack. apply keeps_bind; [apply keeps_lift|intros [hdr payload]]. apply keeps_lift.
Qed.

Lemma framed_setup a d :
  keeps J (ensure_role (cd_role_blind d)) → (∀ spub, keeps J (pin_server spub (a_allow_tofu a))) →
  keeps (λ s, J (cs_ctx s)) (setup_handshake a d).
Proof.
  intros He Hp. unfold setup_handshake.
  apply keeps_bind; [by apply keeps_on_client, framed_setup1|intros n1].
  apply keeps_bind; [apply keeps_round_trip|intros i1].
  apply keeps_bind; [by apply keeps_on_client, keeps_on_ctx, framed_setup2|intros []].
  apply keeps_bind; [by apply keeps_on_client, framed_setup3|intros n2].
  apply keeps_bind; [apply keeps_round_trip|intros i2].
  apply keeps_on_client, keeps_on_ctx, framed_ack.
Qed.
End framed.

(** The parts of the context that a setup fixes once. *)
Definition identity (c0 c : auth_client_ctx_t) : Prop :=
  c_device_id c = c_device_id c0 ∧ c_device_pub c = c_device_pub c0.

Definition pinned_to (pub : bytes) (c : auth_client_ctx_t) : Prop :=
  c_has_pinned_server c = true ∧ c_server_pub_pinned c = pub.

Definition role_of (c0 c : auth_client_ctx_t) : Prop :=
  c_has_role c = true ∧ c_role_commitment c = c_role_commitment c0 ∧ c_role_blind c = c_role_blind c0 ∧
  c_role_code c = c_role_code c0.

Definition role_sizes (c : auth_client_ctx_t) : Prop := is_n 32 (c_role_blind c) ∧ is_u64 (c_role_code c).

Ltac by_fields := intros [] ?; unfold identity, pinned_to, role_of, role_sizes in *; cbn in *; tauto.

Lemma keeps_ensure_role_fields (J : auth_client_ctx_t → Prop) wide :
  (∀ c, J c → J (set_role_code 1 c)) → (∀ c, J c → J (set_role_blind (auth_random_scalar wide) c)) →
  (∀ c v, J c → J (set_role_commitment v c)) → (∀ c, J c → J (set_has_role true c)) → keeps J (ensure_role wide).
Proof.
  intros H1 H2 H3 H4. unfold ensure_role. apply keeps_bind; [apply keeps_get|intros c].
  apply keeps_if; [apply keeps_ret|]. apply keeps_bind; [apply keeps_if; [by apply keeps_modify|apply keeps_ret]|intros []].
  apply keeps_bind; [by apply keeps_modify|intros []]. apply keeps_bind; [apply keeps_get|intros c'].
  apply keeps_bind; [apply keeps_lift|intros C]. apply keeps_bind; [apply keeps_modify; auto|intros []].
  by apply keeps_modify.
Qed.

Lemma keeps_pin_server_fields (J : auth_client_ctx_t → Prop) spub tofu :
  (∀ c, J c → J (set_pinned spub c)) → (∀ c, J c → J (set_has_pinned true c)) → keeps J (pin_server spub tofu).
Proof.
  intros H1 H2. unfold pin_server. apply keeps_bind; [apply keeps_get|intros c].
  apply keeps_if; [apply keeps_require|]. apply keeps_if; [apply keeps_fail|].
  apply keeps_bind; [by apply keeps_modify|intros []]. by apply keeps_modify.
Qed.

Lemma framed_identity c0 : framed (identity c0).
Proof. constructor; by_fields. Qed.
Lemma framed_pinned pub : framed (pinned_to pub).
Proof. constructor; by_fields. Qed.
Lemma framed_role c0 : framed (role_of c0).
Proof. constructor; by_fields. Qed.
Lemma framed_sizes : framed role_sizes.
Proof. constructor; by_fields. Qed.

Lemma role_of_setup c0 a d : keeps (λ s, role_of c0 (cs_ctx s)) (setup_handshake a d).
Proof.
  apply framed_setup; [apply framed_role| |].
  - intros c Hc. pose proof Hc as [Hr _]. unfold ensure_role. pstep. by rewrite Hr.
  - intros spub. apply keeps_pin_server_fields; by_fields.
Qed.

Lemma role_sizes_setup a d : keeps (λ s, role_sizes (cs_ctx s)) (setup_handshake a d).
Proof.
  apply framed_setup; [apply framed_sizes| |].
  - apply keeps_ensure_role_fields; try by_fields.
    + intros [] [? ?]. split; [done|]. cbn. by unfold is_u64.
    + intros [] [? ?]. split; [|done]. cbn. apply reduce_canonical.
  - intros spub. apply keeps_pin_server_fields; by_fields.
Qed.

Lemma handle_setup2_inv inp tofu c u c' :
  auth_client_handle_setup2 inp tofu c = (Ok u, c') →
  c_has_pinned_server c' = true ∧
  (c_has_pinned_server c = true → c_server_pub_pinned c' = c_server_pub_pinned c) ∧
  ∃ p sn sc, auth_verify_setup_server p (c_server_pub_pinned c') (c_device_id c) (c_device_pub c) (c_client_nonce c) sn sc
    = Ok true.
Proof.
  unfold auth_client_handle_setup2. intros H.
  apply bind_ok_inv in H as ([hdr pl] & s1 & H1 & H). apply lift_ok_inv in H1 as [_ ->].
  apply bind_ok_inv in H as (c1 & s1 & H1 & H). injection H1 as <- <-.
  apply bind_ok_inv in H as ([] & s1 & H1 & H). apply require_ok_inv in H1 as [_ ->].
  apply bind_ok_inv in H as (s2 & s1 & H1 & H). apply lift_ok_inv in H1 as [_ ->].
  apply bind_ok_inv in H as (? & s1 & H1 & H). apply lift_ok_inv in H1 as [_ ->].
  apply bind_ok_inv in H as ([] & c2 & Hpin & H).
  apply bind_ok_inv in H as ([] & s1 & H1 & H). apply lift_ok_inv in H1 as [Hv ->]. apply check_call_inv in Hv.
  do 2 (apply bind_ok_inv in H as ([] & s1 & H1 & H); injection H1 as <-). injection H as _ <-. cbn.
  assert (c_has_pinned_server c2 = true ∧ c_server_pub_pinned c2 = s2_server_pub s2 ∧
          (c_has_pinned_server c = true → s2_server_pub s2 = c_server_pub_pinned c)) as (E1 & E2 & E3).
  { unfold pin_server in Hpin. rewrite bind_run in Hpin. cbn [get] in Hpin. destruct (c_has_pinned_server c) eqn:Ep.
    - apply require_ok_inv in Hpin as [Hb ->]. bool_to_prop. by rewrite Ep, Hb.
    - destruct tofu; [|done]. cbn in Hpin. injection Hpin as <-. done. }
  split; [done|]. split; [intros Ep; by rewrite E2, E3|]. rewrite E2. eauto.
Qed.

(** What a completed setup means. *)
Lemma setup_handshake_inv a d s u s' :
  setup_handshake a d s = (Ok u, s') →
  c_has_pinned_server (cs_ctx s') = true ∧
  (c_has_pinned_server (cs_ctx s) = true → c_server_pub_pinned (cs_ctx s') = c_server_pub_pinned (cs_ctx s)) ∧
  ∃ p nonce sn sc, auth_verify_setup_server p (c_server_pub_pinned (cs_ctx s')) (c_device_id (cs_ctx s))
    (c_device_pub (cs_ctx s)) nonce sn sc = Ok true.
Proof.
  intros H. unfold setup_handshake in H. set (c0 := cs_ctx s).
  assert (∀ J, framed J → keeps J (ensure_role (cd_role_blind d)) →
    keeps (λ s, J s.1) (auth_client_build_setup1 (cd_nonce d) (cd_role_blind d) (a_pairing_token a)
      (match a_pairing_token a with Some t => length t | None => 0 end))) as K1 by (intros J HJ; by apply framed_setup1).
  apply bind_ok_inv in H as (n1 & s1 & H1 & H). apply bind_ok_inv in H as (i1 & s2 & H2 & H).
  apply bind_ok_inv in H as ([] & s3 & H3 & H). apply bind_ok_inv in H as (n2 & s4 & H4 & H).
  apply bind_ok_inv in H as (i2 & s5 & H5 & H6).
  assert (∀ J, framed J → keeps J (ensure_role (cd_role_blind d)) → J c0 → J (cs_ctx s2)) as K2.
  { intros J HJ He H0. assert (J (cs_ctx s1)) as J1.
    { pose proof (keeps_on_client J _ (K1 J HJ He) s H0) as E. by rewrite H1 in E. }
    pose proof (keeps_round_trip J n1 s1 J1) as E. by rewrite H2 in E. }
  assert (∀ J, framed J → J (cs_ctx s3) → J (cs_ctx s')) as K3.
  { intros J HJ J3. assert (J (cs_ctx s4)) as J4.
    { pose proof (keeps_on_client J _ (framed_setup3 J HJ (cd_setup_proof d)) s3 J3) as E. by rewrite H4 in E. }
    pose proof (keeps_round_trip J n2 s4 J4) as J5. rewrite H5 in J5. cbn in J5.
    pose proof (keeps_on_client J _ (keeps_on_ctx J _ (framed_ack J (Some i2))) s5 J5) as E. by rewrite H6 in E. }
  assert (∀ c1, identity c1 c0 → identity c1 (cs_ctx s2)) as Hid.
  { intros c1. apply K2; [apply framed_identity|]. apply keeps_ensure_role_fields; by_fields. }
  destruct (Hid c0) as [E1 E2]; [done|].
  unfold on_client in H3. cbn [on_ctx] in H3.
  destruct (auth_client_handle_setup2 (Some i1) (a_allow_tofu a) (cs_ctx s2)) as [o c3] eqn:Eh. injection H3 as -> <-.
  apply handle_setup2_inv in Eh as (P1 & P2 & p & sn & sc & Hv). cbn [cs_ctx] in K3.
  destruct (K3 (pinned_to (c_server_pub_pinned c3))) as [P3 P4]; [apply framed_pinned|done|].
  split; [done|]. rewrite P4. split; [|rewrite E1, E2 in Hv; by eauto].
  intros Hp. destruct (K2 (pinned_to (c_server_pub_pinned c0))) as [P5 P6];
    [apply framed_pinned|apply keeps_ensure_role_fields; by_fields|done|]. by rewrite P2.
Qed.

(** ** Before the handshake *)
Definition fresh_credentials (random : bytes) : auth_credentials_t :=
  {| cr_device_root := random; cr_has_pinned_server := false; cr_server_pub_pinned := zeros 32; cr_has_role := false;
     cr_role_commitment := zeros 32; cr_role_blind := zeros 32; cr_role_code := 0 |}.

(** The credentials that a file gives. *)
Definition credentials_of (f fresh : option bytes) (creds : auth_credentials_t) : Prop :=
  match f with
  | Some d => encodes_creds d creds
  | None => ∃ random, fresh = Some random ∧ creds = fresh_credentials random
  end.

Lemma credentials_wf f fresh creds :
  (∀ random, fresh = Some random → is_n 32 random) → credentials_of f fresh creds → creds_wf creds.
Proof.
  intros Hf. destruct f as [x|]; cbn [credentials_of].
  - intros (fl & root & pub & rc & blind & code & tail & more & -> & (H1 & H2 & H3 & H4 & H5 & H6) & ->).
    constructor; try done. cbn. by apply load_le_is_u64.
  - intros (random & Hr & ->). constructor; try done. by apply Hf.
Qed.

Lemma load_credentials_run path fresh s :
  ∃ o w', load_credentials path fresh s =
      (o, {| cs_ctx := cs_ctx s; cs_out := cs_out s; cs_net := cs_net s; cs_world := w' |}) ∧
    untouched (cs_world s) w' ∧ o ≠ Fault ∧ ∀ creds, o = Ok creds → credentials_of (files (cs_world s) !! path) fresh creds.
Proof.
  unfold load_credentials, on_files.
  destruct (creds_load_run path zero_credentials (cs_world s)) as (o & c & w' & -> & Hu & Hc & Ho).
  assert (o ≠ Fault ∧ (o = Err AUTH_ERR_CREDENTIAL_MISSING → files (cs_world s) !! path = None)) as [Hnf Hm].
  { destruct Ho as [Ho|[-> _]]; [|by split]. destruct (files (cs_world s) !! path) as [x|].
    - destruct (creds_result_cases x) as [[c' E]|E]; rewrite E in Ho; subst o; by split.
    - cbn [creds_result] in Ho. subst o. by split. }
  destruct o as [[]|e|]; [| |done].
  - eexists (Ok c), w'. split_and!; [done|apply Hu..|done|]. intros ? [= <-].
    destruct (files (cs_world s) !! path) as [x|]; [|done]. cbn [credentials_of]. by apply encodes_creds_result.
  - destruct (decide (e = AUTH_ERR_CREDENTIAL_MISSING)) as [->|He].
    + rewrite Hm by done. destruct fresh as [random|]; cbn; eexists _, w'; (split; [done|]); split; try done; split; try done.
      intros ? [= <-]. by exists random.
    + exists (Err e), w'. split_and!; [|apply Hu..|done|done]. destruct e; try done; by destruct fresh.
Qed.

(** The context when the handshake starts. *)
Definition prepared_ctx (session_id : bytes) (creds : auth_credentials_t) (pinned has_role : bool) (role_code : Z)
    (pub : bytes) : auth_client_ctx_t :=
  restore creds pinned has_role role_code
    (auth_client_ctx_init session_id (set_device_pub pub (device_keys (cr_device_root creds)))).2.

Lemma prepare_ctx_run session_id creds pinned has_role role_code s :
  ∃ o s', prepare_ctx session_id creds pinned has_role role_code s = (o, s') ∧ o ≠ Fault ∧
    cs_out s' = cs_out s ∧ cs_world s' = cs_world s ∧
    ∀ u, o = Ok u → ∃ pub, auth_scalarmult_base (auth_derive_device_scalar (cr_device_root creds)) = Ok pub ∧ is_n 32 pub ∧
      cs_ctx s' = prepared_ctx session_id creds pinned has_role role_code pub.
Proof.
  unfold prepare_ctx. rewrite bind_run. cbn [on_client on_ctx put cs_ctx cs_out cs_net cs_world].
  pose proof (scalarmult_base_good (auth_derive_device_scalar (cr_device_root creds))) as Hg.
  rewrite bind_run. destruct (auth_scalarmult_base _) as [pub|e|]; cbn [lift].
  - eexists (Ok tt), _. split; [reflexivity|]. cbn. split_and!; [done..|]. intros ? _. by exists pub.
  - eexists _, _. by split_and!.
  - done.
Qed.

Lemma prepared_ctx_sizes session_id creds pinned has_role role_code pub :
  creds_wf creds → is_n 16 session_id → is_n 32 pub →
  ctx_sizes (prepared_ctx session_id creds pinned has_role role_code pub).
Proof. intros Hw ? ?. constructor; cbn; try done; [apply length_generichash|apply Hw..]. Qed.

(** The arguments and draws have the sizes of their declarations. *)
Record inputs_wf (a : args_t) (d : client_draws) : Prop := {
  iw_root : is_n 32 (cd_root d);
  iw_session : is_n 16 (cd_session_id d);
  iw_nonce : is_n 32 (cd_nonce d);
  iw_branches : ∀ n, length (cd_branches d n) = n;
  iw_role : is_u64 (a_role a);
  iw_allowed : Forall is_u64 (a_allowed a)
}.

(** The server with this key has proved it to the device with this root. *)
Definition server_proved (root pub : bytes) : Prop :=
  ∃ device_pub p nonce sn sc,
    auth_scalarmult_base (auth_derive_device_scalar root) = Ok device_pub ∧
    auth_verify_setup_server p pub (auth_derive_device_id root) device_pub nonce sn sc = Ok true.

(** What a completed enrollment saves, given the credentials it started from. *)
Record enrollment (old new : auth_credentials_t) : Prop := {
  el_wf : creds_wf new;
  el_root : cr_device_root new = cr_device_root old;
  el_complete : cr_has_pinned_server new = true ∧ cr_has_role new = true;
  el_pinned : cr_has_pinned_server old = true → cr_server_pub_pinned new = cr_server_pub_pinned old;
  el_role : cr_has_role old = true → cr_role_commitment new = cr_role_commitment old ∧
    cr_role_blind new = cr_role_blind old ∧ cr_role_code new = cr_role_code old;
  el_server : server_proved (cr_device_root old) (cr_server_pub_pinned new)
}.

(** The credentials at the end of a handshake that succeeded. *)
Lemma enrollment_of sid old pub role a d s u s' :
  creds_wf old → is_u64 role → auth_scalarmult_base (auth_derive_device_scalar (cr_device_root old)) = Ok pub →
  cs_ctx s = prepared_ctx sid old (cr_has_pinned_server old) (cr_has_role old)
    (if cr_has_role old then cr_role_code old else role) pub →
  ctx_sizes (cs_ctx s') →
  setup_handshake a d s = (Ok u, s') → enrollment old (enroll_credentials old (cs_ctx s')).
Proof.
  intros Hw Hrole Hpub Hc Hsz H. pose proof Hw as [W1 W2 W3 W4 W5]. destruct u as [].
  pose proof (setup_handshake_inv a d s tt s' H) as (P1 & P2 & p & nonce & sn & sc & Hv). rewrite Hc in P2, Hv. cbn in P2, Hv.
  assert (role_sizes (cs_ctx s')) as [Hb Hcode].
  { pose proof (role_sizes_setup a d s) as K. rewrite H in K. apply K. rewrite Hc. split; cbn; [done|by destruct (cr_has_role old)]. }
  constructor; cbn; try done.
  - constructor; cbn; try done; apply Hsz.
  - intros Hr. pose proof (role_of_setup (cs_ctx s) a d s) as K. rewrite H in K.
    cbn [snd] in K. destruct K as (_ & -> & -> & ->); [by rewrite Hc|]. rewrite Hc. cbn. by rewrite Hr.
  - exists pub, p, nonce, sn, sc. done.
Qed.

(** The parts of [do_setup] before the save. *)
Lemma setup_before_save a d s :
  inputs_wf a d → length (cs_out s) = AUTH_MAX_DATAGRAM →
  (∃ o s', do_setup a d s = (o, s') ∧ o ≠ Fault ∧ (∀ u, o ≠ Ok u) ∧ untouched (cs_world s) (cs_world s')) ∨
  (∃ old new s1, credentials_of (files (cs_world s) !! cred_path a) (Some (cd_root d)) old ∧ enrollment old new ∧
     untouched (cs_world s) (cs_world s1) ∧
     do_setup a d s = on_files (atomic_write (cred_path a) (cred_image new)) s1).
Proof.
  intros [Hroot Hsid Hnonce _ Hrole _] Hout. unfold do_setup. rewrite bind_run.
  destruct (load_credentials_run (cred_path a) (Some (cd_root d)) s) as (o & w1 & E & Hu & Hnf & Ho). rewrite E.
  destruct o as [old|e|]; [|left; eexists _, _; by split_and!|done]. specialize (Ho old eq_refl).
  assert (creds_wf old) as Hw by (eapply credentials_wf; [|exact Ho]; by intros ? [= <-]).
  rewrite bind_run. set (s1 := {| cs_ctx := _; cs_out := _; cs_net := _; cs_world := w1 |}).
  destruct (prepare_ctx_run (cd_session_id d) old (cr_has_pinned_server old) (cr_has_role old)
    (if cr_has_role old then cr_role_code old else a_role a) s1) as (o & s2 & E2 & Hnf2 & Eo & Ew & Hctx). rewrite E2.
  destruct o as [u|e|]; [|left; eexists _, s2; split_and!; try done; by rewrite Ew|done].
  destruct (Hctx u eq_refl) as (pub & Hpub & Hpl & Ec). rewrite bind_run.
  assert (idle (cs_world s) s2) as Hi.
  { constructor; [rewrite Ec; by apply prepared_ctx_sizes|by rewrite Eo|by rewrite Ew]. }
  destruct (setup_handshake_safe (cs_world s) a d Hnonce s2 Hi) as [Hg Hi3].
  destruct (setup_handshake a d s2) as [o s3] eqn:E3. cbn in Hg, Hi3. pose proof Hi3 as [Hsz _ Hu3].
  destruct o as [u3|e|]; [|left; eexists _, s3; by split_and!|done].
  right. exists old, (enroll_credentials old (cs_ctx s3)), s3.
  pose proof (enrollment_of _ old pub (a_role a) a d s2 u3 s3 Hw Hrole Hpub Ec Hsz E3) as Hen.
  split_and!; [done|done|apply Hu3..|]. mstep. unfold on_files. pose proof Hen as [Hnew _ _ _ _ _].
  by rewrite creds_save_run.
Qed.
(** [do_setup] changes the credential file when it succeeds, and then to a completed
    enrollment. *)
Definition setup_atomic (a : args_t) (d : client_draws) (o : outcome auth_err_t unit) (before after : fs) : Prop :=
  (∀ q, q ≠ cred_path a → q ≠ tmp_of (cred_path a) → after !! q = before !! q) ∧
  match o with
  | Ok _ => ∃ old new, credentials_of (before !! cred_path a) (Some (cd_root d)) old ∧ enrollment old new ∧
              after !! cred_path a = Some (cred_image new)
  | Err _ => after !! cred_path a = before !! cred_path a
  | Fault => False
  end.

Lemma do_setup_atomic a d s :
  inputs_wf a d → length (cs_out s) = AUTH_MAX_DATAGRAM →
  setup_atomic a d (do_setup a d s).1 (files (cs_world s)) (files (cs_world (do_setup a d s).2)).
Proof.
  intros Hin Hout. unfold setup_atomic. destruct (setup_before_save a d s Hin Hout) as
    [(o & s' & -> & Hnf & Hno & Hu & _)|(old & new & s1 & Hold & Hnew & (Hu & _) & ->)].
  - cbn [fst snd]. rewrite Hu. split; [done|]. destruct o as [u|e|]; [by destruct (Hno u)|done|done].
  - unfold on_files. pose proof (write_atomic (cred_path a) (cred_image new) (cs_world s1)) as H.
    destruct (atomic_write _ _ (cs_world s1)) as [o w']. destruct H as (Hnf & [[Hq _] _] & Ho & _). cbn.
    rewrite <- Hu. split; [done|]. destruct o as [u|e|]; [|done|done]. exists old, new. rewrite Hu. split_and!; [done|done|apply Ho].
Qed.
End handshakes.

(** ** The properties *)

(** Enrolling is all or nothing, whatever the server, the network and the system
    do: [do_setup] ends without leaving its buffers; unless it succeeds, the
    credential file is as it was; when it succeeds the file holds credentials with
    the same device root, a pinned server that has proved its key to this device,
    and a role; a server or a role that was there before is kept, and no other file
    but the temporary one is touched. *)
Theorem client_setup_atomic {NaCl : Sodium} {HS : SodiumSpec NaCl} a d s :
  inputs_wf a d → length (cs_out s) = AUTH_MAX_DATAGRAM →
  let '(o, s') := do_setup a d s in
  let before := files (cs_world s) in
  let after := files (cs_world s') in
  (∀ q, q ≠ cred_path a → q ≠ tmp_of (cred_path a) → after !! q = before !! q) ∧
  match o with
  | Ok _ => ∃ old new, credentials_of (before !! cred_path a) (Some (cd_root d)) old ∧ enrollment old new ∧
              after !! cred_path a = Some (cred_image new)
  | Err _ => after !! cred_path a = before !! cred_path a
  | Fault => False
  end.
Proof.
  intros Hin Hout. pose proof (do_setup_atomic a d s Hin Hout) as H. by destruct (do_setup a d s) as [o s'].
Qed.

Section auth.
Context {NaCl : Sodium} {HS : SodiumSpec NaCl}.

Lemma keeps_then {S A B} (I : S → Prop) (m : M auth_err_t S A) (b : B) : keeps I (m;; mret b) → keeps I m.
Proof. intros H s Hs. specialize (H s Hs). rewrite bind_run in H. by destruct (m s) as [[]]. Qed.

Lemma bound_build_auth1 c0 nonce we wd wc wr drawn roles :
  keeps (λ s, bound_to c0 s.1) (auth_client_build_auth1 nonce we wd wc wr drawn roles).
Proof. eapply keeps_then. apply (client_step_bound c0 (BuildAuth1 nonce we wd wc wr drawn roles)). Qed.

Definition has_key (k : bytes) (c : auth_client_ctx_t) : Prop := c_session_key c = k.

Lemma has_key_build_auth3 k : keeps (λ s, has_key k s.1) auth_client_build_auth3.
Proof.
  unfold auth_client_build_auth3. apply keeps_bind; [apply keeps_get|intros [c out]].
  apply keeps_bind; [apply keeps_lift|intros ?]. apply framed_send_next. by constructor; intros [].
Qed.

Lemma has_key_auth_ack k inp : keeps (has_key k) (auth_client_handle_auth_ack inp).
Proof.
  unfold auth_client_handle_auth_ack. apply keeps_bind; [apply keeps_lift|intros [hdr payload]].
  apply keeps_bind; [apply keeps_lift|intros []]. apply keeps_modify. by intros [].
Qed.

(** What a completed authentication means. *)
Lemma auth_handshake_inv a d s u s' :
  ctx_sizes (cs_ctx s) → c_has_pinned_server (cs_ctx s) = true →
  auth_handshake a d s = (Ok u, s') →
  ∃ a2 c c', bound_to (cs_ctx s) c ∧ auth2_wf a2 ∧ auth2_proved a2 c c' ∧
    c_session_key (cs_ctx s') = c_session_key c'.
Proof.
  intros Hsz Hp H. unfold auth_handshake in H. set (c0 := cs_ctx s).
  apply bind_ok_inv in H as (n1 & s1 & H1 & H). apply bind_ok_inv in H as (i1 & s2 & H2 & H).
  apply bind_ok_inv in H as ([] & s3 & H3 & H). apply bind_ok_inv in H as (n2 & s4 & H4 & H).
  apply bind_ok_inv in H as (i2 & s5 & H5 & H6).
  assert (bound_to c0 (cs_ctx s1)) as B1.
  { pose proof (keeps_on_client (bound_to c0) _ (bound_build_auth1 c0 (cd_nonce d) (cd_eph d) (cd_delta d)
      (cd_client_proof d) (cd_rerand d) (cd_branches d) (Some (a_allowed a))) s) as E. rewrite H1 in E. by apply E. }
  assert (bound_to c0 (cs_ctx s2)) as B2 by (pose proof (keeps_round_trip (bound_to c0) n1 s1 B1) as E; by rewrite H2 in E).
  unfold on_client in H3. cbn [on_ctx] in H3.
  destruct (auth_client_handle_auth2 (Some i1) (cs_ctx s2)) as [o c3] eqn:Eh. injection H3 as -> <-.
  apply handle_auth2_inv in Eh as (hdr & a2 & _ & _ & _ & Hw & Hproved).
  2:{ destruct B2 as (_ & _ & _ & _ & _ & ->). apply Hsz. }
  exists a2, (cs_ctx s2), c3. split_and!; try done; try apply B2; try apply Hw.
  set (k := c_session_key c3). change (has_key k (cs_ctx s')).
  match type of H4 with _ ?st = _ => assert (has_key k (cs_ctx st)) as K3 by done end.
  pose proof (keeps_on_client _ _ (has_key_build_auth3 k) _ K3) as K4. rewrite H4 in K4. cbn [snd] in K4.
  pose proof (keeps_round_trip (has_key k) n2 s4 K4) as K5. rewrite H5 in K5. cbn [snd] in K5.
  pose proof (keeps_on_client _ _ (keeps_on_ctx _ _ (has_key_auth_ack k (Some i2))) _ K5) as K6. by rewrite H6 in K6.
Qed.
End auth.

(** An authentication that succeeds was with the enrolled server: [do_auth] ends
    without leaving its buffers and changes no file; it returns 0 only with complete
    credentials in the file, when the peer proved the key that is pinned there in
    this run and confirmed the session key that the client holds at the end, derived
    with the device of the credentials. *)
Theorem client_auth_confirmed {NaCl : Sodium} {HS : SodiumSpec NaCl} a d s :
  inputs_wf a d → length (cs_out s) = AUTH_MAX_DATAGRAM →
  let '(o, s') := do_auth a d s in
  files (cs_world s') = files (cs_world s) ∧
  match o with
  | Ok _ => ∃ data creds a2 c c', files (cs_world s) !! cred_path a = Some data ∧ encodes_creds data creds ∧
      cr_has_pinned_server creds = true ∧ cr_has_role creds = true ∧
      c_server_pub_pinned c = cr_server_pub_pinned creds ∧
      auth_scalarmult_base (auth_derive_device_scalar (cr_device_root creds)) = Ok (c_device_pub c) ∧
      auth2_wf a2 ∧ auth2_proved a2 c c' ∧ c_session_key (cs_ctx s') = c_session_key c'
  | Err _ => True
  | Fault => False
  end.
Proof.
  intros [_ Hsid Hnonce Hbr _ Hal] Hout. unfold do_auth. rewrite bind_run.
  destruct (load_credentials_run (cred_path a) None s) as (o & w1 & E & Hu & Hnf & Ho). rewrite E.
  destruct o as [creds|e|]; [|split; [apply Hu|done]|done]. specialize (Ho creds eq_refl).
  assert (creds_wf creds) as Hw by (by eapply credentials_wf; [|exact Ho]).
  unfold credentials_of in Ho. destruct (files (cs_world s) !! cred_path a) as [data|] eqn:Ef; [|by destruct Ho as (? & ? & _)].
  rewrite bind_run. destruct (cr_has_pinned_server creds && cr_has_role creds) eqn:Eb; cbn [require];
    [|split; [apply Hu|done]].
  apply andb_true_iff in Eb as [Ep Er]. cbn [mret M_ret].
  set (s1 := {| cs_ctx := _; cs_out := _; cs_net := _; cs_world := w1 |}). rewrite bind_run.
  destruct (prepare_ctx_run (cd_session_id d) creds true true (cr_role_code creds) s1) as (o & s2 & E2 & Hnf2 & Eo & Ew & Hctx).
  rewrite E2. destruct o as [u|e|]; [|split; [by rewrite Ew; apply Hu|done]|done].
  destruct (Hctx u eq_refl) as (pub & Hpub & Hpl & Ec).
  assert (idle (cs_world s) s2) as Hi.
  { constructor; [rewrite Ec; by apply prepared_ctx_sizes|by rewrite Eo|by rewrite Ew]. }
  pose proof Hi as [Hsz _ _].
  destruct (auth_handshake_safe (cs_world s) a d Hnonce Hbr Hal s2 Hi) as [Hg [_ _ Hu3]].
  destruct (auth_handshake a d s2) as [o s3] eqn:E3. cbn in Hg, Hu3. split; [apply Hu3|].
  destruct o as [u3|e|]; [|done|done].
  apply auth_handshake_inv in E3 as (a2 & c & c' & Hb & Hw2 & Hp & Hk); [|done|by rewrite Ec].
  destruct Hb as (_ & _ & Hdp & _ & _ & Hpin). rewrite Ec in Hdp, Hpin. cbn in Hdp, Hpin.
  exists data, creds, a2, c, c'. rewrite Hdp. split_and!; try done; apply Hw2.
Qed.

(** ** A run with the toy group *)
Definition sample_args : args_t :=
  {| a_server := Some (str_bytes "[::1]:4000"); a_transport := TRANSPORT_TCP; a_state_dir_p := Some (str_bytes "state");
     a_do_setup := true; a_allow_tofu := true; a_role := 7; a_allowed_v := [7; 1; 0; 0; 0; 0; 0; 0]%Z; a_n_allowed := 2;
     a_pairing_token := None |}.

Definition sample_client_draws : client_draws :=
  {| cd_root := replicate 32 Byte.x01; cd_session_id := replicate 16 Byte.x05; cd_nonce := replicate 32 Byte.x02;
     cd_role_blind := sample_random 64; cd_setup_proof := sample_random 62; cd_eph := sample_random 61;
     cd_delta := sample_random 60; cd_client_proof := sample_random 59; cd_rerand := sample_random 58;
     cd_branches := sample_random |}.

Definition sample_net (incoming : bytes) : client_transport_t :=
  {| t_kind := TRANSPORT_TCP; t_udp := {| u_fd := -1 |}; t_tcp := sample_conn;
     t_udp_socket := {| us_incoming := []; us_sent := []; us_polls := []; us_answers := [] |};
     t_tcp_socket := sample_socket incoming |}.

Definition sample_client (f : fs) (incoming : bytes) : client_state :=
  {| cs_ctx := zero_ctx; cs_out := zeros AUTH_MAX_DATAGRAM; cs_net := sample_net incoming;
     cs_world := {| files := f; unsynced := ∅; answers := []; history := [] |} |}.

Definition sample_fresh : auth_credentials_t :=
  {| cr_device_root := replicate 32 Byte.x01; cr_has_pinned_server := false; cr_server_pub_pinned := zeros 32;
     cr_has_role := false; cr_role_commitment := zeros 32; cr_role_blind := zeros 32; cr_role_code := 0 |}.

(** What a server with the secret 4 answers. *)
Definition sample_setup_replies : bytes := Eval vm_compute in
  let NaCl := Toy.sodium in
  let d := sample_client_draws in
  let '(_, s) := prepare_ctx (cd_session_id d) sample_fresh false false 7 (sample_client ∅ []) in
  match ('(p1, c) ← send (auth_client_build_setup1 (cd_nonce d) (cd_role_blind d) None 0) (cs_ctx s);
         '(h1, in1) ← auth_header_decode (Some p1);
         '(p2, pending) ← send (auth_server_handle_setup1 (hdr_session_id h1) (hdr_seq h1) (Some in1) (store_le 32 4)
            (store_le 32 4) None (replicate 32 Byte.x02) (replicate 16 Byte.x03) (sample_random 63)) sample_pending_setup;
         c ← receive (auth_client_handle_setup2 (Some p2) true) c;
         '(p3, c) ← send (auth_client_build_setup3 (cd_setup_proof d)) c;
         '(h3, in3) ← auth_header_decode (Some p3);
         p4 ← reply (auth_server_handle_setup3 pending (hdr_session_id h3) (hdr_seq h3) (Some in3));
         mret (frame p2 ++ frame p4) : outcome auth_err_t bytes) with
  | Ok b => b
  | _ => []
  end.

Definition sample_start : client_state := sample_client ∅ sample_setup_replies.

Lemma sample_inputs : inputs_wf sample_args sample_client_draws.
Proof.
  constructor; [reflexivity..| | |].
  - intros n. cbn. unfold sample_random. by rewrite length_map, length_seq.
  - split; [by apply Z.leb_le|by apply Z.ltb_lt].
  - repeat constructor; (by apply Z.leb_le) || by apply Z.ltb_lt.
Qed.

Lemma client_setup_atomic_witness :
  (do_setup (NaCl := Toy.sodium) sample_args sample_client_draws sample_start).1 = Ok tt ∧
  ∃ old new, credentials_of None (Some (cd_root sample_client_draws)) old ∧
    enrollment (NaCl := Toy.sodium) old new ∧
    files (cs_world (do_setup (NaCl := Toy.sodium) sample_args sample_client_draws sample_start).2)
      !! cred_path sample_args = Some (cred_image new).
Proof.
  pose proof (client_setup_atomic (NaCl := Toy.sodium) sample_args sample_client_draws sample_start
    sample_inputs ltac:(vm_compute; reflexivity)) as H.
  destruct (do_setup (NaCl := Toy.sodium) sample_args sample_client_draws sample_start) as [o s'] eqn:E.
  assert ((o, s').1 = Ok tt) as Eo by (rewrite <- E; vm_compute; reflexivity). cbn [fst] in Eo. subst o.
  destruct H as [_ H]. split; [reflexivity|exact H].
Defined.

(** The enrolled device, and what the server answers to its authentication. *)
Definition sample_files : fs := Eval vm_compute in
  files (cs_world (do_setup (NaCl := Toy.sodium) sample_args sample_client_draws sample_start).2).

Definition sample_auth_replies : bytes := Eval vm_compute in
  let NaCl := Toy.sodium in
  let d := sample_client_draws in
  match load_credentials (cred_path sample_args) None (sample_client sample_files []) with
  | (Ok creds, s) =>
      let '(_, s) := prepare_ctx (cd_session_id d) creds true true (cr_role_code creds) s in
      let c0 := cs_ctx s in
      match ('(p1, c) ← send (auth_client_build_auth1 (cd_nonce d) (cd_eph d) (cd_delta d) (cd_client_proof d)
                                (cd_rerand d) (cd_branches d) (Some [7; 1]%Z)) c0;
             '(h1, in1) ← auth_header_decode (Some p1);
             '(p2, pending) ← send (auth_server_handle_auth1 (hdr_session_id h1) (hdr_seq h1) (Some in1)
                (store_le 32 4) (store_le 32 4) (Some (λ _, Ok (c_device_pub c0, c_role_commitment c0)))
                (Some [7; 1]%Z) (sample_random 57) (replicate 32 Byte.x02) (sample_random 55)) sample_pending_auth;
             c ← receive (auth_client_handle_auth2 (Some p2)) c;
             '(p3, c) ← send auth_client_build_auth3 c;
             '(h3, in3) ← auth_header_decode (Some p3);
             p4 ← reply (auth_server_handle_auth3 pending (hdr_session_id h3) (hdr_seq h3) (Some in3));
             mret (frame p2 ++ frame p4) : outcome auth_err_t bytes) with
      | Ok b => b
      | _ => []
      end
  | _ => []
  end.

Lemma client_auth_confirmed_witness :
  let s := sample_client sample_files sample_auth_replies in
  let r := do_auth (NaCl := Toy.sodium) sample_args sample_client_draws s in
  r.1 = Ok tt ∧ files (cs_world r.2) = sample_files ∧
  ∃ data creds a2 c c', sample_files !! cred_path sample_args = Some data ∧ encodes_creds data creds ∧
    cr_has_pinned_server creds = true ∧ c_server_pub_pinned c = cr_server_pub_pinned creds ∧
    auth2_wf a2 ∧ auth2_proved (NaCl := Toy.sodium) a2 c c' ∧ c_session_key (cs_ctx r.2) = c_session_key c'.
Proof.
  cbv zeta. set (s := sample_client sample_files sample_auth_replies).
  pose proof (client_auth_confirmed (NaCl := Toy.sodium) sample_args sample_client_draws s
    sample_inputs ltac:(vm_compute; reflexivity)) as H.
  destruct (do_auth (NaCl := Toy.sodium) sample_args sample_client_draws s) as [o s'] eqn:E.
  assert ((o, s').1 = Ok tt) as Eo by (rewrite <- E; vm_compute; reflexivity). cbn [fst] in Eo. subst o.
  destruct H as (Hf & data & creds & a2 & c & c' & ? & ? & ? & ? & ? & ? & ? & ? & ?).
  split; [reflexivity|]. split; [exact Hf|]. exists data, creds, a2, c, c'. split_and!; assumption.
Defined.
