(* ===== verification/Drivers.v ===== *)
(** The drivers of the server: the UDP thread, the TCP connection threads and the
    listener of [src/c/bin/server.c].

    A driver thread alternates between receiving a packet on its channel, handling it
    ([dispatch], section by section) and sending the reply.  [run] is one step of any
    thread, or a connection that the listener accepts; the other ends of the channels
    and the system are arbitrary.  It refines the scheduler of [Server], so that what
    holds for every schedule of packets holds for the program.  [serve] is the loop of
    one connection while no other thread runs. *)
From stdpp Require Import gmap functions.
From S2P Require Export Server Transport.

Definition IO_TIMEOUT_MS : Z := 30000.

(** A UDP socket, with the sender of the packet that is handled, or a connection. *)
Inductive channel :=
  | Udp (u : auth_udp_t) (peer : ptr auth_addr_t) (s : udp_socket)
  | Tcp (c : auth_tcp_conn_t) (s : socket).

(** A thread before [auth_*_recv], with its buffer [out]; in [dispatch]; returned; or
    outside an object. *)
Inductive thread :=
  | Receiving (ch : channel) (out : bytes)
  | Dispatching (ch : channel) (p : proc)
  | Returned (ch : channel)
  | Lost.

(** ** One turn of the loops *)
Section turns.
Context {NaCl : Sodium} (cfg : server_config) (d : draws).

(** [run_udp]: any error is reported and the loop goes on. *)
Definition udp_receive (u : auth_udp_t) (s : udp_socket) (out : bytes) : thread :=
  match auth_udp_recv (Some u) AUTH_MAX_DATAGRAM (-1) s with
  | (Ok (inp, peer), s') => Dispatching (Udp u (Some peer) s') (dispatch cfg d inp out)
  | (Err _, s') => Receiving (Udp u None s') out
  | (Fault, _) => Lost
  end.

(** [if (out_len) auth_udp_send(&u, &peer, out, out_len)]; its result is not looked at.
    [peer] is a variable of one turn. *)
Definition udp_reply (u : auth_udp_t) (peer : ptr auth_addr_t) (s : udp_socket) (out : bytes) (out_len : nat) : thread :=
  if out_len =? 0 then Receiving (Udp u None s) out
  else match loadn (E := auth_err_t) out 0 out_len with
  | Ok packet =>
      match auth_udp_send (Some u) peer (Some packet) s with
      | (Fault, _) => Lost
      | (_, s') => Receiving (Udp u None s') out
      end
  | _ => Lost
  end.

(** The end of [handle_tcp_conn]. *)
Definition close_conn (c : auth_tcp_conn_t) (s : socket) : thread :=
  match auth_tcp_conn_close (Some c) with Some c => Returned (Tcp c s) | None => Lost end.

(** [handle_tcp_conn]: every error, the end of the stream and an idle peer end it. *)
Definition tcp_receive (c : auth_tcp_conn_t) (s : socket) (out : bytes) : thread :=
  match auth_tcp_recv (Some c) AUTH_MAX_DATAGRAM IO_TIMEOUT_MS s with
  | (Ok inp, s') => Dispatching (Tcp c s') (dispatch cfg d inp out)
  | (Err _, s') => close_conn c s'
  | (Fault, _) => Lost
  end.

Definition tcp_reply (c : auth_tcp_conn_t) (s : socket) (out : bytes) (out_len : nat) : thread :=
  if out_len =? 0 then Receiving (Tcp c s) out
  else match loadn (E := auth_err_t) out 0 out_len with
  | Ok packet =>
      match auth_tcp_send (Some c) (Some packet) s with
      | (Ok _, s') => Receiving (Tcp c s') out
      | (Err _, s') => close_conn c s'
      | (Fault, _) => Lost
      end
  | _ => Lost
  end.

(** The next step of a thread. *)
Definition thread_step (t : thread) (s : server_state_t) : thread * server_state_t :=
  match t with
  | Receiving (Udp u _ so) out => (udp_receive u so out, s)
  | Receiving (Tcp c so) out => (tcp_receive c so out, s)
  | Dispatching ch (Locked _ section) => let '(p, s') := section s in (Dispatching ch p, s')
  | Dispatching (Udp u peer so) (Halt out n) => (udp_reply u peer so out n, s)
  | Dispatching (Tcp c so) (Halt out n) => (tcp_reply c so out n, s)
  | Dispatching _ Crash => (Lost, s)
  | Returned ch => (Returned ch, s)
  | Lost => (Lost, s)
  end.
End turns.

(** The thread of an accepted connection; [out] is not initialised. *)
Definition accept_conn (fd : Z) (s : socket) (out : bytes) : thread :=
  match auth_tcp_conn_wrap (Some {| tc_fd := 0 |}) fd with
  | Some c => Receiving (Tcp c s) out
  | None => Lost
  end.

(** ** The program *)

(** A step of a thread, or, when the listener runs, a connection. *)
Inductive run {NaCl : Sodium} (tcp : bool) (cfg : server_config) :
    server_state_t * list thread → server_state_t * list thread → Prop :=
  | run_accept s ts fd so out :
      tcp = true → (0 ≤ fd)%Z → is_n AUTH_MAX_DATAGRAM out →
      run tcp cfg (s, ts) (s, ts ++ [accept_conn fd so out])
  | run_thread s ts i t d :
      draws_ok d → ts !! i = Some t →
      run tcp cfg (s, ts) ((thread_step cfg d t s).2, <[i := (thread_step cfg d t s).1]> ts).

(** The threads that [main] starts: the UDP thread, if its socket can be bound. *)
Definition start_threads (udp : option (auth_udp_t * udp_socket)) (out : bytes) : list thread :=
  match udp with Some (u, s) => [Receiving (Udp u None s) out] | None => [] end.

(** [handle_tcp_conn] while no other thread runs; [ds n] is drawn for the [n]-th
    packet from the end. *)
Fixpoint serve {NaCl : Sodium} (cfg : server_config) (ds : nat → draws) (fuel : nat) (t : thread)
    (s : server_state_t) : option (channel * server_state_t) :=
  match fuel with
  | O => None
  | S fuel =>
      match thread_step cfg (ds fuel) t s with
      | (Returned ch, s) => Some (ch, s)
      | (Dispatching ch p, s) =>
          match run_proc p s with
          | (Some (out, n), s) =>
              match thread_step cfg (ds fuel) (Dispatching ch (Halt out n)) s with
              | (Returned ch, s) => Some (ch, s)
              | (t, s) => serve cfg ds fuel t s
              end
          | (None, s) => None
          end
      | (t, s) => serve cfg ds fuel t s
      end
  end.

(** What a connection is answered when nothing fails: each packet of the stream, up to
    the first bytes that are not one, is dispatched, and its answer is sent, if there is
    one.  The answers, and the state that is left. *)
Fixpoint converse {NaCl : Sodium} (cfg : server_config) (ds : nat → draws) (fuel : nat) (incoming out : bytes)
    (s : server_state_t) : list bytes * server_state_t :=
  match fuel with
  | O => ([], s)
  | S fuel =>
      match recv_stream AUTH_MAX_DATAGRAM incoming with
      | (Ok inp, rest) =>
          match run_proc (dispatch cfg (ds fuel) inp out) s with
          | (Some (out, n), s) => let '(l, s) := converse cfg ds fuel rest out s in (take n out :: l, s)
          | (None, s) => ([], s)
          end
      | _ => ([], s)
      end
  end.

Definition answer_frame (packet : bytes) : bytes := match packet with [] => [] | _ => frame packet end.

(** The bytes [sent] and the final state [s'] of a conversation that can break off when
    the system fails. *)
Definition answered (ok : Prop) (sent : bytes) (s' : server_state_t) (r : list bytes * server_state_t) : Prop :=
  sent `prefix_of` concat (map answer_frame r.1) ∧ (ok → sent = concat (map answer_frame r.1) ∧ s' = r.2).

(** ** The program refines the scheduler *)
Definition handling (t : thread) : option proc := match t with Dispatching _ p => Some p | _ => None end.

Definition channel_open (ch : channel) : Prop := match ch with Udp _ _ _ => True | Tcp c _ => open_conn c end.

Definition thread_ok (t : thread) : Prop :=
  match t with
  | Receiving ch out => channel_open ch ∧ is_n AUTH_MAX_DATAGRAM out
  | Dispatching ch _ => channel_open ch
  | Returned _ => True
  | Lost => False
  end.

(** The packets in dispatch are different packets of the pool; [f] says which. *)
Record placed (ts : list thread) (pool : list proc) (f : nat → nat) : Prop := {
  pl_at i t p : ts !! i = Some t → handling t = Some p → pool !! f i = Some p;
  pl_inj i j t t' p p' : ts !! i = Some t → handling t = Some p → ts !! j = Some t' → handling t' = Some p' →
    f i = f j → i = j
}.

Record simulates (c : server_state_t * list thread) (c' : server_state_t * list proc) : Prop := {
  sm_state : c.1 = c'.1;
  sm_placed : ∃ f, placed c.2 c'.2 f;
  sm_threads : Forall thread_ok c.2
}.

(** A thread that leaves dispatch, or stays out of it. *)
Lemma placed_quiet ts pool f i t : placed ts pool f → handling t = None → placed (<[i := t]> ts) pool f.
Proof.
  intros [H1 H2] Ht. constructor.
  - intros j t' p Hj Hp. apply list_lookup_insert_Some in Hj as [(_ & -> & _)|[_ Hj]]; [congruence|]. by eapply H1.
  - intros j k t1 t2 p1 p2 Hj Hp1 Hk Hp2. apply list_lookup_insert_Some in Hj as [(_ & -> & _)|[_ Hj]]; [congruence|].
    apply list_lookup_insert_Some in Hk as [(_ & -> & _)|[_ Hk]]; [congruence|]. by eapply H2.
Qed.

(** A packet arrives at thread [i]. *)
Lemma placed_arrive ts pool f i ch p :
  placed ts pool f → placed (<[i := Dispatching ch p]> ts) (pool ++ [p]) (<[i := length pool]> f).
Proof.
  intros [H1 H2].
  assert (∀ j t q, <[i := Dispatching ch p]> ts !! j = Some t → handling t = Some q →
    (j = i ∧ q = p ∧ <[i := length pool]> f j = length pool) ∨
    (j ≠ i ∧ ts !! j = Some t ∧ <[i := length pool]> f j = f j ∧ pool !! f j = Some q)) as Hc.
  { intros j t q Hj Hq. apply list_lookup_insert_Some in Hj as [(<- & <- & _)|[Hn Hj]].
    - left. injection Hq as <-. by rewrite fn_lookup_insert.
    - right. rewrite fn_lookup_insert_ne by done. split_and!; try done. by eapply H1. }
  constructor.
  - intros j t q Hj Hq. destruct (Hc j t q Hj Hq) as [(-> & -> & ->)|(_ & _ & -> & Hl)].
    + by rewrite lookup_app_r, Nat.sub_diag by lia.
    + by apply lookup_app_l_Some.
  - intros j k t1 t2 p1 p2 Hj Hp1 Hk Hp2.
    destruct (Hc j _ _ Hj Hp1) as [(-> & -> & ->)|(Hn & Hj' & -> & Hl)], (Hc k _ _ Hk Hp2) as [(-> & -> & ->)|(Hn' & Hk' & -> & Hl')].
    + done.
    + intros E. rewrite <- E in Hl'. apply lookup_lt_Some in Hl'. lia.
    + intros E. rewrite E in Hl. apply lookup_lt_Some in Hl. lia.
    + by eapply H2.
Qed.

(** Thread [i] goes through a section. *)
Lemma placed_section ts pool f i ch ch' p p' :
  placed ts pool f → ts !! i = Some (Dispatching ch p) →
  placed (<[i := Dispatching ch' p']> ts) (<[f i := p']> pool) f.
Proof.
  intros [H1 H2] Hi. pose proof (H1 _ _ _ Hi eq_refl) as Hf. constructor.
  - intros j t q Hj Hq. apply list_lookup_insert_Some in Hj as [(<- & <- & _)|[Hn Hj]].
    + injection Hq as <-. apply list_lookup_insert_eq. by eapply lookup_lt_Some.
    + rewrite list_lookup_insert_ne; [by eapply H1|]. intros E. destruct Hn. by eapply H2.
  - intros j k t1 t2 p1 p2 Hj Hp1 Hk Hp2 E.
    apply list_lookup_insert_Some in Hj as [(<- & <- & _)|[Hn Hj]]; apply list_lookup_insert_Some in Hk as [(<- & <- & _)|[Hn' Hk]];
      [done|by eapply H2..].
Qed.

Section refinement.
Context {NaCl : Sodium} {HS : SodiumSpec NaCl} (cfg : server_config) (reg0 : auth_registry_t).
Context (Hpub : is_n 32 (sc_server_pub cfg)) (Hroles : Forall is_u64 (sc_allowed_roles cfg)).

Lemma pool_halt c k out n :
  pool_ok cfg reg0 c → c.2 !! k = Some (Halt out n) → is_n AUTH_MAX_DATAGRAM out ∧ n ≤ length out.
Proof.
  intros [_ (claims & Hcl & _)] Hk. destruct (Forall2_lookup_r _ _ _ _ _ Hcl Hk) as (hl & _ & [Hs _]). by inversion Hs.
Qed.

Lemma pool_crash c k : pool_ok cfg reg0 c → c.2 !! k ≠ Some Crash.
Proof. intros [_ (claims & Hcl & _)] Hk. destruct (Forall2_lookup_r _ _ _ _ _ Hcl Hk) as (hl & _ & [Hs _]). by inversion Hs. Qed.

(** A receive ends with a packet to dispatch, or leaves the thread out of dispatch. *)
Lemma receive_cases d ch out :
  thread_ok (Receiving ch out) →
  let t := (thread_step cfg d (Receiving ch out) dummy_state).1 in
  (∃ ch' inp, channel_open ch' ∧ t = Dispatching ch' (dispatch cfg d inp out)) ∨ (handling t = None ∧ thread_ok t).
Proof.
  intros [Hc Hout]. destruct ch as [u peer s|c s]; cbn [thread_step fst].
  - unfold udp_receive. pose proof (udp_recv_total u AUTH_MAX_DATAGRAM (-1) s) as Hf.
    destruct (auth_udp_recv _ _ _ s) as [[[inp from]|e|] s']; [left; by exists (Udp u (Some from) s'), inp|by right|done].
  - unfold tcp_receive. pose proof (tcp_recv_total c AUTH_MAX_DATAGRAM IO_TIMEOUT_MS s) as Hf.
    destruct (auth_tcp_recv _ _ _ s) as [[inp|e|] s']; [left; by exists (Tcp c s'), inp|by right|done].
Qed.

Lemma reply_ok d ch out n s :
  channel_open ch → is_n AUTH_MAX_DATAGRAM out → n ≤ length out →
  handling (thread_step cfg d (Dispatching ch (Halt out n)) s).1 = None ∧
  thread_ok (thread_step cfg d (Dispatching ch (Halt out n)) s).1.
Proof.
  intros Hc Hout Hn. destruct ch as [u peer so|c so]; cbn [thread_step fst].
  - unfold udp_reply. destruct (n =? 0); [done|]. rewrite loadn_ok by lia.
    pose proof (udp_send_total u peer (take n (drop 0 out)) so) as Hf. by destruct (auth_udp_send _ _ _ so) as [[]].
  - unfold tcp_reply. destruct (n =? 0); [done|]. rewrite loadn_ok by lia.
    pose proof (tcp_send_total c (take n (drop 0 out)) so) as Hf. by destruct (auth_tcp_send _ _ so) as [[]].
Qed.

Lemma thread_ok_step_id d t s : match t with Returned _ | Lost => True | _ => False end → thread_step cfg d t s = (t, s).
Proof. by destruct t. Qed.

Lemma run_simulated tcp c1 c2 c1' :
  run tcp cfg c1 c2 → pool_ok cfg reg0 c1' → simulates c1 c1' → ∃ c2', star (sched cfg) c1' c2' ∧ simulates c2 c2'.
Proof.
  intros H Hok [Hs (f & Hf) Ht]. destruct c1' as [s' pool]. cbn [fst snd] in *.
  destruct H as [s ts fd so out _ Hfd Hout|s ts i t d Hd Hi]; cbn [fst snd] in *; subst s'.
  - exists (s, pool). split; [constructor|]. constructor; cbn [fst snd]; [done| |by apply Forall_app; split; [|constructor]].
    exists f. destruct Hf as [H1 H2]. constructor.
    + intros j t p Hj Hp. apply lookup_app_Some in Hj as [Hj|[_ Hj]]; [by eapply H1|].
      apply list_lookup_singleton_Some in Hj as [_ <-]. done.
    + intros j k t1 t2 p1 p2 Hj Hp1 Hk Hp2.
      apply lookup_app_Some in Hj as [Hj|[_ Hj]]; [|apply list_lookup_singleton_Some in Hj as [_ <-]; done].
      apply lookup_app_Some in Hk as [Hk|[_ Hk]]; [|apply list_lookup_singleton_Some in Hk as [_ <-]; done].
      by eapply H2.
  - pose proof Ht as Ht'. rewrite list.Forall_lookup in Ht'. specialize (Ht' _ _ Hi).
    destruct t as [ch out|ch p|ch|]; [| | |done].
    + assert ((thread_step cfg d (Receiving ch out) s).2 = s) as -> by (by destruct ch).
      assert ((thread_step cfg d (Receiving ch out) s).1 = (thread_step cfg d (Receiving ch out) dummy_state).1) as -> by (by destruct ch).
      destruct (receive_cases d ch out Ht') as [(ch' & inp & Hch & ->)|[Hq Hq']]; destruct Ht' as [_ Hout].
      * exists (s, pool ++ [dispatch cfg d inp out]). split.
        { eapply star_step; [by constructor|constructor]. }
        constructor; [done| |by apply Forall_insert]. eexists. by apply placed_arrive.
      * exists (s, pool). split; [constructor|]. constructor; [done| |by apply Forall_insert]. exists f. by apply placed_quiet.
    + pose proof (pl_at _ _ _ Hf _ _ _ Hi eq_refl) as Hp. destruct p as [out n| |m section].
      * destruct (pool_halt (s, pool) _ _ _ Hok Hp) as [Hout Hn]. destruct (reply_ok d ch out n s Ht' Hout Hn) as [Hq Hq'].
        assert ((thread_step cfg d (Dispatching ch (Halt out n)) s).2 = s) as -> by (by destruct ch).
        exists (s, pool). split; [constructor|]. constructor; [done| |by apply Forall_insert]. exists f. by apply placed_quiet.
      * by destruct (pool_crash (s, pool) (f i) Hok).
      * exists ((section s).2, <[f i := (section s).1]> pool). split.
        { eapply star_step; [by eapply sched_section|constructor]. }
        cbn [thread_step]. destruct ch; destruct (section s) as [p s2]; cbn [fst snd];
          (constructor; [done| |by apply Forall_insert]); exists f; by eapply placed_section.
    + exists (s, pool). split; [constructor|]. cbn [thread_step fst snd]. rewrite list_insert_id by done. by constructor; [|exists f|].
Qed.

Lemma runs_simulated tcp c1 c2 :
  star (run tcp cfg) c1 c2 → ∀ c1', pool_ok cfg reg0 c1' → simulates c1 c1' →
  ∃ c2', star (sched cfg) c1' c2' ∧ pool_ok cfg reg0 c2' ∧ simulates c2 c2'.
Proof.
  induction 1 as [c|c1 c2 c3 H _ IH]; intros c1' Hok Hsim; [exists c1'; by split; [constructor|]|].
  destruct (run_simulated _ _ _ _ H Hok Hsim) as (c2' & Hstar & Hsim').
  destruct (IH c2') as (c3' & Hstar' & Hok' & Hsim3); [by eapply star_sched_ok|done|].
  exists c3'. split; [by eapply star_trans|done].
Qed.

Lemma start_simulates s udp out : is_n AUTH_MAX_DATAGRAM out → simulates (s, start_threads udp out) (s, []).
Proof.
  intros Hout.
  assert (∀ i t, start_threads udp out !! i = Some t → handling t = None ∧ thread_ok t) as Hq.
  { intros i t Hi. destruct udp as [[u so]|]; [|done]. apply list_lookup_singleton_Some in Hi as [_ <-]. done. }
  constructor; [done| |].
  - exists id. constructor.
    + intros i t p Hi Hp. destruct (Hq _ _ Hi) as [? _]. congruence.
    + intros i j t t' p p' Hi Hp. destruct (Hq _ _ Hi) as [? _]. congruence.
  - apply list.Forall_lookup. intros i t Hi. by apply (Hq i).
Qed.
End refinement.

(** ** A connection to its end *)
Section serve.
Context {NaCl : Sodium} {HS : SodiumSpec NaCl} (cfg : server_config) (reg0 : auth_registry_t).
Context (Hpub : is_n 32 (sc_server_pub cfg)) (Hroles : Forall is_u64 (sc_allowed_roles cfg)).

(** Induction on the sections that a packet goes through. *)
Lemma run_proc_ind (P : proc → server_state_t → Prop) :
  (∀ out n s, P (Halt out n) s) → (∀ s, P Crash s) →
  (∀ m section s, P (section s).1 (section s).2 → P (Locked m section) s) → ∀ p s, P p s.
Proof.
  intros H1 H2 H3. fix IH 1. intros [out n| |m section] s; [apply H1|apply H2|].
  apply H3. destruct (section s) as [p' s']. apply IH.
Qed.

Lemma run_proc_locked m section s : run_proc (Locked m section) s = run_proc (section s).1 (section s).2.
Proof. cbn [run_proc]. by destruct (section s). Qed.

(** A safe packet alone ends with a reply and leaves nothing reserved. *)
Lemma run_proc_safe p s h lb :
  safe_proc cfg reg0 h lb p → server_inv cfg reg0 s → lb ≤ rg_n (sv_registry s) →
  ∃ out n s', run_proc p s = (Some (out, n), s') ∧ is_n AUTH_MAX_DATAGRAM out ∧ n ≤ length out ∧ server_inv cfg reg0 s' ∧
    ∀ i, reserved s' i → reserved s i ∧ h ≠ Some i.
Proof.
  revert h lb. pattern p, s. apply run_proc_ind; clear p s; [intros out n s|intros s|intros m section s IH];
    intros h lb Hp Hs Hlb; inversion Hp as [|? ? ? ? Hsec]; subst.
  - exists out, n, s. by split_and!.
  - destruct (Hsec s Hs Hlb) as (Hs1 & _ & h' & lb' & Hlb' & Hp' & Hacc).
    destruct (IH h' lb' Hp' Hs1 Hlb') as (out & n & s' & E & Ho & Hn & Hs' & Hr).
    exists out, n, s'. rewrite run_proc_locked. split_and!; try done; intros i Hi;
      destruct (Hr i Hi) as [Hr1 Hne]; by destruct (Hacc i Hr1) as [?|?].
Qed.

(** ... and each of its sections is a step of the program. *)
Lemma run_proc_star tcp d ch i p s ts out n s' :
  draws_ok d → ts !! i = Some (Dispatching ch p) → run_proc p s = (Some (out, n), s') →
  star (run tcp cfg) (s, ts) (s', <[i := Dispatching ch (Halt out n)]> ts).
Proof.
  intros Hd. revert ts. pattern p, s. apply run_proc_ind; clear p s; [intros out0 n0 s|intros s|intros m section s IH]; intros ts Hi H.
  - injection H as -> -> ->. rewrite list_insert_id by done. constructor.
  - done.
  - rewrite run_proc_locked in H. assert (i < length ts) as Hlt by (by eapply lookup_lt_Some).
    assert (thread_step cfg d (Dispatching ch (Locked m section)) s = (Dispatching ch (section s).1, (section s).2)) as Est
      by (destruct ch; cbn [thread_step]; by destruct (section s)).
    pose proof (run_thread tcp cfg s ts i _ d Hd Hi) as Hstep. rewrite Est in Hstep. cbn [fst snd] in Hstep. eapply star_step; [exact Hstep|].
    pose proof (IH (<[i := Dispatching ch (section s).1]> ts)) as IH'. rewrite list_insert_insert_eq in IH'.
    apply IH'; [by apply list_lookup_insert_eq|done].
Qed.

(** The loop of a thread is made of steps of the program. *)
Lemma serve_star tcp ds i (Hds : ∀ n, draws_ok (ds n)) fuel : ∀ ts t s ch s',
  ts !! i = Some t → serve cfg ds fuel t s = Some (ch, s') → star (run tcp cfg) (s, ts) (s', <[i := Returned ch]> ts).
Proof.
  induction fuel as [|fuel IH]; intros ts t s ch s' Hi H; [done|]. cbn [serve] in H.
  assert (i < length ts) as Hlt by (by eapply lookup_lt_Some).
  pose proof (run_thread tcp cfg s ts i t (ds fuel) (Hds fuel) Hi) as H1.
  assert (∀ t1 s1, star (run tcp cfg) (s, ts) (s1, <[i := t1]> ts) → serve cfg ds fuel t1 s1 = Some (ch, s') →
    star (run tcp cfg) (s, ts) (s', <[i := Returned ch]> ts)) as Hnext.
  { intros t1 s1 H2 H3. eapply star_trans; [exact H2|]. pose proof (IH (<[i := t1]> ts) t1 s1 ch s') as H4.
    rewrite list_insert_insert_eq in H4. apply H4; [by apply list_lookup_insert_eq|done]. }
  destruct (thread_step cfg (ds fuel) t s) as [t1 s1]. cbn [fst snd] in H1.
  destruct t1 as [ch1 out1|ch1 p|ch1|]; [| |injection H as -> ->; eapply star_step; [exact H1|constructor]|].
  1,3: eapply Hnext; [eapply star_step; [exact H1|constructor]|exact H].
  destruct (run_proc p s1) as [[[out n]|] s2] eqn:E; [|done].
  pose proof (run_proc_star tcp (ds fuel) ch1 i p s1 (<[i := Dispatching ch1 p]> ts) out n s2 (Hds fuel)
    ltac:(by apply list_lookup_insert_eq) E) as H2. rewrite list_insert_insert_eq in H2.
  pose proof (run_thread tcp cfg s2 (<[i := Dispatching ch1 (Halt out n)]> ts) i _ (ds fuel) (Hds fuel)
    ltac:(by apply list_lookup_insert_eq)) as H3. rewrite list_insert_insert_eq in H3.
  destruct (thread_step cfg (ds fuel) (Dispatching ch1 (Halt out n)) s2) as [t2 s3]. cbn [fst snd] in H3.
  assert (star (run tcp cfg) (s, ts) (s3, <[i := t2]> ts)) as H4.
  { eapply star_step; [exact H1|]. eapply star_trans; [exact H2|]. eapply star_step; [exact H3|constructor]. }
  destruct t2 as [ch2 out2|ch2 p2|ch2|]; [| |injection H as -> ->; exact H4|]; by eapply Hnext.
Qed.

Lemma close_open c so : open_conn c → close_conn c so = Returned (Tcp {| tc_fd := -1 |} so).
Proof. unfold open_conn, close_conn. cbn. intros H. by rewrite (proj2 (Z.leb_le _ _)) by done. Qed.

(** A packet that is received leaves less on the stream. *)
Lemma recv_shorter c t so inp so' :
  open_conn c → auth_tcp_recv (Some c) AUTH_MAX_DATAGRAM t so = (Ok inp, so') → length (so_incoming so') < length (so_incoming so).
Proof.
  intros Hc E. destruct (tcp_recv_run c AUTH_MAX_DATAGRAM t so Hc) as [_ _ _ Hr]. rewrite E in Hr. cbn in Hr.
  destruct Hr as [Hr|[_ [?|?]]]; [|done..]. symmetry in Hr. apply recv_stream_ok in Hr as [_ ->].
  rewrite length_app, length_frame. lia.
Qed.

(** A reply that is sent, or a failure. *)
Lemma tcp_reply_run c so out n :
  open_conn c → is_n AUTH_MAX_DATAGRAM out → n ≤ length out →
  let x := answer_frame (take n out) in
  ∃ so', so_incoming so' = so_incoming so ∧ (smooth so → smooth so') ∧
    (tcp_reply c so out n = Receiving (Tcp c so') out ∧ so_sent so' = so_sent so ++ x ∨
     ¬ smooth so ∧ tcp_reply c so out n = Returned (Tcp {| tc_fd := -1 |} so') ∧
       ∃ k, so_sent so' = so_sent so ++ take k x).
Proof.
  intros Hc Ho Hn x. unfold tcp_reply. destruct (Nat.eqb_spec n 0) as [->|H0].
  { exists so. split_and!; [done..|]. left. by rewrite app_nil_r. }
  rewrite loadn_ok, drop_0 by lia.
  assert (x = frame (take n out)) as Ex.
  { unfold x, answer_frame. destruct (take n out) eqn:E; [|done]. apply (f_equal length) in E. rewrite length_take in E. cbn in E. lia. }
  destruct (tcp_send_run c (take n out) so Hc) as [Hin Hsm Hr]; [rewrite length_take; unfold is_n in Ho; lia|].
  destruct (auth_tcp_send _ _ so) as [o so']. cbn [fst snd] in *. exists so'. split_and!; [done..|].
  destruct Hr as [[-> E]|(Hns & -> & k & E)]; [left; by rewrite Ex|right]. rewrite close_open by done.
  split_and!; [done..|]. exists k. by rewrite Ex.
Qed.

Lemma serve_ends ds (Hds : ∀ n, draws_ok (ds n)) fuel : ∀ c so out s,
  open_conn c → is_n AUTH_MAX_DATAGRAM out → server_inv cfg reg0 s → length (so_incoming so) < fuel →
  ∃ so' s' sent, serve cfg ds fuel (Receiving (Tcp c so) out) s = Some (Tcp {| tc_fd := -1 |} so', s') ∧
    so_sent so' = so_sent so ++ sent ∧ answered (smooth so) sent s' (converse cfg ds fuel (so_incoming so) out s) ∧
    server_inv cfg reg0 s' ∧ ∀ j, reserved s' j → reserved s j.
Proof.
  induction fuel as [|fuel IH]; intros c so out s Hc Hout Hs Hf; [lia|]. cbn [serve converse thread_step]. unfold tcp_receive.
  pose proof (recv_shorter c IO_TIMEOUT_MS so) as Hsh. destruct (tcp_recv_run c AUTH_MAX_DATAGRAM IO_TIMEOUT_MS so Hc) as [Ht Hse Hsm Hr].
  destruct (auth_tcp_recv _ _ _ so) as [[inp|e|] so1]; cbn [fst snd] in *; [| |done].
  2:{ rewrite close_open by done. exists so1, s, []. rewrite app_nil_r.
    split; [done|]. split; [done|]. split; [|done]. split; [apply prefix_nil|]. intros Hsmooth. destruct Hr as [Hr|[? _]]; [|done]. by rewrite <- Hr. }
  specialize (Hsh inp so1 Hc eq_refl). destruct Hr as [Hr|[_ [?|?]]]; [|done..]. rewrite <- Hr.
  destruct (run_proc_safe (dispatch cfg (ds fuel) inp out) s None 0) as (out1 & n & s1 & -> & Ho1 & Hn & Hs1 & Hres);
    [by apply dispatch_safe|done|lia|].
  destruct (tcp_reply_run c so1 out1 n Hc Ho1 Hn) as (so2 & Hin & Hsm2 & [[-> E2]|(Hns & -> & k & E2)]).
  - destruct (IH c so2 out1 s1 Hc Ho1 Hs1) as (so' & s' & sent & Es & Esent & [Hpre Hans] & Hs' & Hres'); [rewrite Hin; lia|].
    rewrite Hin in *. destruct (converse _ _ _ _ _ _) as [l s2]. cbn [fst snd] in *.
    exists so', s', (answer_frame (take n out1) ++ sent). split; [done|]. split; [by rewrite Esent, E2, Hse, <- app_assoc|].
    split; [|split; [done|intros j Hj; by apply Hres, Hres']]. split; cbn [fst snd map concat]; [by apply prefix_app|].
    intros Hsmooth. destruct (Hans (Hsm2 (Hsm Hsmooth))) as [-> ->]. done.
  - exists so2, s1, (take k (answer_frame (take n out1))). split; [done|]. split; [by rewrite E2, Hse|].
    split; [|split; [done|intros j Hj; by apply Hres]]. destruct (converse _ _ _ _ _ _) as [l s2].
    split; cbn [fst snd map concat]; [|intros Hsmooth; by destruct Hns; auto]. apply prefix_app_r. exists (drop k (answer_frame (take n out1))). by rewrite take_drop.
Qed.
End serve.

(** ** The properties *)

(** C12: the server program refines the scheduler of packets: from a start on any
    files, whatever connections are accepted, whatever arrives on them and however the
    threads are interleaved, the shared state is one that the scheduler reaches from
    the same start, with every packet that a driver thread is handling in its pool,
    each at a place of its own; and no driver thread ever leaves an object. *)
Theorem drivers_refine_sched {NaCl : Sodium} {HS : SodiumSpec NaCl} wide dir token w cfg s0 tcp udp out s ts :
  server_init wide dir token w = Ok (cfg, s0) → is_n AUTH_MAX_DATAGRAM out →
  star (run tcp cfg) (s0, start_threads udp out) (s, ts) →
  Forall thread_ok ts ∧ ∃ pool f, star (sched cfg) (s0, []) (s, pool) ∧ placed ts pool f.
Proof.
  intros H0 Hout H. destruct (server_init_ok _ _ _ _ _ _ H0) as (Hp & Hr & Hok).
  destruct (runs_simulated cfg _ Hp Hr tcp _ _ H _ Hok (start_simulates s0 udp out Hout)) as ([s' pool] & Hst & _ & [Es Hf Ht]).
  cbn [fst snd] in *. subst s'. split; [done|]. destruct Hf as [f Hf]. by exists pool, f.
Qed.

(** C13: a waiting connection can always be served to its end: from any state that the
    server program reaches, the loop of a TCP connection thread that runs alone returns
    with the descriptor closed, in at most one turn per byte of its stream and one more,
    by steps of the program.  When the system does not fail it has sent exactly the
    answers of [dispatch] to the packets of its stream, in order, up to the first bytes
    that are not a packet, and left the state that dispatching them leaves; when the
    system fails, a prefix of these answers.  It leaves no session reserved that was not
    before. *)
Theorem connection_served {NaCl : Sodium} {HS : SodiumSpec NaCl} wide dir token w cfg s0 tcp udp out0 s ts i c so out ds :
  server_init wide dir token w = Ok (cfg, s0) → is_n AUTH_MAX_DATAGRAM out0 →
  star (run tcp cfg) (s0, start_threads udp out0) (s, ts) →
  ts !! i = Some (Receiving (Tcp c so) out) → (∀ n, draws_ok (ds n)) →
  let turns := S (length (so_incoming so)) in
  ∃ so' s' sent, serve cfg ds turns (Receiving (Tcp c so) out) s = Some (Tcp {| tc_fd := -1 |} so', s') ∧
    star (run tcp cfg) (s, ts) (s', <[i := Returned (Tcp {| tc_fd := -1 |} so')]> ts) ∧
    so_sent so' = so_sent so ++ sent ∧ answered (smooth so) sent s' (converse cfg ds turns (so_incoming so) out s) ∧
    ∀ j, sv_sessions s' !! j = Some Slot_reserved → sv_sessions s !! j = Some Slot_reserved.
Proof.
  intros H0 Hout H Hi Hds turns. destruct (server_init_ok _ _ _ _ _ _ H0) as (Hp & Hr & Hok).
  destruct (runs_simulated cfg _ Hp Hr tcp _ _ H _ Hok (start_simulates s0 udp out0 Hout)) as (c' & _ & [Hinv _] & [Es _ Ht]).
  cbn [fst snd] in *. rewrite <- Es in Hinv. rewrite list.Forall_lookup in Ht. destruct (Ht _ _ Hi) as [Hc Ho].
  destruct (serve_ends cfg (sv_registry s0) Hp Hr ds Hds turns c so out s) as (so' & s' & sent & E & Esent & Ha & _ & Hj);
    [done..|unfold turns; lia|]. exists so', s', sent. split; [done|]. split; [by eapply serve_star|]. by split_and!.
Qed.

(** *** A connection that brings a SETUP_1 *)
Definition sample_stream : socket := sample_socket (frame setup1_05).

Definition sample_thread : thread := accept_conn 3 sample_stream (zeros AUTH_MAX_DATAGRAM).

Lemma sample_accepted tcp : tcp = true → star (run (NaCl := Toy.sodium) tcp sample_cfg) (sample_s0, []) (sample_s0, [sample_thread]).
Proof. intros ->. eapply star_step; [|constructor]. by apply (run_accept true sample_cfg sample_s0 [] 3). Qed.

Lemma drivers_refine_sched_witness :
  ∃ pool f, star (sched (NaCl := Toy.sodium) sample_cfg) (sample_s0, []) (sample_s0, pool) ∧ placed [sample_thread] pool f.
Proof.
  apply (drivers_refine_sched (NaCl := Toy.sodium) _ _ _ _ _ _ true None (zeros AUTH_MAX_DATAGRAM) _ _
    sample_init (length_zeros _) (sample_accepted true eq_refl)).
Defined.

Lemma connection_served_witness :
  let served := converse (NaCl := Toy.sodium) sample_cfg (λ _, sample_draws) (S (length (frame setup1_05))) (frame setup1_05)
    (zeros AUTH_MAX_DATAGRAM) sample_s0 in
  ∃ so' s', serve (NaCl := Toy.sodium) sample_cfg (λ _, sample_draws) (S (length (frame setup1_05))) sample_thread sample_s0
      = Some (Tcp {| tc_fd := -1 |} so', s') ∧
    star (run (NaCl := Toy.sodium) true sample_cfg) (sample_s0, [sample_thread]) (s', [Returned (Tcp {| tc_fd := -1 |} so')]) ∧
    map (λ p, p !! 1) served.1 = [Some AUTH_PKT_SETUP_2] ∧ so_sent so' = concat (map answer_frame served.1) ∧ s' = served.2.
Proof.
  intros served.
  destruct (connection_served (NaCl := Toy.sodium) _ _ _ _ _ _ true None (zeros AUTH_MAX_DATAGRAM) _ _ 0 _ _ _ (λ _, sample_draws)
    sample_init (length_zeros _) (sample_accepted true eq_refl) eq_refl (λ _, sample_draws_ok)) as (so' & s' & sent & E & Hst & Es & [_ Ha] & _).
  exists so', s'. split; [exact E|]. split; [exact Hst|]. split; [vm_compute; reflexivity|].
  destruct (Ha (sample_smooth _)) as [Ea Eb]. split; [|exact Eb]. rewrite Es, Ea. reflexivity.
Defined.
