(* ===== verification/EndToEnd.v ===== *)
(** An enrollment: [do_setup] of [bin/client.c] and a connection thread of
    [bin/server.c].

    First whatever carries the packets: [enrollment_sides] says what the client's run
    leaves when it gets the server's answers, and that the server gives these answers.
    Then over TCP ([enrollment_over_tcp]): the stream that the client reads is what the
    server's connection thread writes and the other way round, and such a pair of runs
    exists. *)
From stdpp Require Import gmap.
From S2P Require Export Client Drivers.

(** ** Turns of the server's loop *)
Lemma loadn_inv {E} buf off n p : loadn (E := E) buf off n = Ok p → p = take n (drop off buf) ∧ off + n ≤ length buf.
Proof. unfold loadn, mem_load. destruct (Nat.leb_spec (off + n) (length buf)); [by intros [= <-]|done]. Qed.

Lemma tcp_recv_eof c cap t so :
  open_conn c → smooth so → so_incoming so = [] →
  ∃ so', auth_tcp_recv (Some c) cap t so = (Err AUTH_ERR_IO, so') ∧ so_sent so' = so_sent so.
Proof.
  intros Hc Hs Hi. destruct (tcp_recv_run c cap t so Hc) as [_ Hsent _ Hr]. destruct (auth_tcp_recv _ _ _ so) as [o s1].
  cbn in *. destruct Hr as [Hr|[? _]]; [|done]. rewrite Hi in Hr. injection Hr as -> _. by exists s1.
Qed.

Lemma send_from_inv {S} out0 (m : M auth_err_t (S * bytes) nat) s packet s' :
  send_from out0 m s = Ok (packet, s') →
  ∃ out', m (s, out0) = (Ok (length packet), (s', out')) ∧ length packet ≤ length out' ∧ take (length packet) out' = packet.
Proof.
  unfold send_from. destruct (m (s, out0)) as [[n|e|] [s1 out1]]; [|done..]. intros H.
  apply outcome_bind_ok_inv in H as (p & Hl & H). injection H as -> ->. exists out1.
  apply loadn_inv in Hl as [-> Hl]. rewrite drop_0, length_take_le by lia. split_and!; [done|lia|done].
Qed.

Section turns.
Context {NaCl : Sodium} (cfg : server_config) (ds : nat → draws).

Lemma serve_turn fuel c so out s inp rest out1 n s1 :
  open_conn c → smooth so → so_incoming so = frame inp ++ rest → length inp ≤ AUTH_MAX_DATAGRAM →
  run_proc (dispatch cfg (ds fuel) inp out) s = (Some (out1, n), s1) → 0 < n → n ≤ length out1 → n ≤ AUTH_MAX_DATAGRAM →
  ∃ so', serve cfg ds (S fuel) (Receiving (Tcp c so) out) s = serve cfg ds fuel (Receiving (Tcp c so') out1) s1 ∧
    smooth so' ∧ so_incoming so' = rest ∧ so_sent so' = so_sent so ++ frame (take n out1).
Proof.
  intros Hc Hsm Hi Hf Hrun Hn0 Hn Hn2. cbn [serve thread_step]. unfold tcp_receive.
  destruct (recv_ok c AUTH_MAX_DATAGRAM IO_TIMEOUT_MS so inp rest) as (so1 & -> & Hsm1 & Hi1 & Hs1); [done|done|done|by split|].
  rewrite Hrun. unfold tcp_reply. rewrite (proj2 (Nat.eqb_neq _ _)) by lia. rewrite loadn_ok, drop_0 by lia.
  assert (length (take n out1) ≤ AUTH_MAX_DATAGRAM) as Hl by (rewrite length_take; lia).
  destruct (tcp_send_run c (take n out1) so1 Hc Hl) as [Hin Hsm2 Hr].
  destruct (auth_tcp_send _ _ so1) as [o so2]. cbn in *. destruct Hr as [[-> E]|[? _]]; [|done].
  exists so2. split_and!; [done|auto|congruence|by rewrite E, Hs1].
Qed.

Lemma serve_eof fuel c so out s :
  open_conn c → smooth so → so_incoming so = [] →
  ∃ so', serve cfg ds (S fuel) (Receiving (Tcp c so) out) s = Some (Tcp {| tc_fd := -1 |} so', s) ∧ so_sent so' = so_sent so.
Proof.
  intros Hc Hsm Hi. cbn [serve thread_step]. unfold tcp_receive.
  destruct (tcp_recv_eof c AUTH_MAX_DATAGRAM IO_TIMEOUT_MS so Hc Hsm Hi) as (so' & -> & Hs). rewrite close_open by done. by exists so'.
Qed.
End turns.

(** ** The server's side of an enrollment *)
Section server.
Context {NaCl : Sodium} {HS : SodiumSpec NaCl} (cfg : server_config).

Definition with_sessions (t : auth_session_table_t) (s : server_state_t) : server_state_t :=
  {| sv_registry := sv_registry s; sv_sessions := t; sv_replay_cache := sv_replay_cache s; sv_world := sv_world s |}.

Lemma reserve_free t :
  table_wf t → Slot_free ∈ t →
  ∃ i, t !! i = Some Slot_free ∧ i < length t ∧ auth_session_table_reserve t = (Ok (Z.of_nat i), <[i := Slot_reserved]> t).
Proof.
  intros Ht Hf. destruct (reserve_run t Ht) as [[_ Hn]|(i & Hi & _ & E)].
  - rewrite list.Forall_forall in Hn. by specialize (Hn _ Hf).
  - exists i. split_and!; [done|by eapply lookup_lt_Some|done].
Qed.

(** A SETUP_1 that the handler answers, while a slot is free. *)
Lemma dispatch_setup1_run d sid seq payload out s packet pending :
  is_n 16 sid → is_u32 seq → is_n 32 (sc_server_pub cfg) → draws_ok d → is_n AUTH_MAX_DATAGRAM out →
  table_wf (sv_sessions s) → Slot_free ∈ sv_sessions s →
  send_from out (auth_server_handle_setup1 sid seq (Some payload) (sc_server_sk cfg) (sc_server_pub cfg)
    (sc_require_pairing_token cfg) (dr_server_nonce d) (dr_setup_challenge d) (dr_setup_proof d)) zero_pending_setup
    = Ok (packet, pending) →
  ∃ i out', sv_sessions s !! i = Some Slot_free ∧ is_n AUTH_MAX_DATAGRAM out' ∧ length packet ≤ length out' ∧
    take (length packet) out' = packet ∧
    run_proc (dispatch cfg d (wire_packet AUTH_PKT_SETUP_1 sid seq payload) out) s =
      (Some (out', length packet), with_sessions (<[i := Slot_setup pending]> (sv_sessions s)) s).
Proof.
  intros Hsid Hseq Hpub [Hd1 Hd2 _] Hout Ht Hfree Hh. destruct (reserve_free _ Ht Hfree) as (i & Hi & Hlt & Er).
  apply send_from_inv in Hh as (out' & Eh & Hl & Etake).
  destruct (handle_setup1_safe AUTH_MAX_DATAGRAM sid seq (Some payload) (sc_server_sk cfg) (sc_server_pub cfg)
    (sc_require_pairing_token cfg) _ _ (dr_setup_proof d) Hsid Hseq Hpub Hd1 Hd2 (zero_pending_setup, out)) as [_ [_ Hl']];
    [by split; [apply zero_setup_sizes|]|].
  rewrite Eh in Hl'. cbn in Hl'. exists i, out'. split_and!; try done.
  unfold dispatch. rewrite header_of_packet by done. cbn [hdr_pkt_type packet_header].
  rewrite bool_decide_true by done. unfold dispatch_setup1, locked. cbn [run_proc]. unfold on_sessions at 1. rewrite Er.
  rewrite (proj2 (Z.ltb_ge _ _)) by lia. cbn [hdr_session_id hdr_seq packet_header]. rewrite Eh. unfold locked. cbn [run_proc].
  unfold activate_or_release, on_sessions, on_error. cbn [sv_sessions].
  change (auth_session_table_activate_setup (Z.of_nat i) (Some pending)) with (activate (Z.of_nat i) (Slot_setup pending)).
  destruct (activate_cases (<[i := Slot_reserved]> (sv_sessions s)) (Z.of_nat i) (Slot_setup pending)) as [(j & Ej & Hj & ->)|[Hn _]].
  - by apply insert_wf.
  - apply Nat2Z.inj in Ej as <-. cbn [finish run_proc]. by rewrite list_insert_insert_eq.
  - destruct Hn. exists i. split; [done|]. by apply list_lookup_insert_eq.
Qed.

Definition has_room (id : bytes) (reg : auth_registry_t) : Prop :=
  rg_n reg < AUTH_REGISTRY_MAX_ENTRIES ∨ is_Some (registry_map reg !! id).

(** What enrolling a device leaves of the server's state: the registry and its file have
    the device, and nothing else has changed. *)
Record device_added (id pub commitment : bytes) (s s' : server_state_t) : Prop := {
  da_registry : registry_wf (sv_registry s');
  da_path : rg_path (sv_registry s') = rg_path (sv_registry s);
  da_map : registry_map (sv_registry s') = <[id := (pub, commitment)]> (registry_map (sv_registry s));
  da_devices e : e ∈ devices (sv_registry s') → re_device_id e = id ∨ e ∈ devices (sv_registry s);
  da_file : files (sv_world s') !! rg_path (sv_registry s) = Some (registry_image (devices (sv_registry s')));
  da_files q : q ≠ rg_path (sv_registry s) → q ≠ tmp_of (rg_path (sv_registry s)) → files (sv_world s') !! q = files (sv_world s) !! q;
  da_sessions : sv_sessions s' = sv_sessions s;
  da_cache : sv_replay_cache s' = sv_replay_cache s
}.

Lemma added_with_sessions id pub com t s s' :
  device_added id pub com s s' → device_added id pub com (with_sessions t s) (with_sessions t s').
Proof. by intros []. Qed.

Lemma put_ok reg id pub rc :
  registry_wf reg → has_room id reg → is_n 32 id → is_n 32 pub → is_n 32 rc →
  ∃ reg', auth_registry_put (Some id) (Some pub) (Some rc) reg = (Ok tt, reg') ∧ registry_wf reg' ∧ rg_path reg' = rg_path reg ∧
    registry_map reg' = <[id := (pub, rc)]> (registry_map reg) ∧
    ∀ e, e ∈ devices reg' → re_device_id e = id ∨ e ∈ devices reg.
Proof.
  intros Hw Hroom H1 H2 H3. pose proof (registry_put_cases reg id pub rc Hw H1 H2 H3) as H. cbv zeta in H.
  destruct (auth_registry_put _ _ _ reg) as [o reg']. destruct H as (Hw' & Hp' & H). exists reg'. unfold registry_map in *.
  destruct H as [(-> & i & e & E & Ed)|[(-> & E & Ed)|(-> & -> & Hn & E)]].
  - do 3 (split; [done|]). split; [rewrite Ed; by eapply map_of_update|]. intros e' He. rewrite Ed in He.
    apply list_elem_of_lookup_1 in He as [k Hk]. apply list_lookup_insert_Some in Hk as [(_ & <- & _)|[_ Hk]]; [by left|right].
    by eapply list_elem_of_lookup_2.
  - do 3 (split; [done|]). split; [rewrite Ed; by apply map_of_append|]. intros e' He. rewrite Ed in He.
    apply elem_of_app in He as [?|He]; [by right|]. apply list_elem_of_singleton in He as ->. by left.
  - exfalso. destruct Hroom as [?|[v Hv]]; [lia|]. unfold registry_map in Hv. by rewrite map_of_lookup, E in Hv.
Qed.

Lemma persist_ok p s :
  setup_sizes p → registry_wf (sv_registry s) → has_room (ps_device_id p) (sv_registry s) → rg_path (sv_registry s) ≠ [] →
  fine (sv_world s) →
  ∃ s', persist p s = (Ok tt, s') ∧ device_added (ps_device_id p) (ps_device_pub p) (ps_role_commitment p) s s'.
Proof.
  intros [] Hw Hroom Hpath Hfine. unfold persist. rewrite bind_run. unfold on_registry.
  destruct (put_ok (sv_registry s) (ps_device_id p) (ps_device_pub p) (ps_role_commitment p)) as (reg' & -> & Hw' & Hp' & Hm & Hd);
    [done..|]. rewrite bind_run. cbn [get]. unfold on_world. cbn [sv_registry sv_world].
  rewrite registry_save_run by (done || by rewrite Hp'). rewrite Hp'.
  pose proof (write_atomic (rg_path (sv_registry s)) (registry_image (devices reg')) (sv_world s)) as Ha.
  destruct (atomic_write _ _ (sv_world s)) as [o w']. destruct Ha as (_ & [[Hq _] _] & Ho & Hok).
  pose proof Hw as [_ _ _ Hl]. assert (o = Ok tt) as -> by (apply Hok; [done|lia]).
  destruct Ho as [Ho _]. eexists. split; [reflexivity|]. by constructor.
Qed.

(** The SETUP_3 of a pending session. *)
Lemma dispatch_setup3_run d i sid seq payload out t s packet pending :
  is_n 16 sid → is_u32 seq → is_n AUTH_MAX_DATAGRAM out → table_wf t → i < length t → setup_sizes pending →
  ps_session_id pending = sid → (∀ j p, t !! j = Some (Slot_setup p) → ps_session_id p ≠ sid) →
  registry_wf (sv_registry s) → has_room (ps_device_id pending) (sv_registry s) → rg_path (sv_registry s) ≠ [] →
  fine (sv_world s) → sv_sessions s = <[i := Slot_setup pending]> t →
  reply_from out (auth_server_handle_setup3 pending sid seq (Some payload)) = Ok packet →
  ∃ out' s', is_n AUTH_MAX_DATAGRAM out' ∧ length packet ≤ length out' ∧ take (length packet) out' = packet ∧
    run_proc (dispatch cfg d (wire_packet AUTH_PKT_SETUP_3 sid seq payload) out) s = (Some (out', length packet), s') ∧
    device_added (ps_device_id pending) (ps_device_pub pending) (ps_role_commitment pending)
      (with_sessions (<[i := Slot_free]> t) s) s'.
Proof.
  intros Hsid Hseq Hout Ht Hi Hsz Hps Hother Hw Hroom Hpath Hfine Es Hh. unfold reply_from in Hh.
  pose proof (handle_setup3_safe AUTH_MAX_DATAGRAM pending sid seq (Some payload) Hsz Hsid Hseq out Hout) as [_ Hl'].
  destruct (auth_server_handle_setup3 pending sid seq (Some payload) out) as [[n|e|] out'] eqn:Eh; [|done..].
  apply loadn_inv in Hh as [-> Hn]. cbn in Hl', Hn. rewrite drop_0, length_take_le by done.
  assert (table_wf (<[i := Slot_setup pending]> t)) as Ht' by (by apply insert_wf).
  destruct (persist_ok pending s Hsz Hw Hroom Hpath Hfine) as (s' & Ep & Hadd). pose proof (da_sessions _ _ _ _ _ Hadd) as Et.
  exists out', (with_sessions (<[i := Slot_free]> t) s'). split_and!; [done..| |by apply added_with_sessions].
  unfold dispatch. rewrite header_of_packet by done. cbn [hdr_pkt_type packet_header].
  rewrite bool_decide_false, bool_decide_true by done. unfold dispatch_setup3, locked. cbn [run_proc hdr_session_id packet_header].
  assert (copy_setup sid s = (Ok (Z.of_nat i, pending), s)) as ->.
  { unfold copy_setup, on_sessions. pstep. rewrite Es. destruct (find_setup_run _ sid Ht') as (r & Er & Hr). pstep by Er.
    assert (<[i := Slot_setup pending]> t !! i = Some (Slot_setup pending)) as Hii by (by apply list_lookup_insert_eq).
    apply first_index_cases in Hr as [[-> Hf']|(j & e & -> & He & Hpj & _)].
    - rewrite list.Forall_lookup in Hf'. specialize (Hf' _ _ Hii). cbn in Hf'. by rewrite Hps, memeq_refl in Hf'.
    - assert (j = i) as ->.
      { apply list_lookup_insert_Some in He as [(<- & _ & _)|[_ He]]; [done|]. exfalso. destruct e; try discriminate Hpj.
        unfold is_setup in Hpj. bool_to_prop. by eapply Hother. }
      rewrite (proj2 (Z.ltb_ge _ _)), Nat2Z.id by lia. cbn [negb]. pstep. pstep by (read_slot_run _ _ _ He).
      rewrite Hii in He. injection He as <-. cbn. rewrite <- Es. by destruct s. }
  cbn [hdr_seq packet_header]. rewrite Eh. unfold locked. cbn [run_proc]. unfold and_then. rewrite Ep.
  rewrite bind_run. unfold release, on_sessions, ignore. rewrite Et, Es, release_run by (done || (unfold table_wf in Ht; lia)).
  cbn [lift finish run_proc]. by rewrite list_insert_insert_eq.
Qed.

(** Two packets, one after the other in the same buffer, are answered by these, and
    leave such a state. *)
Definition answers_both (d1 d3 : draws) (p1 p2 p3 p4 out : bytes) (s : server_state_t) (Q : server_state_t → Prop) : Prop :=
  ∃ out1 s1 out2 s2,
    run_proc (dispatch cfg d1 p1 out) s = (Some (out1, length p2), s1) ∧ length p2 ≤ length out1 ∧ take (length p2) out1 = p2 ∧
    run_proc (dispatch cfg d3 p3 out1) s1 = (Some (out2, length p4), s2) ∧ length p4 ≤ length out2 ∧ take (length p4) out2 = p4 ∧
    Q s2.

(** Packets that fit a datagram. *)
Definition sendable (p : bytes) : Prop := 0 < length p ≤ AUTH_MAX_DATAGRAM.

(** A connection thread that reads the two packets. *)
Lemma serve_both ds p1 p2 p3 p4 c so out s Q :
  open_conn c → smooth so → Forall sendable [p1; p2; p3; p4] → answers_both (ds 2) (ds 1) p1 p2 p3 p4 out s Q →
  so_incoming so = frame p1 ++ frame p3 →
  ∃ so' s', serve cfg ds 3 (Receiving (Tcp c so) out) s = Some (Tcp {| tc_fd := -1 |} so', s') ∧
    so_sent so' = so_sent so ++ frame p2 ++ frame p4 ∧ Q s'.
Proof.
  intros Hc Hsm Hf (out1 & s1 & out2 & s2 & Er1 & Hn1 & Et1 & Er2 & Hn2 & Et2 & HQ) Hi.
  rewrite !list.Forall_cons in Hf. destruct Hf as ([_ F1] & [P2 F2] & [_ F3] & [P4 F4] & _).
  destruct (serve_turn cfg ds 2 c so out s _ _ out1 _ _ Hc Hsm Hi F1 Er1 P2 Hn1 F2) as (so1 & -> & Hsm1 & Hi1 & Hs1).
  destruct (serve_turn cfg ds 1 c so1 out1 s1 _ [] out2 _ _ Hc Hsm1 ltac:(by rewrite app_nil_r) F3 Er2 P4 Hn2 F4)
    as (so2 & -> & Hsm2 & Hi2 & Hs2).
  destruct (serve_eof cfg ds 0 c so2 out2 s2 Hc Hsm2 Hi2) as (so3 & -> & Hs3).
  exists so3, s2. split; [done|]. split; [by rewrite Hs3, Hs2, Hs1, Et1, Et2, <- app_assoc|done].
Qed.
End server.

(** ** The client's side *)

(** A request goes out and this answer comes back, whatever the transport. *)
Definition exchange (t : client_transport_t) (p q : bytes) (t' : client_transport_t) : Prop :=
  send_then_recv p AUTH_MAX_DATAGRAM t = (Ok q, t').

(** A TCP connection with these bytes to read that has sent these. *)
Record connected (incoming sent : bytes) (t : client_transport_t) : Prop := {
  cn_kind : t_kind t = TRANSPORT_TCP;
  cn_open : open_conn (t_tcp t);
  cn_smooth : smooth (t_tcp_socket t);
  cn_incoming : so_incoming (t_tcp_socket t) = incoming;
  cn_sent : so_sent (t_tcp_socket t) = sent
}.

Lemma exchange_tcp p q rest sent t :
  connected (frame q ++ rest) sent t → length p ≤ AUTH_MAX_DATAGRAM → length q ≤ AUTH_MAX_DATAGRAM →
  ∃ t', exchange t p q t' ∧ connected rest (sent ++ frame p) t'.
Proof.
  intros [Hk Ho Hs Hi Hsent] Hp Hq. unfold exchange, send_then_recv. mstep. rewrite Hk, bool_decide_false by done. cbn [attempts].
  rewrite bind_run. unfold transport_send, transport_recv, on_timeout. mstep. rewrite Hk, bool_decide_false by done. unfold on_tcp at 1.
  destruct (tcp_send_run (t_tcp t) p (t_tcp_socket t) Ho Hp) as [Hin Hsm Hr].
  destruct (auth_tcp_send _ _ (t_tcp_socket t)) as [o so1]. cbn [fst snd] in *. destruct Hr as [[-> E]|[? _]]; [|done].
  cbn [mbind M_bind]. rewrite bind_run. cbn [get t_kind]. rewrite Hk, bool_decide_false by done. unfold on_tcp. cbn [t_tcp t_tcp_socket].
  destruct (recv_ok (t_tcp t) AUTH_MAX_DATAGRAM TIMEOUT_MS so1 q rest) as (so2 & -> & Hs2 & Hi2 & Hsent2);
    [done|auto|congruence|by split|]. eexists. split; [reflexivity|].
  constructor; cbn; [done|done|done|done|]. by rewrite Hsent2, E, Hsent.
Qed.

Section client.
Context {NaCl : Sodium} {HS : SodiumSpec NaCl}.

Definition token_of (a : args_t) : bytes := default [] (a_pairing_token a).

Lemma build_setup1_token a nonce wb s :
  auth_client_build_setup1 nonce wb (a_pairing_token a) (match a_pairing_token a with Some t => length t | None => 0 end) s =
  auth_client_build_setup1 nonce wb (Some (token_of a)) (length (token_of a)) s.
Proof. unfold token_of. by destruct (a_pairing_token a). Qed.

(** [out_len = build(...); in = round_trip(out_len); k]. *)
Lemma request m p q c' s t' :
  exchange (cs_net s) p q t' → is_n AUTH_MAX_DATAGRAM (cs_out s) → length (m (cs_ctx s, cs_out s)).2.2 = AUTH_MAX_DATAGRAM →
  send_from (cs_out s) m (cs_ctx s) = Ok (p, c') →
  ∃ s', (∀ B (k : bytes → M auth_err_t client_state B),
      (out_len ← on_client m; inp ← round_trip out_len; k inp) s = k q s') ∧
    cs_net s' = t' ∧ cs_ctx s' = c' ∧ is_n AUTH_MAX_DATAGRAM (cs_out s') ∧ cs_world s' = cs_world s.
Proof.
  intros Hx Ho Hl Hm. apply send_from_inv in Hm as (out' & E & Hl' & Et). rewrite E in Hl. cbn [fst snd] in Hl.
  exists {| cs_ctx := c'; cs_out := out'; cs_net := t'; cs_world := cs_world s |}. split; [|done].
  intros B k. rewrite bind_run. unfold on_client. rewrite E. rewrite bind_run. unfold round_trip. rewrite bind_run. cbn [get cs_out].
  rewrite bind_run, loadn_ok, drop_0, Et by done. cbn [lift]. unfold on_net. cbn [cs_net]. by rewrite Hx.
Qed.

Lemma receive_run {A} (m : M auth_err_t auth_client_ctx_t unit) (k : unit → M auth_err_t client_state A) c' s :
  receive m (cs_ctx s) = Ok c' →
  (on_client (on_ctx m) ≫= k) s =
    k tt {| cs_ctx := c'; cs_out := cs_out s; cs_net := cs_net s; cs_world := cs_world s |}.
Proof.
  unfold receive. intros H. rewrite bind_run. unfold on_client, on_ctx. destruct (m (cs_ctx s)) as [[[]|e|] c1]; [|done..].
  by injection H as ->.
Qed.

Lemma packet_fits t sid seq payload :
  is_n 16 sid → is_u32 seq → length payload ≤ AUTH_MAX_PAYLOAD → length (wire_packet t sid seq payload) ≤ AUTH_MAX_DATAGRAM.
Proof. intros Hs Hq Hp. rewrite length_wire_packet by done. unfold AUTH_MAX_PAYLOAD in Hp. len. Qed.

(** The four packets of the setup exchange, as the client sends and receives them. *)
Lemma setup_handshake_run a d c p1 c1 p2 c2 p3 c3 p4 c4 s t1 t2 :
  (∀ out0, is_n AUTH_MAX_DATAGRAM out0 →
    send_from out0 (auth_client_build_setup1 (cd_nonce d) (cd_role_blind d) (Some (token_of a)) (length (token_of a))) c = Ok (p1, c1)) →
  receive (auth_client_handle_setup2 (Some p2) (a_allow_tofu a)) c1 = Ok c2 →
  (∀ out0, is_n AUTH_MAX_DATAGRAM out0 → send_from out0 (auth_client_build_setup3 (cd_setup_proof d)) c2 = Ok (p3, c3)) →
  receive (auth_client_handle_setup_ack (Some p4)) c3 = Ok c4 → is_n 32 (cd_nonce d) →
  cs_ctx s = c → ctx_sizes c → is_n AUTH_MAX_DATAGRAM (cs_out s) → exchange (cs_net s) p1 p2 t1 → exchange t1 p3 p4 t2 →
  ∃ s', setup_handshake a d s = (Ok tt, s') ∧ cs_net s' = t2 ∧ cs_ctx s' = c4 ∧ cs_world s' = cs_world s.
Proof.
  intros E1 E2 E3 E4 Hn Hc Hsz Hout X1 X2. subst c.
  specialize (E1 _ Hout). unfold send_from in E1. rewrite <- build_setup1_token in E1. fold (@send_from auth_client_ctx_t) in E1.
  change (send_from (cs_out s) (auth_client_build_setup1 (cd_nonce d) (cd_role_blind d) (a_pairing_token a)
    (match a_pairing_token a with Some t => length t | None => 0 end)) (cs_ctx s) = Ok (p1, c1)) in E1.
  assert (with_out ctx_sizes AUTH_MAX_DATAGRAM (auth_client_build_setup1 (cd_nonce d) (cd_role_blind d) (a_pairing_token a)
    (match a_pairing_token a with Some t => length t | None => 0 end) (cs_ctx s, cs_out s)).2) as [Hz1 Hl1].
  { apply build_setup1_safe; [done| |done]. destruct (a_pairing_token a) as [t|]; [right; by exists t|by left]. }
  pose proof (send_from_inv _ _ _ _ _ E1) as (o1 & Eo1 & _). rewrite Eo1 in Hz1. cbn in Hz1.
  unfold setup_handshake. destruct (request _ p1 p2 c1 s t1 X1 Hout Hl1 E1) as (s1 & Er & Ht1 & Hc1 & Hout1 & Hw1).
  rewrite Er. clear Er. rewrite <- Hc1 in E2. rewrite (receive_run _ _ _ _ E2).
  assert (ctx_sizes c2) as Hz2.
  { assert (ctx_sizes (cs_ctx s1)) as Hz by (by rewrite Hc1). pose proof (handle_setup2_safe (Some p2) (a_allow_tofu a) (cs_ctx s1) Hz) as [_ Hk].
    unfold receive in E2. destruct (auth_client_handle_setup2 _ _ _) as [[[]|e|] c']; [|done..]. by injection E2 as <-. }
  set (s2 := {| cs_ctx := c2; cs_out := _; cs_net := _; cs_world := _ |}).
  destruct (request (auth_client_build_setup3 (cd_setup_proof d)) p3 p4 c3 s2 t2) as (s3 & Er & Ht3 & Hc3 & Hout3 & Hw3);
    [by rewrite <- Ht1 in X2|done|by apply build_setup3_safe|by apply E3|].
  rewrite Er. clear Er. rewrite <- Hc3 in E4. unfold receive in E4. unfold on_client, on_ctx.
  destruct (auth_client_handle_setup_ack _ _) as [[[]|e|] c']; [|done..]. injection E4 as ->.
  eexists. split; [reflexivity|]. cbn. split_and!; [done|done|by rewrite Hw3].
Qed.

Lemma load_credentials_ok path fresh creds s :
  fine (cs_world s) → credentials_of (files (cs_world s) !! path) fresh creds →
  ∃ w', load_credentials path fresh s =
      (Ok creds, {| cs_ctx := cs_ctx s; cs_out := cs_out s; cs_net := cs_net s; cs_world := w' |}) ∧ untouched (cs_world s) w'.
Proof.
  intros Hf Hc. unfold load_credentials, on_files.
  destruct (creds_load_run path zero_credentials (cs_world s)) as (o & c & w' & -> & Hu & Hr & [Ho|[_ ?]]); [|done]. exists w'.
  destruct (files (cs_world s) !! path) as [x|]; cbn [credentials_of] in Hc.
  - apply encodes_creds_result in Hc. rewrite Hc in Ho, Hr. subst o. by injection Hr as ->.
  - destruct Hc as (random & -> & ->). cbn [creds_result] in Ho. subst o c. done.
Qed.

(** The context of [do_setup] when the handshake starts. *)
Definition setup_ctx (a : args_t) (d : client_draws) (creds : auth_credentials_t) (pub : bytes) : auth_client_ctx_t :=
  {| c_device_root := cr_device_root creds; c_device_id := auth_derive_device_id (cr_device_root creds);
     c_device_sk := auth_derive_device_scalar (cr_device_root creds); c_device_pub := pub;
     c_server_pub_pinned := cr_server_pub_pinned creds; c_has_pinned_server := cr_has_pinned_server creds;
     c_role_commitment := cr_role_commitment creds; c_role_blind := cr_role_blind creds;
     c_role_code := if cr_has_role creds then cr_role_code creds else a_role a; c_has_role := cr_has_role creds;
     c_session_id := cd_session_id d; c_seq := 0; c_client_nonce := zeros 32; c_eph_secret := zeros 32; c_eph_c := zeros 32;
     c_pending_client_proof := {| sp_a := zeros 32; sp_s := zeros 32 |}; c_pending_server_pub := zeros 32;
     c_pending_server_nonce := zeros 32; c_pending_setup_challenge := zeros 16; c_session_key := zeros 32;
     c_kc_th := zeros 32; c_kc_k_s2c := zeros 32; c_kc_k_c2s := zeros 32; c_auth_complete := false |}.

Lemma prepared_setup_ctx a d creds pub :
  prepared_ctx (cd_session_id d) creds (cr_has_pinned_server creds) (cr_has_role creds)
    (if cr_has_role creds then cr_role_code creds else a_role a) pub = setup_ctx a d creds pub.
Proof. reflexivity. Qed.

Definition draws_of (d : client_draws) (dr : draws) : setup_draws :=
  {| sd_client_nonce := cd_nonce d; sd_role_blind := cd_role_blind d; sd_server_nonce := dr_server_nonce dr;
     sd_challenge := dr_setup_challenge dr; sd_server_proof := dr_setup_proof dr; sd_client_proof := cd_setup_proof d |}.

(** What an enrollment needs: the right token, a role and a server key that the
    device accepts, and proofs that can be made. *)
Definition enrollment_ready (cfg : server_config) (a : args_t) (d : client_draws) (dr : draws) (creds : auth_credentials_t)
    (pub : bytes) : Prop :=
  keypair (sc_server_sk cfg) (sc_server_pub cfg) ∧
  auth_scalarmult_base (auth_derive_device_scalar (cr_device_root creds)) = Ok pub ∧
  (length (token_of a) ≤ AUTH_MAX_PAIRING_TOKEN ∧
    (sc_require_pairing_token cfg = None ∨ sc_require_pairing_token cfg = Some (token_of a))) ∧
  role_available (cd_role_blind d) (setup_ctx a d creds pub) ∧
  pin_accepted (sc_server_pub cfg) (a_allow_tofu a) (setup_ctx a d creds pub) ∧
  good_proof (auth_prove_setup_server (dr_setup_proof dr) (sc_server_sk cfg)
      (auth_derive_device_id (cr_device_root creds)) pub (sc_server_pub cfg) (cd_nonce d) (dr_server_nonce dr) (dr_setup_challenge dr))
    (λ c, setup_server_challenge (auth_derive_device_id (cr_device_root creds)) pub (sc_server_pub cfg) c (cd_nonce d)
      (dr_server_nonce dr) (dr_setup_challenge dr)) ∧
  good_proof (auth_prove_setup_client (cd_setup_proof d) (auth_derive_device_scalar (cr_device_root creds))
      (auth_derive_device_id (cr_device_root creds)) pub (sc_server_pub cfg) (cd_nonce d) (dr_server_nonce dr) (dr_setup_challenge dr))
    (λ c, setup_client_challenge (auth_derive_device_id (cr_device_root creds)) pub (sc_server_pub cfg) c (cd_nonce d)
      (dr_server_nonce dr) (dr_setup_challenge dr)).

Lemma setup_ctx_wf a d creds pub :
  inputs_wf a d → creds_wf creds → auth_scalarmult_base (auth_derive_device_scalar (cr_device_root creds)) = Ok pub →
  ctx_wf (setup_ctx a d creds pub) ∧ ctx_sizes (setup_ctx a d creds pub).
Proof.
  intros [_ Hsid _ _ Hrole _] Hw Hp. assert (keypair (auth_derive_device_scalar (cr_device_root creds)) pub) as Hk.
  { split; [apply reduce_canonical|done]. }
  pose proof (keypair_point _ _ Hk) as [Hl _]. destruct Hw.
  split; constructor; cbn; try done; try apply length_generichash. by destruct (cr_has_role creds).
Qed.

(** An enrolled device. *)
Record enrolled_device_ready (cfg : server_config) (creds : auth_credentials_t) (pub : bytes) : Prop := {
  er_pinned : cr_has_pinned_server creds = true ∧ cr_server_pub_pinned creds = sc_server_pub cfg;
  er_role : cr_has_role creds = true;
  er_opening : commits_to (cr_role_commitment creds) (cr_role_code creds) (cr_role_blind creds) ∧ canonical (cr_role_blind creds);
  er_pub : auth_scalarmult_base (auth_derive_device_scalar (cr_device_root creds)) = Ok pub
}.

(** The credentials of the device after its enrollment. *)
Definition enrolled_creds (cfg : server_config) (a : args_t) (d : client_draws) (creds : auth_credentials_t) (pub : bytes) :
    auth_credentials_t :=
  let '(commitment, blind, code) := chosen_role (cd_nonce d) (cd_role_blind d) (setup_ctx a d creds pub) in
  {| cr_device_root := cr_device_root creds; cr_has_pinned_server := true; cr_server_pub_pinned := sc_server_pub cfg;
     cr_has_role := true; cr_role_commitment := commitment; cr_role_blind := blind; cr_role_code := code |}.

(** The whole exchange of an enrollment, as packets. *)
Lemma enrollment_packets cfg a d dr creds pub pending :
  inputs_wf a d → creds_wf creds → draws_ok dr → enrollment_ready cfg a d dr creds pub →
  ∃ c1 c2 pending', let sd := draws_of d dr in let c := setup_ctx a d creds pub in
    opens (sc_server_sk cfg) (sc_server_pub cfg) (sc_require_pairing_token cfg) (token_of a) (a_allow_tofu a) sd c pending c1 pending' ∧
    closes sd c1 pending' c2 ∧ enrolled c2 pending' (sc_server_pub cfg) ∧
    c_session_id c1 = cd_session_id d ∧ c_session_id c2 = cd_session_id d ∧ c_device_id c2 = auth_derive_device_id (cr_device_root creds) ∧
    c_device_pub c2 = pub ∧ enroll_credentials creds c2 = enrolled_creds cfg a d creds pub.
Proof.
  intros Hin Hw [Hd1 Hd2 _] (Hk & Hp & [Ht Hreq] & Hrole & Hpin & Hgs & Hgc). pose proof Hin as [_ _ Hn _ _ _].
  destruct (setup_ctx_wf a d creds pub Hin Hw Hp) as [Hc _].
  destruct (setup_open_run (sc_server_sk cfg) (sc_server_pub cfg) (sc_require_pairing_token cfg) (token_of a) (a_allow_tofu a)
    (draws_of d dr) (setup_ctx a d creds pub) pending) as (c1 & p & Ho & He & Hop); [done..|].
  pose proof (setup_close_run _ _ (draws_of d dr) _ c1 p Hc Hk ltac:(done) He Hop Hgc) as Hcl.
  pose proof (op_identity _ _ _ _ _ Hop) as (I1 & I2 & _ & I4).
  exists c1, (set_seq (u32 (c_seq c1 + 1)) c1), p. cbv zeta. pose proof (en_pinned _ _ _ He) as [_ Hpp].
  split_and!; [done|done| |done..|]; [by destruct He as [? ? ? ? ? ?]|].
  unfold enrolled_creds. change (cd_nonce d) with (sd_client_nonce (draws_of d dr)). change (cd_role_blind d) with (sd_role_blind (draws_of d dr)).
  rewrite <- (op_role _ _ _ _ _ Hop). unfold enroll_credentials, role_fields. cbn. by rewrite <- Hpp.
Qed.
End client.

(** ** Enrollment *)

(** The socket with these bytes on their way and nothing sent yet. *)
Definition stream (incoming : bytes) (s : socket) : socket :=
  {| so_incoming := incoming; so_sent := []; so_polls := so_polls s; so_answers := so_answers s |}.

Definition over (incoming : bytes) (s : client_state) : client_state :=
  {| cs_ctx := cs_ctx s; cs_out := cs_out s;
     cs_net := {| t_kind := t_kind (cs_net s); t_udp := t_udp (cs_net s); t_tcp := t_tcp (cs_net s);
                  t_udp_socket := t_udp_socket (cs_net s); t_tcp_socket := stream incoming (t_tcp_socket (cs_net s)) |};
     cs_world := cs_world s |}.

Definition sent_by (s : client_state) : bytes := so_sent (t_tcp_socket (cs_net s)).

Lemma stream_smooth x s : smooth s → smooth (stream x s).
Proof. by intros [? ?]. Qed.

(** A client on a system whose file operations work. *)
Record client_able (a : args_t) (s : client_state) : Prop := {
  ca_out : is_n AUTH_MAX_DATAGRAM (cs_out s);
  ca_fine : fine (cs_world s);
  ca_path : length (cred_path a) + 4 < 512
}.

(** ... with a TCP connection. *)
Record client_ready (a : args_t) (s : client_state) : Prop := {
  cy_able : client_able a s;
  cy_kind : t_kind (cs_net s) = TRANSPORT_TCP;
  cy_open : open_conn (t_tcp (cs_net s));
  cy_smooth : smooth (t_tcp_socket (cs_net s))
}.

(** Its two requests are answered over the connection. *)
Lemma ready_exchanges a s p1 p2 p3 p4 :
  client_ready a s → Forall sendable [p1; p2; p3; p4] →
  ∃ t1 t2, exchange (cs_net (over (frame p2 ++ frame p4) s)) p1 p2 t1 ∧ exchange t1 p3 p4 t2 ∧
    so_sent (t_tcp_socket t2) = frame p1 ++ frame p3.
Proof.
  intros [_ Hk Ho Hs] Hf. rewrite !list.Forall_cons in Hf. destruct Hf as ([_ F1] & [_ F2] & [_ F3] & [_ F4] & _).
  destruct (exchange_tcp p1 p2 (frame p4 ++ []) [] (cs_net (over (frame p2 ++ frame p4) s))) as (t1 & X1 & H1); [|done..|].
  { rewrite app_nil_r. by constructor; [| |by apply stream_smooth| |]. }
  destruct (exchange_tcp p3 p4 [] _ t1 H1) as (t2 & X2 & H2); [done..|]. exists t1, t2. split; [done|]. split; [done|].
  by rewrite (cn_sent _ _ _ H2).
Qed.

(** A server with room for this device and this session, on a system that works. *)
Record server_ready (session_id device_id : bytes) (s : server_state_t) : Prop := {
  sy_registry : registry_wf (sv_registry s);
  sy_room : has_room device_id (sv_registry s);
  sy_path : rg_path (sv_registry s) ≠ [];
  sy_fine : fine (sv_world s);
  sy_table : table_wf (sv_sessions s);
  sy_free : Slot_free ∈ sv_sessions s;
  sy_other : ∀ j p, sv_sessions s !! j = Some (Slot_setup p) → ps_session_id p ≠ session_id
}.

Section enrollment.
Context {NaCl : Sodium} {HS : SodiumSpec NaCl} (cfg : server_config).

(** The server with the two packets of an enrollment. *)
Lemma answers_setup d1 d3 sid seq1 seq3 payload1 payload3 packet2 packet4 pending out s :
  is_n AUTH_MAX_DATAGRAM out → is_n 32 (sc_server_pub cfg) → draws_ok d1 → is_n 16 sid → is_u32 seq1 → is_u32 seq3 →
  server_ready sid (ps_device_id pending) s → setup_sizes pending → ps_session_id pending = sid →
  (∀ out0, is_n AUTH_MAX_DATAGRAM out0 →
    send_from out0 (auth_server_handle_setup1 sid seq1 (Some payload1) (sc_server_sk cfg) (sc_server_pub cfg)
      (sc_require_pairing_token cfg) (dr_server_nonce d1) (dr_setup_challenge d1) (dr_setup_proof d1))
      zero_pending_setup = Ok (packet2, pending)) →
  (∀ out0, is_n AUTH_MAX_DATAGRAM out0 →
    reply_from out0 (auth_server_handle_setup3 pending sid seq3 (Some payload3)) = Ok packet4) →
  answers_both cfg d1 d3 (wire_packet AUTH_PKT_SETUP_1 sid seq1 payload1) packet2 (wire_packet AUTH_PKT_SETUP_3 sid seq3 payload3)
    packet4 out s (device_added (ps_device_id pending) (ps_device_pub pending) (ps_role_commitment pending) s).
Proof.
  intros Hout Hpub Hd Hsid Hq1 Hq3 [R1 R2 R3 R4 R5 R6 R7] Hsz Hps E1 E3.
  destruct (dispatch_setup1_run cfg d1 sid seq1 payload1 out s packet2 pending) as (i & out1 & Hfree & Ho1 & Hn1 & Et1 & Er1);
    [done..|by apply E1|]. set (t := sv_sessions s) in *. set (s1 := with_sessions _ s) in *.
  destruct (dispatch_setup3_run cfg d3 i sid seq3 payload3 out1 t s1 packet4 pending) as
    (out2 & s2 & Ho2 & Hn2 & Et2 & Er2 & Hadd); [done..|by eapply lookup_lt_Some|done|done|done|done|done|done|done|done|by apply E3|].
  exists out1, s1, out2, s2. split_and!; try done. rewrite list_insert_id in Hadd by done. by destruct Hadd.
Qed.

Lemma ack_fits : length [AUTH_ACK_BYTE] ≤ AUTH_MAX_PAYLOAD.
Proof. cbn. unfold AUTH_MAX_PAYLOAD. lia. Qed.

Lemma packet_sendable t sid seq payload :
  is_n 16 sid → is_u32 seq → length payload ≤ AUTH_MAX_PAYLOAD → sendable (wire_packet t sid seq payload).
Proof.
  intros. split; [|by apply packet_fits]. rewrite length_wire_packet by done. unfold AUTH_HEADER_LEN. lia.
Qed.

(** [do_setup] up to the handshake. *)
Lemma do_setup_start a d creds pub s :
  fine (cs_world s) → credentials_of (files (cs_world s) !! cred_path a) (Some (cd_root d)) creds →
  auth_scalarmult_base (auth_derive_device_scalar (cr_device_root creds)) = Ok pub →
  ∃ w', untouched (cs_world s) w' ∧
    do_setup a d s = (setup_handshake a d;; s' ← get;
        on_files (auth_creds_save (Some (enroll_credentials creds (cs_ctx s'))) (Some (cred_path a))))
      {| cs_ctx := setup_ctx a d creds pub; cs_out := cs_out s; cs_net := cs_net s; cs_world := w' |}.
Proof.
  intros Hf Hc Hp. destruct (load_credentials_ok _ _ _ s Hf Hc) as (w' & E & Hu). exists w'. split; [done|].
  unfold do_setup. rewrite bind_run, E. rewrite bind_run. unfold prepare_ctx. rewrite bind_run.
  cbn [on_client on_ctx put cs_ctx cs_out cs_net cs_world]. rewrite bind_run, Hp. cbn [lift]. rewrite bind_run.
  cbn [on_client on_ctx modify cs_ctx cs_out cs_net cs_world]. rewrite <- prepared_setup_ctx. reflexivity.
Qed.

(** The client's side of an enrollment. *)
Lemma do_setup_run a d creds pub p1 c1 p2 c2 p3 c3 p4 s t1 t2 :
  inputs_wf a d → creds_wf creds → client_able a s →
  credentials_of (files (cs_world s) !! cred_path a) (Some (cd_root d)) creds →
  auth_scalarmult_base (auth_derive_device_scalar (cr_device_root creds)) = Ok pub →
  (∀ out0, is_n AUTH_MAX_DATAGRAM out0 →
    send_from out0 (auth_client_build_setup1 (cd_nonce d) (cd_role_blind d) (Some (token_of a)) (length (token_of a)))
      (setup_ctx a d creds pub) = Ok (p1, c1)) →
  receive (auth_client_handle_setup2 (Some p2) (a_allow_tofu a)) c1 = Ok c2 →
  (∀ out0, is_n AUTH_MAX_DATAGRAM out0 → send_from out0 (auth_client_build_setup3 (cd_setup_proof d)) c2 = Ok (p3, c3)) →
  receive (auth_client_handle_setup_ack (Some p4)) c3 = Ok c3 →
  creds_wf (enroll_credentials creds c3) → exchange (cs_net s) p1 p2 t1 → exchange t1 p3 p4 t2 →
  ∃ s', do_setup a d s = (Ok tt, s') ∧ cs_net s' = t2 ∧
    files (cs_world s') !! cred_path a = Some (cred_image (enroll_credentials creds c3)).
Proof.
  intros Hin Hw [Y1 Y2 Y3] Hc Hp E1 E2 E3 E4 Hnew X1 X2. pose proof Hin as [_ _ Hn _ _ _].
  destruct (do_setup_start a d creds pub s Y2 Hc Hp) as (w1 & (Hf1 & _ & Hfine) & ->).
  set (s1 := {| cs_ctx := setup_ctx a d creds pub; cs_out := _; cs_net := _; cs_world := w1 |}).
  destruct (setup_handshake_run a d (setup_ctx a d creds pub) p1 c1 p2 c2 p3 c3 p4 c3 s1 t1 t2 E1 E2 E3 E4 Hn eq_refl
    (proj2 (setup_ctx_wf a d creds pub Hin Hw Hp)) Y1 X1 X2) as (s2 & E & Ht & Hc2 & Hw2).
  rewrite bind_run, E. mstep. unfold on_files. rewrite Hc2, Hw2, creds_save_run by done.
  pose proof (write_atomic (cred_path a) (cred_image (enroll_credentials creds c3)) (cs_world s1)) as Ha.
  destruct (atomic_write _ _ (cs_world s1)) as [o w']. destruct Ha as (_ & _ & Ho & Hok).
  assert (o = Ok tt) as -> by (apply Hok; [by apply Hfine|done]). eexists. split; [reflexivity|]. split; [done|apply Ho].
Qed.
End enrollment.

#[global] Hint Resolve ack_fits : core.

(** What the server keeps of a SETUP_1 that it answers has fields of the sizes of the structure. *)
Lemma pending_sizes {NaCl : Sodium} {HS : SodiumSpec NaCl} sid seq payload sk pub required n chal proof p pending' out0 packet :
  is_n 16 sid → is_u32 seq → is_n 32 pub → is_n 32 n → is_n 16 chal → setup_sizes p → is_n AUTH_MAX_DATAGRAM out0 →
  send_from out0 (auth_server_handle_setup1 sid seq (Some payload) sk pub required n chal proof) p = Ok (packet, pending') →
  setup_sizes pending'.
Proof.
  intros Hsid Hseq Hpub Hn Hch Hp Ho H. apply send_from_inv in H as (out' & E & _).
  destruct (handle_setup1_safe AUTH_MAX_DATAGRAM sid seq (Some payload) sk pub required n chal proof Hsid Hseq Hpub Hn Hch
    (p, out0)) as [_ [Hz _]]; [by split|]. by rewrite E in Hz.
Qed.

Lemma enroll_creds_wf {NaCl : Sodium} {HS : SodiumSpec NaCl} creds c pending pub :
  creds_wf creds → is_n 32 pub → enrolled c pending pub → creds_wf (enroll_credentials creds c).
Proof.
  intros [] Hp [[_ Hpub] (Hco & [? _] & ? & _) _ _ _ _].
  constructor; cbn; [done|by rewrite Hpub|by eapply length_commits_to|done|done].
Qed.

(** The two sides of an enrollment, whatever carries their packets: the client sends
    [p1] and [p3] and completes when it gets [p2] and [p4], with which the server answers. *)
Lemma enrollment_sides {NaCl : Sodium} {HS : SodiumSpec NaCl} cfg a d dr creds pub :
  inputs_wf a d → draws_ok dr → creds_wf creds → enrollment_ready cfg a d dr creds pub →
  let new := enrolled_creds cfg a d creds pub in
  let id := auth_derive_device_id (cr_device_root creds) in
  creds_wf new ∧ enrolled_device_ready cfg new pub ∧
  ∃ p1 p2 p3 p4, Forall sendable [p1; p2; p3; p4] ∧
    (∀ s t1 t2, client_able a s → credentials_of (files (cs_world s) !! cred_path a) (Some (cd_root d)) creds →
      exchange (cs_net s) p1 p2 t1 → exchange t1 p3 p4 t2 →
      ∃ s', do_setup a d s = (Ok tt, s') ∧ cs_net s' = t2 ∧ files (cs_world s') !! cred_path a = Some (cred_image new)) ∧
    ∀ d3 out s, is_n AUTH_MAX_DATAGRAM out → server_ready (cd_session_id d) id s →
      answers_both cfg dr d3 p1 p2 p3 p4 out s (device_added id pub (cr_role_commitment new) s).
Proof.
  intros Hin Hd Hw Her new id.
  destruct (enrollment_packets cfg a d dr creds pub zero_pending_setup Hin Hw Hd Her) as
    (c1 & c2 & pending & (pl1 & pl2 & c0 & L1 & L2 & E1 & E2 & E3) & (pl3 & L3 & E4 & E5 & E6) & Hen & I1 & I1' & I2 & I3 & I4).
  destruct Her as (Hk & Hp & _). pose proof Hin as [_ Hsid _ _ _ _].
  pose proof (keypair_point _ _ Hk) as [Hpubl _]. pose proof Hd as [Hd1 Hd2 _].
  assert (c_session_id (setup_ctx a d creds pub) = cd_session_id d) as I0 by reflexivity.
  assert (is_u32 (u32 (c_seq (setup_ctx a d creds pub) + 1))) as Hq1 by apply is_u32_u32.
  assert (is_u32 (u32 (c_seq c1 + 1))) as Hq3 by apply is_u32_u32.
  rewrite I0 in E1, E2, E3. rewrite I1 in E4, E5, E6. revert Hq1 Hq3 E1 E2 E3 E4 E5 E6.
  generalize (u32 (c_seq (setup_ctx a d creds pub) + 1)), (u32 (c_seq c1 + 1)). intros q1 q3 Hq1 Hq3 E1 E2 E3 E4 E5 E6.
  assert (setup_sizes pending) as Hsz
    by (eapply pending_sizes; [.. |apply E2, is_n_zeros]; (exact zero_setup_sizes || apply is_n_zeros || done)).
  pose proof (enroll_creds_wf _ _ _ _ Hw Hpubl Hen) as Hnew.
  assert (enrolled_device_ready cfg (enroll_credentials creds c2) pub) as Hready.
  { pose proof Hen as [[_ Epin] (Hco & Hcan & _) _ _ _ _]. by constructor. }
  pose proof Hen as [_ _ Esid [Edid Edpub] Ecm _]. rewrite I1' in Esid. rewrite I2 in Edid. rewrite I3 in Edpub.
  rewrite I4 in Hnew, Hready. fold new in I4, Hnew, Hready.
  assert (c_role_commitment c2 = cr_role_commitment new) as Ecom by (by rewrite <- I4). rewrite Ecom in Ecm.
  split; [done|]. split; [done|].
  exists (wire_packet AUTH_PKT_SETUP_1 (cd_session_id d) q1 pl1), (wire_packet AUTH_PKT_SETUP_2 (cd_session_id d) q1 pl2),
    (wire_packet AUTH_PKT_SETUP_3 (cd_session_id d) q3 pl3), (wire_packet AUTH_PKT_SETUP_ACK (cd_session_id d) q3 [AUTH_ACK_BYTE]).
  split; [repeat apply List.Forall_cons; [by apply packet_sendable..|apply List.Forall_nil]|]. split.
  - intros s t1 t2 Hable Hc X1 X2.
    destruct (do_setup_run a d creds pub _ c0 _ c1 _ c2 _ s t1 t2 Hin Hw Hable Hc Hp E1 E3 E4 E6 (eq_ind_r creds_wf Hnew I4) X1 X2)
      as (s' & Er & Ht & Hf). exists s'. by rewrite <- I4.
  - intros d3 out s Hout Hs. unfold id in *. rewrite <- Edid in Hs.
    pose proof (answers_setup cfg dr d3 (cd_session_id d) q1 q3 pl1 pl3 _ _ pending out s Hout Hpubl Hd Hsid Hq1 Hq3 Hs Hsz Esid E2 E5) as H.
    by rewrite Edid, Edpub, Ecm in H.
Qed.

(** An enrollment over TCP completes, from the program of the device to the
    program of the server: whatever either system does to the transfers short of a
    failure or a timeout, and for all draws whose proofs can be made, there are runs
    of [do_setup] and of the server's connection thread, each reading what the other
    writes, that both succeed.  The device's credential file then has the server's key
    pinned and the opening of a role commitment, and the server's state has changed by
    the device with its key and this commitment. *)
Theorem enrollment_over_tcp {NaCl : Sodium} {HS : SodiumSpec NaCl} cfg a d ds creds pub cs sv c so out :
  inputs_wf a d → draws_ok (ds 2) →
  credentials_of (files (cs_world cs) !! cred_path a) (Some (cd_root d)) creds → enrollment_ready cfg a d (ds 2) creds pub →
  client_ready a cs → server_ready (cd_session_id d) (auth_derive_device_id (cr_device_root creds)) sv →
  open_conn c → smooth so → is_n AUTH_MAX_DATAGRAM out →
  let new := enrolled_creds cfg a d creds pub in
  creds_wf new ∧ enrolled_device_ready cfg new pub ∧
  ∃ replies cs' so' sv',
    do_setup a d (over replies cs) = (Ok tt, cs') ∧
    serve cfg ds 3 (Receiving (Tcp c (stream (sent_by cs') so)) out) sv = Some (Tcp {| tc_fd := -1 |} so', sv') ∧
    so_sent so' = replies ∧ files (cs_world cs') !! cred_path a = Some (cred_image new) ∧
    device_added (auth_derive_device_id (cr_device_root creds)) pub (cr_role_commitment new) sv sv'.
Proof.
  intros Hin Hd Hc Her Hcl Hsv Hconn Hso Hout new.
  assert (creds_wf creds) as Hw by (eapply credentials_wf; [|exact Hc]; intros ? [= <-]; apply Hin).
  destruct (enrollment_sides cfg a d (ds 2) creds pub Hin Hd Hw Her) as (Hnew & Hready & p1 & p2 & p3 & p4 & Hf & Hclient & Hserver).
  split; [done|]. split; [done|].
  destruct (ready_exchanges a cs p1 p2 p3 p4 Hcl) as (t1 & t2 & X1 & X2 & Hsent); [done|].
  pose proof Hcl as [[Y1 Y2 Y3] _ _ _].
  destruct (Hclient (over (frame p2 ++ frame p4) cs) t1 t2 (Build_client_able a (over _ cs) Y1 Y2 Y3) Hc X1 X2) as (cs' & Er & Ht & Hfile).
  rewrite <- Ht in Hsent. change (so_sent (t_tcp_socket (cs_net cs'))) with (sent_by cs') in Hsent.
  destruct (serve_both cfg ds p1 p2 p3 p4 c (stream (sent_by cs') so) out sv _ Hconn (stream_smooth _ _ Hso) Hf
    (Hserver (ds 1) out sv Hout Hsv) Hsent) as (so' & sv' & Es & Hso' & Hadd).
  by exists (frame p2 ++ frame p4), cs', so', sv'.
Qed.

(** ** A run with the toy group *)
Definition sample_pub : bytes := Eval vm_compute in
  match auth_scalarmult_base (NaCl := Toy.sodium) (auth_derive_device_scalar (NaCl := Toy.sodium) (replicate 32 Byte.x01)) with
  | Ok p => p
  | _ => []
  end.

Lemma sample_enrollment_ready :
  enrollment_ready (NaCl := Toy.sodium) sample_cfg sample_args sample_client_draws sample_draws sample_fresh sample_pub.
Proof.
  split_and!.
  - split; [split; reflexivity|vm_compute; reflexivity].
  - vm_compute. reflexivity.
  - apply Nat.leb_le. reflexivity.
  - left. reflexivity.
  - eexists. vm_compute. reflexivity.
  - reflexivity.
  - eexists _, _. split; [vm_compute; reflexivity|]. split; [vm_compute; reflexivity|]. split; vm_compute; discriminate.
  - eexists _, _. split; [vm_compute; reflexivity|]. split; [vm_compute; reflexivity|]. split; vm_compute; discriminate.
Qed.
