(* ===== verification/EndToEndAuth.v ===== *)
(** An authentication: [do_auth] of [bin/client.c] and a connection thread of
    [bin/server.c], with the scan of the registry for the device that sent AUTH_1.

    As in [EndToEnd], first whatever carries the packets ([authentication_sides]), then
    over TCP, each side reading what the other writes ([authentication_over_tcp]). *)
From stdpp Require Import gmap.
From S2P Require Export EndToEnd.

(** ** The guarded handler *)
Section guard.
Context {NaCl : Sodium} {HS : SodiumSpec NaCl}.

Lemma guarded_start sid seq a1 ssk spub f roles we nonce wide c s :
  cache_wf c → auth1_wf a1 → (key_of a1 ∉ window c) →
  auth_server_handle_auth1_guarded sid seq (Some (wire_auth1 a1)) ssk spub (Some f) (Some roles) we nonce wide (c, s) =
    (out_len ← on_rest (auth_server_handle_auth1 sid seq (Some (wire_auth1 a1)) ssk spub (Some f) (Some roles) we nonce wide);
     inserted ← on_cache (auth_replay_cache_insert (Some (key_of a1)));
     if (inserted : bool) then mret out_len
     else on_rest (on_ctx (put zero_pending_auth));; fail AUTH_ERR_REPLAY_DETECTED) (c, s).
Proof.
  intros Hc Hw Hk. unfold auth_server_handle_auth1_guarded. do 3 pstep.
  pstep by (proj2 (codec_decode (decode := auth_auth1_decode) _ _) (conj Hw eq_refl)). cbv zeta. pstep.
  fold (key_of a1). pstep by (contains_run c (key_of a1) Hc). unfold Window.mem. rewrite bool_decide_false by done. by pstep.
Qed.

Lemma guarded_accepts sid seq a1 ssk spub f roles we nonce wide c s n s' :
  cache_wf c → auth1_wf a1 → (key_of a1 ∉ window c) →
  auth_server_handle_auth1 sid seq (Some (wire_auth1 a1)) ssk spub (Some f) (Some roles) we nonce wide s = (Ok n, s') →
  ∃ c', auth_server_handle_auth1_guarded sid seq (Some (wire_auth1 a1)) ssk spub (Some f) (Some roles) we nonce wide (c, s) =
      (Ok n, (c', s')) ∧ cache_wf c' ∧ window c' = (Window.insert (key_of a1) (window c)).2.
Proof.
  intros Hc Hw Hk Hh. rewrite guarded_start by done. rewrite bind_run. cbn [on_rest]. rewrite Hh. cbv beta iota. rewrite bind_run.
  cbn [on_cache]. pose proof (insert_refines c (key_of a1) Hc) as Hi.
  destruct (auth_replay_cache_insert (Some (key_of a1)) c) as [oi c1]. destruct Hi as (Hc1 & -> & Ew). exists c1.
  assert ((Window.insert (key_of a1) (window c)).1 = true) as Ei.
  { unfold Window.insert, Window.mem. by rewrite bool_decide_false. }
  by rewrite Ei.
Qed.

Lemma guarded_refuses sid seq a1 ssk spub f roles we nonce wide c s e :
  cache_wf c → auth1_wf a1 → (key_of a1 ∉ window c) → auth1_checks a1 spub f roles = Err e →
  auth_server_handle_auth1_guarded sid seq (Some (wire_auth1 a1)) ssk spub (Some f) (Some roles) we nonce wide (c, s) =
    (Err e, (c, s)).
Proof.
  intros Hc Hw Hk Hck. rewrite guarded_start by done. rewrite bind_run. cbn [on_rest].
  assert (auth_server_handle_auth1 sid seq (Some (wire_auth1 a1)) ssk spub (Some f) (Some roles) we nonce wide s = (Err e, s)) as ->;
    [|done].
  unfold auth_server_handle_auth1. do 3 pstep.
  pstep by (proj2 (codec_decode (decode := auth_auth1_decode) _ _) (conj Hw eq_refl)). by pstep by Hck.
Qed.
End guard.

(** ** The server's side *)
Section server.
Context {NaCl : Sodium} {HS : SodiumSpec NaCl} (cfg : server_config).

Definition lookup_of (e : auth_registry_entry_t) : auth_registry_lookup_fn := scan_lookup (re_device_pub e) (re_role_commitment e) true.

(** The scan goes on after this candidate. *)
Definition passed_over (a1 : auth_auth1_t) (e : auth_registry_entry_t) : Prop :=
  ∃ err, auth1_checks a1 (sc_server_pub cfg) (lookup_of e) (sc_allowed_roles cfg) = Err err ∧
    (err = AUTH_ERR_PROOF_VERIFY ∨ err = AUTH_ERR_ROLE_NOT_PERMITTED).

Definition with_cache (c : auth_replay_cache_t) (s : server_state_t) : server_state_t :=
  {| sv_registry := sv_registry s; sv_sessions := sv_sessions s; sv_replay_cache := c; sv_world := sv_world s |}.

Lemma read_device i e s :
  devices (sv_registry s) !! i = Some e → read_candidate i s = (Ok (re_device_pub e, re_role_commitment e), s).
Proof.
  intros He. apply lookup_take_Some in He as [He _]. unfold read_candidate, on_registry. pstep.
  pstep by (get_entry_run _ _ _ He). by destruct s.
Qed.

(** A packet that the handler writes for the candidate [e]. *)
Definition answers_auth1 (sid : bytes) (seq : Z) (a1 : auth_auth1_t) (d : draws) (j : nat) (e : auth_registry_entry_t)
    (packet : bytes) (pending : auth_pending_auth_t) : Prop :=
  ∀ out0, is_n AUTH_MAX_DATAGRAM out0 →
    send_from out0 (auth_server_handle_auth1 sid seq (Some (wire_auth1 a1)) (sc_server_sk cfg) (sc_server_pub cfg)
      (Some (lookup_of e)) (Some (sc_allowed_roles cfg)) (dr_eph d j) (dr_nonce d j) (dr_proof d j)) zero_pending_auth =
        Ok (packet, pending).

(** The scan finds the device behind those that do not verify the message. *)
Lemma auth1_scan_run d sid seq a1 pkt_type sl n : ∀ i last out s j e packet pending,
  is_n 16 sid → is_u32 seq → draws_ok d → is_n 32 (sc_server_pub cfg) → Forall is_u64 (sc_allowed_roles cfg) →
  is_n AUTH_MAX_DATAGRAM out → table_wf (sv_sessions s) → sv_sessions s !! sl = Some Slot_reserved →
  cache_wf (sv_replay_cache s) → auth1_wf a1 → (key_of a1 ∉ window (sv_replay_cache s)) →
  devices (sv_registry s) !! j = Some e → is_n 32 (re_device_pub e) → is_n 32 (re_role_commitment e) → i ≤ j < i + n →
  (∀ k e', i ≤ k → k < j → devices (sv_registry s) !! k = Some e' → passed_over a1 e') →
  answers_auth1 sid seq a1 d j e packet pending →
  let hdr := packet_header pkt_type sid seq in
  ∃ out' c, is_n AUTH_MAX_DATAGRAM out' ∧ length packet ≤ length out' ∧ take (length packet) out' = packet ∧
    run_proc (auth1_scan cfg d hdr (wire_auth1 a1) (Z.of_nat sl) i n last out) s =
      (Some (out', length packet), with_sessions (<[sl := Slot_auth pending]> (sv_sessions s)) (with_cache c s)) ∧
    cache_wf c ∧ window c = (Window.insert (key_of a1) (window (sv_replay_cache s))).2.
Proof.
  induction n as [|n IH]; intros i last out s j e packet pending Hsid Hseq Hd Hpub Hroles Hout Ht Hsl Hc Hw Hk He Hp Hr Hij Hpass Ha hdr;
    [lia|].
  cbn [auth1_scan]. unfold locked at 1. cbn [run_proc]. destruct (decide (i = j)) as [->|Hne].
  - rewrite (read_device j e s He). unfold locked at 1. cbn [run_proc]. unfold on_replay.
    pose proof (Ha out Hout) as Hh. apply send_from_inv in Hh as (out' & Eh & Hl & Et).
    destruct (guarded_accepts sid seq a1 _ _ _ _ _ _ _ _ _ _ _ Hc Hw Hk Eh) as (c & Eg & Hc' & Ew).
    destruct (handle_auth1_safe AUTH_MAX_DATAGRAM sid seq (Some (wire_auth1 a1)) (sc_server_sk cfg) (sc_server_pub cfg)
      (Some (lookup_of e)) (Some (sc_allowed_roles cfg)) (dr_eph d j) (dr_nonce d j) (dr_proof d j) Hsid Hseq Hpub (do_nonce _ Hd j)
      ltac:(by intros ? [= <-]) ltac:(by intros ? [= <-]) (zero_pending_auth, out)) as [_ [_ Hl']]; [by split; [apply zero_auth_sizes|]|].
    rewrite Eh in Hl'. cbn in Hl'. exists out', c. split_and!; try done.
    cbn [hdr_session_id hdr_seq packet_header hdr] in *. unfold hdr. cbn [hdr_session_id hdr_seq packet_header].
    fold (lookup_of e). rewrite Eg. unfold locked. cbn [run_proc].
    unfold activate_or_release, on_sessions, on_error. cbn [sv_sessions].
    change (auth_session_table_activate_auth (Z.of_nat sl) (Some pending)) with (activate (Z.of_nat sl) (Slot_auth pending)).
    destruct (activate_cases (sv_sessions s) (Z.of_nat sl) (Slot_auth pending) Ht) as [(k & Ek & Hk' & ->)|[Hn _]].
    + apply Nat2Z.inj in Ek as <-. done.
    + destruct Hn. by exists sl.
  - destruct (lookup_lt_is_Some_2 (devices (sv_registry s)) i) as [e' He']; [apply lookup_lt_Some in He; lia|].
    rewrite (read_device i e' s He'). unfold locked at 1. cbn [run_proc]. unfold on_replay.
    destruct (Hpass i e' ltac:(lia) ltac:(lia) He') as (err & Eck & Herr). unfold hdr. cbn [hdr_session_id hdr_seq packet_header].
    fold (lookup_of e'). rewrite (guarded_refuses sid seq a1 _ _ _ _ _ _ _ _ (zero_pending_auth, out) err Hc Hw Hk Eck).
    assert ((bool_decide (err = AUTH_ERR_PROOF_VERIFY) || bool_decide (err = AUTH_ERR_ROLE_NOT_PERMITTED)) = true) as ->
      by (by destruct Herr as [-> | ->]).
    assert ({| sv_registry := sv_registry s; sv_sessions := sv_sessions s; sv_replay_cache := sv_replay_cache s; sv_world := sv_world s |}
      = s) as -> by (by destruct s).
    apply (IH (S i) err out s j e packet pending); try done; [lia|]. intros k e'' Hk1 Hk2. apply Hpass; lia.
Qed.

Lemma dispatch_auth1_run d sid seq a1 out s j e packet pending :
  is_n 16 sid → is_u32 seq → draws_ok d → is_n 32 (sc_server_pub cfg) → Forall is_u64 (sc_allowed_roles cfg) →
  is_n AUTH_MAX_DATAGRAM out → table_wf (sv_sessions s) → Slot_free ∈ sv_sessions s → registry_wf (sv_registry s) →
  cache_wf (sv_replay_cache s) → auth1_wf a1 → (key_of a1 ∉ window (sv_replay_cache s)) →
  devices (sv_registry s) !! j = Some e →
  (∀ k e', k < j → devices (sv_registry s) !! k = Some e' → passed_over a1 e') →
  answers_auth1 sid seq a1 d j e packet pending →
  ∃ i out' c, sv_sessions s !! i = Some Slot_free ∧ is_n AUTH_MAX_DATAGRAM out' ∧ length packet ≤ length out' ∧
    take (length packet) out' = packet ∧
    run_proc (dispatch cfg d (wire_packet AUTH_PKT_AUTH_1 sid seq (wire_auth1 a1)) out) s =
      (Some (out', length packet), with_sessions (<[i := Slot_auth pending]> (sv_sessions s)) (with_cache c s)) ∧
    cache_wf c ∧ window c = (Window.insert (key_of a1) (window (sv_replay_cache s))).2.
Proof.
  intros Hsid Hseq Hd Hpub Hroles Hout Ht Hfree Hreg Hc Hw Hk He Hpass Ha. destruct (reserve_free _ Ht Hfree) as (i & Hi & Hlt & Er).
  pose proof (rw_devices _ Hreg) as Hdw. rewrite list.Forall_lookup in Hdw.
  assert (device_wf e) as [_ Hp Hr] by (apply lookup_take_Some in He as [He _]; by eapply Hdw).
  set (s1 := with_sessions (<[i := Slot_reserved]> (sv_sessions s)) s).
  assert (j < rg_n (sv_registry s)) as Hj by (apply lookup_take_Some in He; lia).
  destruct (auth1_scan_run d sid seq a1 AUTH_PKT_AUTH_1 i (rg_n (sv_registry s)) 0 AUTH_ERR_UNKNOWN_DEVICE out s1 j e packet pending)
    as (out' & c & Ho & Hl & Et & Erun & Hc' & Ew); try done; [by apply insert_wf|by apply list_lookup_insert_eq|lia| |].
  { intros k e' _. apply Hpass. }
  exists i, out', c. split_and!; try done. unfold dispatch. rewrite header_of_packet by done. cbn [hdr_pkt_type packet_header].
  rewrite bool_decide_false, bool_decide_false, bool_decide_true by done. unfold dispatch_auth1, locked. cbn [run_proc].
  unfold on_sessions at 1. rewrite Er. rewrite (proj2 (Z.ltb_ge _ _)) by lia. unfold locked. cbn [run_proc].
  unfold on_registry. pstep. cbn [sv_registry]. fold (packet_header AUTH_PKT_AUTH_1 sid seq).
  change (run_proc (auth1_scan cfg d (packet_header AUTH_PKT_AUTH_1 sid seq) (wire_auth1 a1) (Z.of_nat i) 0
    (rg_n (sv_registry s)) AUTH_ERR_UNKNOWN_DEVICE out) s1 = (Some (out', length packet),
      with_sessions (<[i := Slot_auth pending]> (sv_sessions s)) (with_cache c s))).
  rewrite Erun. unfold s1, with_sessions, with_cache. cbn. by rewrite list_insert_insert_eq.
Qed.

Lemma dispatch_auth3_run d i sid seq payload out t s packet pending :
  is_n 16 sid → is_u32 seq → is_n AUTH_MAX_DATAGRAM out → table_wf t → i < length t → pa_session_id pending = sid →
  (∀ j p, t !! j = Some (Slot_auth p) → pa_session_id p ≠ sid) → sv_sessions s = <[i := Slot_auth pending]> t →
  reply_from out (auth_server_handle_auth3 pending sid seq (Some payload)) = Ok packet →
  ∃ out', is_n AUTH_MAX_DATAGRAM out' ∧ length packet ≤ length out' ∧ take (length packet) out' = packet ∧
    run_proc (dispatch cfg d (wire_packet AUTH_PKT_AUTH_3 sid seq payload) out) s =
      (Some (out', length packet), with_sessions (<[i := Slot_free]> t) s).
Proof.
  intros Hsid Hseq Hout Ht Hi Hps Hother Es Hh. unfold reply_from in Hh.
  pose proof (handle_auth3_safe AUTH_MAX_DATAGRAM pending sid seq (Some payload) Hsid Hseq out Hout) as [_ Hl'].
  destruct (auth_server_handle_auth3 pending sid seq (Some payload) out) as [[n|e|] out'] eqn:Eh; [|done..].
  apply loadn_inv in Hh as [-> Hn]. cbn in Hl', Hn. rewrite drop_0, length_take_le by done.
  assert (table_wf (<[i := Slot_auth pending]> t)) as Ht' by (by apply insert_wf).
  exists out'. split_and!; try done.
  unfold dispatch. rewrite header_of_packet by done. cbn [hdr_pkt_type packet_header].
  rewrite bool_decide_false, bool_decide_false, bool_decide_false, bool_decide_true by done. unfold dispatch_auth3, locked.
  cbn [run_proc hdr_session_id packet_header].
  assert (copy_auth sid s = (Ok (Z.of_nat i, pending), s)) as ->.
  { unfold copy_auth, on_sessions. pstep. rewrite Es. destruct (find_auth_run _ sid Ht') as (r & Er & Hr). pstep by Er.
    assert (<[i := Slot_auth pending]> t !! i = Some (Slot_auth pending)) as Hii by (by apply list_lookup_insert_eq).
    apply first_index_cases in Hr as [[-> Hf']|(j & e & -> & He & Hpj & _)].
    - rewrite list.Forall_lookup in Hf'. specialize (Hf' _ _ Hii). cbn in Hf'. by rewrite Hps, memeq_refl in Hf'.
    - assert (j = i) as ->.
      { apply list_lookup_insert_Some in He as [(<- & _ & _)|[_ He]]; [done|]. exfalso. destruct e; try discriminate Hpj.
        unfold is_auth in Hpj. bool_to_prop. by eapply Hother. }
      rewrite (proj2 (Z.ltb_ge _ _)), Nat2Z.id by lia. cbn [negb]. pstep. pstep by (read_slot_run _ _ _ He).
      rewrite Hii in He. injection He as <-. cbn. rewrite <- Es. by destruct s. }
  cbn [hdr_seq packet_header]. rewrite Eh. unfold locked. cbn [run_proc]. unfold release, on_sessions, ignore.
  rewrite Es, release_run by (done || (unfold table_wf in Ht; lia)). cbn [then_proc run_proc]. by rewrite list_insert_insert_eq.
Qed.
End server.

(** A server with a free slot and no session of this name. *)
Record auth_server_ready (session_id : bytes) (s : server_state_t) : Prop := {
  ay_registry : registry_wf (sv_registry s);
  ay_cache : cache_wf (sv_replay_cache s);
  ay_table : table_wf (sv_sessions s);
  ay_free : Slot_free ∈ sv_sessions s;
  ay_other : ∀ j p, sv_sessions s !! j = Some (Slot_auth p) → pa_session_id p ≠ session_id
}.

Section authentication.
Context {NaCl : Sodium} {HS : SodiumSpec NaCl} (cfg : server_config).

(** What an authentication leaves of the server's state: only the replay cache has changed. *)
Record message_remembered (a1 : auth_auth1_t) (s s' : server_state_t) : Prop := {
  mr_registry : sv_registry s' = sv_registry s;
  mr_world : sv_world s' = sv_world s;
  mr_sessions : sv_sessions s' = sv_sessions s;
  mr_window : window (sv_replay_cache s') = (Window.insert (key_of a1) (window (sv_replay_cache s))).2
}.

(** The device at index [j] of the registry is the first that the message verifies for. *)
Record scanned_to (a1 : auth_auth1_t) (j : nat) (e : auth_registry_entry_t) (s : server_state_t) : Prop := {
  st_device : devices (sv_registry s) !! j = Some e;
  st_before k e' : k < j → devices (sv_registry s) !! k = Some e' → passed_over cfg a1 e';
  st_fresh : key_of a1 ∉ window (sv_replay_cache s)
}.

(** The server with the two packets of an authentication. *)
Lemma answers_auth d1 d3 sid seq1 seq3 a1 payload3 packet2 packet4 pending j e out s :
  is_n AUTH_MAX_DATAGRAM out → is_n 32 (sc_server_pub cfg) → Forall is_u64 (sc_allowed_roles cfg) →
  draws_ok d1 → is_n 16 sid → is_u32 seq1 → is_u32 seq3 → auth_server_ready sid s → auth1_wf a1 → scanned_to a1 j e s →
  pa_session_id pending = sid → answers_auth1 cfg sid seq1 a1 d1 j e packet2 pending →
  (∀ out0, is_n AUTH_MAX_DATAGRAM out0 →
    reply_from out0 (auth_server_handle_auth3 pending sid seq3 (Some payload3)) = Ok packet4) →
  answers_both cfg d1 d3 (wire_packet AUTH_PKT_AUTH_1 sid seq1 (wire_auth1 a1)) packet2
    (wire_packet AUTH_PKT_AUTH_3 sid seq3 payload3) packet4 out s (message_remembered a1 s).
Proof.
  intros Hout Hpub Hroles Hd Hsid Hq1 Hq3 [R1 R2 R3 R4 R5] Hw [He Hpass Hk] Hps E1 E3.
  destruct (dispatch_auth1_run cfg d1 sid seq1 a1 out s j e packet2 pending) as
    (i & out1 & c1 & Hfree & Ho1 & Hn1 & Et1 & Er1 & _ & Ew); [done..|]. set (t := sv_sessions s) in *.
  set (s1 := with_sessions _ _) in *.
  destruct (dispatch_auth3_run cfg d3 i sid seq3 payload3 out1 t s1 packet4 pending) as (out2 & Ho2 & Hn2 & Et2 & Er2);
    [done..|by eapply lookup_lt_Some|done|done|done|by apply E3|].
  exists out1, s1, out2, (with_sessions (<[i := Slot_free]> t) s1). split_and!; try done. constructor; [done|done| |done].
  by apply list_insert_id.
Qed.

(** The packets of the authentication, as the client sends and receives them, up to the last. *)
Lemma auth_handshake_steps a d c p1 c1 p2 c2 p3 c3 p4 s t1 t2 :
  (∀ out0, is_n AUTH_MAX_DATAGRAM out0 →
    send_from out0 (auth_client_build_auth1 (cd_nonce d) (cd_eph d) (cd_delta d) (cd_client_proof d) (cd_rerand d)
      (cd_branches d) (Some (a_allowed a))) c = Ok (p1, c1)) →
  receive (auth_client_handle_auth2 (Some p2)) c1 = Ok c2 →
  (∀ out0, is_n AUTH_MAX_DATAGRAM out0 → send_from out0 auth_client_build_auth3 c2 = Ok (p3, c3)) →
  inputs_wf a d → cs_ctx s = c → ctx_sizes c → is_n AUTH_MAX_DATAGRAM (cs_out s) →
  exchange (cs_net s) p1 p2 t1 → exchange t1 p3 p4 t2 →
  ∃ s', auth_handshake a d s = on_client (on_ctx (auth_client_handle_auth_ack (Some p4))) s' ∧ cs_net s' = t2 ∧ cs_ctx s' = c3 ∧
    cs_world s' = cs_world s.
Proof.
  intros E1 E2 E3 [_ _ Hn Hb _ Ha] Hc Hsz Hout X1 X2. subst c.
  specialize (E1 _ Hout).
  assert (with_out ctx_sizes AUTH_MAX_DATAGRAM (auth_client_build_auth1 (cd_nonce d) (cd_eph d) (cd_delta d) (cd_client_proof d)
    (cd_rerand d) (cd_branches d) (Some (a_allowed a)) (cs_ctx s, cs_out s)).2) as [Hz1 Hl1].
  { apply build_auth1_safe; [done|done|by intros ? [= <-]|done]. }
  pose proof (send_from_inv _ _ _ _ _ E1) as (o1 & Eo1 & _). rewrite Eo1 in Hz1. cbn in Hz1.
  unfold auth_handshake. destruct (request _ p1 p2 c1 s t1 X1 Hout Hl1 E1) as (s1 & Er & Ht1 & Hc1 & Hout1 & Hw1).
  rewrite Er. clear Er. rewrite <- Hc1 in E2. rewrite (receive_run _ _ _ _ E2).
  assert (ctx_sizes c2) as Hz2.
  { assert (ctx_sizes (cs_ctx s1)) as Hz by (by rewrite Hc1). pose proof (handle_auth2_safe (Some p2) (cs_ctx s1) Hz) as [_ Hk].
    unfold receive in E2. destruct (auth_client_handle_auth2 _ _) as [[[]|e|] c']; [|done..]. by injection E2 as <-. }
  set (s2 := {| cs_ctx := c2; cs_out := _; cs_net := _; cs_world := _ |}).
  destruct (request auth_client_build_auth3 p3 p4 c3 s2 t2) as (s3 & Er & Ht3 & Hc3 & Hout3 & Hw3);
    [by rewrite <- Ht1 in X2|done|by apply build_auth3_safe|by apply E3|].
  rewrite Er. exists s3. by rewrite Hw3.
Qed.

(** ... and the acknowledgement. *)
Lemma auth_handshake_run a d c p1 c1 p2 c2 p3 c3 p4 c4 s t1 t2 :
  (∀ out0, is_n AUTH_MAX_DATAGRAM out0 →
    send_from out0 (auth_client_build_auth1 (cd_nonce d) (cd_eph d) (cd_delta d) (cd_client_proof d) (cd_rerand d)
      (cd_branches d) (Some (a_allowed a))) c = Ok (p1, c1)) →
  receive (auth_client_handle_auth2 (Some p2)) c1 = Ok c2 →
  (∀ out0, is_n AUTH_MAX_DATAGRAM out0 → send_from out0 auth_client_build_auth3 c2 = Ok (p3, c3)) →
  receive (auth_client_handle_auth_ack (Some p4)) c3 = Ok c4 →
  inputs_wf a d → cs_ctx s = c → ctx_sizes c → is_n AUTH_MAX_DATAGRAM (cs_out s) →
  exchange (cs_net s) p1 p2 t1 → exchange t1 p3 p4 t2 →
  ∃ s', auth_handshake a d s = (Ok tt, s') ∧ cs_net s' = t2 ∧ cs_ctx s' = c4 ∧ cs_world s' = cs_world s.
Proof.
  intros E1 E2 E3 E4 Hin Hc Hsz Hout X1 X2.
  destruct (auth_handshake_steps a d c p1 c1 p2 c2 p3 c3 p4 s t1 t2) as (s3 & -> & Ht & Hc3 & Hw); [done..|].
  rewrite <- Hc3 in E4. unfold receive in E4. unfold on_client, on_ctx.
  destruct (auth_client_handle_auth_ack _ _) as [[[]|e|] c']; [|done..]. injection E4 as ->. by eexists.
Qed.

(** [do_auth] up to the handshake. *)
Lemma do_auth_start a d creds pub data s :
  fine (cs_world s) → files (cs_world s) !! cred_path a = Some data → encodes_creds data creds →
  cr_has_pinned_server creds = true → cr_has_role creds = true →
  auth_scalarmult_base (auth_derive_device_scalar (cr_device_root creds)) = Ok pub →
  ∃ w', untouched (cs_world s) w' ∧
    do_auth a d s = auth_handshake a d {| cs_ctx := setup_ctx a d creds pub; cs_out := cs_out s; cs_net := cs_net s; cs_world := w' |}.
Proof.
  intros Hf Hd He Hp Hr Hb. destruct (load_credentials_ok (cred_path a) None creds s Hf) as (w' & E & Hu); [by rewrite Hd|].
  exists w'. split; [done|]. unfold do_auth. rewrite bind_run, E. rewrite Hp, Hr. rewrite bind_run. cbn [andb require mret M_ret].
  rewrite bind_run. unfold prepare_ctx. rewrite bind_run. cbn [on_client on_ctx put cs_ctx cs_out cs_net cs_world].
  rewrite bind_run, Hb. cbn [lift]. rewrite bind_run. cbn [on_client on_ctx modify cs_ctx cs_out cs_net cs_world].
  rewrite <- prepared_setup_ctx, Hp, Hr. reflexivity.
Qed.

(** The client's side of an authentication. *)
Lemma do_auth_run a d creds pub data p1 c1 p2 c2 p3 c3 p4 c4 s t1 t2 :
  inputs_wf a d → creds_wf creds → client_able a s → files (cs_world s) !! cred_path a = Some data → encodes_creds data creds →
  cr_has_pinned_server creds = true → cr_has_role creds = true →
  auth_scalarmult_base (auth_derive_device_scalar (cr_device_root creds)) = Ok pub →
  (∀ out0, is_n AUTH_MAX_DATAGRAM out0 →
    send_from out0 (auth_client_build_auth1 (cd_nonce d) (cd_eph d) (cd_delta d) (cd_client_proof d) (cd_rerand d)
      (cd_branches d) (Some (a_allowed a))) (setup_ctx a d creds pub) = Ok (p1, c1)) →
  receive (auth_client_handle_auth2 (Some p2)) c1 = Ok c2 →
  (∀ out0, is_n AUTH_MAX_DATAGRAM out0 → send_from out0 auth_client_build_auth3 c2 = Ok (p3, c3)) →
  receive (auth_client_handle_auth_ack (Some p4)) c3 = Ok c4 →
  exchange (cs_net s) p1 p2 t1 → exchange t1 p3 p4 t2 →
  ∃ s', do_auth a d s = (Ok tt, s') ∧ cs_net s' = t2 ∧ cs_ctx s' = c4 ∧
    files (cs_world s') = files (cs_world s).
Proof.
  intros Hin Hw [Y1 Y2 Y3] Hd He Hpin Hrole Hp E1 E2 E3 E4 X1 X2.
  destruct (do_auth_start a d creds pub data s) as (w1 & (Hf1 & _ & _) & ->); [done..|].
  set (s1 := {| cs_ctx := setup_ctx a d creds pub; cs_out := _; cs_net := _; cs_world := w1 |}).
  destruct (auth_handshake_run a d (setup_ctx a d creds pub) p1 c1 p2 c2 p3 c3 p4 c4 s1 t1 t2 E1 E2 E3 E4 Hin eq_refl
    (proj2 (setup_ctx_wf a d creds pub Hin Hw Hp)) Y1 X1 X2) as (s2 & E & Ht & Hc2 & Hw2).
  rewrite E. eexists. split; [reflexivity|]. split; [done|]. split; [done|]. by rewrite Hw2.
Qed.

(** The draws of the two programs, when the server tries the device at this index. *)
Definition auth_draws_of (d : client_draws) (dr : draws) (j : nat) : auth_draws :=
  {| ad_nonce := cd_nonce d; ad_eph := cd_eph d; ad_delta := cd_delta d; ad_client_proof := cd_client_proof d;
     ad_rerand_proof := cd_rerand d; ad_role_set := cd_branches d; ad_server_eph := dr_eph dr j;
     ad_server_nonce := dr_nonce dr j; ad_server_proof := dr_proof dr j |}.

(** The packets of the exchange between the two. *)
Lemma authentication_packets a d dr creds pub j e a1 bs blind' eph_s :
  inputs_wf a d → creds_wf creds → draws_ok dr → keypair (sc_server_sk cfg) (sc_server_pub cfg) →
  enrolled_device_ready cfg creds pub → AuthExchange.roles_wf (a_allowed a) →
  re_device_pub e = pub → re_role_commitment e = cr_role_commitment creds →
  let c := setup_ctx a d creds pub in let ad := auth_draws_of d dr j in
  auth1_made (a_allowed a) ad c a1 bs blind' → auth1_good (a_allowed a) c a1 bs blind' →
  server_good (sc_server_sk cfg) (sc_server_pub cfg) ad eph_s →
  ∃ k packet payload2 payload3, let c2 := after_auth2 k (after_auth1 ad a1 c) in
    let pending := pending_auth_of (cd_session_id d) pub a1 (dr_nonce dr j) eph_s k packet in
    auth1_wf a1 ∧ auth_opens (sc_server_sk cfg) (sc_server_pub cfg) (lookup_of e) (a_allowed a) ad c a1 payload2 c2 pending ∧
    auth_closes c2 pending payload3.
Proof.
  intros Hin Hw Hd Hk [[Hpin Hpub] Hrole [Hop Hcan] Hp] Hroles Ep Ec c ad Hm Hg Hs. pose proof Hin as [_ Hsid Hn _ _ _].
  destruct (setup_ctx_wf a d creds pub Hin Hw Hp) as [Hc _]. pose proof (do_nonce _ Hd j) as Hsn.
  assert (role_ok c) as Hro.
  { unfold role_ok, c, setup_ctx. cbn [c_role_commitment c_role_blind c_role_code c_has_role]. rewrite Hrole.
    split_and!; [done|done|by destruct Hw|done]. }
  destruct (auth_opens_exists (sc_server_sk cfg) (sc_server_pub cfg) (lookup_of e) (a_allowed a) ad c a1 bs blind' eph_s)
    as (k & packet & payload2 & _ & Hw1 & Ho); try done.
  { unfold lookup_of, scan_lookup. cbn. by rewrite Ep, Ec. }
  exists k, packet, payload2. eexists. split; [done|]. split; [exact Ho|]. by apply auth_closes_exists.
Qed.
End authentication.

(** The draws of an authentication give an AUTH_1 whose proofs can be made, and an answer. *)
Record honest_auth {NaCl : Sodium} (cfg : server_config) (a : args_t) (d : client_draws) (dr : draws) (creds : auth_credentials_t) (pub : bytes) (j : nat)
    (a1 : auth_auth1_t) : Prop := {
  ha_client : ∃ bs blind', auth1_made (sc_allowed_roles cfg) (auth_draws_of d dr j) (setup_ctx a d creds pub) a1 bs blind' ∧
    auth1_good (sc_allowed_roles cfg) (setup_ctx a d creds pub) a1 bs blind';
  ha_server : ∃ eph_s, server_good (sc_server_sk cfg) (sc_server_pub cfg) (auth_draws_of d dr j) eph_s
}.

(** The two sides of an authentication, whatever carries their packets. *)
Lemma authentication_sides {NaCl : Sodium} {HS : SodiumSpec NaCl} cfg a d dr creds pub j e a1 bs blind' eph_s :
  inputs_wf a d → draws_ok dr → creds_wf creds → keypair (sc_server_sk cfg) (sc_server_pub cfg) → enrolled_device_ready cfg creds pub →
  a_allowed a = sc_allowed_roles cfg → AuthExchange.roles_wf (sc_allowed_roles cfg) →
  re_device_pub e = pub → re_role_commitment e = cr_role_commitment creds →
  auth1_made (sc_allowed_roles cfg) (auth_draws_of d dr j) (setup_ctx a d creds pub) a1 bs blind' →
  auth1_good (sc_allowed_roles cfg) (setup_ctx a d creds pub) a1 bs blind' →
  server_good (sc_server_sk cfg) (sc_server_pub cfg) (auth_draws_of d dr j) eph_s →
  ∃ p1 p2 p3 p4, Forall sendable [p1; p2; p3; p4] ∧
    (∀ s t1 t2 data, client_able a s → files (cs_world s) !! cred_path a = Some data → encodes_creds data creds →
      exchange (cs_net s) p1 p2 t1 → exchange t1 p3 p4 t2 →
      ∃ s', do_auth a d s = (Ok tt, s') ∧ cs_net s' = t2 ∧ c_auth_complete (cs_ctx s') = true ∧
        files (cs_world s') = files (cs_world s)) ∧
    ∀ d3 out s, is_n AUTH_MAX_DATAGRAM out → auth_server_ready (cd_session_id d) s → scanned_to cfg a1 j e s →
      answers_both cfg dr d3 p1 p2 p3 p4 out s (message_remembered a1 s).
Proof.
  intros Hin Hd Hw Hk Her Ha Hroles Ep Ec Hm Hg Hs.
  pose proof Hin as [_ Hsid _ _ _ _]. pose proof (keypair_point _ _ Hk) as [Hpubl _]. rewrite <- Ha in Hroles, Hm, Hg.
  destruct (authentication_packets cfg a d dr creds pub j e a1 bs blind' eph_s Hin Hw Hd Hk Her Hroles Ep Ec Hm Hg Hs)
    as (k & packet & pl2 & pl3 & Hw1 & [[L1 L2] E1 E2 E3] & [L3 E4 E5 E6]).
  set (ad := auth_draws_of d dr j) in *. set (c2 := after_auth2 _ _) in *. set (pending := pending_auth_of _ _ _ _ _ _ _) in *.
  change (c_session_id (setup_ctx a d creds pub)) with (cd_session_id d) in *. change (c_session_id c2) with (cd_session_id d) in *.
  pose proof (is_u32_u32 (c_seq (setup_ctx a d creds pub) + 1)) as Hq1. pose proof (is_u32_u32 (c_seq c2 + 1)) as Hq3.
  revert Hq1 Hq3 E1 E2 E3 E4 E5 E6.
  generalize (u32 (c_seq (setup_ctx a d creds pub) + 1)), (u32 (c_seq c2 + 1)). intros q1 q3 Hq1 Hq3 E1 E2 E3 E4 E5 E6.
  pose proof Her as [[Hpin _] Hrole _ Hp]. exists (wire_packet AUTH_PKT_AUTH_1 (cd_session_id d) q1 (wire_auth1 a1)),
    (wire_packet AUTH_PKT_AUTH_2 (cd_session_id d) q1 pl2), (wire_packet AUTH_PKT_AUTH_3 (cd_session_id d) q3 pl3),
    (wire_packet AUTH_PKT_AUTH_ACK (cd_session_id d) q3 [AUTH_ACK_BYTE]).
  split; [repeat apply List.Forall_cons; [by apply packet_sendable..|apply List.Forall_nil]|]. split.
  - intros s t1 t2 data Hable Hfile Henc X1 X2.
    destruct (do_auth_run a d creds pub data _ _ _ c2 _ _ _ _ s t1 t2 Hin Hw Hable Hfile Henc Hpin Hrole Hp E1 E3 E4 E6 X1 X2)
      as (s' & Er & Ht & Hc4 & Hf). exists s'. by rewrite Hc4.
  - intros d3 out s Hout Hready Hscan. apply (answers_auth cfg dr d3 (cd_session_id d) q1 q3 a1 pl3 _ _ pending j e); try done.
    { rewrite <- Ha. apply Hroles. }
    intros out0 Ho0. rewrite <- Ha. by apply E2.
Qed.

(** An authentication over TCP completes, from the program of the device to the
    program of the server: for a device that the server's registry has, an AUTH_1 whose
    proofs can be made and that does not verify as one of the devices before it, and
    whatever either system does to the transfers short of a failure or a timeout, there
    are runs of [do_auth] and of the server's connection thread, each reading what the
    other writes, that both succeed.  The client has then confirmed the session, neither
    the device's files nor the registry have changed, the session's slot is free again
    and the replay cache remembers the message. *)
Theorem authentication_over_tcp {NaCl : Sodium} {HS : SodiumSpec NaCl} cfg a d ds creds pub data cs sv c so out j e a1 bs blind' eph_s :
  inputs_wf a d → draws_ok (ds 2) → keypair (sc_server_sk cfg) (sc_server_pub cfg) →
  files (cs_world cs) !! cred_path a = Some data → encodes_creds data creds → enrolled_device_ready cfg creds pub →
  a_allowed a = sc_allowed_roles cfg → AuthExchange.roles_wf (sc_allowed_roles cfg) →
  re_device_pub e = pub → re_role_commitment e = cr_role_commitment creds → scanned_to cfg a1 j e sv →
  auth1_made (sc_allowed_roles cfg) (auth_draws_of d (ds 2) j) (setup_ctx a d creds pub) a1 bs blind' →
  auth1_good (sc_allowed_roles cfg) (setup_ctx a d creds pub) a1 bs blind' →
  server_good (sc_server_sk cfg) (sc_server_pub cfg) (auth_draws_of d (ds 2) j) eph_s →
  client_ready a cs → auth_server_ready (cd_session_id d) sv → open_conn c → smooth so → is_n AUTH_MAX_DATAGRAM out →
  ∃ replies cs' so' sv',
    do_auth a d (over replies cs) = (Ok tt, cs') ∧
    serve cfg ds 3 (Receiving (Tcp c (stream (sent_by cs') so)) out) sv = Some (Tcp {| tc_fd := -1 |} so', sv') ∧
    so_sent so' = replies ∧ c_auth_complete (cs_ctx cs') = true ∧ files (cs_world cs') = files (cs_world cs) ∧
    message_remembered a1 sv sv'.
Proof.
  intros Hin Hd Hk Hfile Henc Her Ha Hroles Ep Ec Hscan Hm Hg Hs Hcl Hsv Hconn Hso Hout.
  assert (creds_wf creds) as Hw.
  { eapply (credentials_wf (Some data) None creds); [|exact Henc]. by intros ? ?. }
  destruct (authentication_sides cfg a d (ds 2) creds pub j e a1 bs blind' eph_s) as (p1 & p2 & p3 & p4 & Hf & Hclient & Hserver);
    [done..|]. destruct (ready_exchanges a cs p1 p2 p3 p4 Hcl Hf) as (t1 & t2 & X1 & X2 & Hsent). pose proof Hcl as [[Y1 Y2 Y3] _ _ _].
  destruct (Hclient (over (frame p2 ++ frame p4) cs) t1 t2 data (Build_client_able a (over _ cs) Y1 Y2 Y3) Hfile Henc X1 X2)
    as (cs' & Er & Ht & Hc & Hfiles).
  rewrite <- Ht in Hsent. change (so_sent (t_tcp_socket (cs_net cs'))) with (sent_by cs') in Hsent.
  destruct (serve_both cfg ds p1 p2 p3 p4 c (stream (sent_by cs') so) out sv _ Hconn (stream_smooth _ _ Hso) Hf
    (Hserver (ds 1) out sv Hout Hsv Hscan) Hsent) as (so' & sv' & Es & Hso' & Hr).
  by exists (frame p2 ++ frame p4), cs', so', sv'.
Qed.

(** *** A run with the toy group: the device is the second of the registry *)
Definition sample_roles_args : args_t := set_n_allowed 2 (set_allowed [1; 2; 0; 0; 0; 0; 0; 0]%Z sample_args).

Definition sample_enrolled_creds : auth_credentials_t := Eval vm_compute in
  {| cr_device_root := replicate 32 Byte.x01; cr_has_pinned_server := true; cr_server_pub_pinned := sc_server_pub sample_cfg;
     cr_has_role := true;
     cr_role_commitment := match auth_make_role_commitment (NaCl := Toy.sodium) 1 (store_le 32 6) with Ok c => c | _ => [] end;
     cr_role_blind := store_le 32 6; cr_role_code := 1 |}.

Definition sample_device : auth_registry_entry_t := Eval vm_compute in
  {| re_device_id := auth_derive_device_id (NaCl := Toy.sodium) (replicate 32 Byte.x01); re_device_pub := sample_pub;
     re_role_commitment := cr_role_commitment sample_enrolled_creds |}.

Definition sample_other : auth_registry_entry_t :=
  {| re_device_id := replicate 32 Byte.x77; re_device_pub := store_le 32 9; re_role_commitment := store_le 32 10 |}.

Definition sample_tcp_draws : auth_draws := auth_draws_of sample_client_draws sample_draws 1.

Definition sample_tcp_ctx : auth_client_ctx_t := Eval vm_compute in
  setup_ctx (NaCl := Toy.sodium) sample_roles_args sample_client_draws sample_enrolled_creds sample_pub.

Definition sample_tcp_auth1 : auth_auth1_t := Eval vm_compute in
  match (p ← send (auth_client_build_auth1 (NaCl := Toy.sodium) (ad_nonce sample_tcp_draws)
               (ad_eph sample_tcp_draws) (ad_delta sample_tcp_draws) (ad_client_proof sample_tcp_draws)
               (ad_rerand_proof sample_tcp_draws) (ad_role_set sample_tcp_draws) (Some [1; 2]%Z)) sample_tcp_ctx;
         h ← auth_header_decode (Some p.1); auth_auth1_decode (Some h.2)) with
  | Ok a1 => a1
  | _ => sample_auth1
  end.

Definition sample_tcp_blind : bytes := Eval vm_compute in
  match auth_rerandomize_commitment (NaCl := Toy.sodium) (c_role_commitment sample_tcp_ctx)
          (c_role_blind sample_tcp_ctx) (auth_random_scalar (NaCl := Toy.sodium) (ad_delta sample_tcp_draws)) with
  | Ok (_, b) => b
  | _ => []
  end.

Definition sample_tcp_eph : bytes := Eval vm_compute in
  match auth_scalarmult_base (NaCl := Toy.sodium) (auth_random_scalar (NaCl := Toy.sodium) (ad_server_eph sample_tcp_draws)) with
  | Ok e => e
  | _ => []
  end.

Lemma sample_device_ready : enrolled_device_ready (NaCl := Toy.sodium) sample_cfg sample_enrolled_creds sample_pub.
Proof.
  constructor; [split; reflexivity|reflexivity| |vm_compute; reflexivity]. split; [|split; reflexivity].
  apply make_commits; [concrete_range|split; reflexivity|vm_compute; reflexivity].
Qed.

(** The other device cannot have made the message. *)
Lemma sample_passed_over : passed_over (NaCl := Toy.sodium) sample_cfg sample_tcp_auth1 sample_other.
Proof. exists AUTH_ERR_PROOF_VERIFY. split; [vm_compute; reflexivity|by left]. Qed.

Lemma sample_auth1_made : auth1_made (NaCl := Toy.sodium) (sc_allowed_roles sample_cfg) sample_tcp_draws sample_tcp_ctx sample_tcp_auth1
  (take 2 (a1_branches sample_tcp_auth1)) sample_tcp_blind.
Proof. constructor; vm_compute; reflexivity. Qed.

Lemma sample_auth1_good : auth1_good (NaCl := Toy.sodium) (sc_allowed_roles sample_cfg) sample_tcp_ctx sample_tcp_auth1
  (take 2 (a1_branches sample_tcp_auth1)) sample_tcp_blind.
Proof.
  constructor.
  - eexists. split; [vm_compute; reflexivity|]. split; vm_compute; discriminate.
  - eexists. split; [vm_compute; reflexivity|]. split; vm_compute; discriminate.
  - intros [|[|i]] b Hi Hb; vm_compute in Hi; [|discriminate Hi..].
    vm_compute in Hb. injection Hb as <-. split; vm_compute; discriminate.
  - vm_compute. discriminate.
Qed.

Lemma sample_server_good :
  server_good (NaCl := Toy.sodium) (sc_server_sk sample_cfg) (sc_server_pub sample_cfg) sample_tcp_draws sample_tcp_eph.
Proof.
  split; [vm_compute; reflexivity|]. eexists _, _. split; [vm_compute; reflexivity|].
  split; [vm_compute; reflexivity|]. split; vm_compute; discriminate.
Qed.
