(* ===== verification/Retransmission.v ===== *)
(** What becomes of a packet that the client sends again: over UDP [send_then_recv] of
    [src/c/bin/client.c] repeats a request whose answer did not come, and [dispatch] of
    [src/c/bin/server.c] handles it as a new one. *)
From stdpp Require Import gmap.
From S2P Require Export EndToEndAuth.

(** ** ERROR packets *)
Definition error_packet (sid : bytes) (seq : Z) (e : auth_err_t) : bytes :=
  wire_packet AUTH_PKT_ERROR sid seq (store_le 2 (err_code e) ++ str_bytes (auth_strerror e)).

Lemma length_error_packet sid seq e :
  is_n 16 sid → is_u32 seq → length (error_packet sid seq e) = AUTH_HEADER_LEN + (2 + length (str_bytes (auth_strerror e))).
Proof. intros. unfold error_packet. by rewrite length_wire_packet, length_app, length_store_le. Qed.

Lemma error_packet_fits sid seq e : is_n 16 sid → is_u32 seq → length (error_packet sid seq e) ≤ AUTH_MAX_DATAGRAM.
Proof.
  intros. rewrite length_error_packet by done. pose proof (strerror_short e).
  assert (AUTH_HEADER_LEN + (2 + 100) ≤ AUTH_MAX_DATAGRAM) by (apply Nat.leb_le; reflexivity). lia.
Qed.

Lemma error_reply_run t sid seq e out n :
  is_n 16 sid → is_u32 seq → is_n AUTH_MAX_DATAGRAM out →
  error_reply (packet_header t sid seq) e out n = Halt (written (error_packet sid seq e) out) (length (error_packet sid seq e)).
Proof.
  intros Hs Hq Ho. pose proof (error_packet_fits sid seq e Hs Hq) as Hf. rewrite length_error_packet in * by done.
  unfold error_reply. cbn [hdr_session_id hdr_seq packet_header]. pose proof (strerror_short e).
  assert (100 ≤ AUTH_MAX_PAYLOAD - 2) by (apply Nat.leb_le; reflexivity). unfold is_n in Ho.
  rewrite packet_build_error_run; [done|done|done|lia|lia].
Qed.

(** The client returns the code that it receives, when that may cross the wire. *)
Lemma open_reply_error t sid seq e :
  is_n 16 sid → is_u32 seq → auth_err_is_wire e = true → open_reply t (Some (error_packet sid seq e)) = Err e.
Proof.
  intros Hs Hq He. unfold open_reply. cbn [nonnull mbind outcome_bind]. unfold error_packet.
  rewrite header_of_packet by done. cbn [mbind outcome_bind hdr_pkt_type packet_header]. rewrite bool_decide_true by done.
  unfold received_error. change (store_le 2 ?v) with [u8 v; u8 (Z.shiftr v 8)]. rewrite packet_parse_error_run.
  change [u8 ?v; u8 (Z.shiftr ?v 8)] with (store_le 2 v). rewrite load_store_le_2 by apply err_code_is_u16.
  cbn [mbind outcome_bind]. f_equal. apply normalize_listed, wire_error_cases_spec. by left.
Qed.

(** ** AUTH_1 *)
Section auth.
Context {NaCl : Sodium} {HS : SodiumSpec NaCl} (cfg : server_config).

(** An AUTH_1 that was accepted is refused when it comes again, as it does when its
    answer was lost: whatever the server's draws, it is answered with an ERROR packet,
    the state of the server does not change (the session that the first one has made
    stays in its slot), and the client ends with AUTH_ERR_REPLAY_DETECTED. *)
Theorem retransmitted_auth1_refused d sid seq a1 out s :
  is_n 16 sid → is_u32 seq → is_n AUTH_MAX_DATAGRAM out → registry_wf (sv_registry s) → 0 < rg_n (sv_registry s) →
  cache_wf (sv_replay_cache s) → table_wf (sv_sessions s) → Slot_free ∈ sv_sessions s → auth1_wf a1 →
  key_of a1 ∈ window (sv_replay_cache s) →
  let packet := error_packet sid seq AUTH_ERR_REPLAY_DETECTED in
  run_proc (dispatch cfg d (wire_packet AUTH_PKT_AUTH_1 sid seq (wire_auth1 a1)) out) s =
    (Some (written packet out, length packet), s) ∧
  ∀ c, auth_client_handle_auth2 (Some packet) c = (Err AUTH_ERR_REPLAY_DETECTED, c).
Proof.
  intros Hsid Hseq Hout Hreg Hn Hc Ht Hfree Hw Hk packet. split.
  2:{ intros c. unfold packet, auth_client_handle_auth2. by rewrite bind_run, open_reply_error. }
  destruct (reserve_free _ Ht Hfree) as (i & Hi & Hlt & Er). unfold dispatch. rewrite header_of_packet by done.
  cbn [hdr_pkt_type packet_header]. rewrite bool_decide_false, bool_decide_false, bool_decide_true by done.
  unfold dispatch_auth1, locked. cbn [run_proc]. unfold on_sessions at 1. rewrite Er. rewrite (proj2 (Z.ltb_ge _ _)) by lia.
  unfold locked. cbn [run_proc]. unfold on_registry at 1. pstep. cbn [sv_registry]. fold (packet_header AUTH_PKT_AUTH_1 sid seq).
  destruct (rg_n (sv_registry s)) as [|n] eqn:En; [lia|]. cbn [auth1_scan]. unfold locked. cbn [run_proc].
  set (s1 := {| sv_registry := sv_registry s; sv_sessions := _; sv_replay_cache := _; sv_world := _ |}).
  destruct (lookup_lt_is_Some_2 (devices (sv_registry s)) 0) as [e He].
  { unfold devices. rewrite length_take. destruct Hreg as [Hsz _ _ _]. rewrite Hsz, En. unfold AUTH_REGISTRY_MAX_ENTRIES. lia. }
  rewrite (read_device 0 e s1 He). cbn [run_proc]. unfold on_replay. cbn [hdr_session_id hdr_seq packet_header].
  rewrite guarded_seen by done. rewrite bool_decide_false, bool_decide_false by done. cbn [orb run_proc].
  unfold release, on_sessions, ignore. cbn [sv_sessions s1]. rewrite release_run by (by apply insert_wf || (unfold table_wf in Ht; lia)).
  cbn [then_proc]. fold (packet_header AUTH_PKT_AUTH_1 sid seq). rewrite error_reply_run by done. cbn [run_proc].
  rewrite list_insert_insert_eq, (list_insert_id _ _ _ Hi). by destruct s.
Qed.
End auth.

(** ** A lost AUTH_2 over UDP *)
Lemma udp_send_run u peer p s :
  (0 ≤ u_fd u)%Z → length p ≤ AUTH_MAX_DATAGRAM → us_answers s = [] →
  auth_udp_send (Some u) peer (Some p) s =
    (Ok tt, {| us_incoming := us_incoming s; us_sent := us_sent s ++ [(destination peer, p)]; us_polls := us_polls s; us_answers := us_answers s |}).
Proof.
  intros Hu Hp Ha. unfold auth_udp_send. mstep. rewrite (proj2 (Z.ltb_ge _ _)) by done. cbn [negb]. mstep. mstep.
  rewrite (proj2 (Nat.ltb_ge _ _)) by done. cbn [negb]. mstep. rewrite bind_run. unfold udp_sendto. rewrite bind_run. unfold udp_answer.
  rewrite Ha. cbn [transferred]. mstep. rewrite take_ge, Nat.eqb_refl by done. by rewrite Ha.
Qed.

Lemma udp_recv_timeout u cap t l s :
  (0 ≤ u_fd u)%Z → (0 ≤ t)%Z → us_polls s = P_timeout :: l →
  auth_udp_recv (Some u) cap t s =
    (Err AUTH_ERR_TIMEOUT, {| us_incoming := us_incoming s; us_sent := us_sent s; us_polls := l; us_answers := us_answers s |}).
Proof.
  intros Hu Ht Hp. unfold auth_udp_recv. mstep. rewrite (proj2 (Z.ltb_ge _ _)) by done. cbn [negb]. mstep.
  rewrite (proj2 (Z.leb_le _ _)) by done. rewrite bind_run. mstep. cbn [udp_poll_retry]. rewrite !bind_run.
  unfold udp_poll. by rewrite Hp.
Qed.

Lemma udp_recv_ready u cap t from q rest l s :
  (0 ≤ u_fd u)%Z → (0 ≤ t)%Z → us_polls s = P_ready :: l → us_answers s = [] → us_incoming s = (from, q) :: rest → length q ≤ cap →
  auth_udp_recv (Some u) cap t s =
    (Ok (q, addr_of from), {| us_incoming := rest; us_sent := us_sent s; us_polls := l; us_answers := us_answers s |}).
Proof.
  intros Hu Ht Hp Ha Hi Hq. unfold auth_udp_recv. mstep. rewrite (proj2 (Z.ltb_ge _ _)) by done. cbn [negb]. mstep.
  rewrite (proj2 (Z.leb_le _ _)) by done. rewrite bind_run. mstep. cbn [udp_poll_retry]. rewrite !bind_run.
  unfold udp_poll. rewrite Hp. cbn [mret M_ret]. rewrite bind_run. unfold udp_recvfrom. rewrite bind_run. unfold udp_answer.
  cbn [us_answers]. rewrite Ha. mstep. cbn [us_incoming]. rewrite Hi. cbn [succeeds]. mstep. by rewrite take_ge, ?Ha by done.
Qed.

Definition with_udp (s : udp_socket) (t : client_transport_t) : client_transport_t :=
  {| t_kind := t_kind t; t_udp := t_udp t; t_tcp := t_tcp t; t_udp_socket := s; t_tcp_socket := t_tcp_socket t |}.

Lemma transport_send_udp p t :
  t_kind t = TRANSPORT_UDP → transport_send p t =
    let '(o, s) := auth_udp_send (Some (t_udp t)) None (Some p) (t_udp_socket t) in (o, with_udp s t).
Proof. intros Hk. unfold transport_send. mstep. by rewrite Hk, bool_decide_true. Qed.

Lemma transport_recv_udp cap t :
  t_kind t = TRANSPORT_UDP → transport_recv cap t =
    match auth_udp_recv (Some (t_udp t)) cap TIMEOUT_MS (t_udp_socket t) with
    | (Ok (x, _), s) => (Ok x, with_udp s t)
    | (Err e, s) => (Err e, with_udp s t)
    | (Fault, s) => (Fault, with_udp s t)
    end.
Proof.
  intros Hk. unfold transport_recv. mstep. rewrite Hk, bool_decide_true by done. unfold on_udp. rewrite bind_run.
  by destruct (auth_udp_recv _ _ _ _) as [[[]| |] ?].
Qed.

(** What the waits for the answers see, when the first copy of a request is lost or not;
    how often the request is sent. *)
Definition waits (lost : bool) : list poll_answer := if lost then [P_timeout; P_ready] else [P_ready].

Definition copies (lost : bool) (p : bytes) : list bytes := if lost then [p; p] else [p].

(** A connected UDP socket on which the requests to come are lost like this, these
    datagrams arrive and those were sent. *)
Record udp_link (losses : list bool) (incoming sent : list bytes) (t : client_transport_t) : Prop := {
  ul_kind : t_kind t = TRANSPORT_UDP;
  ul_open : (0 ≤ u_fd (t_udp t))%Z;
  ul_polls : us_polls (t_udp_socket t) = flat_map waits losses;
  ul_answers : us_answers (t_udp_socket t) = [];
  ul_incoming : map snd (us_incoming (t_udp_socket t)) = incoming;
  ul_sent : us_sent (t_udp_socket t) = map (pair None) sent
}.

(** A request whose first copy is lost is sent again and answered. *)
Lemma exchange_udp lost losses p q rest sent t :
  udp_link (lost :: losses) (q :: rest) sent t → length p ≤ AUTH_MAX_DATAGRAM → length q ≤ AUTH_MAX_DATAGRAM →
  ∃ t', exchange t p q t' ∧ udp_link losses rest (sent ++ copies lost p) t'.
Proof.
  intros [Hk Ho Hp Ha Hi Hs] Hlp Hlq. assert (0 ≤ TIMEOUT_MS)%Z as Ht by done. unfold exchange, send_then_recv. mstep.
  destruct (us_incoming (t_udp_socket t)) as [|[from q'] rest'] eqn:Ei; [done|]. injection Hi as -> Hi.
  rewrite Hk, bool_decide_true by done. cbn [attempts]. cbn [flat_map] in Hp.
  rewrite bind_run, transport_send_udp, udp_send_run by done. unfold on_timeout at 1.
  rewrite transport_recv_udp by done. cbn [with_udp t_udp t_udp_socket]. destruct lost; cbn [waits app] in Hp.
  - rewrite (udp_recv_timeout _ _ _ (P_ready :: flat_map waits losses)) by done.
    rewrite bind_run, transport_send_udp by done. cbn [with_udp t_udp t_udp_socket]. rewrite udp_send_run by done.
    unfold on_timeout. rewrite transport_recv_udp by done. cbn [with_udp t_udp t_udp_socket].
    rewrite (udp_recv_ready _ _ _ from q rest' (flat_map waits losses)) by done. eexists. split; [reflexivity|].
    constructor; try done. cbn. by rewrite <- app_assoc, Hs, map_app.
  - rewrite (udp_recv_ready _ _ _ from q rest' (flat_map waits losses)) by done. eexists. split; [reflexivity|].
    constructor; try done. cbn. by rewrite Hs, map_app.
Qed.

Section lost.
Context {NaCl : Sodium} {HS : SodiumSpec NaCl} (cfg : server_config).

(** The client's side: the answer to the second AUTH_1 ends the program. *)
Lemma do_auth_lost a d creds pub data p1 c1 q e sent s :
  inputs_wf a d → files (cs_world s) !! cred_path a = Some data → encodes_creds data creds → fine (cs_world s) →
  cr_has_pinned_server creds = true → cr_has_role creds = true →
  auth_scalarmult_base (auth_derive_device_scalar (cr_device_root creds)) = Ok pub → is_n AUTH_MAX_DATAGRAM (cs_out s) →
  (∀ out0, is_n AUTH_MAX_DATAGRAM out0 →
    send_from out0 (auth_client_build_auth1 (cd_nonce d) (cd_eph d) (cd_delta d) (cd_client_proof d) (cd_rerand d)
      (cd_branches d) (Some (a_allowed a))) (setup_ctx a d creds pub) = Ok (p1, c1)) →
  length p1 ≤ AUTH_MAX_DATAGRAM → length q ≤ AUTH_MAX_DATAGRAM → (∀ c, auth_client_handle_auth2 (Some q) c = (Err e, c)) →
  udp_link [true] [q] sent (cs_net s) →
  ∃ s', do_auth a d s = (Err e, s') ∧ files (cs_world s') = files (cs_world s) ∧
    us_sent (t_udp_socket (cs_net s')) = map (pair None) (sent ++ [p1; p1]).
Proof.
  intros Hin Hd He Hfine Hpin Hrole Hp Hout E1 L1 Lq Eq Hlost.
  destruct (do_auth_start a d creds pub data s) as (w1 & (Hf1 & _) & ->); [done..|]. unfold auth_handshake.
  destruct (send_from_inv _ _ _ _ _ (E1 _ Hout)) as (out' & E & Hl & Et). rewrite bind_run. unfold on_client at 1. cbn [cs_ctx cs_out].
  rewrite E. rewrite bind_run. unfold round_trip. mstep. cbn [cs_out]. rewrite bind_run, loadn_ok, drop_0, Et by done. cbn [lift].
  unfold on_net. cbn [cs_net]. destruct (exchange_udp true [] p1 q [] sent (cs_net s) Hlost L1 Lq) as (t' & X & [_ _ _ _ _ Hs]).
  rewrite X, bind_run.
  unfold on_client at 1, on_ctx. cbn [cs_ctx]. rewrite Eq. eexists. split; [reflexivity|]. by split.
Qed.

Lemma remembered key w : key ∈ (Window.insert key w).2.
Proof.
  unfold Window.insert, Window.mem. case_bool_decide as Hk; [done|]. cbn [snd].
  rewrite drop_app_le by (unfold AUTH_REPLAY_CACHE_CAPACITY; lia). apply elem_of_app. right. by left.
Qed.

Lemma another_free (t : auth_session_table_t) (i i1 i2 : nat) x :
  i1 ≠ i2 → t !! i1 = Some Slot_free → t !! i2 = Some Slot_free → Slot_free ∈ <[i := x]> t.
Proof.
  intros Hne H1 H2. destruct (decide (i = i1)) as [->|Hn].
  - apply (list_elem_of_lookup_2 _ i2). by rewrite list_lookup_insert_ne.
  - apply (list_elem_of_lookup_2 _ i1). by rewrite list_lookup_insert_ne.
Qed.

(** An honest device that the registry of an honest server has, and room for two sessions. *)
Record honest_pair (a : args_t) (d : client_draws) (creds : auth_credentials_t) (pub : bytes) (dr : draws) (j : nat)
    (e : auth_registry_entry_t) (a1 : auth_auth1_t) (s : server_state_t) : Prop := {
  hp_inputs : inputs_wf a d;
  hp_creds : creds_wf creds;
  hp_draws : draws_ok dr;
  hp_server : keypair (sc_server_sk cfg) (sc_server_pub cfg);
  hp_device : enrolled_device_ready cfg creds pub;
  hp_allowed : a_allowed a = sc_allowed_roles cfg;
  hp_roles : AuthExchange.roles_wf (sc_allowed_roles cfg);
  hp_entry : re_device_pub e = pub ∧ re_role_commitment e = cr_role_commitment creds;
  hp_honest : honest_auth cfg a d dr creds pub j a1;
  hp_ready : auth_server_ready (cd_session_id d) s;
  hp_scanned : scanned_to cfg a1 j e s;
  hp_room : ∃ i1 i2, i1 ≠ i2 ∧ sv_sessions s !! i1 = Some Slot_free ∧ sv_sessions s !! i2 = Some Slot_free
}.

(** The client's context after its AUTH_1, and what it accepts as the answer. *)
Definition sends_auth1 (a : args_t) (d : client_draws) (creds : auth_credentials_t) (pub p1 : bytes) (c1 : auth_client_ctx_t) : Prop :=
  ∀ out0, is_n AUTH_MAX_DATAGRAM out0 →
    send_from out0 (auth_client_build_auth1 (cd_nonce d) (cd_eph d) (cd_delta d) (cd_client_proof d) (cd_rerand d)
      (cd_branches d) (Some (a_allowed a))) (setup_ctx a d creds pub) = Ok (p1, c1).

(** The first AUTH_1 is answered with an AUTH_2 that the client accepts, the second one
    with a refusal that leaves the session of the first as it is. *)
Lemma auth1_twice a d creds pub d1 d2 j e a1 s out1 out2 :
  honest_pair a d creds pub d1 j e a1 s → is_n AUTH_MAX_DATAGRAM out1 → is_n AUTH_MAX_DATAGRAM out2 →
  let refusal := error_packet (cd_session_id d) 1 AUTH_ERR_REPLAY_DETECTED in
  ∃ p1 pl2 o1 i c pending c1 c2 pl3,
    let p2 := wire_packet AUTH_PKT_AUTH_2 (cd_session_id d) 1 pl2 in
    let s1 := with_sessions (<[i := Slot_auth pending]> (sv_sessions s)) (with_cache c s) in
    run_proc (dispatch cfg d1 p1 out1) s = (Some (o1, length p2), s1) ∧ take (length p2) o1 = p2 ∧
    run_proc (dispatch cfg d2 p1 out2) s1 = (Some (written refusal out2, length refusal), s1) ∧
    sv_sessions s !! i = Some Slot_free ∧ window c = (Window.insert (key_of a1) (window (sv_replay_cache s))).2 ∧
    length p1 ≤ AUTH_MAX_DATAGRAM ∧ length p2 ≤ AUTH_MAX_DATAGRAM ∧ pa_session_id pending = cd_session_id d ∧
    c_session_id c2 = cd_session_id d ∧ c_seq c2 = 1%Z ∧
    sends_auth1 a d creds pub p1 c1 ∧ receive (auth_client_handle_auth2 (Some p2)) c1 = Ok c2 ∧ auth_closes c2 pending pl3.
Proof.
  intros [Hin Hw Hd Hk Her Ha Hroles [Ep Ec] [(bs & blind' & Hm & Hg) [eph_s Hs]] [R1 R2 R3 R4 R5] [Hj Hpass Hfresh] (i1 & i2 & Hne & Hi1 & Hi2)]
    Ho1 Ho2 refusal.
  pose proof Hin as [_ Hsid _ _ _ _]. pose proof (keypair_point _ _ Hk) as [Hpubl _]. rewrite <- Ha in Hroles, Hm, Hg.
  assert (Forall is_u64 (sc_allowed_roles cfg)) as Hru by (rewrite <- Ha; apply Hroles).
  destruct (authentication_packets cfg a d d1 creds pub j e a1 bs blind' eph_s Hin Hw Hd Hk Her Hroles Ep Ec Hm Hg Hs)
    as (k & packet & pl2 & pl3 & Hw1 & [[L1 L2] E1 E2 E3] & Hcl).
  set (c2 := after_auth2 _ _) in *. set (pending := pending_auth_of _ _ _ _ _ _ _) in *.
  change (c_session_id (setup_ctx a d creds pub)) with (cd_session_id d) in *.
  change (u32 (c_seq (setup_ctx a d creds pub) + 1)) with 1%Z in *. assert (is_u32 1) as Hq by (unfold is_u32; lia).
  set (p1 := wire_packet AUTH_PKT_AUTH_1 (cd_session_id d) 1 (wire_auth1 a1)) in *.
  assert (answers_auth1 cfg (cd_session_id d) 1 a1 d1 j e (wire_packet AUTH_PKT_AUTH_2 (cd_session_id d) 1 pl2) pending) as E2'.
  { intros out0 Ho0. rewrite <- Ha. by apply E2. }
  destruct (dispatch_auth1_run cfg d1 (cd_session_id d) 1 a1 out1 s j e (wire_packet AUTH_PKT_AUTH_2 (cd_session_id d) 1 pl2) pending)
    as (i & o1 & c & Hi & Ho' & Hl & Etake & Er & Hc' & Hwin); try done.
  set (s1 := with_sessions _ _) in Er.
  destruct (retransmitted_auth1_refused cfg d2 (cd_session_id d) 1 a1 out2 s1) as [Eagain _]; try done.
  { apply lookup_take_Some in Hj as [_ ?]. cbn. lia. }
  { by apply insert_wf. }
  { cbn [s1 with_sessions sv_sessions]. by apply (another_free _ i i1 i2). }
  { cbn [s1 with_sessions with_cache sv_replay_cache]. rewrite Hwin. apply remembered. }
  exists p1, pl2, o1, i, c, pending, (after_auth1 (auth_draws_of d d1 j) a1 (setup_ctx a d creds pub)), c2, pl3.
  split_and!; try done; by apply packet_fits.
Qed.

(** C18: a lost AUTH_2 cannot be made good over UDP.  For an enrolled device and a server
    whose registry has it, both honest, when the answer to AUTH_1 does not arrive in time
    the client sends the same AUTH_1 again, as it should; the server, which has answered
    the first one and holds a session for it, refuses the second one as a replay without
    a change of its state, whatever it draws; and the client ends with this error,
    although nothing was wrong but the loss of one datagram. *)
Theorem lost_auth2_fails a d creds pub data cs s d1 d2 out1 out2 j e a1 :
  honest_pair a d creds pub d1 j e a1 s → is_n AUTH_MAX_DATAGRAM out1 → is_n AUTH_MAX_DATAGRAM out2 →
  files (cs_world cs) !! cred_path a = Some data → encodes_creds data creds → client_able a cs →
  let refusal := error_packet (cd_session_id d) 1 AUTH_ERR_REPLAY_DETECTED in
  udp_link [true] [refusal] [] (cs_net cs) →
  ∃ p1 answer s1 cs',
    run_proc (dispatch cfg d1 p1 out1) s = (Some answer, s1) ∧
    replied (Some answer) !! 1 = Some AUTH_PKT_AUTH_2 ∧
    run_proc (dispatch cfg d2 p1 out2) s1 = (Some (written refusal out2, length refusal), s1) ∧
    do_auth a d cs = (Err AUTH_ERR_REPLAY_DETECTED, cs') ∧
    us_sent (t_udp_socket (cs_net cs')) = map (pair None) [p1; p1] ∧
    files (cs_world cs') = files (cs_world cs).
Proof.
  intros Hp Ho1 Ho2 Hfile Henc [Y1 Y2 _] refusal Hlost.
  destruct (auth1_twice a d creds pub d1 d2 j e a1 s out1 out2 Hp Ho1 Ho2)
    as (p1 & pl2 & o1 & i & c & pending & c1 & c2 & pl3 & Er1 & Et & Er2 & _ & _ & L1 & _ & _ & _ & _ & E1 & _ & _).
  destruct Hp as [Hin _ _ _ [[Hpin _] Hrole _ Hpub] _ _ _ _ _ _ _]. pose proof Hin as [_ Hsid _ _ _ _].
  assert (is_u32 1) as Hq by (unfold is_u32; lia).
  destruct (do_auth_lost a d creds pub data p1 _ refusal AUTH_ERR_REPLAY_DETECTED [] cs Hin Hfile Henc Y2 Hpin Hrole Hpub Y1 E1)
    as (cs' & Ecs & Hfs & Hsent); [done|by apply error_packet_fits| |done|].
  { intros c'. unfold refusal, auth_client_handle_auth2. by rewrite bind_run, open_reply_error. }
  eexists p1, _, _, cs'. split; [exact Er1|]. split; [cbn [replied]; by rewrite Et|]. split; [exact Er2|]. split; [exact Ecs|]. by split.
Qed.

(** The client's side: the answer to the second AUTH_1 is read in place of the acknowledgement. *)
Lemma do_auth_late a d creds pub data p1 c1 p2 c2 p3 c3 q e rest s :
  inputs_wf a d → creds_wf creds → client_able a s → files (cs_world s) !! cred_path a = Some data → encodes_creds data creds →
  cr_has_pinned_server creds = true → cr_has_role creds = true →
  auth_scalarmult_base (auth_derive_device_scalar (cr_device_root creds)) = Ok pub →
  (∀ out0, is_n AUTH_MAX_DATAGRAM out0 →
    send_from out0 (auth_client_build_auth1 (cd_nonce d) (cd_eph d) (cd_delta d) (cd_client_proof d) (cd_rerand d)
      (cd_branches d) (Some (a_allowed a))) (setup_ctx a d creds pub) = Ok (p1, c1)) →
  receive (auth_client_handle_auth2 (Some p2)) c1 = Ok c2 →
  (∀ out0, is_n AUTH_MAX_DATAGRAM out0 → send_from out0 auth_client_build_auth3 c2 = Ok (p3, c3)) →
  Forall (λ p, length p ≤ AUTH_MAX_DATAGRAM) [p1; p2; p3; q] → (∀ c, auth_client_handle_auth_ack (Some q) c = (Err e, c)) →
  udp_link [true; false] (p2 :: q :: rest) [] (cs_net s) →
  ∃ s', do_auth a d s = (Err e, s') ∧ files (cs_world s') = files (cs_world s) ∧ us_sent (t_udp_socket (cs_net s')) = map (pair None) [p1; p1; p3].
Proof.
  intros Hin Hw [Y1 Y2 Y3] Hd He Hpin Hrole Hp E1 E2 E3 Hf Eq Hlink. rewrite !list.Forall_cons in Hf. destruct Hf as (F1 & F2 & F3 & F4 & _).
  destruct (do_auth_start a d creds pub data s) as (w1 & (Hf1 & _) & ->); [done..|].
  set (s1 := {| cs_ctx := setup_ctx a d creds pub; cs_out := _; cs_net := _; cs_world := w1 |}).
  destruct (exchange_udp _ _ p1 p2 _ _ _ Hlink F1 F2) as (t1 & X1 & Hl1). destruct (exchange_udp _ _ p3 q _ _ _ Hl1 F3 F4) as (t2 & X2 & Hl2).
  destruct (auth_handshake_steps a d (setup_ctx a d creds pub) p1 c1 p2 c2 p3 c3 q s1 t1 t2 E1 E2 E3 Hin eq_refl
    (proj2 (setup_ctx_wf a d creds pub Hin Hw Hp)) Y1 X1 X2) as (s2 & -> & Ht & _ & Hw2).
  unfold on_client, on_ctx. rewrite Eq. eexists. split; [reflexivity|]. cbn. rewrite Hw2, Ht. split; [done|]. exact (ul_sent _ _ _ _ Hl2).
Qed.

(** An AUTH_2 that comes too late cannot be used either.  When it arrives after the
    client has sent AUTH_1 a second time, the client accepts it and sends AUTH_3, which
    the server accepts: the server has authenticated the device.  But the client reads the
    server's refusal of the second AUTH_1 in place of the acknowledgement and ends with a
    replay error: the two sides disagree on whether the authentication has succeeded. *)
Theorem late_auth2_fails a d creds pub data cs s d1 d2 d3 out1 out2 out3 j e a1 :
  honest_pair a d creds pub d1 j e a1 s → is_n AUTH_MAX_DATAGRAM out1 → is_n AUTH_MAX_DATAGRAM out2 → is_n AUTH_MAX_DATAGRAM out3 →
  files (cs_world cs) !! cred_path a = Some data → encodes_creds data creds → client_able a cs →
  let refusal := error_packet (cd_session_id d) 1 AUTH_ERR_REPLAY_DETECTED in
  let ack := wire_packet AUTH_PKT_AUTH_ACK (cd_session_id d) 2 [AUTH_ACK_BYTE] in
  ∃ p1 p2 p3 o1 s1 o3 s3,
    run_proc (dispatch cfg d1 p1 out1) s = (Some (o1, length p2), s1) ∧ take (length p2) o1 = p2 ∧
    run_proc (dispatch cfg d2 p1 out2) s1 = (Some (written refusal out2, length refusal), s1) ∧
    run_proc (dispatch cfg d3 p3 out3) s1 = (Some (o3, length ack), s3) ∧ take (length ack) o3 = ack ∧ message_remembered a1 s s3 ∧
    (udp_link [true; false] [p2; refusal; ack] [] (cs_net cs) →
     ∃ cs', do_auth a d cs = (Err AUTH_ERR_REPLAY_DETECTED, cs') ∧ us_sent (t_udp_socket (cs_net cs')) = map (pair None) [p1; p1; p3]).
Proof.
  intros Hp Ho1 Ho2 Ho3 Hfile Henc Hable refusal ack.
  destruct (auth1_twice a d creds pub d1 d2 j e a1 s out1 out2 Hp Ho1 Ho2)
    as (p1 & pl2 & o1 & i & c & pending & c1 & c2 & pl3 & Er1 & Et & Er2 & Hi & Hwin & L1 & L2 & Hps & Hsid2 & Hseq2 & E1 & E3 & [L3 E4 E5 _]).
  rewrite Hsid2, Hseq2 in *. change (u32 (1 + 1)) with 2%Z in *.
  destruct Hp as [Hin Hw _ _ [[Hpin _] Hrole _ Hpub] _ _ _ _ [R1 R2 R3 R4 R5] _ _]. pose proof Hin as [_ Hsid _ _ _ _].
  assert (is_u32 1) as Hq1 by (unfold is_u32; lia). assert (is_u32 2) as Hq2 by (unfold is_u32; lia).
  set (s1 := with_sessions _ _) in *. set (p2 := wire_packet _ _ 1 pl2) in *.
  destruct (dispatch_auth3_run cfg d3 i (cd_session_id d) 2 pl3 out3 (sv_sessions s) s1 ack pending)
    as (o3 & Ho3' & Hl3 & Et3 & Er3); [done|done|done|done|by eapply lookup_lt_Some|done|done|done|by apply E5|].
  exists p1, p2, (wire_packet AUTH_PKT_AUTH_3 (cd_session_id d) 2 pl3), o1, s1, o3, (with_sessions (<[i := Slot_free]> (sv_sessions s)) s1).
  do 5 (split; [done|]). split.
  { constructor; [done|done| |done]. by apply list_insert_id. }
  intros Hlink. destruct (do_auth_late a d creds pub data p1 c1 p2 c2 _ _ refusal AUTH_ERR_REPLAY_DETECTED [ack] cs Hin Hw Hable Hfile Henc Hpin
    Hrole Hpub E1 E3 E4) as (cs' & Ecs & _ & Hsent); [| |exact Hlink|by exists cs'].
  - repeat apply List.Forall_cons; [done|done|by apply packet_fits|by apply error_packet_fits|apply List.Forall_nil].
  - intros c'. unfold refusal, auth_client_handle_auth_ack. by rewrite bind_run, open_reply_error.
Qed.
End lost.

(** *** A run with the toy group *)
Definition sample_two_sessions : server_state_t :=
  {| sv_registry := {| rg_entries := [sample_other; sample_device] ++ replicate 254 zero_entry; rg_n := 2;
                       rg_path := rg_path (sv_registry sample_s0) |};
     sv_sessions := sv_sessions sample_s0; sv_replay_cache := sv_replay_cache sample_s0; sv_world := sv_world sample_s0 |}.

Definition sample_refusal : bytes := error_packet (replicate 16 Byte.x05) 1 AUTH_ERR_REPLAY_DETECTED.

Definition sample_lossy_client : client_state :=
  {| cs_ctx := zero_ctx; cs_out := zeros AUTH_MAX_DATAGRAM;
     cs_net := {| t_kind := TRANSPORT_UDP; t_udp := {| u_fd := 3 |}; t_tcp := {| tc_fd := 0 |};
                  t_udp_socket := {| us_incoming := [([], sample_refusal)]; us_sent := []; us_polls := [P_timeout; P_ready]; us_answers := [] |};
                  t_tcp_socket := sample_socket [] |};
     cs_world := {| files := {[ cred_path sample_roles_args := cred_image sample_enrolled_creds ]}; unsynced := ∅; answers := []; history := [] |} |}.

Lemma sample_honest_auth1 a :
  setup_ctx (NaCl := Toy.sodium) a sample_client_draws sample_enrolled_creds sample_pub = sample_tcp_ctx →
  honest_auth (NaCl := Toy.sodium) sample_cfg a sample_client_draws sample_draws sample_enrolled_creds sample_pub 1 sample_tcp_auth1.
Proof.
  intros Ha. constructor; [|exists sample_tcp_eph; exact sample_server_good]. rewrite Ha.
  exists (take 2 (a1_branches sample_tcp_auth1)), sample_tcp_blind. split; [exact sample_auth1_made|exact sample_auth1_good].
Qed.

Lemma sample_honest_pair : honest_pair (NaCl := Toy.sodium) sample_cfg sample_roles_args sample_client_draws sample_enrolled_creds sample_pub
  sample_draws 1 sample_device sample_tcp_auth1 sample_two_sessions.
Proof.
  destruct (server_init_ok (NaCl := Toy.sodium) _ _ _ _ _ _ sample_init) as (_ & _ & [[[_ _ _ Hp] _ Ht _ Hc] _]).
  constructor.
  - destruct sample_inputs. constructor; try assumption. repeat constructor; (by apply Z.leb_le) || by apply Z.ltb_lt.
  - constructor; try reflexivity. split; [by apply Z.leb_le|by apply Z.ltb_lt].
  - exact sample_draws_ok.
  - split; [split; reflexivity|vm_compute; reflexivity].
  - exact sample_device_ready.
  - vm_compute. reflexivity.
  - split; [|split; [discriminate|apply Nat.leb_le; reflexivity]].
    repeat (apply List.Forall_cons; [concrete_range|]). apply List.Forall_nil.
  - by split.
  - by apply sample_honest_auth1.
  - constructor; [|done|done|left; reflexivity|].
    + constructor; [reflexivity|apply Nat.leb_le; reflexivity| |exact Hp].
      repeat (apply list.Forall_cons; split; [constructor; reflexivity|]). constructor.
    + change (sv_sessions sample_two_sessions) with (auth_session_table_init []).2. intros i p Hi.
      apply (list_elem_of_lookup_2 _ i) in Hi. by apply elem_of_replicate in Hi as [[=] _].
  - constructor; [reflexivity| |].
    + intros [|k] e' Hk He'; [|lia]. cbn in He'. injection He' as <-. exact sample_passed_over.
    + assert (window (sv_replay_cache sample_s0) = []) as Hwin by (vm_compute; reflexivity).
      change (sv_replay_cache sample_two_sessions) with (sv_replay_cache sample_s0). rewrite Hwin. apply not_elem_of_nil.
  - exists 0, 1. split; [discriminate|]. split; vm_compute; reflexivity.
Qed.

Lemma lost_auth2_fails_witness :
  ∃ p1 cs', do_auth (NaCl := Toy.sodium) sample_roles_args sample_client_draws sample_lossy_client = (Err AUTH_ERR_REPLAY_DETECTED, cs') ∧
    us_sent (t_udp_socket (cs_net cs')) = map (pair None) [p1; p1].
Proof.
  destruct (lost_auth2_fails (NaCl := Toy.sodium) sample_cfg sample_roles_args sample_client_draws sample_enrolled_creds sample_pub
    (cred_image sample_enrolled_creds) sample_lossy_client sample_two_sessions sample_draws sample_draws (zeros AUTH_MAX_DATAGRAM)
    (zeros AUTH_MAX_DATAGRAM) 1 sample_device sample_tcp_auth1 sample_honest_pair) as (p1 & answer & s1 & cs' & _ & _ & _ & E1 & E2 & _).
  - apply length_zeros.
  - apply length_zeros.
  - vm_compute. reflexivity.
  - apply encodes_creds_result. vm_compute. reflexivity.
  - constructor; [apply length_zeros|apply List.Forall_nil|apply Nat.ltb_lt; reflexivity].
  - by constructor.
  - exists p1, cs'. split; [exact E1|exact E2].
Defined.

(** ** SETUP_1 *)

(** What the server draws for the second SETUP_1. *)
Definition sample_draws_again : draws :=
  {| dr_server_nonce := replicate 32 Byte.x1a; dr_setup_challenge := replicate 16 Byte.x1b; dr_setup_proof := store_le 64 19;
     dr_eph := λ _, store_le 64 11; dr_nonce := λ _, replicate 32 Byte.x0c; dr_proof := λ _, store_le 64 13 |}.

Definition lost_first : server_state_t :=
  (run_proc (dispatch (NaCl := Toy.sodium) sample_cfg sample_draws setup1_05 (zeros AUTH_MAX_DATAGRAM)) sample_s0).2.

Definition lost_again : option (bytes * nat) * server_state_t :=
  run_proc (dispatch (NaCl := Toy.sodium) sample_cfg sample_draws_again setup1_05 (zeros AUTH_MAX_DATAGRAM)) lost_first.

(** The client's SETUP_3 after the SETUP_2 that answers the second SETUP_1. *)
Definition lost_setup3 : option bytes :=
  match receive (auth_client_handle_setup2 (NaCl := Toy.sodium) (Some (replied lost_again.1)) true) (sample_setup1 (replicate 16 Byte.x05)).2 with
  | Ok c => match send (auth_client_build_setup3 (NaCl := Toy.sodium) (sample_random 62)) c with Ok (p, _) => Some p | _ => None end
  | _ => None
  end.

(** An enrollment whose first SETUP_2 is lost cannot complete: the second SETUP_1, which
    the client sends after its timeout, gets a session of its own with the same name, the
    client accepts its SETUP_2, and the SETUP_3 that proves this second session is checked
    against the first one and refused.  No device is enrolled, and both sessions stay in
    the table. *)
Theorem lost_setup2_fails :
  ∃ setup3, lost_setup3 = Some setup3 ∧
    let '(o, s) := run_proc (dispatch (NaCl := Toy.sodium) sample_cfg sample_draws setup3 (zeros AUTH_MAX_DATAGRAM)) lost_again.2 in
    replied o = error_packet (replicate 16 Byte.x05) 2 AUTH_ERR_PROOF_VERIFY ∧ devices (sv_registry s) = [] ∧
    map slot_state (take 3 (sv_sessions s)) =
      [AUTH_SESSION_SLOT_SETUP; AUTH_SESSION_SLOT_SETUP; AUTH_SESSION_SLOT_FREE].
Proof. eexists. split; [vm_compute; reflexivity|]. vm_compute. split_and!; reflexivity. Qed.
