(* ===== verification/Programs.v ===== *)
(** The two [main] functions, [src/c/bin/client.c] and [src/c/bin/server.c]: from the
    command line to the exit status of the client and to the threads of the server.

    The state is a [machine]: the files and directories, the sockets of the kernel,
    whether libsodium is initialised, and what will flow over the socket that the
    client opens.  [Err rc] is [return rc] (and [exit(rc)]) before the end. *)
From stdpp Require Import gmap.
From S2P Require Import ServerArgs.
From S2P Require Export Drivers EndToEnd Sockets.

Record machine := {
  mc_world : world;
  mc_dirs : gset bytes;
  mc_kernel : kernel;
  mc_initialized : bool;
  mc_udp : udp_socket;
  mc_tcp : socket
}.

Definition set_world w m : machine :=
  {| mc_world := w; mc_dirs := mc_dirs m; mc_kernel := mc_kernel m; mc_initialized := mc_initialized m; mc_udp := mc_udp m;
     mc_tcp := mc_tcp m |}.
Definition set_dirs d m : machine :=
  {| mc_world := mc_world m; mc_dirs := d; mc_kernel := mc_kernel m; mc_initialized := mc_initialized m; mc_udp := mc_udp m;
     mc_tcp := mc_tcp m |}.
Definition set_kernel k m : machine :=
  {| mc_world := mc_world m; mc_dirs := mc_dirs m; mc_kernel := k; mc_initialized := mc_initialized m; mc_udp := mc_udp m;
     mc_tcp := mc_tcp m |}.
Definition set_initialized b m : machine :=
  {| mc_world := mc_world m; mc_dirs := mc_dirs m; mc_kernel := mc_kernel m; mc_initialized := b; mc_udp := mc_udp m;
     mc_tcp := mc_tcp m |}.

(** A call in [main]; [rc] is what [main] returns when it fails. *)
Definition or_exit {S A} (rc : Z) (view : machine → S) (update : S → machine → machine) (m : M auth_err_t S A) : M Z machine A := λ mc,
  let '(o, s) := m (view mc) in
  (match o with Ok a => Ok a | Err _ => Err rc | Fault => Fault end, update s mc).

(** [if (parse_args(argc, argv, &a) != 0) { usage(argv[0]); return 2; }], where help is
    [exit(0)]; [a] is not initialised. *)
Definition parse_or_exit {S} (parse : M stop S unit) (a0 : S) : M Z machine S := λ mc,
  (match parse a0 with (Ok _, a) => Ok a | (Err Refused, _) => Err 2%Z | (Err Helped, _) => Err 0%Z | (Fault, _) => Fault end, mc).

(** Whether [mkdir_p] returns 0: the directory is there, or can be made. *)
Definition mkdir_p (path : bytes) : M auth_err_t machine bool := λ mc,
  if bool_decide (path ∈ mc_dirs mc) then (Ok true, mc)
  else match files (mc_world mc) !! path with
  | Some _ => (Ok false, mc)
  | None =>
      match kernel_answers (mc_kernel mc) with
      | (Ok K_ok, k) => (Ok true, set_dirs ({[path]} ∪ mc_dirs mc) (set_kernel k mc))
      | (_, k) => (Ok false, set_kernel k mc)
      end
  end.

(** [if (auth_init() != AUTH_OK) return 1; if (mkdir_p(a.state_dir) != 0) return 1;] *)
Definition start_up (sodium_init : Z) (state_dir : bytes) : M Z machine unit :=
  or_exit 1 mc_initialized set_initialized (auth_init sodium_init);;
  made ← or_exit 1 id (λ m _, m) (mkdir_p state_dir);
  require made 1%Z.

(** ** The client *)
Section client.
Context {NaCl : Sodium} {NET : Net}.

(** The descriptors of [client_transport_t]; the one that is not used is not
    initialised. *)
Definition transport_connect (kind : transport_kind_t) (server : ptr bytes) : M auth_err_t kernel (auth_udp_t * auth_tcp_conn_t) :=
  match kind with
  | TRANSPORT_UDP => u ← auth_udp_connect server; mret (u, {| tc_fd := 0 |})
  | TRANSPORT_TCP => c ← auth_tcp_connect server; mret ({| u_fd := 0 |}, c)
  end.

Definition transport_close (kind : transport_kind_t) (fds : auth_udp_t * auth_tcp_conn_t) : M auth_err_t kernel unit :=
  match kind with
  | TRANSPORT_UDP => udp_close (Some fds.1);; mret tt
  | TRANSPORT_TCP => tcp_close (Some fds.2);; mret tt
  end.

(** [int rc = a.do_setup ? do_setup(&a, &t) : do_auth(&a, &t);] with the locals of
    these functions; [out] is not initialised. *)
Definition run_client (a : args_t) (d : client_draws) (out : bytes) (fds : auth_udp_t * auth_tcp_conn_t) : M Z machine Z := λ mc,
  let s := {| cs_ctx := zero_ctx; cs_out := out;
              cs_net := {| t_kind := a_transport a; t_udp := fds.1; t_tcp := fds.2; t_udp_socket := mc_udp mc; t_tcp_socket := mc_tcp mc |};
              cs_world := mc_world mc |} in
  let '(o, s') := (if a_do_setup a then do_setup a d else do_auth a d) s in
  (match o with Ok _ => Ok 0%Z | Err _ => Ok 1%Z | Fault => Fault end,
   {| mc_world := cs_world s'; mc_dirs := mc_dirs mc; mc_kernel := mc_kernel mc; mc_initialized := mc_initialized mc;
      mc_udp := t_udp_socket (cs_net s'); mc_tcp := t_tcp_socket (cs_net s') |}).

Definition client_main (argv : list bytes) (a0 : args_t) (sodium_init : Z) (d : client_draws) (out : bytes) : M Z machine Z :=
  a ← parse_or_exit (Args.parse_args argv) a0;
  start_up sodium_init (a_state_dir a);;
  fds ← or_exit 1 mc_kernel set_kernel (transport_connect (a_transport a) (a_server a));
  rc ← run_client a d out fds;
  or_exit 1 mc_kernel set_kernel (transport_close (a_transport a) fds);;
  mret rc.
End client.

(** ** The server *)
Section server.
Context {NaCl : Sodium} {NET : Net}.

(** [run_udp] and [run_tcp] up to their loops: the socket, unless it cannot be bound. *)
Definition bind_thread {A} (wanted : bool) (m : M auth_err_t kernel A) : M Z machine (option A) := λ mc,
  if wanted then
    match m (mc_kernel mc) with
    | (Ok x, k) => (Ok (Some x), set_kernel k mc)
    | (Err _, k) => (Ok None, set_kernel k mc)
    | (Fault, k) => (Fault, set_kernel k mc)
    end
  else (Ok None, mc).

(** [server_start] on the files of the machine; afterwards they belong to the state that
    the threads share. *)
Definition start_server (wide : bytes) (a : ServerArgs.args_t) : M Z machine (server_config * server_state_t) :=
  or_exit 1 mc_world set_world (server_start wide (ServerArgs.a_state_dir a) (a_require_pairing_token a)).

(** [a.transport & TRANSPORT_UDP], [a.transport & TRANSPORT_TCP] *)
Definition wants (a : ServerArgs.args_t) (bit : Z) : bool := negb (Z.land (transport_bits (ServerArgs.a_transport a)) bit =? 0)%Z.

(** The configuration, the shared state and the sockets of the two threads. *)
Definition server_main (argv : list bytes) (a0 : ServerArgs.args_t) (sodium_init : Z) (wide : bytes) :
    M Z machine (server_config * server_state_t * option auth_udp_t * option auth_tcp_listener_t) :=
  a ← parse_or_exit (ServerArgs.parse_args argv) a0;
  start_up sodium_init (ServerArgs.a_state_dir a);;
  '(cfg, s) ← start_server wide a;
  u ← bind_thread (wants a 1) (auth_udp_bind (a_bind a));
  l ← bind_thread (wants a 2) (auth_tcp_listener_bind (a_bind a) 64);
  mret (cfg, s, u, l).
End server.

(** ** Starting *)
Definition exit_status (o : outcome Z Z) : option Z := match o with Ok rc | Err rc => Some rc | Fault => None end.

(** Files and descriptors are as they were. *)
Definition unchanged (m m' : machine) : Prop := mc_world m' = mc_world m ∧ same_table (mc_kernel m) (mc_kernel m').

Lemma same_table_refl k : same_table k k.
Proof. done. Qed.

Lemma mkdir_run path m : ∃ b m', mkdir_p path m = (Ok b, m') ∧ unchanged m m'.
Proof.
  unfold mkdir_p. case_bool_decide; [by exists true, m|]. destruct (files (mc_world m) !! path); [by exists false, m|].
  destruct (answers_run (mc_kernel m)) as (a & k & -> & Ht & _). destruct a; by eexists _, _.
Qed.

Lemma start_up_run sodium dir m :
  ∃ o m', start_up sodium dir m = (o, m') ∧ unchanged m m' ∧ (o = Ok tt ∨ o = Err 1%Z).
Proof.
  unfold start_up. rewrite bind_run. unfold or_exit at 1.
  assert (∃ o b, auth_init sodium (mc_initialized m) = (o, b) ∧ o ≠ Fault) as (o & b & -> & Hf).
  { unfold auth_init. mstep. destruct (mc_initialized m); [by eexists _, _|]. mstep. by destruct (negb _); eexists _, _. }
  destruct o as [u|e|]; [| |done].
  - rewrite bind_run. unfold or_exit. cbn [id]. destruct (mkdir_run dir (set_initialized b m)) as (made & m' & -> & Hu).
    exists (if made then Ok tt else Err 1%Z), m'. destruct made; (split; [done|]); (split; [exact Hu|]); [by left|by right].
  - eexists _, _. split; [done|]. by split; [|right].
Qed.

Section client.
Context {NaCl : Sodium} {HS : SodiumSpec NaCl} {NET : Net}.

(** The descriptors of a connected transport. *)
Definition connected_by (kind : transport_kind_t) (k k' : kernel) (fds : auth_udp_t * auth_tcp_conn_t) : Prop :=
  ∃ n s, fresh_sock k k' n s ∧ match kind with TRANSPORT_UDP => u_fd fds.1 | TRANSPORT_TCP => tc_fd fds.2 end = Z.of_nat n.

Lemma transport_connect_run kind server k :
  (∃ fds k', transport_connect kind server k = (Ok fds, k') ∧ connected_by kind k k' fds) ∨
  (∃ e k', transport_connect kind server k = (Err e, k') ∧ same_table k k').
Proof.
  destruct kind; cbn [transport_connect]; rewrite bind_run.
  - pose proof (udp_connect_opens server k) as H. unfold opens_sock in H.
    destruct (auth_udp_connect server k) as [[u|e|] k']; [left|right; by eexists _, _|done].
    destruct H as (a & n & s & _ & E & Hf & _). eexists _, k'. split; [done|]. by exists n, s.
  - pose proof (tcp_connect_opens server k) as H. unfold opens_sock in H.
    destruct (auth_tcp_connect server k) as [[c|e|] k']; [left|right; by eexists _, _|done].
    destruct H as (a & n & s & _ & E & Hf & _). eexists _, k'. split; [done|]. by exists n, s.
Qed.

Lemma transport_close_run kind k k' fds :
  connected_by kind k k' fds → ∃ k2, transport_close kind fds k' = (Ok tt, k2) ∧ same_table k k2.
Proof.
  intros (n & s & Hf & E). destruct fds as [[u] [c]], kind; cbn [fst snd u_fd tc_fd transport_close] in *; subst.
  - destruct (udp_close_run _ _ _ _ Hf) as (k2 & E & Ht). exists k2. by mstep by E.
  - destruct (tcp_close_run _ _ _ _ Hf) as (k2 & E & Ht). exists k2. by mstep by E.
Qed.

(** The sizes of the random draws. *)
Record client_draws_wf (d : client_draws) : Prop := {
  dw_root : is_n 32 (cd_root d);
  dw_session : is_n 16 (cd_session_id d);
  dw_nonce : is_n 32 (cd_nonce d);
  dw_branches : ∀ n, length (cd_branches d n) = n
}.

Lemma parsed_inputs_wf a d : args_wf a → client_draws_wf d → inputs_wf a d.
Proof. intros [] []. constructor; try done. by apply Forall_take. Qed.

(** What the exit status says about the files: a completed enrollment, or an
    authenticated session with the enrolled server and its pinned key. *)
Definition client_result (a : args_t) (d : client_draws) (rc : Z) (before after : fs) : Prop :=
  if a_do_setup a then
    (rc = 0%Z ∧ setup_atomic a d (Ok tt) before after) ∨ (rc = 1%Z ∧ ∃ e, setup_atomic a d (Err e) before after)
  else
    after = before ∧ (rc = 1%Z ∨ rc = 0%Z ∧ ∃ data creds a2 c c', before !! cred_path a = Some data ∧ encodes_creds data creds ∧
      cr_has_pinned_server creds = true ∧ cr_has_role creds = true ∧ c_server_pub_pinned c = cr_server_pub_pinned creds ∧
      auth_scalarmult_base (auth_derive_device_scalar (cr_device_root creds)) = Ok (c_device_pub c) ∧
      auth2_wf a2 ∧ auth2_proved a2 c c').

Lemma run_client_run a d out fds m :
  inputs_wf a d → is_n AUTH_MAX_DATAGRAM out →
  ∃ rc m', run_client a d out fds m = (Ok rc, m') ∧ mc_kernel m' = mc_kernel m ∧
    client_result a d rc (files (mc_world m)) (files (mc_world m')).
Proof.
  intros Hin Hout. unfold run_client, client_result. set (s := {| cs_ctx := zero_ctx; cs_out := out; cs_net := _; cs_world := _ |}).
  destruct (a_do_setup a).
  - pose proof (do_setup_atomic a d s Hin Hout) as H. destruct (do_setup a d s) as [[[]|e|] s']; [| |by destruct H].
    + eexists _, _. split; [done|]. split; [done|]. by left.
    + eexists _, _. split; [done|]. split; [done|]. right. split; [done|]. by exists e.
  - pose proof (client_auth_confirmed a d s Hin Hout) as H. destruct (do_auth a d s) as [[u|e|] s']; [| |by destruct H].
    + destruct H as [Hf (data & creds & a2 & c & c' & H)]. eexists _, _. split; [done|]. split; [done|]. split; [done|].
      right. split; [done|]. exists data, creds, a2, c, c'. destruct H as (? & ? & ? & ? & ? & ? & ? & ? & _). by split_and!.
    + destruct H as [Hf _]. eexists _, _. split; [done|]. split; [done|]. split; [done|]. by left.
Qed.

End client.

Section server.
Context {NaCl : Sodium} {HS : SodiumSpec NaCl} {NET : Net}.

Definition registry_path (dir : bytes) : bytes := take 511 (dir ++ str_bytes "/registry.bin").

Lemma server_key_total wide path sk0 w : (auth_server_key_load_or_create wide (Some path) (sk0, w)).1 ≠ Fault.
Proof.
  pose proof (server_key_run wide path sk0 w) as H. destruct (auth_server_key_load_or_create wide (Some path) (sk0, w)) as [o [sk w']].
  cbn. intros ->. destruct (files w !! path).
  - destruct H as [_ [(_ & [=])|[(_ & [=] & _)|([=] & _)]]].
  - destruct H as [(w1 & _ & _ & E)|([=] & _)]. pose proof (write_atomic path (skey_image sk) w1) as Ha.
    rewrite E in Ha. by destruct Ha as [Hf _].
Qed.

Definition key_path (dir : bytes) : bytes := take 511 (dir ++ str_bytes "/server_sk.bin").

(** Of the files, at most that of the server key is new. *)
Definition key_created (dir : bytes) (w w' : world) : Prop :=
  ∃ sk, old_or_new (key_path dir) (skey_image sk) (files w) (files w').

Lemma key_created_refl dir w w' : files w' = files w → key_created dir w w'.
Proof. intros E. exists []. rewrite E. by split; [|left]. Qed.

Lemma server_key_file wide path sk0 w :
  let '(o, (sk, w')) := auth_server_key_load_or_create wide (Some path) (sk0, w) in
  (∃ sk', old_or_new path (skey_image sk') (files w) (files w')) ∧
  (o = Ok tt → ∃ d, files w' !! path = Some d ∧ skey_result d = Ok sk).
Proof.
  pose proof (server_key_run wide path sk0 w) as H. destruct (auth_server_key_load_or_create wide (Some path) (sk0, w)) as [o [sk w']].
  assert (∀ w', untouched w w' → ∃ sk', old_or_new path (skey_image sk') (files w) (files w')) as Hsame.
  { intros w2 (E & _). exists []. rewrite E. by split; [|left]. }
  destruct (files w !! path) as [d|] eqn:Ed.
  - destruct H as [Hu H]. split; [by apply Hsame|]. intros ->. exists d. pose proof Hu as [-> _]. split; [done|].
    by destruct H as [[? _]|[(_ & [=] & _)|([=] & _)]].
  - destruct H as [(w1 & [E1 _] & -> & E)|(-> & Hu & _)]; [|split; [by apply Hsame|done]].
    pose proof (write_atomic path (skey_image (auth_random_scalar wide)) w1) as Ha. rewrite E in Ha.
    destruct Ha as (_ & [Ho _] & Hf & _). rewrite E1 in Ho. split; [by eexists|]. intros ->. destruct Hf as [Hf _].
    eexists. split; [exact Hf|]. apply skey_result_image, length_random_scalar.
Qed.

(** The start of the server takes its policy from the command line, its devices and its
    key from the files. *)
Lemma server_start_cases wide dir token w :
  let '(o, w') := server_start wide dir token w in
  key_created dir w w' ∧
  match o with
  | Ok (cfg, s0) => sc_require_pairing_token cfg = token ∧ sc_allowed_roles cfg = [1; 2]%Z ∧ sv_world s0 = w' ∧
      (∃ d, files w' !! key_path dir = Some d ∧ skey_result d = Ok (sc_server_sk cfg)) ∧
      match files w !! registry_path dir with
      | Some d => encodes_registry d (devices (sv_registry s0))
      | None => devices (sv_registry s0) = []
      end
  | Err _ => True
  | Fault => False
  end.
Proof.
  unfold server_start. cbv zeta. fold (registry_path dir) (key_path dir).
  pose proof (registry_load_exact_spec (registry_path dir) zero_registry w) as Hl.
  destruct (auth_registry_load _ _) as [[u|e|] [reg w1]]; [|by split; [apply key_created_refl, Hl|]|by destruct Hl as (_ & _ & [])].
  destruct Hl as (Hf1 & _ & _ & Hd). pose proof (server_key_total wide (key_path dir) (zeros 32) w1) as Hk.
  pose proof (server_key_file wide (key_path dir) (zeros 32) w1) as Hkf. rewrite Hf1 in Hkf.
  destruct (auth_server_key_load_or_create _ _ _) as [[[]|e|] [sk w2]]; [|by split; [apply Hkf|]|done].
  destruct Hkf as [Hc Hkey]. specialize (Hkey eq_refl). split; [done|].
  pose proof (scalarmult_base_good sk) as Hg. destruct (auth_scalarmult_base sk) as [pub|e|]; [|done..]. by split_and!.
Qed.

(** What holds of the shared state in every run. *)
Record server_safe (cfg : server_config) (reg0 : auth_registry_t) (s : server_state_t) : Prop := {
  sf_registry : registry_wf (sv_registry s);
  sf_sessions : table_wf (sv_sessions s);
  sf_devices e : e ∈ devices (sv_registry s) → enrolled_device cfg reg0 (re_device_pub e) (re_role_commitment e);
  sf_slots i p : sv_sessions s !! i = Some (Slot_auth p) → authenticated cfg reg0 p
}.

Lemma drivers_safe wide dir token w cfg s0 tcp udp out s ts :
  server_init wide dir token w = Ok (cfg, s0) → is_n AUTH_MAX_DATAGRAM out →
  star (run tcp cfg) (s0, start_threads udp out) (s, ts) → Forall thread_ok ts ∧ server_safe cfg (sv_registry s0) s.
Proof.
  intros H0 Hout H. destruct (server_init_ok _ _ _ _ _ _ H0) as (Hp & Hr & Hok).
  destruct (runs_simulated cfg _ Hp Hr tcp _ _ H _ Hok (start_simulates s0 udp out Hout)) as ([s' pool] & Hst & [Hinv _] & [Es _ Ht]).
  cbn [fst snd] in *. subst s'. split; [done|]. destruct Hinv as [I1 I2 I3 I4 I5].
  rewrite list.Forall_forall in I2. rewrite list.Forall_lookup in I4. constructor; [done|done|by apply I2|]. intros i p Hi. exact (I4 _ _ Hi).
Qed.

(** The descriptors of [k'] are those of [k] and [fd], if any. *)
Definition gains (k k' : kernel) (fd : option Z) : Prop :=
  k_files k' = k_files k ∧
  match fd with
  | Some fd => ∃ n, fd = Z.of_nat n ∧ (n ∉ dom (k_socks k) ∪ k_files k) ∧ dom (k_socks k') = {[n]} ∪ dom (k_socks k)
  | None => dom (k_socks k') = dom (k_socks k)
  end.

(** The socket of a thread: when its transport is wanted it is the one that binding gives,
    and none only if binding fails. *)
Definition thread_socket {A} (wanted : bool) (bind : M auth_err_t kernel A) (fd : A → Z) (x : option A) (k k' : kernel) : Prop :=
  gains k k' (fd <$> x) ∧
  match x with
  | Some y => wanted = true ∧ bind k = (Ok y, k')
  | None => if wanted then ∃ e, bind k = (Err e, k') else k' = k
  end.

Lemma bind_thread_run {A} wanted (m : M auth_err_t kernel A) fd addr Q mc :
  opens_sock m fd addr Q (mc_kernel mc) →
  ∃ x mc', bind_thread wanted m mc = (Ok x, mc') ∧ mc_world mc' = mc_world mc ∧
    thread_socket wanted m fd x (mc_kernel mc) (mc_kernel mc').
Proof.
  intros H. unfold bind_thread. destruct wanted; [|by exists None, mc].
  unfold opens_sock in H. destruct (m (mc_kernel mc)) as [[x|e|] k] eqn:E; [| |done].
  - destruct H as (a & n & s & _ & En & (H1 & H2 & H3) & _). exists (Some x), (set_kernel k mc). split_and!; [done|done|].
    split; [|done]. split; [done|]. exists n. cbn. rewrite H2, dom_insert_L. done.
  - destruct H as [H1 H2]. exists None, (set_kernel k mc). split_and!; [done|done|]. split; [|by exists e].
    split; [done|]. cbn. by rewrite H1.
Qed.

(** The transports that [--transport] asks for. *)
Definition asks_udp (t : ServerArgs.transport_kind_t) : bool :=
  match t with ServerArgs.TRANSPORT_UDP | ServerArgs.TRANSPORT_BOTH => true | ServerArgs.TRANSPORT_TCP => false end.
Definition asks_tcp (t : ServerArgs.transport_kind_t) : bool :=
  match t with ServerArgs.TRANSPORT_TCP | ServerArgs.TRANSPORT_BOTH => true | ServerArgs.TRANSPORT_UDP => false end.

Lemma wants_asked a : wants a 1 = asks_udp (ServerArgs.a_transport a) ∧ wants a 2 = asks_tcp (ServerArgs.a_transport a).
Proof. unfold wants. by destruct (ServerArgs.a_transport a). Qed.

End server.

(** ** A concrete run: an enrollment from the command line *)
Definition sample_machine : machine :=
  {| mc_world := {| files := ∅; unsynced := ∅; answers := []; history := [] |}; mc_dirs := ∅;
     mc_kernel := {| k_socks := ∅; k_files := {[0; 1; 2]}; k_answers := []; k_peers := [] |};
     mc_initialized := false; mc_udp := t_udp_socket (sample_net []); mc_tcp := sample_socket sample_setup_replies |}.

Definition sample_run : outcome Z Z * machine :=
  client_main (NaCl := Toy.sodium) (NET := ToyNet.net) (str_bytes "auth_client" :: print_args sample_args) default_args 0
    sample_client_draws (zeros AUTH_MAX_DATAGRAM) sample_machine.

