(* ===== verification/Hosts.v ===== *)
(** The machines that the two programs run on when the system works: what the client
    program does over its connection decides its exit status ([client_main_run]), and the
    server program starts with the devices and the key of its files ([server_main_runs]). *)
From stdpp Require Import gmap.
From S2P Require Import ServerArgs.
From S2P Require Export EndToEndAuth Programs.

(** ** Sockets when nothing fails *)
Definition calm (k : kernel) : Prop := Forall (λ a, a = K_ok) (k_answers k).

Lemma answers_calm k : calm k → ∃ k', kernel_answers k = (Ok K_ok, k') ∧ same_table k k' ∧ calm k'.
Proof.
  unfold calm, kernel_answers. destruct (k_answers k) as [|a l] eqn:E; intros H.
  - exists k. split; [done|]. split; [done|]. by rewrite E.
  - apply list.Forall_cons in H as [-> H]. by eexists.
Qed.

Section net.
Context {NET : Net}.

Lemma socket_calm family stream k :
  calm k → ∃ n k', sys_socket family stream k = (Ok (Z.of_nat n), k') ∧ fresh_sock k k' n (new_sock family stream) ∧ calm k'.
Proof.
  intros Hk. unfold sys_socket. destruct (answers_calm k Hk) as (k1 & E & Ht & Hk1). mstep by E.
  destruct (install_run (new_sock family stream) k1) as (n & k2 & -> & Hf & Ea). exists n, k2. split; [done|].
  split; [by eapply fresh_sock_same|]. unfold calm. by rewrite Ea.
Qed.

Lemma update_calm k k1 n s f :
  fresh_sock k k1 n s → calm k1 → ∃ k2, sys_update (Z.of_nat n) f k1 = (Ok true, k2) ∧ fresh_sock k k2 n (f s) ∧ calm k2.
Proof.
  intros Hf Hk. unfold sys_update. destruct (answers_calm k1 Hk) as (k2 & E & Ht & Hk2). mstep by E. mstep.
  pose proof (same_fresh_sock _ _ _ _ _ Hf Ht) as (H1 & H2 & H3). rewrite Nat2Z.id, H2, lookup_insert_eq. mstep.
  eexists. split; [done|]. split; [|done]. split; [done|]. split; [|done]. cbn. by rewrite insert_insert_eq.
Qed.

Lemma parse_local_ok server k : (∃ a, resolves server a) → ∃ a, parse_local server k = (Ok a, k).
Proof.
  intros [a Ha]. unfold parse_local.
  destruct (addr_parse_exact server zero_addr) as [(a' & -> & _)|[_ Hn]]; [by exists a'|by destruct (Hn a)].
Qed.

(** [setsockopt], [bind] and [listen] on the new socket. *)
Lemma udp_bind_calm addr k :
  calm k → (∃ a, resolves addr a) → ∃ u k', auth_udp_bind addr k = (Ok u, k') ∧ calm k'.
Proof.
  intros Hk Ha. destruct (parse_local_ok addr k Ha) as (a & E). unfold auth_udp_bind. mstep by E.
  destruct (socket_calm (ss_family (sa a)) false k Hk) as (n & k1 & E1 & Hf1 & Hk1). mstep by E1.
  rewrite (proj2 (Z.ltb_ge (Z.of_nat n) _)) by lia. cbn [negb]. mstep.
  destruct (update_calm _ _ _ _ set_reuse Hf1 Hk1) as (k2 & E2 & Hf2 & Hk2). mstep by E2. unfold sys_bind.
  destruct (update_calm _ _ _ _ (set_local (bound_to (sockaddr a))) Hf2 Hk2) as (k3 & E3 & Hf3 & Hk3). mstep by E3. cbn [or_close]. mstep.
  by eexists _, k3.
Qed.

Lemma listener_bind_calm addr backlog k :
  calm k → (∃ a, resolves addr a) → ∃ l k', auth_tcp_listener_bind addr backlog k = (Ok l, k') ∧ calm k'.
Proof.
  intros Hk Ha. destruct (parse_local_ok addr k Ha) as (a & E). unfold auth_tcp_listener_bind. mstep by E.
  destruct (socket_calm (ss_family (sa a)) true k Hk) as (n & k1 & E1 & Hf1 & Hk1). mstep by E1.
  rewrite (proj2 (Z.ltb_ge (Z.of_nat n) _)) by lia. cbn [negb]. mstep.
  destruct (update_calm _ _ _ _ set_reuse Hf1 Hk1) as (k2 & E2 & Hf2 & Hk2). mstep by E2. unfold sys_bind.
  destruct (update_calm _ _ _ _ (set_local (bound_to (sockaddr a))) Hf2 Hk2) as (k3 & E3 & Hf3 & Hk3). mstep by E3. cbn [or_close]. mstep.
  unfold sys_listen. destruct (update_calm _ _ _ _ (set_backlog (if (0 <? backlog)%Z then backlog else 64%Z)) Hf3 Hk3) as (k4 & E4 & _ & Hk4).
  mstep by E4. cbn [or_close]. mstep. by eexists _, k4.
Qed.

Lemma transport_connect_calm kind server k :
  calm k → (∃ a, resolves server a) → ∃ fds k', transport_connect kind server k = (Ok fds, k').
Proof.
  intros Hk Ha. destruct (parse_local_ok server k Ha) as (a & E). destruct kind; cbn [transport_connect].
  - unfold auth_udp_connect. rewrite bind_run. mstep by E. destruct (socket_calm (ss_family (sa a)) false k Hk) as (n & k1 & E1 & Hf1 & Hk1).
    mstep by E1. rewrite (proj2 (Z.ltb_ge (Z.of_nat n) _)) by lia. cbn [negb]. mstep. unfold sys_connect.
    destruct (update_calm _ _ _ _ (set_peer (sockaddr a)) Hf1 Hk1) as (k2 & E2 & _). mstep by E2. cbn [or_close]. mstep. by eexists _, k2.
  - unfold auth_tcp_connect. rewrite bind_run. mstep by E. destruct (socket_calm (ss_family (sa a)) true k Hk) as (n & k1 & E1 & Hf1 & Hk1).
    mstep by E1. rewrite (proj2 (Z.ltb_ge (Z.of_nat n) _)) by lia. cbn [negb]. mstep. unfold sys_connect.
    destruct (update_calm _ _ _ _ (set_peer (sockaddr a)) Hf1 Hk1) as (k2 & E2 & Hf2 & Hk2). mstep by E2. cbn [or_close]. mstep.
    destruct (update_calm _ _ _ _ set_nodelay Hf2 Hk2) as (k3 & E3 & _). mstep by E3. by eexists _, k3.
Qed.
End net.

(** ** The client program *)

(** The machine on whose next sockets this will flow. *)
Definition with_sockets (su : udp_socket) (st : socket) (m : machine) : machine :=
  {| mc_world := mc_world m; mc_dirs := mc_dirs m; mc_kernel := mc_kernel m; mc_initialized := mc_initialized m;
     mc_udp := su; mc_tcp := st |}.

(** ... whose next TCP connection brings these bytes. *)
Definition on_stream (incoming : bytes) (m : machine) : machine := with_sockets (mc_udp m) (stream incoming (mc_tcp m)) m.

Record client_host {NET : Net} (a : args_t) (m : machine) : Prop := {
  ch_fine : fine (mc_world m);
  ch_calm : calm (mc_kernel m);
  ch_dir : a_state_dir a ∈ mc_dirs m ∨ files (mc_world m) !! a_state_dir a = None;
  ch_server : ∃ addr, resolves (a_server a) addr;
  ch_path : length (cred_path a) + 4 < 512
}.

Lemma start_up_calm sodium dir m :
  (0 ≤ sodium)%Z → calm (mc_kernel m) → dir ∈ mc_dirs m ∨ files (mc_world m) !! dir = None →
  ∃ b dirs k, calm k ∧ same_table (mc_kernel m) k ∧ ∀ su st, start_up sodium dir (with_sockets su st m) = (Ok tt,
    with_sockets su st {| mc_world := mc_world m; mc_dirs := dirs; mc_kernel := k; mc_initialized := b; mc_udp := mc_udp m; mc_tcp := mc_tcp m |}).
Proof.
  intros Hs Hk Hdir. unfold start_up.
  assert (∃ b, auth_init sodium (mc_initialized m) = (Ok tt, b)) as [b Eb].
  { unfold auth_init. mstep. destruct (mc_initialized m); [by eexists|]. rewrite (proj2 (Z.ltb_ge _ _)) by done. by eexists. }
  destruct (answers_calm (mc_kernel m) Hk) as (k & E & Ht & Hk').
  destruct (decide (dir ∈ mc_dirs m)) as [Hin|Hin].
  - exists b, (mc_dirs m), (mc_kernel m). split; [done|]. split; [done|]. intros su st. rewrite bind_run. unfold or_exit.
    cbn [with_sockets mc_initialized]. rewrite Eb. rewrite bind_run. cbn [id]. unfold mkdir_p.
    cbn [set_initialized with_sockets mc_dirs]. by rewrite bool_decide_true.
  - destruct Hdir as [?|Hno]; [done|]. exists b, ({[dir]} ∪ mc_dirs m), k. split; [done|]. split; [done|]. intros su st.
    rewrite bind_run. unfold or_exit. cbn [with_sockets mc_initialized]. rewrite Eb. rewrite bind_run. cbn [id]. unfold mkdir_p.
    cbn [set_initialized with_sockets mc_dirs mc_world mc_kernel]. rewrite bool_decide_false by done. by rewrite Hno, E.
Qed.

Section client.
Context {NaCl : Sodium} {HS : SodiumSpec NaCl} {NET : Net}.

(** The locals of [do_setup] and [do_auth] at their start. *)
Definition client_locals (a : args_t) (out : bytes) (u : auth_udp_t) (c : auth_tcp_conn_t) (w : world) (su : udp_socket) (st : socket) :
    client_state :=
  {| cs_ctx := zero_ctx; cs_out := out;
     cs_net := {| t_kind := a_transport a; t_udp := u; t_tcp := c; t_udp_socket := su; t_tcp_socket := st |}; cs_world := w |}.

(** What the client program does once it is connected decides its exit status. *)
Lemma client_main_run argv a0 a sodium d out m :
  Args.parse_args argv a0 = (Ok tt, a) → (0 ≤ sodium)%Z → client_host a m →
  ∃ u c, match a_transport a with Args.TRANSPORT_UDP => (0 ≤ u_fd u)%Z | Args.TRANSPORT_TCP => open_conn c end ∧
    ∀ su st s', (if a_do_setup a then do_setup a d else do_auth a d) (client_locals a out u c (mc_world m) su st) = (Ok tt, s') →
    ∃ m', client_main argv a0 sodium d out (with_sockets su st m) = (Ok 0%Z, m') ∧ mc_world m' = cs_world s' ∧
      mc_udp m' = t_udp_socket (cs_net s') ∧ mc_tcp m' = t_tcp_socket (cs_net s') ∧ same_table (mc_kernel m) (mc_kernel m').
Proof.
  intros Hp Hs [H1 H2 H3 H4 H5].
  destruct (start_up_calm sodium (a_state_dir a) m Hs H2 H3) as (b & dirs & k & Hk & Hst & Estart).
  destruct (transport_connect_calm (a_transport a) (a_server a) k Hk H4) as ([u c] & k2 & Econn).
  destruct (transport_connect_run (a_transport a) (a_server a) k) as [(fds & k' & E & Hcon)|(e & k' & E & _)];
    rewrite Econn in E; [|done]. injection E as <- <-.
  destruct (transport_close_run _ _ _ _ Hcon) as (k3 & Eclose & Hk3). exists u, c. split.
  { destruct Hcon as (n & s & _ & E). unfold open_conn. destruct (a_transport a); cbn [fst snd] in E; rewrite E; lia. }
  intros su st s' Hrun. unfold client_main. rewrite bind_run. unfold parse_or_exit. rewrite Hp.
  rewrite bind_run, Estart, bind_run. unfold or_exit at 1. cbn [with_sockets mc_kernel]. rewrite Econn.
  rewrite bind_run. unfold run_client.
  change (((if a_do_setup a then do_setup a d else do_auth a d) : M auth_err_t client_state unit) {| cs_ctx := _; cs_out := _; cs_net := _; cs_world := _ |})
    with ((if a_do_setup a then do_setup a d else do_auth a d) (client_locals a out u c (mc_world m) su st)).
  rewrite Hrun. rewrite bind_run. unfold or_exit. cbn [mc_kernel set_kernel]. rewrite Eclose.
  eexists. split; [reflexivity|]. do 3 (split; [done|]). by eapply same_table_trans.
Qed.

(** ... over TCP. *)
Lemma client_main_tcp argv a0 a sodium d out m :
  Args.parse_args argv a0 = (Ok tt, a) → a_transport a = Args.TRANSPORT_TCP → (0 ≤ sodium)%Z → is_n AUTH_MAX_DATAGRAM out →
  client_host a m → smooth (mc_tcp m) →
  ∃ cs, client_ready a cs ∧ cs_world cs = mc_world m ∧
    ∀ incoming s', (if a_do_setup a then do_setup a d else do_auth a d) (over incoming cs) = (Ok tt, s') →
    ∃ m', client_main argv a0 sodium d out (on_stream incoming m) = (Ok 0%Z, m') ∧ mc_world m' = cs_world s' ∧
      so_sent (mc_tcp m') = sent_by s' ∧ same_table (mc_kernel m) (mc_kernel m').
Proof.
  intros Hp Ht Hs Hout Hhost Hsm. destruct (client_main_run argv a0 a sodium d out m Hp Hs Hhost) as (u & c & Hopen & Hrun).
  rewrite Ht in Hopen. exists (client_locals a out u c (mc_world m) (mc_udp m) (mc_tcp m)). split; [|split; [done|]].
  { destruct Hhost. by constructor; [constructor| | |]. }
  intros incoming s' E. destruct (Hrun (mc_udp m) (stream incoming (mc_tcp m)) s' E) as (m' & E' & Hw & _ & Hn & Hk).
  exists m'. split; [done|]. split; [done|]. unfold sent_by. by rewrite Hn.
Qed.
End client.

(** ** The server program *)
Section server.
Context {NaCl : Sodium} {HS : SodiumSpec NaCl} {NET : Net}.

(** The tables are empty at the start. *)
Lemma server_start_fresh wide dir token w :
  match server_start wide dir token w with
  | (Ok (_, s0), _) => rg_path (sv_registry s0) = registry_path dir ∧ sv_sessions s0 = (auth_session_table_init []).2 ∧
      window (sv_replay_cache s0) = []
  | _ => True
  end.
Proof.
  unfold server_start. cbv zeta. fold (registry_path dir).
  pose proof (registry_load_exact_spec (registry_path dir) zero_registry w) as Hl.
  destruct (auth_registry_load _ _) as [[u|e|] [reg w1]]; [|done..]. destruct Hl as (_ & _ & Hp & _).
  destruct (auth_server_key_load_or_create _ _ _) as [[u2|e|] [sk w2]]; [|done..].
  destruct (auth_scalarmult_base sk) as [pub|e|]; [|done..]. split_and!; [done|done|reflexivity].
Qed.

Lemma server_init_roles wide dir token w cfg s0 :
  server_init wide dir token w = Ok (cfg, s0) → AuthExchange.roles_wf (sc_allowed_roles cfg).
Proof.
  unfold server_init. intros H. pose proof (server_start_cases wide dir token w) as Hc.
  destruct (server_start _ _ _ w) as [o w']. cbn [fst] in H. subst o. destruct Hc as (_ & _ & -> & _).
  split; [repeat (apply list.Forall_cons; split; [concrete_range|]); constructor|]. split; [done|apply Nat.leb_le; reflexivity].
Qed.

(** What a start of the server program has read. *)
Record started (a : ServerArgs.args_t) (wide : bytes) (w w' : world) (cfg : server_config) (s0 : server_state_t) : Prop := {
  sd_init : server_init wide (ServerArgs.a_state_dir a) (a_require_pairing_token a) w = Ok (cfg, s0);
  sd_world : sv_world s0 = w';
  sd_path : rg_path (sv_registry s0) = registry_path (ServerArgs.a_state_dir a);
  sd_sessions : sv_sessions s0 = (auth_session_table_init []).2;
  sd_window : window (sv_replay_cache s0) = [];
  sd_key : ∃ d, files w' !! key_path (ServerArgs.a_state_dir a) = Some d ∧ skey_result d = Ok (sc_server_sk cfg)
}.

Lemma server_main_starts argv a0 sodium wide m cfg s0 u l m' :
  server_main argv a0 sodium wide m = (Ok (cfg, s0, u, l), m') →
  ∃ a, ServerArgs.parse_args argv a0 = (Ok tt, a) ∧ started a wide (mc_world m) (mc_world m') cfg s0 ∧
    (is_Some l → wants a 2 = true) ∧ (∀ x, u = Some x → (0 ≤ u_fd x)%Z).
Proof.
  unfold server_main. rewrite bind_run. unfold parse_or_exit. destruct (ServerArgs.parse_args argv a0) as [[[]|[|]|] a]; [|done..].
  rewrite bind_run. destruct (start_up_run sodium (ServerArgs.a_state_dir a) m) as (o & m1 & -> & [Hw1 _] & [->| ->]); [|done].
  rewrite bind_run. unfold start_server, or_exit. rewrite Hw1. set (w := mc_world m).
  pose proof (server_start_cases wide (ServerArgs.a_state_dir a) (a_require_pairing_token a) w) as Hi.
  pose proof (server_start_fresh wide (ServerArgs.a_state_dir a) (a_require_pairing_token a) w) as Hp.
  destruct (server_start _ _ _ w) as [o w'] eqn:Es. destruct Hi as [_ Hi]. destruct o as [[cfg1 s1]|e|]; [|done..].
  destruct Hi as (_ & _ & Hw & Hk & _). rewrite bind_run.
  destruct (bind_thread_run (wants a 1) (auth_udp_bind (a_bind a)) u_fd _ _ (set_world w' m1) (udp_bind_opens _ _))
    as (x1 & m2 & -> & Hw2 & [[_ Hg] _]). rewrite bind_run.
  destruct (bind_thread_run (wants a 2) (auth_tcp_listener_bind (a_bind a) 64) l_fd _ _ m2 (listener_bind_opens _ _ _))
    as (y & m3 & -> & Hw3 & [_ Hl]). cbn [mret M_ret]. intros [= -> -> -> -> <-]. destruct Hp as (Hp1 & Hp2 & Hp3).
  assert (mc_world m3 = w') as Ew by (by rewrite Hw3, Hw2). exists a. split; [done|].
  split; [|split; [intros [z ->]; apply Hl|]]. 2:{ intros x ->. cbn in Hg. destruct Hg as (n & -> & _). lia. }
  constructor; [unfold server_init; by rewrite Es|by rewrite Ew|done..|by rewrite Ew].
Qed.

(** *** Starting on files that a server has left *)
Record server_host (a : ServerArgs.args_t) (m : machine) : Prop := {
  sh_fine : fine (mc_world m);
  sh_calm : calm (mc_kernel m);
  sh_dir : ServerArgs.a_state_dir a ∈ mc_dirs m ∨ files (mc_world m) !! ServerArgs.a_state_dir a = None;
  sh_bind : ∃ addr, resolves (a_bind a) addr
}.

(** The files of a server with these devices and this key. *)
Record server_files (dir : bytes) (ds : list auth_registry_entry_t) (sk pub : bytes) (f : fs) : Prop := {
  sf_image : f !! registry_path dir = Some (registry_image ds);
  sf_wf : Forall device_wf ds ∧ length ds ≤ AUTH_REGISTRY_MAX_ENTRIES;
  sf_short : length (registry_path dir) ≤ 255;
  sf_key : ∃ d, f !! key_path dir = Some d ∧ skey_result d = Ok sk;
  sf_pub : auth_scalarmult_base sk = Ok pub
}.

Lemma server_start_again wide dir token ds sk pub w :
  fine w → server_files dir ds sk pub (files w) →
  ∃ s0 w', server_start wide dir token w =
      (Ok ({| sc_server_sk := sk; sc_server_pub := pub; sc_require_pairing_token := token; sc_allowed_roles := [1; 2]%Z |}, s0), w') ∧
    devices (sv_registry s0) = ds.
Proof.
  intros Hf [Hreg [Hwf Hlen] Hshort (kd & Hkd & Hkr) Hpub]. unfold server_start. cbv zeta. fold (registry_path dir) (key_path dir).
  destruct (registry_load_run (registry_path dir) zero_registry w Hshort) as (o & reg & w1 & -> & (Hf1 & _ & Hfine1) & Ho).
  pose proof (image_encodes ds Hwf Hlen) as Henc. rewrite Hreg in Ho.
  destruct Ho as [(_ & _ & ?)|[(l & Hl & -> & ->)|[Hn _]]]; [done| |by destruct (Hn ds)].
  pose proof (encodes_registry_inj _ _ _ Hl Henc) as ->.
  pose proof (server_key_run wide (key_path dir) (zeros 32) w1) as Hk. rewrite Hf1, Hkd in Hk.
  destruct (auth_server_key_load_or_create _ _ _) as [o [sk' w2]].
  destruct Hk as [_ [[Hk ->]|[(Hk & _)|(_ & _ & Hk)]]]; [|congruence|by destruct Hk; apply Hfine1].
  rewrite Hkr in Hk. injection Hk as <-. rewrite Hpub. eexists _, w2. split; [reflexivity|]. apply devices_loaded.
Qed.

Lemma bind_thread_calm {A} wanted (bind : M auth_err_t kernel A) mc :
  (∀ k, calm k → ∃ x k', bind k = (Ok x, k') ∧ calm k') → calm (mc_kernel mc) →
  ∃ x k', bind_thread wanted bind mc = (Ok x, set_kernel k' mc) ∧ calm k' ∧ (wanted = true → is_Some x).
Proof.
  intros H Hk. unfold bind_thread. destruct wanted.
  - destruct (H _ Hk) as (x & k' & -> & Hk'). by exists (Some x), k'.
  - exists None, (mc_kernel mc). split; [by destruct mc|done].
Qed.

(** The server program starts again. *)
Lemma server_main_runs argv a0 a sodium wide ds sk pub m :
  ServerArgs.parse_args argv a0 = (Ok tt, a) → (0 ≤ sodium)%Z → server_host a m → wants a 2 = true →
  server_files (ServerArgs.a_state_dir a) ds sk pub (files (mc_world m)) →
  ∃ s0 u l m', server_main argv a0 sodium wide m =
      (Ok ({| sc_server_sk := sk; sc_server_pub := pub; sc_require_pairing_token := a_require_pairing_token a;
              sc_allowed_roles := [1; 2]%Z |}, s0, u, Some l), m') ∧ devices (sv_registry s0) = ds.
Proof.
  intros Hp Hs [H1 H2 H3 H4] Hl Hfiles. unfold server_main. rewrite bind_run. unfold parse_or_exit. rewrite Hp.
  destruct (start_up_calm sodium (ServerArgs.a_state_dir a) m Hs H2 H3) as (b & dirs & k & Hk & _ & Estart).
  specialize (Estart (mc_udp m) (mc_tcp m)). assert (with_sockets (mc_udp m) (mc_tcp m) m = m) as Em by (by destruct m).
  rewrite Em in Estart. rewrite bind_run, Estart. rewrite bind_run. unfold start_server, or_exit. cbn [with_sockets mc_world].
  destruct (server_start_again wide (ServerArgs.a_state_dir a) (a_require_pairing_token a) ds sk pub (mc_world m) H1 Hfiles)
    as (s0 & w' & -> & Hd). set (m1 := set_world _ _). rewrite bind_run.
  destruct (bind_thread_calm (wants a 1) (auth_udp_bind (a_bind a)) m1) as (u & k1 & -> & Hk1 & _); [|done|].
  { intros k' Hk'. by apply udp_bind_calm. }
  rewrite bind_run. destruct (bind_thread_calm (wants a 2) (auth_tcp_listener_bind (a_bind a) 64) (set_kernel k1 m1))
    as (l & k2 & -> & _ & Hsome); [|done|].
  { intros k' Hk'. by apply listener_bind_calm. }
  destruct (Hsome Hl) as [x ->]. by exists s0, u, x, (set_kernel k2 (set_kernel k1 m1)).
Qed.
End server.
