(* ===== verification/Deployment.v ===== *)
(** The whole: the server program from its start, and the client program from its
    command line to its exit status, over a TCP connection between the two.

    The client runs on a system whose calls succeed ([client_host]); what the two sides
    send, and how the streams between them are cut, is as in [EndToEnd] and
    [EndToEndAuth].  The server's side is a run of its threads. *)
From stdpp Require Import gmap.
From S2P Require Import ServerArgs.
From S2P Require Export Hosts Retransmission.

Section deployment.
Context {NaCl : Sodium} {HS : SodiumSpec NaCl} {NET : Net}.

(** The thread of one more connection, from its acceptance to its end. *)
Lemma connection_run cfg ds fuel fd so out s ts ch s' :
  (∀ n, draws_ok (ds n)) → (0 ≤ fd)%Z → is_n AUTH_MAX_DATAGRAM out →
  serve cfg ds fuel (Receiving (Tcp {| tc_fd := fd |} so) out) s = Some (ch, s') →
  star (run true cfg) (s, ts) (s', ts ++ [Returned ch]).
Proof.
  intros Hds Hfd Hout H. eapply star_step; [by apply (run_accept true cfg s ts fd so out)|].
  change (accept_conn fd so out) with (Receiving (Tcp {| tc_fd := fd |} so) out). set (t := Receiving _ _) in *.
  pose proof (serve_star cfg true ds (length ts) Hds fuel (ts ++ [t]) t s ch s') as Hst.
  rewrite insert_app_r_alt, Nat.sub_diag in Hst by done. cbn [insert list_insert] in Hst. apply Hst; [|exact H].
  by rewrite lookup_app_r, Nat.sub_diag by done.
Qed.

Lemma free_slots i : (auth_session_table_init []).2 !! i = Some Slot_free ∨ (auth_session_table_init []).2 !! i = None.
Proof.
  change (auth_session_table_init []).2 with (replicate AUTH_SESSION_TABLE_CAPACITY Slot_free).
  destruct (replicate _ _ !! i) as [x|] eqn:E; [left|by right]. by apply lookup_replicate in E as [-> _].
Qed.

Lemma registry_path_nonempty dir : registry_path dir ≠ [].
Proof.
  intros H. unfold registry_path in H. apply (f_equal length) in H. rewrite length_take, length_app in H.
  change (length (str_bytes "/registry.bin")) with 13 in H. cbn [length] in H. lia.
Qed.

(** A server that has just started is ready for a device. *)
Lemma started_server_ready a wide w w' cfg s0 sid id :
  started a wide w w' cfg s0 → fine w' → has_room id (sv_registry s0) → server_ready sid id s0.
Proof.
  intros [H0 Hw Hpath Hslots _ _] Hf Hroom. destruct (server_init_ok _ _ _ _ _ _ H0) as (_ & _ & [[Hreg _ Htab _ _] _]).
  constructor; [done|done|by rewrite Hpath; apply registry_path_nonempty|by rewrite Hw|done| |].
  - rewrite Hslots. by left.
  - intros j q. rewrite Hslots. destruct (free_slots j) as [-> | ->]; [by intros [= ?]|done].
Qed.

Lemma started_auth_ready a wide w w' cfg s0 sid : started a wide w w' cfg s0 → auth_server_ready sid s0.
Proof.
  intros [H0 _ _ Hslots _ _]. destruct (server_init_ok _ _ _ _ _ _ H0) as (_ & _ & [[Hreg _ Htab _ Hc] _]).
  constructor; [done|done|done| |].
  - rewrite Hslots. by left.
  - intros i q. rewrite Hslots. destruct (free_slots i) as [-> | ->]; [by intros [= ?]|done].
Qed.

(** The client program started with this command line, on a system that works. *)
Record invoked (kind : transport_kind_t) (setup : bool) (argv : list bytes) (a0 a : args_t) (sodium : Z) (d : client_draws) (out : bytes)
    (m : machine) : Prop := {
  iv_parse : Args.parse_args argv a0 = (Ok tt, a);
  iv_transport : a_transport a = kind;
  iv_mode : a_do_setup a = setup;
  iv_sodium : (0 ≤ sodium)%Z;
  iv_draws : client_draws_wf d;
  iv_out : is_n AUTH_MAX_DATAGRAM out;
  iv_host : client_host a m
}.

Lemma invoked_inputs kind setup argv a0 a sodium d out m : invoked kind setup argv a0 a sodium d out m → inputs_wf a d.
Proof.
  intros [Hp _ _ _ Hd _ _]. pose proof (parse_args_run argv a0) as Hargs. rewrite Hp in Hargs. destruct Hargs as (_ & _ & Hwf).
  by apply parsed_inputs_wf.
Qed.

(** ... over TCP. *)
Record tcp_client (setup : bool) (argv : list bytes) (a0 a : args_t) (sodium : Z) (d : client_draws) (out : bytes) (m : machine) : Prop := {
  tl_invoked : invoked Args.TRANSPORT_TCP setup argv a0 a sodium d out m;
  tl_smooth : smooth (mc_tcp m)
}.

(** A connection that the server's listener accepts. *)
Record accepted (ds : nat → draws) (fd : Z) (so : socket) (out : bytes) : Prop := {
  ac_draws n : draws_ok (ds n);
  ac_fd : (0 ≤ fd)%Z;
  ac_smooth : smooth so;
  ac_out : is_n AUTH_MAX_DATAGRAM out
}.

(** The server, from [s0] with the threads [ts], accepts a connection on which [sent]
    arrives, answers with [replies], closes it, and is in the state [sv]. *)
Definition served (cfg : server_config) (ds : nat → draws) (s0 : server_state_t) (ts : list thread) (fd : Z) (so : socket) (out : bytes)
    (sent replies : bytes) (sv : server_state_t) : Prop :=
  ∃ so', star (run true cfg) (s0, ts) (sv, ts ++ [Returned (Tcp {| tc_fd := -1 |} so')]) ∧
    serve cfg ds 3 (accept_conn fd (stream sent so) out) s0 = Some (Tcp {| tc_fd := -1 |} so', sv) ∧ so_sent so' = replies.

Lemma served_run cfg ds s0 ts fd so out sent so' sv :
  accepted ds fd so out →
  serve cfg ds 3 (Receiving (Tcp {| tc_fd := fd |} (stream sent so)) out) s0 = Some (Tcp {| tc_fd := -1 |} so', sv) →
  served cfg ds s0 ts fd so out sent (so_sent so') sv.
Proof. intros [Hds Hfd _ Hout] H. exists so'. split; [by eapply connection_run|done]. Qed.

Lemma accepted_open ds fd so out : accepted ds fd so out → open_conn {| tc_fd := fd |}.
Proof. by intros []. Qed.

(** The system enrolls a device: for every command line of the server on which it
    starts with a TCP listener, and every command line of the client that asks for an
    enrollment over TCP, on a system that works, with the pairing token that the server
    wants, room in the registry, and any cut of the streams between the two, there are a
    run of the client program that exits with 0 and a run of the server's threads from
    the start of the program, each reading what the other writes.  The client then has
    no descriptor more and its credential file has the server's key pinned and the
    opening of a role commitment; the server has closed the connection, and its registry
    and its registry file have the device with this commitment. *)
Theorem deployment_enrolls sargv sa0 ssodium wide sm cfg s0 u l sm' us outu cargv ca0 a sodium d out cm creds pub ds fd so outs :
  server_main sargv sa0 ssodium wide sm = (Ok (cfg, s0, u, Some l), sm') → fine (mc_world sm') →
  has_room (auth_derive_device_id (cr_device_root creds)) (sv_registry s0) →
  tcp_client true cargv ca0 a sodium d out cm → accepted ds fd so outs →
  credentials_of (files (mc_world cm) !! cred_path a) (Some (cd_root d)) creds → enrollment_ready cfg a d (ds 2) creds pub →
  let ts := start_threads ((λ u, (u, us)) <$> u) outu in
  let new := enrolled_creds cfg a d creds pub in
  creds_wf new ∧ enrolled_device_ready cfg new pub ∧
  ∃ replies cm' sv,
    client_main cargv ca0 sodium d out (on_stream replies cm) = (Ok 0%Z, cm') ∧
    served cfg ds s0 ts fd so outs (so_sent (mc_tcp cm')) replies sv ∧ same_table (mc_kernel cm) (mc_kernel cm') ∧
    files (mc_world cm') !! cred_path a = Some (cred_image new) ∧
    device_added (auth_derive_device_id (cr_device_root creds)) pub (cr_role_commitment new) s0 sv.
Proof.
  intros Hmain Hfine Hroom [Hinv Hsm] Hac Hcr Her ts new.
  destruct (server_main_starts _ _ _ _ _ _ _ _ _ _ Hmain) as (sa & _ & Hst & _).
  pose proof (invoked_inputs _ _ _ _ _ _ _ _ _ Hinv) as Hin. destruct Hinv as [Hp Ht Hset Hs Hd Hout Hhost].
  destruct (client_main_tcp cargv ca0 a sodium d out cm Hp Ht Hs Hout Hhost Hsm) as (cs & Hready & Hcw & Hmainc).
  rewrite Hset in Hmainc. rewrite <- Hcw in Hcr. pose proof Hac as [Hds Hfd Hso Houts].
  destruct (enrollment_over_tcp cfg a d ds creds pub cs s0 {| tc_fd := fd |} so outs) as
    (Hnew & Hdev & replies & cs' & so' & sv & E1 & E2 & E3 & E4 & Hadd); [done..| |done|done|done|].
  { by eapply started_server_ready. }
  destruct (Hmainc replies cs' E1) as (cm' & Ec & Hw' & Hsent & Hk). rewrite <- Hsent in E2.
  split; [done|]. split; [done|]. exists replies, cm', sv. split; [exact Ec|].
  split; [rewrite <- E3; by apply served_run|]. split; [done|]. by rewrite Hw'.
Qed.

(** The system authenticates a device: after a start of the server program with a
    TCP listener, whose registry file has the device, and for every command line of the
    client over TCP that does not ask for an enrollment, on a system that works, with the
    credentials of an enrollment, an AUTH_1 whose proofs can be made and that does not
    verify as one of the devices before it in the registry, and any cut of the streams
    between the two, there are a run of the client program that exits with 0 and a run of
    the server's threads, each reading what the other writes.  The client then has no
    descriptor more and its files are as they were; the server has closed the connection,
    its devices are as they were, its slots are free, and it remembers the message. *)
Theorem deployment_authenticates sargv sa0 ssodium wide sm cfg s0 u l sm' us outu cargv ca0 a sodium d out cm data creds pub ds
    fd so outs j e a1 :
  server_main sargv sa0 ssodium wide sm = (Ok (cfg, s0, u, Some l), sm') →
  devices (sv_registry s0) !! j = Some e → re_device_pub e = pub → re_role_commitment e = cr_role_commitment creds →
  (∀ k e', k < j → devices (sv_registry s0) !! k = Some e' → passed_over cfg a1 e') →
  tcp_client false cargv ca0 a sodium d out cm → accepted ds fd so outs → a_allowed a = sc_allowed_roles cfg →
  keypair (sc_server_sk cfg) (sc_server_pub cfg) →
  files (mc_world cm) !! cred_path a = Some data → encodes_creds data creds → enrolled_device_ready cfg creds pub →
  honest_auth cfg a d (ds 2) creds pub j a1 →
  let ts := start_threads ((λ u, (u, us)) <$> u) outu in
  ∃ replies cm' sv,
    client_main cargv ca0 sodium d out (on_stream replies cm) = (Ok 0%Z, cm') ∧
    served cfg ds s0 ts fd so outs (so_sent (mc_tcp cm')) replies sv ∧ same_table (mc_kernel cm) (mc_kernel cm') ∧
    files (mc_world cm') = files (mc_world cm) ∧ message_remembered a1 s0 sv.
Proof.
  intros Hmain Hj Ep Ec Hpass [Hinv Hsm] Hac Hal Hk Hfile Henc Her [(bs & blind' & Hm & Hg) [eph_s Hsg]] ts.
  destruct (server_main_starts _ _ _ _ _ _ _ _ _ _ Hmain) as (sa & _ & Hst & _). pose proof (sd_window _ _ _ _ _ _ Hst) as Hwin.
  pose proof (server_init_roles _ _ _ _ _ _ (sd_init _ _ _ _ _ _ Hst)) as Hroles.
  pose proof (invoked_inputs _ _ _ _ _ _ _ _ _ Hinv) as Hin. destruct Hinv as [Hp Ht Hset Hs Hd Hout Hhost].
  destruct (client_main_tcp cargv ca0 a sodium d out cm Hp Ht Hs Hout Hhost Hsm) as (cs & Hready & Hcw & Hmainc).
  rewrite Hset in Hmainc. rewrite <- Hcw in Hfile. pose proof Hac as [Hds Hfd Hso Houts].
  destruct (authentication_over_tcp cfg a d ds creds pub data cs s0 {| tc_fd := fd |} so outs j e a1 bs blind' eph_s) as
    (replies & cs' & so' & sv & E1 & E2 & E3 & _ & E4 & Hr); try done.
  { constructor; [done|done|]. rewrite Hwin. apply not_elem_of_nil. }
  { by eapply started_auth_ready. }
  destruct (Hmainc replies cs' E1) as (cm' & Ecm & Hw' & Hsent & Hkk). rewrite <- Hsent in E2.
  exists replies, cm', sv. split; [exact Ecm|]. split; [rewrite <- E3; by apply served_run|]. split; [done|]. by rewrite Hw', E4, Hcw.
Qed.
End deployment.

(** ** Runs with the toy group and network *)
Definition sample_server_args : ServerArgs.args_t :=
  {| a_bind := Some (str_bytes "[::1]:4000"); ServerArgs.a_transport := ServerArgs.TRANSPORT_BOTH;
     ServerArgs.a_state_dir_p := Some (str_bytes "d"); a_require_pairing_token := None |}.

Definition sample_host (f : fs) : machine :=
  {| mc_world := {| files := f; unsynced := ∅; answers := []; history := [] |}; mc_dirs := ∅; mc_kernel := mc_kernel sample_machine;
     mc_initialized := false; mc_udp := t_udp_socket (sample_net []); mc_tcp := sample_socket [] |}.

(** The server program on these files. *)
Definition sample_server (f : fs) := server_main (NaCl := Toy.sodium) (NET := ToyNet.net)
  (str_bytes "auth_server" :: ServerArgs.print_args sample_server_args) ServerArgs.default_args 0 (store_le 64 4) (sample_host f).

Definition sample_state (f : fs) : server_state_t :=
  match (sample_server f).1 with Ok (_, s, _, _) => s | _ => dummy_state end.

Definition sample_started (f : fs) : Prop :=
  sample_server f = (Ok (sample_cfg, sample_state f, Some {| u_fd := 3 |}, Some {| l_fd := 4 |}), (sample_server f).2).

Definition sample_two_devices : fs :=
  {[ registry_path (str_bytes "d") := registry_image [sample_other; sample_device] ]}.

Lemma sample_client_host a f :
  a_server a = Some (str_bytes "[::1]:4000") → a_state_dir_p a = Some (str_bytes "state") → f !! str_bytes "state" = None →
  client_host (NET := ToyNet.net) a (sample_host f).
Proof.
  intros Hs Hd Hf. assert (a_state_dir a = str_bytes "state") as Edir by (unfold a_state_dir; by rewrite Hd). constructor.
  - constructor.
  - constructor.
  - right. by rewrite Edir.
  - rewrite Hs. eexists. exists (str_bytes "[::1]:4000"), (str_bytes "::1"), (str_bytes "4000"), ToyNet.loopback, [].
    split; [done|]. split; [apply (hostport_v6 (str_bytes "::1") (str_bytes "4000"))|].
    + apply (bool_decide_unpack _). reflexivity.
    + split_and!; [apply Nat.ltb_lt; reflexivity|reflexivity|apply Nat.leb_le; reflexivity|reflexivity].
  - unfold cred_path. rewrite Edir. apply Nat.ltb_lt. reflexivity.
Qed.

Lemma sample_draws_wf : client_draws_wf sample_client_draws.
Proof. constructor; [reflexivity..|]. apply (iw_branches _ _ sample_inputs). Qed.

Lemma sample_accepted_conn : accepted (λ _, sample_draws) 5 (sample_socket []) (zeros AUTH_MAX_DATAGRAM).
Proof. constructor; [intros _; exact sample_draws_ok|by apply Z.leb_le|apply sample_smooth|apply length_zeros]. Qed.

Lemma sample_tcp_client setup a f :
  a_server a = Some (str_bytes "[::1]:4000") → a_state_dir_p a = Some (str_bytes "state") → f !! str_bytes "state" = None →
  a_transport a = TRANSPORT_TCP → a_do_setup a = setup →
  Args.parse_args (str_bytes "auth_client" :: print_args a) default_args = (Ok tt, a) →
  tcp_client (NET := ToyNet.net) setup (str_bytes "auth_client" :: print_args a) default_args a 0 sample_client_draws
    (zeros AUTH_MAX_DATAGRAM) (sample_host f).
Proof.
  intros. constructor; [|apply sample_smooth].
  constructor; [done..|exact sample_draws_wf|apply length_zeros|by apply sample_client_host].
Qed.

Lemma sample_starts f :
  (sample_server f).1 = Ok (sample_cfg, sample_state f, Some {| u_fd := 3 |}, Some {| l_fd := 4 |}) → sample_started f.
Proof. unfold sample_started. intros <-. by destruct (sample_server f). Qed.

(** The device is the second of the registry. *)
Lemma deployment_authenticates_example :
  let a := set_do_setup false sample_roles_args in
  let f : fs := {[ cred_path a := cred_image sample_enrolled_creds ]} in
  sample_started sample_two_devices ∧
  ∃ replies cm' sv,
    client_main (NaCl := Toy.sodium) (NET := ToyNet.net) (str_bytes "auth_client" :: print_args a) default_args 0
      sample_client_draws (zeros AUTH_MAX_DATAGRAM) (on_stream replies (sample_host f)) = (Ok 0%Z, cm') ∧
    files (mc_world cm') = f ∧ message_remembered (NaCl := Toy.sodium) sample_tcp_auth1 (sample_state sample_two_devices) sv.
Proof.
  intros a f. assert (sample_started sample_two_devices) as Hstart by (vm_compute; reflexivity). split; [exact Hstart|].
  destruct (deployment_authenticates (NaCl := Toy.sodium) (NET := ToyNet.net) _ _ _ _ _ _ _ _ _ _ (t_udp_socket (sample_net []))
    (zeros AUTH_MAX_DATAGRAM) (str_bytes "auth_client" :: print_args a) default_args a 0 sample_client_draws (zeros AUTH_MAX_DATAGRAM)
    (sample_host f) (cred_image sample_enrolled_creds) sample_enrolled_creds sample_pub (λ _, sample_draws) 5 (sample_socket [])
    (zeros AUTH_MAX_DATAGRAM) 1 sample_device sample_tcp_auth1 Hstart) as (replies & cm' & sv & E1 & _ & _ & E2 & E3).
  - vm_compute. reflexivity.
  - reflexivity.
  - reflexivity.
  - intros [|k] e' Hk He'; [|lia]. assert (devices (sv_registry (sample_state sample_two_devices)) !! 0 = Some sample_other) as E by (vm_compute; reflexivity).
    rewrite E in He'. injection He' as <-. exact sample_passed_over.
  - apply sample_tcp_client; [done|done|vm_compute; reflexivity|done|done|vm_compute; reflexivity].
  - exact sample_accepted_conn.
  - vm_compute. reflexivity.
  - split; [split; reflexivity|vm_compute; reflexivity].
  - vm_compute. reflexivity.
  - apply encodes_creds_result. vm_compute. reflexivity.
  - exact sample_device_ready.
  - by apply sample_honest_auth1.
  - exists replies, cm', sv. by split_and!.
Qed.
