(* ===== verification/Lifecycle.v ===== *)
(** The life of a device: it enrolls, the server program ends and starts again on the
    files it has left, and the device authenticates.

    Nothing is carried from the enrollment to the authentication but the files of the two
    machines: the credential file of the client, the registry and the key of the server. *)
From stdpp Require Import gmap.
From S2P Require Import ServerArgs.
From S2P Require Export Deployment.

(** ** What the files keep *)

(** Complete credentials are read back as they were. *)
Lemma image_encodes_creds c :
  creds_wf c → cr_has_pinned_server c = true → cr_has_role c = true → encodes_creds (cred_image c) c.
Proof.
  intros Hw Hp Hr. apply encodes_creds_result. unfold creds_result.
  rewrite take_ge, length_cred_image, Nat.eqb_refl, parse_image by (done || by rewrite length_cred_image).
  f_equal. unfold canonical_creds. rewrite Hp, Hr. by destruct c; cbn in *; subst.
Qed.

Section files.
Context {NaCl : Sodium} {HS : SodiumSpec NaCl}.

Lemma key_path_apart dir :
  length (registry_path dir) ≤ 255 → key_path dir ≠ registry_path dir ∧ key_path dir ≠ tmp_of (registry_path dir).
Proof.
  unfold key_path, registry_path, tmp_of. rewrite length_take, length_app.
  change (length (str_bytes "/registry.bin")) with 13. intros Hl.
  assert (∀ x y : bytes, length x ≠ length y → x ≠ y) as Hne by (intros x y H ->; done).
  split; apply Hne; rewrite ?length_app, !length_take, !length_app;
    change (length (str_bytes "/registry.bin")) with 13; change (length (str_bytes "/server_sk.bin")) with 14;
    change (length (str_bytes ".tmp")) with 4; lia.
Qed.

(** The first entry of a device is what the map has. *)
Lemma map_of_first l id v :
  map_of l !! id = Some v →
  ∃ j e, l !! j = Some e ∧ record_of e = v ∧ ∀ k e', k < j → l !! k = Some e' → re_device_id e' ≠ id.
Proof.
  rewrite map_of_lookup. unfold find_device. destruct (list_find _ l) as [[j e]|] eqn:E; [|done]. intros [= <-].
  apply list_find_Some in E as (He & _ & Hb). exists j, e. split; [done|]. split; [done|]. intros k e' Hk He'. by eapply Hb.
Qed.

(** A server that has enrolled a device since its start has files to start again from. *)
Lemma enrolled_server_files sa wide w w' cfg s0 id pub com sv :
  started sa wide w w' cfg s0 → keypair (sc_server_sk cfg) (sc_server_pub cfg) → device_added id pub com s0 sv →
  server_files (ServerArgs.a_state_dir sa) (devices (sv_registry sv)) (sc_server_sk cfg) (sc_server_pub cfg) (files (sv_world sv)).
Proof.
  intros [H0 Hw Hp _ _ Hk] [_ Hpub] [[Hs Hn Hd _] Hpath _ _ Hfile Hother _ _].
  destruct (server_init_ok _ _ _ _ _ _ H0) as (_ & _ & [[[_ _ _ Hshort] _ _ _ _] _]). cbn [fst] in Hshort. rewrite Hp in *.
  destruct (key_path_apart _ Hshort) as [Hn1 Hn2]. constructor; [done| |done| |done].
  - split; [by apply Forall_take|]. unfold devices. rewrite length_take. lia.
  - rewrite (Hother _ Hn1 Hn2), Hw. exact Hk.
Qed.

(** The configuration comes from the files and the command line. *)
Lemma started_config sa wide w w' cfg s0 :
  started sa wide w w' cfg s0 → sc_require_pairing_token cfg = a_require_pairing_token sa ∧ sc_allowed_roles cfg = [1; 2]%Z.
Proof.
  intros [H0 _ _ _ _ _]. unfold server_init in H0.
  pose proof (server_start_cases wide (ServerArgs.a_state_dir sa) (a_require_pairing_token sa) w) as Hc.
  destruct (server_start _ _ _ w) as [o w1]. cbn [fst] in H0. subst o. by destruct Hc as (_ & ? & ? & _).
Qed.
End files.

(** ** The life of a device *)
Section life.
Context {NaCl : Sodium} {HS : SodiumSpec NaCl} {NET : Net}.

(** The server starts again with the same command line, after it has enrolled a device. *)
Lemma server_restarts sargv sa0 ssodium wide sm cfg s0 u l sm' id pub com sv :
  server_main sargv sa0 ssodium wide sm = (Ok (cfg, s0, u, Some l), sm') → keypair (sc_server_sk cfg) (sc_server_pub cfg) →
  device_added id pub com s0 sv →
  ∀ sa ssodium2 wide2 sm2, ServerArgs.parse_args sargv sa0 = (Ok tt, sa) → (0 ≤ ssodium2)%Z → server_host sa sm2 →
    files (mc_world sm2) = files (sv_world sv) →
    ∃ s2 u2 l2 sm2', server_main sargv sa0 ssodium2 wide2 sm2 = (Ok (cfg, s2, u2, Some l2), sm2') ∧
      devices (sv_registry s2) = devices (sv_registry sv).
Proof.
  intros Hmain Hk Hadd sa ssodium2 wide2 sm2 Hp Hs Hhost Hf.
  destruct (server_main_starts _ _ _ _ _ _ _ _ _ _ Hmain) as (sa' & Hp' & Hst & Hl & _). rewrite Hp in Hp'. injection Hp' as <-.
  pose proof (enrolled_server_files _ _ _ _ _ _ _ _ _ _ Hst Hk Hadd) as Hfiles. rewrite <- Hf in Hfiles.
  destruct (started_config _ _ _ _ _ _ Hst) as [Et Er].
  destruct (server_main_runs sargv sa0 sa ssodium2 wide2 _ _ _ sm2 Hp Hs Hhost (Hl (mk_is_Some _ _ eq_refl)) Hfiles)
    as (s2 & u2 & l2 & sm2' & E & Hd). exists s2, u2, l2, sm2'. split; [|done]. rewrite E. do 5 f_equal.
  destruct cfg. cbn in *. by subst.
Qed.

(** C14: the life of a device.  For every command line of the server on which it starts
    with a TCP listener, and every command line of the client that asks for an enrollment
    over TCP, on a system that works, with the pairing token that the server wants, room
    in the registry, and any cut of the streams between the two: there are a run of the
    client program that exits with 0 and a run of the server's threads, each reading what
    the other writes, after which the credential file has the server's key pinned and the
    opening of a role commitment, and the registry file has the device with this
    commitment.  Whenever the server program is started again with the same command line
    on the files that it has left, it starts, with the same key and these devices.  And
    whenever the client program is then started without --setup, over TCP and with the
    role list of the server as its --allowed-roles (another list makes another proof,
    which the server refuses), on a machine with this credential file, for draws whose
    AUTH_1 can be made and does not verify as one of the other devices, there are again
    such runs of both programs: the client exits with 0 and has changed no file, and the
    server has changed nothing but remembers the message. *)
Theorem device_lifecycle sargv sa0 ssodium wide sm cfg s0 u l sm' us outu cargv ca0 a sodium d out cm creds pub ds fd so outs :
  server_main sargv sa0 ssodium wide sm = (Ok (cfg, s0, u, Some l), sm') → fine (mc_world sm') →
  let id := auth_derive_device_id (cr_device_root creds) in
  has_room id (sv_registry s0) → tcp_client true cargv ca0 a sodium d out cm → accepted ds fd so outs →
  credentials_of (files (mc_world cm) !! cred_path a) (Some (cd_root d)) creds → enrollment_ready cfg a d (ds 2) creds pub →
  let new := enrolled_creds cfg a d creds pub in
  ∃ replies cm' sv,
    client_main cargv ca0 sodium d out (on_stream replies cm) = (Ok 0%Z, cm') ∧
    served cfg ds s0 (start_threads ((λ u, (u, us)) <$> u) outu) fd so outs (so_sent (mc_tcp cm')) replies sv ∧
    files (mc_world cm') !! cred_path a = Some (cred_image new) ∧ enrolled_device_ready cfg new pub ∧
    device_added id pub (cr_role_commitment new) s0 sv ∧
  ∀ sa ssodium2 wide2 sm2 us2 outu2,
    ServerArgs.parse_args sargv sa0 = (Ok tt, sa) → (0 ≤ ssodium2)%Z → server_host sa sm2 →
    files (mc_world sm2) = files (sv_world sv) →
    ∃ s2 u2 l2 sm2',
      server_main sargv sa0 ssodium2 wide2 sm2 = (Ok (cfg, s2, u2, Some l2), sm2') ∧
      devices (sv_registry s2) = devices (sv_registry sv) ∧
  ∀ cargv2 ca2 a2 sodium2 d2 out2 cm2 ds2 fd2 so2 outs2,
    tcp_client false cargv2 ca2 a2 sodium2 d2 out2 cm2 → accepted ds2 fd2 so2 outs2 → a_allowed a2 = sc_allowed_roles cfg →
    files (mc_world cm2) !! cred_path a2 = Some (cred_image new) →
    ∃ j, ∀ a1, honest_auth cfg a2 d2 (ds2 2) new pub j a1 →
      (∀ e, e ∈ devices (sv_registry s0) → re_device_id e ≠ id → passed_over cfg a1 e) →
      ∃ replies2 cm2' sv2,
        client_main cargv2 ca2 sodium2 d2 out2 (on_stream replies2 cm2) = (Ok 0%Z, cm2') ∧
        served cfg ds2 s2 (start_threads ((λ u, (u, us2)) <$> u2) outu2) fd2 so2 outs2 (so_sent (mc_tcp cm2')) replies2 sv2 ∧
        files (mc_world cm2') = files (mc_world cm2) ∧ message_remembered a1 s2 sv2.
Proof.
  intros Hmain Hfine id Hroom Hcl Hac Hcr Her new.
  destruct (deployment_enrolls _ _ _ _ _ _ _ _ _ _ us outu _ _ _ _ _ _ _ _ _ _ _ _ _ Hmain Hfine Hroom Hcl Hac Hcr Her)
    as (Hnew & Hdev & replies & cm' & sv & E1 & E2 & _ & E3 & Hadd). fold id new in Hnew, Hdev, E3, Hadd. destruct Her as (Hk & _).
  exists replies, cm', sv. do 5 (split; [done|]). intros sa ssodium2 wide2 sm2 us2 outu2 Hp Hs Hhost Hf.
  destruct (server_restarts _ _ _ _ _ _ _ _ _ _ _ _ _ _ Hmain Hk Hadd sa ssodium2 wide2 sm2 Hp Hs Hhost Hf)
    as (s2 & u2 & l2 & sm2' & Hmain2 & Hd2). exists s2, u2, l2, sm2'. do 2 (split; [done|]).
  intros cargv2 ca2 a2 sodium2 d2 out2 cm2 ds2 fd2 so2 outs2 Hcl2 Hac2 Hal Hfile.
  destruct (map_of_first (devices (sv_registry sv)) id (pub, cr_role_commitment new)) as (j & e & Hj & Ee & Hb).
  { pose proof (da_map _ _ _ _ _ Hadd) as E. unfold registry_map in E. by rewrite E, lookup_insert_eq. }
  injection Ee as Ep Ec. exists j. intros a1 Hha Hpass. rewrite <- Hd2 in Hj, Hb.
  destruct (deployment_authenticates sargv sa0 ssodium2 wide2 sm2 cfg s2 u2 l2 sm2' us2 outu2 cargv2 ca2 a2 sodium2 d2 out2 cm2
    (cred_image new) new pub ds2 fd2 so2 outs2 j e a1) as (replies2 & cm2' & sv2 & F1 & F2 & _ & F3 & F4); try done.
  - intros k e' Hlt He'. pose proof (Hb k e' Hlt He') as Hne. apply Hpass; [|done]. rewrite Hd2 in He'.
    by destruct (da_devices _ _ _ _ _ Hadd e' (list_elem_of_lookup_2 _ _ _ He')).
  - pose proof Hdev as [[? _] ? _ _]. by apply image_encodes_creds.
  - by exists replies2, cm2', sv2.
Qed.
End life.

(** ** A life with the toy group and network *)
Definition sample_life_args : args_t := set_role 1 sample_roles_args.

Definition sample_life_creds : auth_credentials_t := Eval vm_compute in
  enrolled_creds (NaCl := Toy.sodium) sample_cfg sample_life_args sample_client_draws sample_fresh sample_pub.

Definition sample_life_ctx : auth_client_ctx_t := Eval vm_compute in
  setup_ctx (NaCl := Toy.sodium) (set_do_setup false sample_life_args) sample_client_draws sample_life_creds sample_pub.

Definition sample_life_auth1 : auth_auth1_t := Eval vm_compute in
  match (p ← send (auth_client_build_auth1 (NaCl := Toy.sodium) (ad_nonce sample_tcp_draws)
               (ad_eph sample_tcp_draws) (ad_delta sample_tcp_draws) (ad_client_proof sample_tcp_draws)
               (ad_rerand_proof sample_tcp_draws) (ad_role_set sample_tcp_draws) (Some [1; 2]%Z)) sample_life_ctx;
         h ← auth_header_decode (Some p.1); auth_auth1_decode (Some h.2)) with
  | Ok a1 => a1
  | _ => sample_auth1
  end.

Definition sample_life_blind : bytes := Eval vm_compute in
  match auth_rerandomize_commitment (NaCl := Toy.sodium) (c_role_commitment sample_life_ctx)
          (c_role_blind sample_life_ctx) (auth_random_scalar (NaCl := Toy.sodium) (ad_delta sample_tcp_draws)) with
  | Ok (_, b) => b
  | _ => []
  end.

Lemma sample_life_ready :
  enrollment_ready (NaCl := Toy.sodium) sample_cfg sample_life_args sample_client_draws sample_draws sample_fresh sample_pub.
Proof.
  split_and!.
  - split; [split; reflexivity|vm_compute; reflexivity].
  - vm_compute. reflexivity.
  - apply Nat.leb_le. reflexivity.
  - left. reflexivity.
  - eexists. vm_compute. reflexivity.
  - reflexivity.
  - eexists _, _. split; [vm_compute; reflexivity|]. split; [vm_compute; reflexivity|]. split; vm_compute; discriminate.
  - eexists _, _. split; [vm_compute; reflexivity|]. split; [vm_compute; reflexivity|]. split; vm_compute; discriminate.
Qed.

Lemma sample_life_honest j :
  honest_auth (NaCl := Toy.sodium) sample_cfg (set_do_setup false sample_life_args) sample_client_draws sample_draws sample_life_creds
    sample_pub j sample_life_auth1.
Proof.
  constructor.
  - exists (take 2 (a1_branches sample_life_auth1)), sample_life_blind.
    change (setup_ctx _ _ _ _) with sample_life_ctx. change (auth_draws_of _ _ j) with sample_tcp_draws. split.
    + constructor; vm_compute; reflexivity.
    + constructor.
      * eexists. split; [vm_compute; reflexivity|]. split; vm_compute; discriminate.
      * eexists. split; [vm_compute; reflexivity|]. split; vm_compute; discriminate.
      * intros [|[|i]] b Hi Hb; vm_compute in Hi; [|discriminate Hi..].
        vm_compute in Hb. injection Hb as <-. split; vm_compute; discriminate.
      * vm_compute. discriminate.
  - exists sample_tcp_eph. exact sample_server_good.
Qed.

(** The machines on which the server and the client start for the second time. *)
Definition sample_again (dir : bytes) (f : fs) : machine :=
  {| mc_world := {| files := f; unsynced := ∅; answers := []; history := [] |}; mc_dirs := {[ dir ]}; mc_kernel := mc_kernel sample_machine;
     mc_initialized := false; mc_udp := t_udp_socket (sample_net []); mc_tcp := sample_socket [] |}.

Lemma sample_resolves :
  ∃ addr, resolves (NET := ToyNet.net) (Some (str_bytes "[::1]:4000")) addr.
Proof.
  eexists. exists (str_bytes "[::1]:4000"), (str_bytes "::1"), (str_bytes "4000"), ToyNet.loopback, [].
  split; [done|]. split; [apply (hostport_v6 (str_bytes "::1") (str_bytes "4000"))|].
  - apply (bool_decide_unpack _). reflexivity.
  - split_and!; [apply Nat.ltb_lt; reflexivity|reflexivity|apply Nat.leb_le; reflexivity|reflexivity].
Qed.

Lemma device_lifecycle_witness :
  sample_started ∅ ∧
  ∃ replies cm' sv,
    client_main (NaCl := Toy.sodium) (NET := ToyNet.net) (str_bytes "auth_client" :: print_args sample_life_args) default_args 0
      sample_client_draws (zeros AUTH_MAX_DATAGRAM) (on_stream replies (sample_host ∅)) = (Ok 0%Z, cm') ∧
    files (mc_world cm') !! cred_path sample_life_args = Some (cred_image sample_life_creds) ∧
    ∃ s2 sm2' replies2 cm2' sv2,
      server_main (NaCl := Toy.sodium) (NET := ToyNet.net) (str_bytes "auth_server" :: ServerArgs.print_args sample_server_args)
        ServerArgs.default_args 0 (store_le 64 9) (sample_again (str_bytes "d") (files (sv_world sv))) = (Ok s2, sm2') ∧
      client_main (NaCl := Toy.sodium) (NET := ToyNet.net) (str_bytes "auth_client" :: print_args (set_do_setup false sample_life_args))
        default_args 0 sample_client_draws (zeros AUTH_MAX_DATAGRAM)
        (on_stream replies2 (sample_host {[ cred_path sample_life_args := cred_image sample_life_creds ]})) = (Ok 0%Z, cm2') ∧
      message_remembered (NaCl := Toy.sodium) sample_life_auth1 s2.1.1.2 sv2.
Proof.
  set (a := sample_life_args). set (a2 := set_do_setup false sample_life_args).
  assert (sample_started ∅) as Hstart by (vm_compute; reflexivity). split; [exact Hstart|].
  destruct (device_lifecycle (NaCl := Toy.sodium) (NET := ToyNet.net) _ _ _ _ _ _ _ _ _ _ (t_udp_socket (sample_net [])) (zeros AUTH_MAX_DATAGRAM)
    (str_bytes "auth_client" :: print_args a) default_args a 0 sample_client_draws (zeros AUTH_MAX_DATAGRAM)
    (sample_host ∅) sample_fresh sample_pub (λ _, sample_draws) 5 (sample_socket []) (zeros AUTH_MAX_DATAGRAM) Hstart)
    as (replies & cm' & sv & E1 & _ & E2 & _ & _ & Hnext).
  - vm_compute. constructor.
  - left. apply Nat.ltb_lt. vm_compute. reflexivity.
  - apply sample_tcp_client; [done|done|vm_compute; reflexivity|done|done|vm_compute; reflexivity].
  - exact sample_accepted_conn.
  - exists (replicate 32 Byte.x01). by split.
  - exact sample_life_ready.
  - assert (enrolled_creds (NaCl := Toy.sodium) sample_cfg a sample_client_draws sample_fresh sample_pub = sample_life_creds) as Enew
      by (vm_compute; reflexivity). rewrite Enew in E2, Hnext. exists replies, cm', sv. split; [exact E1|]. split; [exact E2|].
    destruct (Hnext sample_server_args 0%Z (store_le 64 9) (sample_again (str_bytes "d") (files (sv_world sv)))
      (t_udp_socket (sample_net [])) (zeros AUTH_MAX_DATAGRAM)) as (s2 & u2 & l2 & sm2' & E3 & _ & Hauth).
    + vm_compute. reflexivity.
    + done.
    + constructor; [apply List.Forall_nil|apply List.Forall_nil|left; cbn [sample_again mc_dirs]; by apply elem_of_singleton|exact sample_resolves].
    + reflexivity.
    + destruct (Hauth (str_bytes "auth_client" :: print_args a2) default_args a2 0%Z sample_client_draws (zeros AUTH_MAX_DATAGRAM)
        (sample_host {[ cred_path a := cred_image sample_life_creds ]}) (λ _, sample_draws) 5%Z (sample_socket []) (zeros AUTH_MAX_DATAGRAM))
        as (j & Hj).
      * apply sample_tcp_client; [done|done|vm_compute; reflexivity|done|done|vm_compute; reflexivity].
      * exact sample_accepted_conn.
      * vm_compute. reflexivity.
      * vm_compute. reflexivity.
      * destruct (Hj sample_life_auth1 (sample_life_honest j)) as (replies2 & cm2' & sv2 & F1 & _ & _ & F2).
        { assert (devices (sv_registry (sample_state ∅)) = []) as -> by (vm_compute; reflexivity). intros e He. exfalso. exact (not_elem_of_nil e He). }
        exists (sample_cfg, s2, u2, Some l2), sm2', replies2, cm2', sv2. split; [exact E3|]. split; [exact F1|exact F2].
Defined.
