(* ===== verification/Datagrams.v ===== *)
(** The two programs over UDP, when the network loses requests.

    [send_then_recv] of [src/c/bin/client.c] sends a request a second time when no answer
    comes: a request that is lost on its way is made good.  (An answer that is lost, or
    late, is not: see [lost_auth2_fails] and [late_auth2_fails] of [Retransmission].)  The network is what
    each side receives: the server one copy of each request, the client its answers, with
    a timeout before an answer whose request was lost at first. *)
From stdpp Require Import gmap.
From S2P Require Import ServerArgs.
From S2P Require Export Retransmission Deployment.

(** ** The server's side *)

(** A socket of a thread on which these datagrams arrive, each with its sender, and which
    nothing disturbs. *)
Definition datagrams (incoming : list (bytes * bytes)) (sent : list (option bytes * bytes)) (s : udp_socket) : udp_socket :=
  {| us_incoming := incoming; us_sent := sent; us_polls := us_polls s; us_answers := [] |}.

(** The address of a sender. *)
Definition sender (from : bytes) : Prop := 0 < length from ≤ SOCKADDR_STORAGE.

Lemma answer_goes_back from : sender from → destination (Some (addr_of from)) = Some from.
Proof.
  intros [H1 H2]. unfold destination. rewrite (proj2 (Nat.eqb_neq _ _)) by (cbn; lia). by rewrite sockaddr_of.
Qed.

Section server.
Context {NaCl : Sodium} (cfg : server_config).

(** One turn of [run_udp]: the answer goes to the sender of the packet. *)
Lemma udp_turn tcp d i u us out s ts from inp rest sent packet out1 s1 :
  draws_ok d → ts !! i = Some (Receiving (Udp u None (datagrams ((from, inp) :: rest) sent us)) out) → (0 ≤ u_fd u)%Z →
  sender from → sendable inp → sendable packet → run_proc (dispatch cfg d inp out) s = (Some (out1, length packet), s1) →
  length packet ≤ length out1 → take (length packet) out1 = packet →
  star (run tcp cfg) (s, ts) (s1, <[i := Receiving (Udp u None (datagrams rest (sent ++ [(Some from, packet)]) us)) out1]> ts).
Proof.
  intros Hd Hi Hu Hfrom [_ Hinp] [Hp0 Hp] Hrun Hl Ht. assert (i < length ts) as Hlt by (by eapply lookup_lt_Some).
  pose proof (run_thread tcp cfg s ts i _ d Hd Hi) as H1. cbn [thread_step] in H1. unfold udp_receive in H1.
  assert (auth_udp_recv (Some u) AUTH_MAX_DATAGRAM (-1) (datagrams ((from, inp) :: rest) sent us) = (Ok (inp, addr_of from), datagrams rest sent us)) as Er.
  { unfold auth_udp_recv. mstep. rewrite (proj2 (Z.ltb_ge _ _)) by done. cbn [negb]. mstep. change (0 <=? -1)%Z with false. cbn [negb]. mstep.
    rewrite bind_run. unfold udp_recvfrom. rewrite bind_run. unfold udp_answer. cbn [us_answers datagrams]. mstep.
    cbn [us_incoming datagrams succeeds]. mstep. by rewrite take_ge by done. }
  rewrite Er in H1. cbn [fst snd] in H1. eapply star_step; [exact H1|]. set (ch := Udp u (Some (addr_of from)) (datagrams rest sent us)).
  pose proof (run_proc_star cfg tcp d ch i (dispatch cfg d inp out) s
    (<[i := Dispatching ch (dispatch cfg d inp out)]> ts) out1 (length packet) s1 Hd) as H2.
  rewrite list_insert_insert_eq in H2. eapply star_trans; [apply H2; [by apply list_lookup_insert_eq|exact Hrun]|].
  pose proof (run_thread tcp cfg s1 (<[i := Dispatching ch (Halt out1 (length packet))]> ts) i _ d Hd
    ltac:(by apply list_lookup_insert_eq)) as H3. rewrite list_insert_insert_eq in H3. cbn [thread_step ch] in H3. unfold udp_reply in H3.
  rewrite (proj2 (Nat.eqb_neq _ _)), loadn_ok, drop_0, Ht, udp_send_run, answer_goes_back in H3 by (done || lia).
  eapply star_step; [exact H3|constructor].
Qed.

(** A thread that reads the two packets. *)
Lemma udp_both tcp d1 d3 i from p1 p2 p3 p4 u us out s ts Q :
  draws_ok d1 → draws_ok d3 → (0 ≤ u_fd u)%Z → sender from → Forall sendable [p1; p2; p3; p4] →
  ts !! i = Some (Receiving (Udp u None (datagrams [(from, p1); (from, p3)] [] us)) out) → answers_both cfg d1 d3 p1 p2 p3 p4 out s Q →
  ∃ out' s', star (run tcp cfg) (s, ts)
      (s', <[i := Receiving (Udp u None (datagrams [] [(Some from, p2); (Some from, p4)] us)) out']> ts) ∧ Q s'.
Proof.
  intros Hd1 Hd3 Hu Hfrom Hf Hi (out1 & s1 & out2 & s2 & Er1 & Hn1 & Et1 & Er2 & Hn2 & Et2 & HQ).
  rewrite !list.Forall_cons in Hf. destruct Hf as (F1 & F2 & F3 & F4 & _). exists out2, s2. split; [|done].
  assert (i < length ts) as Hlt by (by eapply lookup_lt_Some).
  eapply star_trans; [by eapply (udp_turn tcp d1 i u us out s ts from p1 [(from, p3)] [] p2)|].
  pose proof (udp_turn tcp d3 i u us out1 s1 (<[i := Receiving (Udp u None (datagrams [(from, p3)] ([] ++ [(Some from, p2)]) us)) out1]> ts)
    from p3 [] [(Some from, p2)] p4 out2 s2
    Hd3 ltac:(by apply list_lookup_insert_eq) Hu Hfrom F3 F4 Er2 Hn2 Et2) as H. by rewrite list_insert_insert_eq in H.
Qed.
End server.

(** ** The programs *)

(** The client's socket, connected to the server, when these requests are lost at first and
    these answers come. *)
Definition lossy (server : bytes) (losses : list bool) (replies : list bytes) : udp_socket :=
  {| us_incoming := map (pair server) replies; us_sent := []; us_polls := flat_map waits losses; us_answers := [] |}.

Section programs.
Context {NaCl : Sodium} {HS : SodiumSpec NaCl} {NET : Net}.

(** The client program over UDP completes when its two requests are answered. *)
Lemma client_main_udp setup argv a0 a sodium d out m :
  invoked Args.TRANSPORT_UDP setup argv a0 a sodium d out m →
  ∀ server lost1 lost3 p1 p2 p3 p4, Forall sendable [p1; p2; p3; p4] →
  ∀ after : fs → Prop,
    (∀ s t1 t2, client_able a s → cs_world s = mc_world m → exchange (cs_net s) p1 p2 t1 → exchange t1 p3 p4 t2 →
      ∃ s', (if setup then do_setup a d else do_auth a d) s = (Ok tt, s') ∧ cs_net s' = t2 ∧ after (files (cs_world s'))) →
  ∃ m', client_main argv a0 sodium d out (with_sockets (lossy server [lost1; lost3] [p2; p4]) (mc_tcp m) m) = (Ok 0%Z, m') ∧
    us_sent (mc_udp m') = map (pair None) (copies lost1 p1 ++ copies lost3 p3) ∧ same_table (mc_kernel m) (mc_kernel m') ∧ after (files (mc_world m')).
Proof.
  intros [Hp Ht Hset Hs Hd Hout Hhost] server lost1 lost3 p1 p2 p3 p4 Hf after Hrun. rewrite !list.Forall_cons in Hf.
  destruct Hf as ([_ F1] & [_ F2] & [_ F3] & [_ F4] & _).
  destruct (client_main_run argv a0 a sodium d out m Hp Hs Hhost) as (u & c & Hopen & Hmain). rewrite Ht in Hopen.
  specialize (Hmain (lossy server [lost1; lost3] [p2; p4]) (mc_tcp m)). set (s := client_locals _ _ _ _ _ _ _) in Hmain.
  assert (udp_link [lost1; lost3] [p2; p4] [] (cs_net s)) as Hl by (by constructor).
  destruct (exchange_udp _ _ p1 p2 _ _ _ Hl F1 F2) as (t1 & X1 & Hl1). destruct (exchange_udp _ _ p3 p4 _ _ _ Hl1 F3 F4) as (t2 & X2 & Hl2).
  destruct (Hrun s t1 t2) as (s' & Er & Ht2 & Ha); [by destruct Hhost|done..|]. rewrite Hset in Hmain.
  destruct (Hmain s' Er) as (m' & Em & Hw & Hu & _ & Hk). exists m'. split; [done|]. split; [|by rewrite Hw].
  rewrite Hu, Ht2. exact (ul_sent _ _ _ _ Hl2).
Qed.

(** A device enrolls over UDP although its requests are lost once. *)
Theorem datagrams_enroll sargv sa0 ssodium wide sm cfg s0 u l sm' us outu cargv ca0 a sodium d out cm creds pub dr dr3 lost1 lost3 tcp client server :
  server_main sargv sa0 ssodium wide sm = (Ok (cfg, s0, Some u, l), sm') → fine (mc_world sm') →
  has_room (auth_derive_device_id (cr_device_root creds)) (sv_registry s0) →
  invoked Args.TRANSPORT_UDP true cargv ca0 a sodium d out cm → draws_ok dr → draws_ok dr3 → is_n AUTH_MAX_DATAGRAM outu → sender client →
  credentials_of (files (mc_world cm) !! cred_path a) (Some (cd_root d)) creds → enrollment_ready cfg a d dr creds pub →
  let new := enrolled_creds cfg a d creds pub in
  ∃ p1 p2 p3 p4 cm' sv out',
    client_main cargv ca0 sodium d out (with_sockets (lossy server [lost1; lost3] [p2; p4]) (mc_tcp cm) cm) = (Ok 0%Z, cm') ∧
    us_sent (mc_udp cm') = map (pair None) (copies lost1 p1 ++ copies lost3 p3) ∧
    star (run tcp cfg) (s0, start_threads (Some (u, datagrams [(client, p1); (client, p3)] [] us)) outu)
      (sv, [Receiving (Udp u None (datagrams [] [(Some client, p2); (Some client, p4)] us)) out']) ∧
    files (mc_world cm') !! cred_path a = Some (cred_image new) ∧
    device_added (auth_derive_device_id (cr_device_root creds)) pub (cr_role_commitment new) s0 sv.
Proof.
  intros Hmain Hfine Hroom Hinv Hd Hd3 Houtu Hcl Hcr Her new.
  destruct (server_main_starts _ _ _ _ _ _ _ _ _ _ Hmain) as (sa & _ & Hst & _ & Hu). specialize (Hu _ eq_refl).
  pose proof (invoked_inputs _ _ _ _ _ _ _ _ _ Hinv) as Hin.
  assert (creds_wf creds) as Hw by (eapply credentials_wf; [|exact Hcr]; intros ? [= <-]; apply Hin).
  destruct (enrollment_sides cfg a d dr creds pub Hin Hd Hw Her) as (_ & _ & p1 & p2 & p3 & p4 & Hf & Hclient & Hserver).
  destruct (client_main_udp _ _ _ _ _ _ _ _ Hinv server lost1 lost3 p1 p2 p3 p4 Hf (λ f, f !! cred_path a = Some (cred_image new)))
    as (cm' & E1 & E2 & _ & E3).
  { intros s t1 t2 Hable Hcw X1 X2. apply (Hclient s t1 t2); [done|by rewrite Hcw|done|done]. }
  destruct (udp_both cfg tcp dr dr3 0 client p1 p2 p3 p4 u us outu s0
    [Receiving (Udp u None (datagrams [(client, p1); (client, p3)] [] us)) outu] _ Hd Hd3 Hu Hcl Hf eq_refl
    (Hserver dr3 outu s0 Houtu ltac:(by eapply started_server_ready))) as (out' & sv & E4 & E5).
  by exists p1, p2, p3, p4, cm', sv, out'.
Qed.

(** C15: a device authenticates over UDP although the network loses its requests: after a
    start of the server program with a UDP socket, whose registry file has the device, and
    for every command line of the client over UDP that does not ask for an enrollment and
    whose --allowed-roles is the list of the server (another list makes another proof,
    which the server refuses), on a system that works, with the credentials of an
    enrollment in a role of that list and an AUTH_1 whose proofs can be made and that does
    not verify as one of the devices before it in the registry, whether the first copy of
    AUTH_1 is lost or not, and of AUTH_3: there are a run of the client program that exits
    with 0, having sent each lost request twice and the others once, and a run of the
    server's UDP thread that receives one copy of each and sends the two answers to the
    address that the requests came from.  The client's files are as they were, and the
    server has changed nothing but remembers the message. *)
Theorem datagrams_authenticate sargv sa0 ssodium wide sm cfg s0 u l sm' us outu cargv ca0 a sodium d out cm data creds pub dr dr3
    lost1 lost3 j e a1 tcp client server :
  server_main sargv sa0 ssodium wide sm = (Ok (cfg, s0, Some u, l), sm') →
  devices (sv_registry s0) !! j = Some e → re_device_pub e = pub → re_role_commitment e = cr_role_commitment creds →
  (∀ k e', k < j → devices (sv_registry s0) !! k = Some e' → passed_over cfg a1 e') →
  invoked Args.TRANSPORT_UDP false cargv ca0 a sodium d out cm → draws_ok dr → draws_ok dr3 → is_n AUTH_MAX_DATAGRAM outu → sender client →
  a_allowed a = sc_allowed_roles cfg → keypair (sc_server_sk cfg) (sc_server_pub cfg) →
  files (mc_world cm) !! cred_path a = Some data → encodes_creds data creds → enrolled_device_ready cfg creds pub →
  honest_auth cfg a d dr creds pub j a1 →
  ∃ p1 p2 p3 p4 cm' sv out',
    client_main cargv ca0 sodium d out (with_sockets (lossy server [lost1; lost3] [p2; p4]) (mc_tcp cm) cm) = (Ok 0%Z, cm') ∧
    us_sent (mc_udp cm') = map (pair None) (copies lost1 p1 ++ copies lost3 p3) ∧
    star (run tcp cfg) (s0, start_threads (Some (u, datagrams [(client, p1); (client, p3)] [] us)) outu)
      (sv, [Receiving (Udp u None (datagrams [] [(Some client, p2); (Some client, p4)] us)) out']) ∧
    files (mc_world cm') = files (mc_world cm) ∧ message_remembered a1 s0 sv.
Proof.
  intros Hmain Hj Ep Ec Hpass Hinv Hd Hd3 Houtu Hcl Hal Hk Hfile Henc Her [(bs & blind' & Hm & Hg) [eph_s Hsg]].
  destruct (server_main_starts _ _ _ _ _ _ _ _ _ _ Hmain) as (sa & _ & Hst & _ & Hu). specialize (Hu _ eq_refl).
  pose proof (server_init_roles _ _ _ _ _ _ (sd_init _ _ _ _ _ _ Hst)) as Hroles.
  pose proof (invoked_inputs _ _ _ _ _ _ _ _ _ Hinv) as Hin.
  assert (creds_wf creds) as Hw.
  { eapply (credentials_wf (Some data) None creds); [|exact Henc]. by intros ? ?. }
  destruct (authentication_sides cfg a d dr creds pub j e a1 bs blind' eph_s) as (p1 & p2 & p3 & p4 & Hf & Hclient & Hserver); [done..|].
  destruct (client_main_udp _ _ _ _ _ _ _ _ Hinv server lost1 lost3 p1 p2 p3 p4 Hf (λ f, f = files (mc_world cm))) as (cm' & E1 & E2 & _ & E3).
  { intros s t1 t2 Hable Hcw X1 X2. rewrite <- Hcw in Hfile.
    destruct (Hclient s t1 t2 data) as (s' & Er & Ht & _ & Hfs); [done..|]. exists s'. by rewrite <- Hcw. }
  destruct (udp_both cfg tcp dr dr3 0 client p1 p2 p3 p4 u us outu s0
    [Receiving (Udp u None (datagrams [(client, p1); (client, p3)] [] us)) outu] (message_remembered a1 s0)
    Hd Hd3 Hu Hcl Hf eq_refl) as (out' & sv & E4 & E5).
  { apply Hserver; [done|by eapply started_auth_ready|]. constructor; [done|done|]. rewrite (sd_window _ _ _ _ _ _ Hst). apply not_elem_of_nil. }
  by exists p1, p2, p3, p4, cm', sv, out'.
Qed.
End programs.

(** ** A run with the toy group and network: both requests are lost once *)
Definition sample_udp_args : args_t := set_transport TRANSPORT_UDP (set_do_setup false sample_roles_args).

Lemma datagrams_authenticate_witness :
  let f : fs := {[ cred_path sample_udp_args := cred_image sample_enrolled_creds ]} in
  sample_started sample_two_devices ∧
  ∃ p1 p2 p3 p4 cm' sv,
    client_main (NaCl := Toy.sodium) (NET := ToyNet.net) (str_bytes "auth_client" :: print_args sample_udp_args) default_args 0
      sample_client_draws (zeros AUTH_MAX_DATAGRAM) (with_sockets (lossy [Byte.x02] [true; true] [p2; p4]) (sample_socket []) (sample_host f)) = (Ok 0%Z, cm') ∧
    us_sent (mc_udp cm') = map (pair None) [p1; p1; p3; p3] ∧ files (mc_world cm') = f ∧
    message_remembered (NaCl := Toy.sodium) sample_tcp_auth1 (sample_state sample_two_devices) sv.
Proof.
  intros f. assert (sample_started sample_two_devices) as Hstart by (vm_compute; reflexivity). split; [exact Hstart|].
  destruct (datagrams_authenticate (NaCl := Toy.sodium) (NET := ToyNet.net) _ _ _ _ _ _ _ _ _ _ (t_udp_socket (sample_net []))
    (zeros AUTH_MAX_DATAGRAM) (str_bytes "auth_client" :: print_args sample_udp_args) default_args sample_udp_args 0 sample_client_draws
    (zeros AUTH_MAX_DATAGRAM) (sample_host f) (cred_image sample_enrolled_creds) sample_enrolled_creds sample_pub sample_draws sample_draws
    true true 1 sample_device sample_tcp_auth1 true [Byte.x01] [Byte.x02] Hstart) as (p1 & p2 & p3 & p4 & cm' & sv & out' & E1 & E2 & _ & E3 & E4).
  - vm_compute. reflexivity.
  - reflexivity.
  - reflexivity.
  - intros [|k] e' Hk He'; [|lia]. assert (devices (sv_registry (sample_state sample_two_devices)) !! 0 = Some sample_other) as E by (vm_compute; reflexivity).
    rewrite E in He'. injection He' as <-. exact sample_passed_over.
  - constructor; [vm_compute; reflexivity|done|done|done|exact sample_draws_wf|apply length_zeros|].
    apply sample_client_host; [done|done|vm_compute; reflexivity].
  - exact sample_draws_ok.
  - exact sample_draws_ok.
  - apply length_zeros.
  - split; apply Nat.leb_le; reflexivity.
  - vm_compute. reflexivity.
  - split; [split; reflexivity|vm_compute; reflexivity].
  - vm_compute. reflexivity.
  - apply encodes_creds_result. vm_compute. reflexivity.
  - exact sample_device_ready.
  - by apply sample_honest_auth1.
  - exists p1, p2, p3, p4, cm', sv. split; [exact E1|]. split; [exact E2|]. split; [exact E3|exact E4].
Defined.
